(* ===== verification/_CoqProject ===== *)
-Q . S2P
Prelude.v
Endian.v
Comms.v
Arch.v
Getopt.v
GetoptSpec.v
Argv.v
Header.v
Risu.v
Verdict.v
Trace.v
Session.v
Strtol.v
RisuMain.v
RisuNet.v
Shell.v
PpcFloat.v
PpcTolerance.v
Ppc64.v
PpcCompare.v
PpcExcept.v
PpcStart.v
PpcMain.v
Cpu.v
S390x.v
M68k.v
Arm.v
LoongArch.v
X86.v
AArch64.v
Cpus.v
CpuMain.v
Examples.v
