(* ===== verification/Prelude.v ===== *)
(** * A verification library for risu

    risu tests an implementation of a CPU against a reference by random
    instruction sequences.  The same binary runs twice, on the reference (the
    master) and on the implementation under test (the apprentice).  Both execute
    the same image of test instructions.  Special undefined instructions in the
    image raise SIGILL, and each time the signal handler captures the registers;
    the master sends them, the apprentice receives them, compares them with its
    own, and stops at the first difference.  Messages go over a TCP socket, or
    through a file that the master records and the apprentice plays back later.

    ** Parts and files

    - [Prelude]: machine integers of a given width, byte images of integers and
      structures, the monad [M] in which C functions with effects are written
      ([halt] says why a process stopped), the tactics and hint databases.
    - [Endian] (src/endianswap.h): the BYTESWAP macros, built-in and portable.
    - [Comms] (src/comms.c): packets over a socket.  [os] is what the system
      calls on the descriptor will do: reads deliver chunks, fail or meet the end
      of the stream, writes may be short.  [recv_bytes], [safe_writev],
      [send_data_pkt], [recv_data_pkt] and the rest are the functions of the same
      names.
    - [Arch] (src/risu.h): the operations and results, and what an architecture
      provides, as a class [Arch]; the laws that the common code relies on, as a
      class [ArchLaws].
    - [Header] (src/risu.h, src/risu.c): the trace header, its memory image and
      its byte order.
    - [Risu] (src/risu.c): the record [risu] holds the static variables; the
      handlers [master_sigill] and [apprentice_sigill] with everything they call,
      the run of the image [run_image], and [master] and [apprentice] with their
      reports.  The program under test is a parameter ([cpu]), zlib is a class
      ([Zlib]) with its documented behaviour as laws ([ZlibLaws] in [Trace]).
    - [Verdict]: what the apprentice's results mean, for every architecture.
    - [Trace]: recording and playing back, for every architecture with laws.
    - [Session]: a master and an apprentice that run at the same time over a
      socket: conversations ([performs]), their duality, and the steps of the
      network ([net_step]), which delivers bytes in any schedule.
    - [PpcFloat], [PpcTolerance], [Ppc64], [PpcCompare] (src/risu_ppc64.c,
      src/risu_reginfo_ppc64.c and .h): the PowerPC: classification of
      floating-point patterns, the tolerated differences option by option, the
      operations and the instances of [Arch] and [ArchLaws], and the properties
      of the comparison.  [PpcExcept]: the exceptions that take the place of
      signals in the emulator and on Mac OS 9.  [PpcStart]: [arch_init] and
      [do_image], by which the image is started; the emulator is the class
      [Emulator], what it is documented to do the class [EmulatorLaws]: a region
      that overlaps no other is added, and data is written to memory.
    - [Getopt], [GetoptSpec] (src/compat/getopt.c and .h): the option scanner
      that is compiled in where the system has none, [_getopt_internal] with its
      static variables as the record [getopt_state], and a reference reading of a
      command line from left to right.
    - [Argv] (src/risu_main.c): [argcargv], which splits a line into arguments in
      place; buffer and pointers are indices into [split_state].
    - [RisuMain] (src/risu.c, src/comms.c): the options, [master_connect],
      [apprentice_connect], [load_image], [set_sigill_handler] and [risu_main]
      itself, for Mac OS 9 too.  The system calls are the record [host], so that
      each may fail; the architecture's options are the class [ArchMain].
      [PpcMain] is its PowerPC instance, [CpuMain] has those of the other
      architectures; [Strtol] reads and writes the numbers.  [RisuNet] puts
      [RisuMain] and [Session] together: two commands on two machines.
    - [Shell] (src/risu_main.c): the Mac OS 9 shell, [eval] and the prompt loop of
      [main].  Static variables outlive the commands of a session.
    - [Cpu]: what the files of the other architectures provide, as the class
      [Cpu]; the functions that risu.h asks for and they lack are a parameter, the
      class [Port], about which nothing is assumed.  Together they are an [Arch],
      for which the theorems about the command line hold.  [S390x], [M68k], [Arm],
      [LoongArch], [X86], [AArch64] (src/risu_<arch>.c, src/risu_reginfo_<arch>.c
      and .h) are the instances, and [Cpus] holds the theorems about all of them.
    - [Examples]: the protocol theorems applied to a concrete PowerPC image, to
      commands that record and play it back, to a session of the shell, and the
      theorems about the other architectures applied to contexts of IBM z, x86 and
      AArch64.

    ** What the theorems show

    - The protocol: what a master records an apprentice accepts
      ([record_replay]), and over a socket the two complete the test without
      deadlock ([session_completes]), with at most one packet under way
      ([one_packet_under_way]); a test that ends successfully has compared every
      checkpoint ([success_compared_everything]); each result names exactly what
      disagreed ([checkpoint_verdict]); malformed messages are rejected before
      anything is stored ([bad_header_rejected]); headers cross hosts of either
      byte order ([header_crosses_hosts]); over a socket the master is not told
      of mismatches, whatever message it has sent ([mismatch_ends_master]).
    - The transport: packets arrive intact however the stream is split
      ([packet_roundtrip]), reading delivers what
      was sent and ends ([recv_bytes_terminates]), packets of the wrong length keep the stream in
      step ([bad_length_resyncs]).
    - The PowerPC comparison: acceptance synchronises the two register files,
      options only add tolerance, without options the comparison accepts exactly
      the files that agree, every rejection is explained.  The image starts in the same surroundings in the emulator and
      on Mac OS 9 ([image_started]).
    - The command line: the scanner yields the options a single reading of the
      command line yields and permutes the rest behind them ([getopt_scans],
      [long_option_search]); [risu_main] does what the options say, in order, and
      its loop ends ([risu_main_obeys]); the command that records and the command
      that plays back fit together ([commands_record_replay]), and so do the two
      commands that connect over the network ([commands_session]); a number written
      behind a PowerPC option sets the variable it names ([mask_option_sets]);
      lines are split without leaving the buffer, and every list of arguments can
      be written as a line ([argcargv_splits], [argcargv_roundtrip]).  The shell
      obeys the lines it reads in their order ([eval_obeys], [shell_session]).
      The options of x86 and AArch64 choose what their captures need
      ([xfeatures_option], [sve_option]).
    - The other architectures: which parts of two contexts decide whether the
      register files captured from them compare equal ([verdict_of_contexts]),
      which differences the reports name ([mismatch_reported]), and that as much
      of a register file is transmitted as is compared and printed
      ([received_decides]); the searches for floating-point and vector
      registers behind the context find them and end ([vfp_search],
      [vector_capture], [sve_capture]).
    - Where the code does not do what it means to, a theorem says what it does:
      the portable 64-bit swap, short writes, a stale errno at the end of the
      stream, oversized packets, the swapped payload size, playback from a pipe,
      an unset memory block, [exponent] of subnormal numbers, [ABS] of INT64_MIN,
      misspelt options, the narrower vector registers of LoongArch, the end of
      the shell's input, vector lengths beyond the range of an int.

    ** Bounds and fuel

    Loops of the source that need not end carry fuel and stop with [HFuel] when
    it is used up.  The loops over system calls get one unit per event and byte
    in the script of the descriptor ([rx_fuel], [wx_fuel]), and the theorems show
    that this is enough unless the code really loops; [shift_up] needs 52 steps
    for the 52 bits of a fraction ([shift_up_spec]); [run_image] is given the
    number of signals, and the theorems hold for every number.  The loop over the
    options gets a unit per character of the command line ([opt_fuel]), the
    loops of [argcargv] one per character of the line, [reverse_loop] one per
    element of the range; [getopt_scans], [risu_main_obeys] and [argcargv_splits]
    show that they end.  [eval] gets a unit per character for its lines, and a
    bound on how deep files source each other, which the code does not have; the
    prompt loop never ends, and is followed for any number of prompts.  The searches through the blocks behind a context get a
    unit per word ([reginfo_init_vfp]) or per mapped byte ([parse_extcontext], [scan]: twice,
    for two lists), more than there are blocks ([vfp_search], [chain_fuel],
    [records_fuel]).

    ** Not modelled

    The test generator, which is written in Perl and not part of the program; the
    vector registers and the saved stack of the PowerPC: no build of the
    repository defines VRREGS or SAVESTACK, and with VRREGS the files do not
    compile.  The code of the emulator, of zlib and of the systems is not in the
    repository; what is used of it is a parameter ([Emulator], [Zlib], [host]).
    What the image does until the next signal is a parameter ([cpu]), and for the
    common code so is the context in which it starts ([start]).  The files of the
    other architectures lack functions that the interface asks for and do not
    build at this commit, which is why a port is a parameter. *)

From stdpp Require Export base list numbers tactics strings sets.
From Stdlib Require Export ZArith Lia Bool.

#[global] Open Scope Z_scope.

#[export] Set Warnings "-clear-no-such-hyp".

(** ** Machine integers

    A w-bit C integer is a [Z]; every conversion the source performs is one of
    the wrap-around functions below. *)

Definition wrap (w z : Z) : Z := z mod 2 ^ w.

Definition swrap (w z : Z) : Z := (z + 2 ^ (w - 1)) mod 2 ^ w - 2 ^ (w - 1).

Abbreviation u8 := (wrap 8).
Abbreviation u16 := (wrap 16).
Abbreviation u32 := (wrap 32).
Abbreviation u64 := (wrap 64).
Abbreviation s32 := (swrap 32).
Abbreviation s64 := (swrap 64).

(** [in_width w z]: [z] is representable as an unsigned integer of [w] bits. *)
Definition in_width (w z : Z) : Prop := 0 <= z < 2 ^ w.

(** [x ~& m] is C's [x & ~m] at any width that holds [x]. *)
Definition andnot (x m : Z) : Z := Z.ldiff x m.

(** C truth of an integer expression. *)
Definition truth (z : Z) : bool := negb (z =? 0).

Lemma wrap_range w z : 0 <= w -> in_width w (wrap w z).
Proof. intros. apply Z.mod_pos_bound. lia. Qed.

Lemma wrap_small w z : in_width w z -> wrap w z = z.
Proof. apply Z.mod_small. Qed.

Lemma wrap_wrap w z : 0 <= w -> wrap w (wrap w z) = wrap w z.
Proof. intros. by apply wrap_small, wrap_range. Qed.

Lemma swrap_range w z : 0 < w -> - 2 ^ (w - 1) <= swrap w z < 2 ^ (w - 1).
Proof.
  intros Hw. unfold swrap.
  assert (2 ^ w = 2 * 2 ^ (w - 1)) as E.
  { rewrite <-Z.pow_succ_r by lia. f_equal. lia. }
  pose proof (Z.mod_pos_bound (z + 2 ^ (w - 1)) (2 ^ w)) as B. lia.
Qed.

Lemma swrap_small w z :
  0 < w -> - 2 ^ (w - 1) <= z < 2 ^ (w - 1) -> swrap w z = z.
Proof.
  intros Hw Hz. unfold swrap.
  assert (2 ^ w = 2 * 2 ^ (w - 1)) as E.
  { rewrite <-Z.pow_succ_r by lia. f_equal. lia. }
  rewrite Z.mod_small; lia.
Qed.

Lemma swrap_wrap w z : 0 < w -> swrap w (wrap w z) = swrap w z.
Proof.
  intros Hw. unfold swrap, wrap. by rewrite Zplus_mod_idemp_l.
Qed.

Lemma wrap_swrap w z : 0 < w -> wrap w (swrap w z) = wrap w z.
Proof.
  intros Hw. unfold swrap, wrap.
  rewrite Zminus_mod_idemp_l. f_equal. lia.
Qed.

(** ** Bitwise reasoning

    [bitwise] proves an equation between bit expressions by comparing every
    bit; the rewrite database [risubits] pushes [Z.testbit] inwards. *)

Create Rewrite HintDb risubits.
Create Rewrite HintDb risulen.
Create HintDb risu.
#[export] Hint Rewrite
  Z.land_spec Z.lor_spec Z.lxor_spec Z.ldiff_spec Z.testbit_0_l : risubits.
#[export] Hint Rewrite Z.shiftl_spec Z.shiftr_spec Z.lnot_spec
  using lia : risubits.

Lemma wrap_testbit w z i :
  0 <= w -> 0 <= i -> Z.testbit (wrap w z) i = (i <? w) && Z.testbit z i.
Proof.
  intros Hw Hi. unfold wrap. destruct (Z.ltb_spec i w); simpl.
  - by rewrite Z.mod_pow2_bits_low.
  - by rewrite Z.mod_pow2_bits_high.
Qed.
#[export] Hint Rewrite wrap_testbit using lia : risubits.

Lemma testbit_in_width w z i :
  in_width w z -> 0 <= w -> w <= i -> Z.testbit z i = false.
Proof.
  intros Hz Hw Hi. rewrite <-(wrap_small w z Hz).
  rewrite wrap_testbit by lia. destruct (Z.ltb_spec i w); [lia | done].
Qed.

Lemma in_width_testbit w z :
  0 <= w -> 0 <= z -> (forall i, w <= i -> Z.testbit z i = false) -> in_width w z.
Proof.
  intros Hw Hz Hb. replace z with (wrap w z); [by apply wrap_range |].
  apply Z.bits_inj'. intros i Hi. rewrite wrap_testbit by lia.
  destruct (Z.ltb_spec i w); simpl; [done | by rewrite Hb].
Qed.

Lemma land_in_width w x y : 0 <= w -> in_width w x -> 0 <= y -> in_width w (Z.land x y).
Proof.
  intros Hw Hx Hy. apply in_width_testbit; [done | |].
  - apply Z.land_nonneg. destruct Hx. lia.
  - intros i Hi. by rewrite Z.land_spec, (testbit_in_width w).
Qed.

Lemma ldiff_in_width w x y : 0 <= w -> in_width w x -> in_width w (Z.ldiff x y).
Proof.
  intros Hw Hx. apply in_width_testbit; [done | |].
  - apply Z.ldiff_nonneg. destruct Hx. lia.
  - intros i Hi. by rewrite Z.ldiff_spec, (testbit_in_width w).
Qed.

#[export] Hint Resolve wrap_range : risu.
#[export] Hint Resolve land_in_width ldiff_in_width : risu.

(** ** Byte strings

    Memory and messages are lists of bytes, each a [Z] below 256. *)

Abbreviation bytes := (list Z).

Definition is_byte (b : Z) : Prop := in_width 8 b.

Abbreviation all_bytes := (Forall is_byte).

(** [le_bytes n z]: the [n]-byte little-endian image of the integer [z]. *)
Fixpoint le_bytes (n : nat) (z : Z) : bytes :=
  match n with
  | O => []
  | S k => wrap 8 z :: le_bytes k (Z.shiftr z 8)
  end.

(** The integer whose little-endian image is [bs]. *)
Fixpoint le_val (bs : bytes) : Z :=
  match bs with
  | [] => 0
  | b :: t => b + 2 ^ 8 * le_val t
  end.

(** Memory image of an integer on a host of the given byte order. *)
Definition int_bytes (le : bool) (n : nat) (z : Z) : bytes :=
  if le then le_bytes n z else rev (le_bytes n z).

Definition int_val (le : bool) (bs : bytes) : Z :=
  le_val (if le then bs else rev bs).

Lemma le_bytes_length n z : length (le_bytes n z) = n.
Proof. revert z. induction n; intros z; simpl; [done | by rewrite IHn]. Qed.

Lemma le_bytes_all n z : all_bytes (le_bytes n z).
Proof.
  revert z. induction n; intros z; simpl; constructor; [| done].
  by apply wrap_range.
Qed.

Lemma wrap_split w z :
  0 <= w -> wrap 8 z + 2 ^ 8 * wrap w (Z.shiftr z 8) = wrap (8 + w) z.
Proof.
  intros Hw. unfold wrap. rewrite Z.shiftr_div_pow2 by lia.
  rewrite Z.pow_add_r by lia. rewrite Z.rem_mul_r by lia. lia.
Qed.

Lemma le_val_bytes n z : le_val (le_bytes n z) = wrap (8 * Z.of_nat n) z.
Proof.
  revert z. induction n as [|n IH]; intros z; simpl le_val.
  - unfold wrap. simpl. by rewrite Z.mod_1_r.
  - rewrite IH, wrap_split by lia. f_equal. lia.
Qed.

Lemma le_val_range bs : all_bytes bs -> in_width (8 * Z.of_nat (length bs)) (le_val bs).
Proof.
  unfold in_width. induction 1 as [|b t Hb Ht IH]; simpl le_val; simpl length.
  - simpl. lia.
  - rewrite Nat2Z.inj_succ, Z.mul_succ_r, Z.add_comm, Z.pow_add_r by lia.
    destruct Hb. nia.
Qed.

Lemma le_bytes_val bs : all_bytes bs -> le_bytes (length bs) (le_val bs) = bs.
Proof.
  induction 1 as [|b t Hb Ht IH]; [done |]. simpl le_val. simpl.
  destruct (le_val_range t Ht) as [Hn _].
  f_equal.
  - unfold wrap. rewrite Z.mul_comm, Z_mod_plus_full. by apply Z.mod_small.
  - rewrite Z.shiftr_div_pow2, Z.mul_comm, Z_div_plus_full by lia.
    rewrite Z.div_small, Z.add_0_l by done. done.
Qed.

Lemma int_val_range le bs :
  all_bytes bs -> in_width (8 * Z.of_nat (length bs)) (int_val le bs).
Proof.
  unfold int_val. intros H. destruct le; [by apply le_val_range |].
  rewrite <-length_rev. by apply le_val_range, Forall_rev.
Qed.

Lemma int_bytes_length le n z : length (int_bytes le n z) = n.
Proof. unfold int_bytes. destruct le; rewrite ?length_rev; apply le_bytes_length. Qed.

Lemma int_bytes_all le n z : all_bytes (int_bytes le n z).
Proof.
  unfold int_bytes. destruct le; [apply le_bytes_all |].
  apply Forall_rev, le_bytes_all.
Qed.

Lemma int_val_bytes le n z : int_val le (int_bytes le n z) = wrap (8 * Z.of_nat n) z.
Proof.
  unfold int_val, int_bytes. destruct le; rewrite ?rev_involutive; apply le_val_bytes.
Qed.

Lemma int_bytes_val le bs : all_bytes bs -> int_bytes le (length bs) (int_val le bs) = bs.
Proof.
  unfold int_val, int_bytes. intros H. destruct le; [by apply le_bytes_val |].
  rewrite <-(length_rev bs), le_bytes_val by by apply Forall_rev.
  apply rev_involutive.
Qed.

#[export] Hint Resolve int_bytes_all le_bytes_all : risu.
#[export] Hint Rewrite int_bytes_length le_bytes_length : risulen.

(** ** Structures in memory

    A C struct is laid out as a list of fields; [ws] gives their sizes in
    bytes.  [encode_fields] is the memory image on a host of the given byte
    order and [decode_fields] reads it back. *)

Fixpoint encode_fields (le : bool) (ws : list nat) (vs : list Z) : bytes :=
  match ws, vs with
  | w :: ws', v :: vs' => int_bytes le w v ++ encode_fields le ws' vs'
  | _, _ => []
  end.

Fixpoint decode_fields (le : bool) (ws : list nat) (bs : bytes) : list Z :=
  match ws with
  | [] => []
  | w :: ws' => int_val le (take w bs) :: decode_fields le ws' (drop w bs)
  end.

Definition layout_size (ws : list nat) : nat := sum_list ws.

(** Every value fits its field. *)
Definition fits (ws : list nat) (vs : list Z) : Prop :=
  Forall2 (fun w v => in_width (8 * Z.of_nat w) v) ws vs.

Lemma encode_fields_length le ws vs :
  length vs = length ws -> length (encode_fields le ws vs) = layout_size ws.
Proof.
  revert vs. induction ws as [|w ws IH]; intros [|v vs] H; simplify_eq/=; [done |].
  rewrite length_app, int_bytes_length, IH by done. done.
Qed.

Lemma encode_fields_all le ws vs : all_bytes (encode_fields le ws vs).
Proof.
  revert vs. induction ws as [|w ws IH]; intros [|v vs]; simpl; try constructor.
  apply Forall_app. split; [apply int_bytes_all | apply IH].
Qed.

Lemma decode_fields_length le ws bs : length (decode_fields le ws bs) = length ws.
Proof. revert bs. induction ws; intros bs; simpl; [done | by rewrite IHws]. Qed.

Lemma decode_encode_fields le ws vs t :
  fits ws vs -> decode_fields le ws (encode_fields le ws vs ++ t) = vs.
Proof.
  intros H. revert t. induction H as [|w v ws vs Hv Hf IH]; intros t; simpl; [done |].
  rewrite <-app_assoc, take_app_length' by by rewrite int_bytes_length.
  rewrite drop_app_length' by by rewrite int_bytes_length.
  by rewrite int_val_bytes, wrap_small, IH.
Qed.

Lemma decode_fields_fits le ws bs :
  all_bytes bs -> (layout_size ws <= length bs)%nat ->
  fits ws (decode_fields le ws bs).
Proof.
  revert bs. induction ws as [|w ws IH]; intros bs Hb Hl; simpl; constructor.
  - simpl in Hl.
    assert (length (take w bs) = w) as E by (rewrite length_take; lia).
    pose proof (Forall_take _ w _ Hb) as Hb'.
    apply (int_val_range le) in Hb'. by rewrite E in Hb'.
  - apply IH; [by apply Forall_drop |]. simpl in Hl. rewrite length_drop. lia.
Qed.

Lemma encode_decode_fields le ws bs :
  all_bytes bs -> length bs = layout_size ws ->
  encode_fields le ws (decode_fields le ws bs) = bs.
Proof.
  revert bs. induction ws as [|w ws IH]; intros bs Hb Hl; simpl in *.
  - by apply nil_length_inv in Hl.
  - assert (length (take w bs) = w) as E by (rewrite length_take; lia).
    rewrite <-E at 1. rewrite int_bytes_val by by apply Forall_take.
    rewrite IH; [apply take_drop | by apply Forall_drop |].
    rewrite length_drop. lia.
Qed.

(** Overwriting the first bytes of a buffer, as [read(fd, buf, n)] does. *)
Definition splice (old new : bytes) : bytes := new ++ drop (length new) old.

Lemma splice_full old new : length new = length old -> splice old new = new.
Proof. intros H. unfold splice. rewrite drop_ge by lia. apply app_nil_r. Qed.

Lemma splice_length old new :
  (length new <= length old)%nat -> length (splice old new) = length old.
Proof. intros H. unfold splice. rewrite length_app, length_drop. lia. Qed.

(** ** Effects

    Stateful C code is a computation in [M W]: it threads a state of type [W]
    and either returns or stops the process.  The state is kept when the
    process stops, so that what was written before an [exit] is visible. *)

Inductive halt : Type :=
| HExit (code : Z)   (* exit(code) *)
| HAbort             (* abort() *)
| HBlock             (* a system call waits for input that has not arrived *)
| HFuel              (* the loop has not finished within its fuel *)
| HUB.               (* undefined behaviour: wild or out-of-bounds access *)

Definition M (W A : Type) : Type := W -> (A + halt) * W.

#[export] Instance M_ret {W} : MRet (M W) := fun A a s => (inl a, s).

#[export] Instance M_bind {W} : MBind (M W) := fun A B f m s =>
  match m s with
  | (inl a, s') => f a s'
  | (inr h, s') => (inr h, s')
  end.

Definition stop {W A} (h : halt) : M W A := fun s => (inr h, s).

Definition gets {W A} (f : W -> A) : M W A := fun s => (inl (f s), s).

Definition modify {W} (f : W -> W) : M W () := fun s => (inl (), f s).

(** Run a computation on a component of the state. *)
Definition zoom {W S A} (get : W -> S) (put : S -> W -> W) (m : M S A) : M W A :=
  fun w => let '(r, s) := m (get w) in (r, put s w).

Definition EXIT_SUCCESS : Z := 0.
Definition EXIT_FAILURE : Z := 1.

Lemma bind_done {W A B} (m : M W A) (f : A -> M W B) s a s' :
  m s = (inl a, s') -> (m ≫= f) s = f a s'.
Proof. intros H. unfold mbind, M_bind. by rewrite H. Qed.

Lemma bind_stop {W A B} (m : M W A) (f : A -> M W B) s h s' :
  m s = (inr h, s') -> (m ≫= f) s = (inr h, s').
Proof. intros H. unfold mbind, M_bind. by rewrite H. Qed.

Lemma bind_inv {W A B} (m : M W A) (f : A -> M W B) s b s' :
  (m ≫= f) s = (inl b, s') -> exists a s1, m s = (inl a, s1) /\ f a s1 = (inl b, s').
Proof.
  unfold mbind, M_bind. destruct (m s) as [[a|h] s1]; [| done]. eauto.
Qed.

Lemma ret_inv {W A} (a b : A) (s s' : W) : mret (M := M W) a s = (inl b, s') -> a = b /\ s = s'.
Proof. intros E. by injection E as -> ->. Qed.

(** [wp m s Q]: started in [s], the computation [m] returns, with a result and
    a state that satisfy [Q]. *)
Definition wp {W A} (m : M W A) (s : W) (Q : A -> W -> Prop) : Prop :=
  match m s with
  | (inl a, s') => Q a s'
  | (inr _, _) => False
  end.

Lemma wp_done {W A} (m : M W A) s a s' (Q : A -> W -> Prop) :
  m s = (inl a, s') -> Q a s' -> wp m s Q.
Proof. intros E HQ. unfold wp. by rewrite E. Qed.

Lemma wp_inv {W A} (m : M W A) s (Q : A -> W -> Prop) :
  wp m s Q -> exists a s', m s = (inl a, s') /\ Q a s'.
Proof. unfold wp. destruct (m s) as [[a|h] s']; [eauto | done]. Qed.

Lemma wp_ret {W A} (a : A) (s : W) (Q : A -> W -> Prop) : Q a s -> wp (mret (M := M W) a) s Q.
Proof. done. Qed.

Lemma wp_gets {W A} (f : W -> A) (s : W) (Q : A -> W -> Prop) : Q (f s) s -> wp (gets f) s Q.
Proof. done. Qed.

Lemma wp_modify {W} (f : W -> W) (s : W) (Q : () -> W -> Prop) : Q () (f s) -> wp (modify f) s Q.
Proof. done. Qed.

Lemma wp_bind {W A B} (m : M W A) (k : A -> M W B) s (Q : B -> W -> Prop) :
  wp m s (fun a s' => wp (k a) s' Q) -> wp (m ≫= k) s Q.
Proof. unfold wp, mbind, M_bind. by destruct (m s) as [[a|h] s']. Qed.

Lemma wp_mono {W A} (m : M W A) s (Q Q' : A -> W -> Prop) :
  wp m s Q -> (forall a s', Q a s' -> Q' a s') -> wp m s Q'.
Proof. unfold wp. destruct (m s) as [[a|h] s']; [auto | done]. Qed.

(** Step through a computation whose control flow is known. *)
Ltac wp_step :=
  lazymatch goal with
  | |- wp (_ ≫= _) _ _ => apply wp_bind
  | |- wp (mret _) _ _ => apply wp_ret
  | |- wp (gets _) _ _ => apply wp_gets
  | |- wp (modify _) _ _ => apply wp_modify
  end; cbn beta.

Ltac wp_steps := repeat wp_step.

(** [keeps f m]: the computation [m] does not change the component [f] of the
    state, however it ends. *)
Definition keeps {W X A} (f : W -> X) (m : M W A) : Prop :=
  forall s r s', m s = (r, s') -> f s' = f s.

Lemma keeps_ret {W X A} (f : W -> X) (a : A) : keeps f (mret (M := M W) a).
Proof. intros s r s' E. by injection E as <- <-. Qed.

Lemma keeps_stop {W X A} (f : W -> X) h : keeps f (stop (A := A) h).
Proof. intros s r s' E. by injection E as <- <-. Qed.

Lemma keeps_gets {W X A} (f : W -> X) (g : W -> A) : keeps f (gets g).
Proof. intros s r s' E. by injection E as <- <-. Qed.

Lemma keeps_modify {W X} (f : W -> X) g : (forall s, f (g s) = f s) -> keeps f (modify g).
Proof. intros H s r s' E. injection E as <- <-. apply H. Qed.

Lemma keeps_zoom {W S X A} (f : W -> X) get put (m : M S A) :
  (forall v w, f (put v w) = f w) -> keeps f (zoom get put m).
Proof. intros H s r s' E. unfold zoom in E. destruct (m (get s)). injection E as <- <-. apply H. Qed.

Lemma keeps_bind {W X A B} (f : W -> X) (m : M W A) (k : A -> M W B) :
  keeps f m -> (forall a, keeps f (k a)) -> keeps f (m ≫= k).
Proof.
  intros Hm Hk s r s' E. unfold mbind, M_bind in E. destruct (m s) as [[a|h] s1] eqn:E1.
  - rewrite (Hk a _ _ _ E). by eapply Hm.
  - injection E as <- <-. by eapply Hm.
Qed.

Create HintDb keeps.
#[export] Hint Resolve keeps_ret keeps_stop keeps_gets keeps_bind : keeps.
#[export] Hint Extern 2 (keeps _ (modify _)) => apply keeps_modify; reflexivity : keeps.
#[export] Hint Extern 2 (keeps _ (zoom _ _ _)) => apply keeps_zoom; reflexivity : keeps.
#[export] Hint Extern 3 (keeps _ (match ?x with _ => _ end)) => destruct x : keeps.

(** Unfold the monad's combinators and compute. *)
Ltac munfold :=
  unfold mbind, M_bind, mret, M_ret, stop, gets, modify, zoom in *; cbn beta iota in *.

(** Split a conjunction of booleans in a hypothesis or goal into
    propositions. *)
Ltac bool_simpl :=
  repeat first
    [ progress rewrite ?andb_true_iff, ?andb_false_iff, ?orb_true_iff,
        ?orb_false_iff, ?negb_true_iff, ?negb_false_iff,
        ?Z.eqb_eq, ?Z.eqb_neq, ?Z.ltb_lt, ?Z.ltb_ge, ?Z.leb_le, ?Z.leb_gt in * ].

(** Case analysis on the condition of the first [if] of the goal. *)
Ltac case_if :=
  match goal with
  | |- context [if ?b then _ else _] => let E := fresh "E" in destruct b eqn:E
  end.
