(* ===== verification/Endian.v ===== *)
(** * Byte swapping (endianswap.h)

    The [BYTESWAP] macros.  The header has two implementations: the compiler's
    built-ins, and a portable form for compilers without them ("do it the slow
    way").  [builtin_bswap] is what the built-ins are documented to compute, the
    integer whose memory image is reversed; the [_slow] definitions are the
    portable macros, operator by operator.  The 16- and 32-bit macros agree
    with the built-ins; the 64-bit one does not, and the last theorems say
    exactly what it computes instead. *)

From S2P Require Import Prelude.

(** How the program was built: which implementation of the macros is in use,
    the byte order of the host, and whether its compiler predefines
    [__LITTLE_ENDIAN__]. *)
Class Build := {
  bswap_builtins : bool;
  host_le : bool;
  def_LITTLE_ENDIAN : bool
}.

(** [__builtin_bswap16/32/64]: reverse the bytes of an [n]-byte integer. *)
Definition builtin_bswap (n : nat) (x : Z) : Z := le_val (rev (le_bytes n x)).

Definition BYTESWAP_16_slow (x : Z) : Z :=
  u16 (Z.lor (Z.shiftr x 8) (Z.shiftl (Z.land x 0xFF) 8)).

Definition BYTESWAP_32_slow (x : Z) : Z :=
  u32 (Z.lor (Z.shiftr x 24)
      (Z.lor (Z.land (Z.shiftr x 8) 0xFF00)
      (Z.lor (Z.shiftl (Z.land x 0xFF00) 8)
             (Z.shiftl x 24)))).

Definition BYTESWAP_64_slow (x : Z) : Z :=
  u64 (Z.lor (Z.shiftr x 56)
      (Z.lor (Z.shiftr (Z.land x 0x00FF000000000000) 48)
      (Z.lor (Z.shiftr (Z.land x 0x0000FF0000000000) 40)
      (Z.lor (Z.shiftr (Z.land x 0x000000FF00000000) 32)
      (Z.lor (Z.shiftl (Z.land x 0x00000000FF000000) 32)
      (Z.lor (Z.shiftl (Z.land x 0x0000000000FF0000) 40)
      (Z.lor (Z.shiftl (Z.land x 0x000000000000FF00) 48)
             (Z.shiftl (Z.land x 0x00000000000000FF) 56)))))))).

Section macros.
Context `{Build}.

Definition BYTESWAP_16 (x : Z) : Z :=
  if bswap_builtins then builtin_bswap 2 x else BYTESWAP_16_slow x.

Definition BYTESWAP_32 (x : Z) : Z :=
  if bswap_builtins then builtin_bswap 4 x else BYTESWAP_32_slow x.

Definition BYTESWAP_64 (x : Z) : Z :=
  if bswap_builtins then builtin_bswap 8 x else BYTESWAP_64_slow x.

(** The macro's choice by operand size; note that it has no 8-byte case. *)
Definition BYTESWAP_SIZED (val size : Z) : Z :=
  if size =? 2 then BYTESWAP_16 val
  else if size =? 4 then BYTESWAP_32 val
  else val.
End macros.

(** ** The built-ins reverse memory images *)

Lemma builtin_bswap_range n x : in_width (8 * Z.of_nat n) (builtin_bswap n x).
Proof.
  unfold builtin_bswap.
  pose proof (le_val_range (rev (le_bytes n x))) as B.
  rewrite length_rev, le_bytes_length in B.
  apply B, Forall_rev, le_bytes_all.
Qed.

Lemma le_bytes_builtin_bswap n x : le_bytes n (builtin_bswap n x) = rev (le_bytes n x).
Proof.
  unfold builtin_bswap.
  pose proof (le_bytes_val (rev (le_bytes n x))) as B.
  rewrite length_rev, le_bytes_length in B.
  apply B, Forall_rev, le_bytes_all.
Qed.

(** The image of a swapped integer is the image on a host of the other byte
    order. *)
Lemma int_bytes_bswap le n x :
  int_bytes le n (builtin_bswap n x) = int_bytes (negb le) n x.
Proof.
  unfold int_bytes. destruct le; simpl; rewrite le_bytes_builtin_bswap; [done |].
  apply rev_involutive.
Qed.

Lemma builtin_bswap_involutive n x :
  in_width (8 * Z.of_nat n) x -> builtin_bswap n (builtin_bswap n x) = x.
Proof.
  intros Hx. unfold builtin_bswap at 1.
  rewrite le_bytes_builtin_bswap, rev_involutive, le_val_bytes. by apply wrap_small.
Qed.

Lemma builtin_bswap_wrap n x :
  builtin_bswap n (wrap (8 * Z.of_nat n) x) = builtin_bswap n x.
Proof.
  unfold builtin_bswap. rewrite <-le_val_bytes.
  pose proof (le_bytes_val (le_bytes n x) (le_bytes_all n x)) as B.
  rewrite le_bytes_length in B. by rewrite B.
Qed.

(** ** The portable macros, byte by byte *)

(** The byte of [x] at position [k]. *)
Definition byte_at (k x : Z) : Z := wrap 8 (Z.shiftr x (8 * k)).

(** Compare two byte expressions bit by bit: the eight bit positions are
    enumerated and the masks evaluated. *)
Ltac byte_bits :=
  let i := fresh "i" in let Hi := fresh "Hi" in
  apply Z.bits_inj'; intros i Hi; unfold byte_at;
  autorewrite with risubits;
  destruct (Z.ltb_spec i 8); cbn [andb]; [| done];
  autorewrite with risubits;
  let H := fresh "H" in
  assert (i = 0 \/ i = 1 \/ i = 2 \/ i = 3 \/ i = 4 \/ i = 5 \/ i = 6 \/ i = 7)
    as H by lia;
  repeat destruct H as [H|H]; subst i;
  repeat match goal with
  | |- context [Z.testbit ?x (?a - ?b)] =>
      let c := eval vm_compute in (a - b) in change (a - b) with c
  | |- context [?a + ?b] => let c := eval vm_compute in (a + b) in change (a + b) with c
  end;
  rewrite ?(fun x p => Z.testbit_neg_r x (Zneg p) eq_refl);
  repeat match goal with
  | |- context [Z.testbit (Zpos ?p) ?n] =>
      let c := eval vm_compute in (Z.testbit (Zpos p) n) in
      change (Z.testbit (Zpos p) n) with c
  end;
  rewrite ?andb_true_r, ?andb_false_r, ?orb_false_r, ?orb_false_l; try done.

(** An operand that fits its width has no bits above it. *)
Ltac high_bits w Hx :=
  repeat match goal with
  | |- context [Z.testbit ?x ?n] =>
      rewrite (testbit_in_width w x n Hx) by lia
  end;
  rewrite ?andb_false_l, ?andb_true_l, ?andb_true_r, ?andb_false_r, ?orb_false_r, ?orb_false_l;
  try done.

Lemma byte_at_shift k x : 0 <= k -> byte_at k (Z.shiftr x 8) = byte_at (k + 1) x.
Proof.
  intros Hk. unfold byte_at. rewrite Z.shiftr_shiftr by lia. do 2 f_equal. lia.
Qed.

(** An image is the list of its bytes. *)
Lemma le_bytes_byte_at n x :
  le_bytes n x = (fun k => byte_at (Z.of_nat k) x) <$> seq 0 n.
Proof.
  revert x. induction n as [|n IH]; intros x; [done |].
  change (seq 0 (S n)) with (0%nat :: seq 1 n).
  rewrite fmap_cons. simpl le_bytes. f_equal.
  rewrite IH, <-fmap_S_seq, <-list_fmap_compose.
  apply list_fmap_ext. intros i k _. simpl.
  rewrite byte_at_shift by lia. f_equal. lia.
Qed.

(** Two integers of [n] bytes with the same bytes are the same. *)
Lemma le_bytes_inj n x y :
  in_width (8 * Z.of_nat n) x -> in_width (8 * Z.of_nat n) y ->
  le_bytes n x = le_bytes n y -> x = y.
Proof.
  intros Hx Hy E. apply (f_equal le_val) in E.
  rewrite !le_val_bytes, !wrap_small in E by done. done.
Qed.

Lemma BYTESWAP_16_slow_spec x :
  in_width 16 x -> BYTESWAP_16_slow x = builtin_bswap 2 x.
Proof.
  intros Hx. apply (le_bytes_inj 2);
    [by apply (wrap_range 16) | apply builtin_bswap_range |].
  rewrite le_bytes_builtin_bswap, !le_bytes_byte_at. simpl.
  repeat apply (f_equal2 cons); try reflexivity; unfold BYTESWAP_16_slow; byte_bits; high_bits 16 Hx.
Qed.

Lemma BYTESWAP_32_slow_spec x :
  in_width 32 x -> BYTESWAP_32_slow x = builtin_bswap 4 x.
Proof.
  intros Hx. apply (le_bytes_inj 4);
    [by apply (wrap_range 32) | apply builtin_bswap_range |].
  rewrite le_bytes_builtin_bswap, !le_bytes_byte_at. simpl.
  repeat apply (f_equal2 cons); try reflexivity; unfold BYTESWAP_32_slow; byte_bits; high_bits 32 Hx.
Qed.

(** What the portable 64-bit macro computes: its shift amounts move bytes 4 to
    6 onto byte 0 and bytes 1 to 3 onto byte 7 instead of spreading them. *)
Lemma BYTESWAP_64_slow_bytes x :
  in_width 64 x ->
  le_bytes 8 (BYTESWAP_64_slow x) =
  [ Z.lor (byte_at 7 x) (Z.lor (byte_at 6 x) (Z.lor (byte_at 5 x) (byte_at 4 x)));
    0; 0; 0; 0; 0; 0;
    Z.lor (byte_at 3 x) (Z.lor (byte_at 2 x) (Z.lor (byte_at 1 x) (byte_at 0 x))) ].
Proof.
  intros Hx. rewrite le_bytes_byte_at. simpl.
  repeat apply (f_equal2 cons); try reflexivity; unfold BYTESWAP_64_slow; byte_bits; high_bits 64 Hx.
Qed.

Section swap_spec.
Context `{Build}.

Lemma BYTESWAP_16_spec x : in_width 16 x -> BYTESWAP_16 x = builtin_bswap 2 x.
Proof.
  intros. unfold BYTESWAP_16. case_if; [done |]. by apply BYTESWAP_16_slow_spec.
Qed.

Lemma BYTESWAP_32_spec x : in_width 32 x -> BYTESWAP_32 x = builtin_bswap 4 x.
Proof.
  intros. unfold BYTESWAP_32. case_if; [done |]. by apply BYTESWAP_32_slow_spec.
Qed.

Lemma BYTESWAP_64_spec x :
  bswap_builtins = true -> BYTESWAP_64 x = builtin_bswap 8 x.
Proof. intros E. unfold BYTESWAP_64. by rewrite E. Qed.

Lemma BYTESWAP_32_range x : in_width 32 x -> in_width 32 (BYTESWAP_32 x).
Proof. intros. rewrite BYTESWAP_32_spec by done. apply (builtin_bswap_range 4). Qed.

Lemma BYTESWAP_32_twice x : in_width 32 x -> BYTESWAP_32 (BYTESWAP_32 x) = x.
Proof.
  intros Hx. rewrite !BYTESWAP_32_spec by auto using BYTESWAP_32_range.
  by apply builtin_bswap_involutive.
Qed.
End swap_spec.

(** ** Properties *)

(** In every build, swapping a 32-bit integer reverses its memory image on
    a host of either byte order, and swapping twice gives the integer back. *)
Lemma byteswap32_correct `{Build} (le : bool) (x : Z) :
  in_width 32 x ->
  int_bytes le 4 (BYTESWAP_32 x) = rev (int_bytes le 4 x) /\
  BYTESWAP_32 (BYTESWAP_32 x) = x.
Proof.
  intros Hx. split; [| by apply BYTESWAP_32_twice].
  rewrite BYTESWAP_32_spec, int_bytes_bswap by done.
  unfold int_bytes. destruct le; simpl; by rewrite ?rev_involutive.
Qed.

(** C39: the portable 64-bit macro is the byte swap it stands for exactly on
    the integers whose six middle bytes are zero. *)
Theorem byteswap64_slow_correct_iff (x : Z) :
  in_width 64 x ->
  BYTESWAP_64_slow x = builtin_bswap 8 x <->
  Forall (fun k => byte_at k x = 0) [1; 2; 3; 4; 5; 6].
Proof.
  intros Hx. split.
  - intros E. apply (f_equal (le_bytes 8)) in E.
    rewrite BYTESWAP_64_slow_bytes, le_bytes_builtin_bswap, le_bytes_byte_at in E by done.
    simpl in E. injection E. intros. by repeat constructor.
  - intros Hz. apply (le_bytes_inj 8);
      [by apply (wrap_range 64) | apply builtin_bswap_range |].
    rewrite BYTESWAP_64_slow_bytes, le_bytes_builtin_bswap, le_bytes_byte_at by done.
    rewrite !Forall_cons in Hz. destruct Hz as (E1 & E2 & E3 & E4 & E5 & E6 & _).
    change (rev _) with
      [byte_at 7 x; byte_at 6 x; byte_at 5 x; byte_at 4 x;
       byte_at 3 x; byte_at 2 x; byte_at 1 x; byte_at 0 x].
    by rewrite E1, E2, E3, E4, E5, E6, !Z.lor_0_r, ?Z.lor_0_l.
Qed.

Lemma byteswap64_slow_correct_iff_witness :
  BYTESWAP_64_slow 0x0102030405060708 <> builtin_bswap 8 0x0102030405060708.
Proof.
  intros E.
  destruct (byteswap64_slow_correct_iff 0x0102030405060708) as [F _];
    [unfold in_width; lia |].
  specialize (F E). rewrite Forall_cons in F. destruct F as [F _].
  vm_compute in F. discriminate.
Defined.
