(* ===== verification/Comms.v ===== *)
(** * Socket communication (comms.c)

    The routines that move bytes between master and apprentice: retry loops
    around [read] and [writev], length-prefixed packets and one-byte responses.

    The operating system is the state [os]: a script of what the coming [read]
    calls find on the descriptor, a script of how much the coming [write] and
    [writev] calls accept, the value of [errno], and the bytes that have left
    the process.  A script models every schedule the system may choose: chunk
    boundaries, interruptions, errors and end of file. *)

From S2P Require Import Prelude.

(** ** The system calls *)

Definition EINTR : Z := 4.

Inductive rd_event : Type :=
| RdChunk (b : Z) (bs : bytes)   (* one or more bytes are available *)
| RdFail (e : Z)                 (* the call fails with this errno *)
| RdEof.                         (* the peer has closed, or the file has ended *)

Inductive wr_event : Type :=
| WrUpTo (n : nat)               (* the call accepts at most [n] bytes *)
| WrFail (e : Z).

(** When [rx] is empty a read waits.  When [wx] is empty a write accepts
    everything. *)
Record os : Type := Os {
  rx : list rd_event;
  wx : list wr_event;
  errno : Z;
  tx : bytes
}.

Definition set_rx (f : list rd_event -> list rd_event) (s : os) : os :=
  Os (f (rx s)) (wx s) (errno s) (tx s).
Definition set_wx (f : list wr_event -> list wr_event) (s : os) : os :=
  Os (rx s) (f (wx s)) (errno s) (tx s).
Definition set_errno (e : Z) (s : os) : os := Os (rx s) (wx s) e (tx s).
Definition send_tx (bs : bytes) (s : os) : os :=
  Os (rx s) (wx s) (errno s) (tx s ++ bs).

(** A positive [int] is a [size_t] of the same value; a negative one becomes a
    huge count. *)
Definition size_t (n : Z) : Z := u64 n.

(** What is left of a chunk after its first bytes have been read. *)
Definition rest_of_chunk (bs : bytes) (t : list rd_event) : list rd_event :=
  match bs with
  | [] => t
  | b :: bs' => RdChunk b bs' :: t
  end.

(** [read(fd, buf, count)]: the return value and the bytes stored. *)
Definition sys_read (count : Z) : M os (Z * bytes) := fun s =>
  if count =? 0 then (inl (0, []), s)
  else match rx s with
  | [] => (inr HBlock, s)
  | RdChunk b bs :: t =>
      let k := Z.to_nat (Z.min count (Z.of_nat (length (b :: bs)))) in
      (inl (Z.of_nat k, take k (b :: bs)),
       set_rx (fun _ => rest_of_chunk (drop k (b :: bs)) t) s)
  | RdFail e :: t => (inl (-1, []), set_errno e (set_rx (fun _ => t) s))
  | RdEof :: _ => (inl (0, []), s)
  end.

(** [writev] of the concatenation of the vectors, and [write] of one buffer. *)
Definition sys_write (bs : bytes) : M os Z := fun s =>
  match wx s with
  | [] => (inl (Z.of_nat (length bs)), send_tx bs s)
  | WrUpTo n :: t =>
      let k := Nat.min n (length bs) in
      (inl (Z.of_nat k), send_tx (take k bs) (set_wx (fun _ => t) s))
  | WrFail e :: t => (inl (-1), set_errno e (set_wx (fun _ => t) s))
  end.

(** ** Receiving *)

(** [recv_bytes]: fill a buffer of [pktlen] bytes; [acc] is what has been
    stored so far.  [fuel] bounds the number of [read] calls. *)
Fixpoint recv_bytes_loop (fuel : nat) (pktlen : Z) (acc : bytes) : M os bytes :=
  if pktlen =? 0 then mret acc
  else match fuel with
  | O => stop HFuel
  | S fuel' =>
      r ← sys_read (size_t pktlen);
      if fst r <=? 0 then
        e ← gets errno;
        if e =? EINTR then recv_bytes_loop fuel' pktlen acc
        else stop (HExit EXIT_FAILURE)
      else recv_bytes_loop fuel' (pktlen - fst r) (acc ++ snd r)
  end.

(** Every call of [read] that does not end the loop removes an event or bytes
    from the script, so this many calls are enough for a loop that ends. *)
Fixpoint rx_weight (l : list rd_event) : nat :=
  match l with
  | [] => 0
  | RdChunk _ bs :: t => S (S (length bs)) + rx_weight t
  | _ :: t => S (rx_weight t)
  end.

Definition rx_fuel (s : os) : nat := S (rx_weight (rx s)).

Definition recv_bytes (pktlen : Z) : M os bytes := fun s =>
  recv_bytes_loop (rx_fuel s) pktlen [] s.

(** [recv_and_discard_bytes]: the bytes go to a buffer of [DUMPBUF] bytes on
    the stack; storing more than it holds is undefined behaviour. *)
Definition DUMPBUF : Z := 64.

Fixpoint discard_loop (fuel : nat) (pktlen : Z) : M os () :=
  if pktlen =? 0 then mret ()
  else match fuel with
  | O => stop HFuel
  | S fuel' =>
      let len := if pktlen <? DUMPBUF then pktlen else DUMPBUF in
      r ← sys_read (size_t len);
      if DUMPBUF <? Z.of_nat (length (snd r)) then stop HUB
      else if fst r <=? 0 then
        e ← gets errno;
        if e =? EINTR then discard_loop fuel' pktlen
        else stop (HExit EXIT_FAILURE)
      else discard_loop fuel' (pktlen - fst r)
  end.

(** The parameter is an [int]. *)
Definition recv_and_discard_bytes (pktlen : Z) : M os () := fun s =>
  discard_loop (rx_fuel s) (s32 pktlen) s.

(** ** Sending *)

(** A [struct iovec]: where the data starts and how many bytes are left. *)
Record iovec : Type := Iov { iov_base : bytes; iov_len : nat }.

Definition iov_data (l : list iovec) : bytes :=
  flat_map (fun v => take (iov_len v) (iov_base v)) l.

(** The inner loop of [safe_writev]: move past the vectors that have been
    written entirely, then shorten the current one.  [None]: all done. *)
Fixpoint advance_iov (i : nat) (l : list iovec) : option (list iovec) :=
  match l with
  | [] => None
  | v :: t =>
      if (iov_len v <=? i)%nat then
        match t with
        | [] => None
        | _ => advance_iov (i - iov_len v) t
        end
      else Some (Iov (iov_base v) (iov_len v - i) :: t)
  end.

Fixpoint safe_writev_loop (fuel : nat) (iov : list iovec) (r : Z) : M os Z :=
  match fuel with
  | O => stop HFuel
  | S fuel' =>
      i ← sys_write (iov_data iov);
      if i =? -1 then
        e ← gets errno;
        if e =? EINTR then safe_writev_loop fuel' iov r else mret (-1)
      else
        match advance_iov (Z.to_nat i) iov with
        | None => mret (s32 (r + i))
        | Some iov' => safe_writev_loop fuel' iov' (s32 (r + i))
        end
  end.

(** The script of writes decides how often the loop runs. *)
Definition wx_fuel (s : os) : nat := S (length (wx s)).

Definition safe_writev (iov : list iovec) : M os Z := fun s =>
  safe_writev_loop (wx_fuel s) iov 0 s.

(** ** Packets *)

(** Bytes of [htonl(n)] in memory, on a host of either byte order. *)
Definition net_bytes (n : Z) : bytes := int_bytes false 4 (u32 n).

Definition whole (bs : bytes) : iovec := Iov bs (length bs).

(** [send_data_pkt]: length and data in one [writev], then wait for the
    response byte. *)
Definition send_data_pkt (pkt : bytes) : M os Z :=
  r ← safe_writev [whole (net_bytes (Z.of_nat (length pkt))); whole pkt];
  if r =? -1 then stop (HExit EXIT_FAILURE)
  else
    a ← sys_read 1;
    if fst a =? 1 then mret (int_val true (snd a)) else stop (HExit EXIT_FAILURE).

(** [recv_data_pkt]: [None] when the peer's length differs from [pktlen]
    ([RES_BAD_IO], the buffer is not touched), otherwise the data. *)
Definition recv_data_pkt (pktlen : Z) : M os (option bytes) :=
  hdr ← recv_bytes 4;
  let net_pktlen := int_val false hdr in
  if u32 pktlen =? net_pktlen then
    data ← recv_bytes pktlen; mret (Some data)
  else
    _ ← recv_and_discard_bytes net_pktlen; mret None.

Definition send_response_byte (resp : Z) : M os () :=
  w ← sys_write [u8 resp];
  if w =? 1 then mret () else stop (HExit EXIT_FAILURE).

(** ** What a script delivers *)

(** The bytes a receiver that retries on [EINTR] gets out of a script before
    it meets a failure or the end of the stream. *)
Fixpoint rx_bytes (l : list rd_event) : bytes :=
  match l with
  | [] => []
  | RdChunk b bs :: t => (b :: bs) ++ rx_bytes t
  | RdFail e :: t => if e =? EINTR then rx_bytes t else []
  | RdEof :: _ => []
  end.

(** Reception leaves the sending side alone. *)
Definition same_tx (s s' : os) : Prop := wx s' = wx s /\ tx s' = tx s.

#[export] Instance same_tx_preorder : PreOrder same_tx.
Proof. split; [done |]. intros s1 s2 s3 [??] [??]. split; congruence. Qed.

Lemma rest_of_chunk_bytes bs t : rx_bytes (rest_of_chunk bs t) = bs ++ rx_bytes t.
Proof. by destruct bs. Qed.

Lemma rest_of_chunk_weight bs t :
  (rx_weight (rest_of_chunk bs t) <= S (length bs) + rx_weight t)%nat.
Proof. destruct bs; simpl; lia. Qed.

Lemma size_t_small n : 0 <= n < 2 ^ 64 -> size_t n = n.
Proof. apply wrap_small. Qed.

(** The outcomes of one [read] of at least one byte. *)
Inductive read_spec (n : Z) (s : os) : (Z * bytes + halt) * os -> Prop :=
| ReadBlocks : rx s = [] -> read_spec n s (inr HBlock, s)
| ReadSome k s' :
    (0 < k)%nat -> Z.of_nat k <= n -> (k <= length (rx_bytes (rx s)))%nat ->
    rx_bytes (rx s') = drop k (rx_bytes (rx s)) ->
    (rx_weight (rx s') < rx_weight (rx s))%nat -> same_tx s s' ->
    (RdEof ∈ rx s' -> RdEof ∈ rx s) ->
    read_spec n s (inl (Z.of_nat k, take k (rx_bytes (rx s))), s')
| ReadFails s' :
    (errno s' = EINTR -> rx_bytes (rx s') = rx_bytes (rx s)) ->
    (errno s' <> EINTR -> rx_bytes (rx s) = []) ->
    (rx_weight (rx s') < rx_weight (rx s))%nat -> same_tx s s' ->
    (RdEof ∈ rx s' -> RdEof ∈ rx s) ->
    read_spec n s (inl (-1, []), s')
| ReadEnds t : rx s = RdEof :: t -> read_spec n s (inl (0, []), s).

Lemma sys_read_spec n s : 0 < n -> read_spec n s (sys_read n s).
Proof.
  intros Hn. unfold sys_read. destruct (Z.eqb_spec n 0); [lia |].
  destruct s as [[|[b bs|e|] t] wx0 e0 tx0]; cbn [rx].
  - by constructor.
  - set (k := Z.to_nat (Z.min n (Z.of_nat (length (b :: bs))))).
    assert (k <= length (b :: bs))%nat as Hk by (unfold k; simpl; lia).
    rewrite <-(take_app_le _ (rx_bytes t)) by done.
    apply (ReadSome n (Os (RdChunk b bs :: t) wx0 e0 tx0) k);
      [unfold k; simpl; lia | unfold k; simpl; lia | | | | done |]; simpl rx.
    + simpl rx_bytes. rewrite app_comm_cons, length_app. lia.
    + rewrite rest_of_chunk_bytes. by rewrite <-drop_app_le.
    + pose proof (rest_of_chunk_weight (drop k (b :: bs)) t) as W.
      rewrite length_drop in W. simpl length in *. unfold k in *. simpl rx_weight.
      simpl length in *. lia.
    + destruct (drop k (b :: bs)); simpl; set_solver.
  - constructor; simpl; [| | lia | done | set_solver]; by intros H; destruct (Z.eqb_spec e EINTR).
  - by eapply ReadEnds.
Qed.

(** The receive loop gets exactly the bytes it asked for, whatever the chunk
    boundaries and interruptions. *)
Lemma recv_bytes_loop_ok fuel n acc s :
  (rx_weight (rx s) < fuel)%nat -> (n <= length (rx_bytes (rx s)))%nat ->
  Z.of_nat n < 2 ^ 31 ->
  exists s', recv_bytes_loop fuel (Z.of_nat n) acc s =
               (inl (acc ++ take n (rx_bytes (rx s))), s') /\
    rx_bytes (rx s') = drop n (rx_bytes (rx s)) /\ same_tx s s'.
Proof.
  revert n acc s. induction fuel as [|fuel IH]; intros n acc s Hf Hn Hs; [lia |].
  simpl. destruct (Z.eqb_spec (Z.of_nat n) 0) as [E|E].
  { exists s. replace n with 0%nat by lia. rewrite take_0, app_nil_r. done. }
  rewrite size_t_small by lia. unfold mbind, M_bind at 1.
  destruct (sys_read_spec (Z.of_nat n) s) as [B|k s' Hk Hkn Hl B W T _|s' B B' W T _|t B];
    [lia | rewrite B in Hn; simpl in Hn; lia | | | rewrite B in Hn; simpl in Hn; lia];
    cbn [fst snd].
  - destruct (Z.leb_spec (Z.of_nat k) 0); [lia |].
    replace (Z.of_nat n - Z.of_nat k) with (Z.of_nat (n - k)) by lia.
    destruct (IH (n - k)%nat (acc ++ take k (rx_bytes (rx s))) s') as (s2 & R2 & B2 & T2);
      [lia | rewrite B, length_drop; lia | lia |].
    exists s2. rewrite R2, B, B2, B, drop_drop.
    split; [| split; [f_equal; lia | by etrans]].
    do 2 f_equal. rewrite <-app_assoc. f_equal. rewrite take_take_drop. f_equal. lia.
  - simpl. unfold M_bind, gets. destruct (Z.eqb_spec (errno s') EINTR) as [Er|Er].
    + destruct (IH n acc s') as (s2 & R2 & B2 & T2); [lia | by rewrite B | done |].
      exists s2. rewrite R2, B2, B by done. split; [done | split; [done | by etrans]].
    + rewrite B' in Hn by done. simpl in Hn. lia.
Qed.

Lemma recv_bytes_ok n s :
  0 <= n < 2 ^ 31 -> n <= Z.of_nat (length (rx_bytes (rx s))) ->
  exists s', recv_bytes n s = (inl (take (Z.to_nat n) (rx_bytes (rx s))), s') /\
    rx_bytes (rx s') = drop (Z.to_nat n) (rx_bytes (rx s)) /\ same_tx s s'.
Proof.
  intros Hn Hl. unfold recv_bytes, rx_fuel.
  destruct (recv_bytes_loop_ok (S (rx_weight (rx s))) (Z.to_nat n) [] s) as (s' & R & ?);
    [lia | lia | lia |].
  rewrite Z2Nat.id in R by lia. rewrite R. eauto.
Qed.

Lemma discard_loop_ok fuel n s :
  (rx_weight (rx s) < fuel)%nat -> (n <= length (rx_bytes (rx s)))%nat ->
  Z.of_nat n < 2 ^ 31 ->
  exists s', discard_loop fuel (Z.of_nat n) s = (inl (), s') /\
    rx_bytes (rx s') = drop n (rx_bytes (rx s)) /\ same_tx s s'.
Proof.
  revert n s. induction fuel as [|fuel IH]; intros n s Hf Hn Hs; [lia |].
  simpl. destruct (Z.eqb_spec (Z.of_nat n) 0) as [E|E].
  { exists s. replace n with 0%nat by lia. done. }
  set (len := if Z.of_nat n <? DUMPBUF then Z.of_nat n else DUMPBUF).
  assert (0 < len <= 64 /\ len <= Z.of_nat n) as Hlen.
  { unfold len, DUMPBUF. destruct (Z.ltb_spec (Z.of_nat n) 64); lia. }
  rewrite size_t_small by lia. unfold mbind, M_bind at 1.
  destruct (sys_read_spec len s) as [B|k s' Hk Hkn Hl B W T _|s' B B' W T _|t B];
    [lia | rewrite B in Hn; simpl in Hn; lia | | | rewrite B in Hn; simpl in Hn; lia];
    cbn [fst snd].
  - rewrite length_take_le by done. unfold DUMPBUF.
    destruct (Z.ltb_spec 64 (Z.of_nat k)); [lia |].
    destruct (Z.leb_spec (Z.of_nat k) 0); [lia |].
    replace (Z.of_nat n - Z.of_nat k) with (Z.of_nat (n - k)) by lia.
    destruct (IH (n - k)%nat s') as (s2 & R2 & B2 & T2);
      [lia | rewrite B, length_drop; lia | lia |].
    exists s2. rewrite R2, B2, B, drop_drop.
    split; [done | split; [f_equal; lia | by etrans]].
  - simpl. unfold M_bind, gets. destruct (Z.eqb_spec (errno s') EINTR) as [Er|Er].
    + destruct (IH n s') as (s2 & R2 & B2 & T2); [lia | by rewrite B | done |].
      exists s2. rewrite R2, B2, B by done. split; [done | split; [done | by etrans]].
    + rewrite B' in Hn by done. simpl in Hn. lia.
Qed.

Lemma recv_and_discard_bytes_ok n s :
  0 <= n < 2 ^ 31 -> n <= Z.of_nat (length (rx_bytes (rx s))) ->
  exists s', recv_and_discard_bytes n s = (inl (), s') /\
    rx_bytes (rx s') = drop (Z.to_nat n) (rx_bytes (rx s)) /\ same_tx s s'.
Proof.
  intros Hn Hl. unfold recv_and_discard_bytes, rx_fuel.
  rewrite swrap_small by lia.
  destruct (discard_loop_ok (S (rx_weight (rx s))) (Z.to_nat n) s) as (s' & R & ?);
    [lia | lia | lia |].
  rewrite Z2Nat.id in R by lia. rewrite R. eauto.
Qed.

(** ** When the receive loop does not return *)

(** [read] at end of file returns 0 and leaves [errno] alone.  If an earlier
    call was interrupted, the loop takes the stale [EINTR] for this call's and
    reads again, for ever. *)
Lemma recv_bytes_loop_stuck fuel n acc s t :
  n <> 0 -> size_t n <> 0 -> rx s = RdEof :: t -> errno s = EINTR ->
  recv_bytes_loop fuel n acc s = (inr HFuel, s).
Proof.
  intros Hn Hs Hr He. induction fuel as [|fuel IH]; simpl.
  - by destruct (Z.eqb_spec n 0).
  - destruct (Z.eqb_spec n 0); [done |].
    assert (sys_read (size_t n) s = (inl (0, []), s)) as R.
    { unfold sys_read. rewrite Hr. by destruct (Z.eqb_spec (size_t n) 0). }
    rewrite (bind_done _ _ _ _ _ R). simpl.
    rewrite (bind_done _ _ _ (errno s) s) by done. rewrite He. simpl. apply IH.
Qed.

(** Running out of fuel happens only there: in every other situation the fuel
    of [recv_bytes] is enough for the loop to return, exit or block. *)
Lemma recv_bytes_loop_fuel fuel n acc s s' :
  (rx_weight (rx s) < fuel)%nat -> 0 <= n < 2 ^ 31 ->
  recv_bytes_loop fuel n acc s = (inr HFuel, s') ->
  RdEof ∈ rx s /\ errno s' = EINTR.
Proof.
  revert n acc s. induction fuel as [|fuel IH]; intros n acc s Hf Hn; [lia |].
  simpl. destruct (Z.eqb_spec n 0) as [E|E]; [done |].
  rewrite size_t_small by lia. unfold mbind, M_bind at 1.
  destruct (sys_read_spec n s) as [B|k s1 Hk Hkn Hl B W T I|s1 B B' W T I|t B];
    [lia | done | | |]; cbn [fst snd].
  - destruct (Z.leb_spec (Z.of_nat k) 0); [lia |]. intros R.
    apply IH in R as [??]; [auto | lia | lia].
  - simpl. unfold M_bind, gets. destruct (Z.eqb_spec (errno s1) EINTR); [| done].
    intros R. apply IH in R as [??]; [auto | lia | lia].
  - simpl. unfold M_bind, gets. destruct (Z.eqb_spec (errno s) EINTR) as [Er|]; [| done].
    erewrite recv_bytes_loop_stuck; [| | | done | done]; [| lia |].
    + intros R. simplify_eq. split; [rewrite B; set_solver | done].
    + rewrite size_t_small; lia.
Qed.

(** ** Sending *)

(** Every write is taken whole, after any number of interruptions. *)
Definition wr_clean (total : nat) (l : list wr_event) : Prop :=
  Forall (fun ev => match ev with
                    | WrUpTo n => (total <= n)%nat
                    | WrFail e => e = EINTR
                    end) l.

Definition iov_wf (l : list iovec) : Prop :=
  Forall (fun v => (iov_len v <= length (iov_base v))%nat) l.

Definition iov_size (l : list iovec) : nat := sum_list (iov_len <$> l).

Lemma iov_size_cons v t : iov_size (v :: t) = (iov_len v + iov_size t)%nat.
Proof. done. Qed.

Lemma iov_data_length l : iov_wf l -> length (iov_data l) = iov_size l.
Proof.
  induction 1 as [|v t Hv Ht IH]; [done |]. unfold iov_data in *. simpl.
  rewrite length_app, length_take, IH, iov_size_cons. lia.
Qed.

Lemma advance_iov_all i l : (iov_size l <= i)%nat -> advance_iov i l = None.
Proof.
  revert i. induction l as [|v t IH]; intros i Hi; [done |].
  rewrite iov_size_cons in Hi. simpl.
  destruct (Nat.leb_spec (iov_len v) i); [| lia].
  destruct t; [done |]. apply IH. lia.
Qed.

Lemma advance_iov_not_all i l : (i < iov_size l)%nat -> advance_iov i l <> None.
Proof.
  revert i. induction l as [|v t IH]; intros i Hi; [unfold iov_size in Hi; simpl in Hi; lia |].
  rewrite iov_size_cons in Hi. simpl.
  destruct (Nat.leb_spec (iov_len v) i); [| done].
  destruct t; [unfold iov_size in Hi; simpl in Hi; lia |]. apply IH. lia.
Qed.

(** The inner loop keeps count: what is left to write is what has not been
    written. *)
Lemma advance_iov_some i l l' :
  iov_wf l -> advance_iov i l = Some l' ->
  iov_wf l' /\ (i < iov_size l)%nat /\ iov_size l' = (iov_size l - i)%nat.
Proof.
  revert i. induction l as [|v t IH]; intros i Hw; [done |]. simpl.
  apply Forall_cons in Hw as [Hv Ht].
  destruct (Nat.leb_spec (iov_len v) i) as [Hi|Hi].
  - destruct t as [|v2 t]; [done |]. intros H. apply IH in H as (W & L & S); [| done].
    split; [done |]. rewrite iov_size_cons. lia.
  - intros [= <-]. split; [| rewrite !iov_size_cons; simpl; lia].
    constructor; [simpl; lia | done].
Qed.

(** Transmission leaves the receiving side alone and consumes the script of
    writes from its front. *)
Definition same_rx (s s' : os) : Prop :=
  rx s' = rx s /\ exists k, wx s' = drop k (wx s).

#[export] Instance same_rx_preorder : PreOrder same_rx.
Proof.
  split.
  - intros s. split; [done | by exists 0%nat].
  - intros s1 s2 s3 [E1 [k1 D1]] [E2 [k2 D2]]. split; [congruence |].
    exists (k1 + k2)%nat. by rewrite D2, D1, drop_drop.
Qed.

Lemma wr_clean_drop n k l : wr_clean n l -> wr_clean n (drop k l).
Proof. apply Forall_drop. Qed.

Lemma same_rx_clean n s s' : same_rx s s' -> wr_clean n (wx s) -> wr_clean n (wx s').
Proof. intros [_ [k ->]]. apply wr_clean_drop. Qed.

(** If every write is taken whole, the vectors go out as they are. *)
Lemma safe_writev_loop_clean fuel iov r s :
  (length (wx s) < fuel)%nat -> iov_wf iov -> wr_clean (iov_size iov) (wx s) ->
  0 <= r -> r + Z.of_nat (iov_size iov) < 2 ^ 31 ->
  exists s', safe_writev_loop fuel iov r s = (inl (r + Z.of_nat (iov_size iov)), s') /\
    tx s' = tx s ++ iov_data iov /\ same_rx s s'.
Proof.
  revert s. induction fuel as [|fuel IH]; intros s Hf Hw Hc Hr Hb; [lia |].
  pose proof (iov_data_length _ Hw) as L.
  simpl. unfold mbind, M_bind at 1, sys_write.
  destruct s as [rx0 [|[n|e] t] e0 tx0]; cbn [wx] in *.
  - rewrite L. destruct (Z.eqb_spec (Z.of_nat (iov_size iov)) (-1)); [lia |].
    rewrite advance_iov_all, swrap_small by lia.
    eexists. split; [done |]. split; [done |]. split; [done | by exists 0%nat].
  - apply Forall_cons in Hc as [Hn Hc].
    rewrite L, Nat.min_r by done.
    destruct (Z.eqb_spec (Z.of_nat (iov_size iov)) (-1)); [lia |].
    rewrite advance_iov_all, swrap_small by lia.
    eexists. split; [done |]. split; [simpl; by rewrite take_ge by lia |].
    split; [done | by exists 1%nat].
  - apply Forall_cons in Hc as [-> Hc]. simpl. unfold M_bind, gets. simpl.
    destruct (IH (Os rx0 t EINTR tx0)) as (s' & R & T & S); [simpl in *; lia | done | done | done | done |].
    exists s'. split; [done |]. split; [done |].
    destruct S as [S1 [k S2]]. split; [done |]. exists (S k). done.
Qed.

Lemma safe_writev_clean iov s :
  iov_wf iov -> wr_clean (iov_size iov) (wx s) -> Z.of_nat (iov_size iov) < 2 ^ 31 ->
  exists s', safe_writev iov s = (inl (Z.of_nat (iov_size iov)), s') /\
    tx s' = tx s ++ iov_data iov /\ same_rx s s'.
Proof.
  intros. unfold safe_writev, wx_fuel.
  destruct (safe_writev_loop_clean (S (length (wx s))) iov 0 s) as (s' & R & ?);
    [lia | done | done | lia | lia |]. eauto.
Qed.

(** Whatever the schedule, a call that succeeds has sent the right number of
    bytes. *)
Lemma safe_writev_loop_length fuel iov r s r' s' :
  iov_wf iov -> 0 <= r -> r + Z.of_nat (iov_size iov) < 2 ^ 31 ->
  safe_writev_loop fuel iov r s = (inl r', s') -> r' <> -1 ->
  r' = r + Z.of_nat (iov_size iov) /\
  length (tx s') = (length (tx s) + iov_size iov)%nat.
Proof.
  revert iov r s. induction fuel as [|fuel IH]; intros iov r s Hw Hr Hb; [done |].
  pose proof (iov_data_length _ Hw) as L.
  simpl. unfold mbind, M_bind at 1.
  assert (forall k s1, (k <= iov_size iov)%nat ->
    length (tx s1) = (length (tx s) + k)%nat ->
    match advance_iov (Z.to_nat (Z.of_nat k)) iov with
    | None => mret (s32 (r + Z.of_nat k))
    | Some iov' => safe_writev_loop fuel iov' (s32 (r + Z.of_nat k))
    end s1 = (inl r', s') -> r' <> -1 ->
    r' = r + Z.of_nat (iov_size iov) /\
    length (tx s') = (length (tx s) + iov_size iov)%nat) as K.
  { intros k s1 Hk Ht. rewrite Nat2Z.id, swrap_small by lia.
    destruct (advance_iov k iov) as [iov'|] eqn:A.
    - apply advance_iov_some in A as (Hw' & Hlt & Hs); [| done].
      intros R N. apply IH in R; [| done | lia | lia | done]. lia.
    - intros R N. unfold mret, M_ret in R. simplify_eq.
      assert (~ (k < iov_size iov)%nat); [| lia].
      intros Hlt. by apply (advance_iov_not_all k iov). }
  unfold sys_write. destruct (wx s) as [|[n|e] t].
  - destruct (Z.eqb_spec (Z.of_nat (length (iov_data iov))) (-1)); [lia |].
    apply K; [lia |]. cbn [tx send_tx]. rewrite length_app. lia.
  - destruct (Z.eqb_spec (Z.of_nat (Nat.min n (length (iov_data iov)))) (-1)); [lia |].
    apply K; [lia |]. cbn [tx send_tx set_wx]. rewrite length_app, length_take. lia.
  - simpl. unfold M_bind, gets. simpl.
    destruct (e =? EINTR); [| intros R N; unfold mret, M_ret in R; by simplify_eq].
    intros R N. by apply IH in R.
Qed.

(** ** Packets *)

Lemma net_bytes_length n : length (net_bytes n) = 4%nat.
Proof. apply int_bytes_length. Qed.

Lemma net_bytes_val n : int_val false (net_bytes n) = u32 n.
Proof. unfold net_bytes. rewrite int_val_bytes. by apply (wrap_wrap 32). Qed.

(** What [send_data_pkt] puts on the wire. *)
Definition packet (data : bytes) : bytes :=
  net_bytes (Z.of_nat (length data)) ++ data.

Lemma packet_iov data :
  iov_data [whole (net_bytes (Z.of_nat (length data))); whole data] = packet data.
Proof.
  unfold iov_data, whole, packet. simpl. rewrite !firstn_all, app_nil_r. done.
Qed.

Lemma packet_iov_wf data :
  iov_wf [whole (net_bytes (Z.of_nat (length data))); whole data].
Proof. repeat constructor. Qed.

Lemma packet_iov_size data :
  iov_size [whole (net_bytes (Z.of_nat (length data))); whole data] =
  (4 + length data)%nat.
Proof. unfold iov_size. simpl. lia. Qed.

(** A packet is written whole and the first byte that arrives is the answer. *)
Lemma send_data_pkt_ok data s b bs t :
  Z.of_nat (length data) < 2 ^ 30 -> wr_clean (4 + length data) (wx s) ->
  rx s = RdChunk b bs :: t ->
  exists s', send_data_pkt data s = (inl b, s') /\
    tx s' = tx s ++ packet data /\ rx s' = rest_of_chunk bs t /\
    (exists k, wx s' = drop k (wx s)).
Proof.
  intros Hl Hc Hr.
  destruct (safe_writev_clean
    [whole (net_bytes (Z.of_nat (length data))); whole data] s)
    as (s1 & R & T & [S1 S2]);
    [apply packet_iov_wf | by rewrite packet_iov_size | rewrite packet_iov_size; lia |].
  rewrite packet_iov_size in R. rewrite packet_iov in T.
  unfold send_data_pkt. rewrite (bind_done _ _ _ _ _ R).
  destruct (Z.eqb_spec (Z.of_nat (4 + length data)) (-1)); [lia |].
  unfold mbind, M_bind, sys_read. simpl (1 =? 0). cbn iota. rewrite S1, Hr.
  replace (Z.min 1 (Z.of_nat (length (b :: bs)))) with 1 by (simpl; lia).
  change (Z.to_nat 1) with 1%nat. cbn [take drop fst snd].
  change (Z.of_nat 1 =? 1) with true. cbn iota. rewrite take_0, drop_0.
  replace (int_val true [b]) with b by (unfold int_val, le_val; lia).
  eexists. split; [reflexivity |]. done.
Qed.

(** If the peer's answer has not arrived the sender waits for it, with the
    packet already sent. *)
Lemma send_data_pkt_blocks data s :
  Z.of_nat (length data) < 2 ^ 30 -> wr_clean (4 + length data) (wx s) ->
  rx s = [] ->
  exists s', send_data_pkt data s = (inr HBlock, s') /\ tx s' = tx s ++ packet data.
Proof.
  intros Hl Hc Hr.
  destruct (safe_writev_clean
    [whole (net_bytes (Z.of_nat (length data))); whole data] s)
    as (s1 & R & T & [S1 S2]);
    [apply packet_iov_wf | by rewrite packet_iov_size | rewrite packet_iov_size; lia |].
  rewrite packet_iov_size in R. rewrite packet_iov in T.
  unfold send_data_pkt. rewrite (bind_done _ _ _ _ _ R).
  destruct (Z.eqb_spec (Z.of_nat (4 + length data)) (-1)); [lia |].
  exists s1. split; [| done].
  unfold mbind, M_bind, sys_read. simpl. by rewrite S1, Hr.
Qed.

(** A packet whose announced length is the expected one is delivered; one of
    another length is refused, and removed from the stream entirely. *)
Lemma recv_data_pkt_ok n data rest s :
  Z.of_nat (length data) < 2 ^ 31 -> 0 <= n < 2 ^ 31 ->
  rx_bytes (rx s) = packet data ++ rest ->
  exists s', recv_data_pkt n s =
      (inl (if n =? Z.of_nat (length data) then Some data else None), s') /\
    rx_bytes (rx s') = rest /\ same_tx s s'.
Proof.
  intros Hl Hn Hr. unfold packet in Hr. rewrite <-app_assoc in Hr.
  destruct (recv_bytes_ok 4 s) as (s1 & R1 & B1 & T1); [lia | |].
  { rewrite Hr, length_app, net_bytes_length. lia. }
  rewrite Hr, take_app_length' in R1 by by rewrite net_bytes_length.
  rewrite Hr, drop_app_length' in B1 by by rewrite net_bytes_length.
  unfold recv_data_pkt. rewrite (bind_done _ _ _ _ _ R1), net_bytes_val.
  rewrite !wrap_small by (unfold in_width; lia).
  destruct (Z.eqb_spec n (Z.of_nat (length data))) as [->|Hne].
  - destruct (recv_bytes_ok (Z.of_nat (length data)) s1) as (s2 & R2 & B2 & T2);
      [lia | rewrite B1, length_app; lia |].
    rewrite B1, Nat2Z.id, take_app_length in R2. rewrite B1, Nat2Z.id, drop_app_length in B2.
    rewrite (bind_done _ _ _ _ _ R2). exists s2. split; [done |]. split; [done | by etrans].
  - destruct (recv_and_discard_bytes_ok (Z.of_nat (length data)) s1) as (s2 & R2 & B2 & T2);
      [lia | rewrite B1, length_app; lia |].
    rewrite B1, Nat2Z.id, drop_app_length in B2.
    rewrite (bind_done _ _ _ _ _ R2). exists s2. split; [done |]. split; [done | by etrans].
Qed.

Lemma send_response_byte_ok r s :
  wr_clean 1 (wx s) -> Forall (fun ev => exists n, ev = WrUpTo n) (wx s) ->
  exists s', send_response_byte r s = (inl (), s') /\
    tx s' = tx s ++ [u8 r] /\ same_rx s s'.
Proof.
  intros Hc Hu. unfold send_response_byte, mbind, M_bind, sys_write.
  destruct s as [rx0 [|ev t] e0 tx0]; cbn [wx] in *; simpl.
  - eexists. split; [done |]. split; [done |]. split; [done | by exists 0%nat].
  - apply Forall_cons in Hc as [Hc _]. apply Forall_cons in Hu as [[n ->] _].
    simpl length. rewrite Nat.min_r by done. simpl.
    eexists. split; [done |]. split; [done |]. split; [done | by exists 1%nat].
Qed.

(** When an interruption is followed by the end of the stream before the
    request is complete, the loop never ends: it takes the old [EINTR] for the
    reason of the empty read, whatever the fuel. *)
Lemma recv_bytes_loop_livelock (fuel : nat) (n : Z) (acc : bytes) (s : os) (t : list rd_event) :
  0 < n < 2 ^ 31 -> rx s = RdFail EINTR :: RdEof :: t ->
  fst (recv_bytes_loop fuel n acc s) = inr HFuel.
Proof.
  intros Hn Hr. destruct fuel as [|fuel]; simpl.
  - by destruct (Z.eqb_spec n 0); [lia |].
  - destruct (Z.eqb_spec n 0); [lia |]. rewrite size_t_small by lia.
    unfold mbind, M_bind at 1, sys_read. destruct (Z.eqb_spec n 0); [lia |].
    rewrite Hr. simpl. unfold M_bind, gets. simpl.
    rewrite (recv_bytes_loop_stuck _ _ _ _ t); [done | lia | | done | done].
    rewrite size_t_small; lia.
Qed.

(** A packet that announces 2^31 bytes or more makes
    [recv_and_discard_bytes] read with a negative, hence enormous, count into
    its 64-byte buffer: any chunk longer than the buffer overruns it. *)
Lemma discard_overflow (n b : Z) (bs : bytes) (t : list rd_event) (s : os) :
  2 ^ 31 <= n < 2 ^ 32 -> rx s = RdChunk b bs :: t ->
  DUMPBUF <= Z.of_nat (length bs) < 2 ^ 31 ->
  fst (recv_and_discard_bytes n s) = inr HUB.
Proof.
  intros Hn Hr Hl. unfold recv_and_discard_bytes, rx_fuel.
  assert (s32 n = n - 2 ^ 32) as E.
  { unfold swrap. replace (n + 2 ^ (32 - 1)) with (n - 2 ^ 31 + 1 * 2 ^ 32) by lia.
    rewrite Z_mod_plus_full, Z.mod_small; lia. }
  rewrite E. cbn [discard_loop]. destruct (Z.eqb_spec (n - 2 ^ 32) 0); [lia |].
  unfold DUMPBUF in *. destruct (Z.ltb_spec (n - 2 ^ 32) 64); [| lia].
  assert (size_t (n - 2 ^ 32) = n - 2 ^ 32 + 2 ^ 64) as ->.
  { unfold size_t, wrap. rewrite <-(Z_mod_plus_full _ 1), Z.mod_small; lia. }
  unfold mbind, M_bind, sys_read. destruct (Z.eqb_spec (n - 2 ^ 32 + 2 ^ 64) 0); [lia |].
  rewrite Hr. cbn [fst snd].
  rewrite Z.min_r, Nat2Z.id, firstn_all by (simpl length; lia).
  destruct (Z.ltb_spec 64 (Z.of_nat (length (b :: bs)))); [done | simpl length in *; lia].
Qed.

(** Four bytes that arrive together. *)
Lemma recv_bytes_chunk c cs t s :
  length (c :: cs) = 4%nat -> rx s = RdChunk c cs :: t ->
  exists s', recv_bytes 4 s = (inl (c :: cs), s') /\ rx s' = t.
Proof.
  intros L R. destruct cs as [|c1 [|c2 [|c3 [|]]]]; try done.
  unfold recv_bytes, rx_fuel. rewrite R. destruct s as [rx0 wx0 e0 tx0]. cbn in R. subst rx0.
  eexists. split; reflexivity.
Qed.

(** ** Properties *)

(** C33: [recv_bytes] delivers exactly the next [n] bytes of the stream, in order,
    however the system splits the stream into chunks and however often [read] is
    interrupted, and leaves the rest unread; and it finishes: unless the stream
    ends, its loop returns, exits or waits for input within the fuel the model
    gives it.  When an interruption is followed by the end of the stream before
    the request is complete, the loop never ends: it takes the old [EINTR] for
    the reason of the empty read, whatever the fuel. *)
Theorem recv_bytes_terminates (n : Z) (s : os) :
  0 <= n < 2 ^ 31 ->
  (n <= Z.of_nat (length (rx_bytes (rx s))) ->
   exists s', recv_bytes n s = (inl (take (Z.to_nat n) (rx_bytes (rx s))), s') /\
     rx_bytes (rx s') = drop (Z.to_nat n) (rx_bytes (rx s)) /\ tx s' = tx s /\ wx s' = wx s) /\
  (RdEof ∉ rx s -> fst (recv_bytes n s) <> inr HFuel) /\
  (forall fuel acc t, 0 < n -> rx s = RdFail EINTR :: RdEof :: t ->
   fst (recv_bytes_loop fuel n acc s) = inr HFuel).
Proof.
  intros Hn. split_and!.
  - intros Hl. destruct (recv_bytes_ok n s Hn Hl) as (s' & R & B & W & T). eauto.
  - intros He R. destruct (recv_bytes n s) as [r s'] eqn:E. simpl in R. subst r.
    destruct (recv_bytes_loop_fuel (rx_fuel s) n [] s s') as [? _];
      [unfold rx_fuel; lia | done | done | done].
  - intros fuel acc t H0 Hr. apply (recv_bytes_loop_livelock _ _ _ _ t); [lia | done].
Qed.

Lemma recv_bytes_terminates_witness :
  let s := Os [RdChunk 1 [2]; RdFail EINTR; RdChunk 3 [4; 5]] [] 0 [] in
  (exists s', recv_bytes 3 s = (inl [1; 2; 3], s') /\ rx_bytes (rx s') = [4; 5]) /\
  fst (recv_bytes 4 (Os [RdChunk 1 []; RdFail EINTR; RdFail 104] [] 0 [])) <> inr HFuel /\
  fst (recv_bytes 4 (Os [RdFail EINTR; RdEof] [] 0 [])) = inr HFuel.
Proof.
  intros s. split_and!.
  - destruct (proj1 (recv_bytes_terminates 3 s ltac:(lia))) as (s' & R & B & _); [vm_compute; done |].
    exists s'. rewrite R, B. done.
  - apply recv_bytes_terminates; [lia | simpl; set_solver].
  - apply (proj2 (proj2 (recv_bytes_terminates 4 (Os [RdFail EINTR; RdEof] [] 0 []) ltac:(lia))) _ [] []);
      [lia | reflexivity].
Defined.

(** C31: packet round trip.  A packet written by [send_data_pkt] while the
    system takes every write whole, and delivered to the peer in chunks of any
    size with any interruptions, is received by [recv_data_pkt] as it was sent
    and nothing after it is touched; the sender gets the peer's response. *)
Theorem packet_roundtrip (data rest resps : bytes) (resp : Z) (s r : os)
    (t : list rd_event) :
  Z.of_nat (length data) < 2 ^ 30 -> wr_clean (4 + length data) (wx s) ->
  rx s = RdChunk resp resps :: t ->
  exists s' sent, send_data_pkt data s = (inl resp, s') /\ tx s' = tx s ++ sent /\
    (rx_bytes (rx r) = sent ++ rest ->
     exists r', recv_data_pkt (Z.of_nat (length data)) r = (inl (Some data), r') /\
       rx_bytes (rx r') = rest).
Proof.
  intros Hl Hc Hr. destruct (send_data_pkt_ok _ _ _ _ _ Hl Hc Hr) as (s' & R & T & _).
  exists s', (packet data). split; [done |]. split; [done |]. intros B.
  destruct (recv_data_pkt_ok (Z.of_nat (length data)) data rest r)
    as (r' & R' & B' & _); [lia | lia | done |].
  rewrite Z.eqb_refl in R'. eauto.
Qed.

Lemma packet_roundtrip_witness :
  let s := Os [RdChunk 0 []] [WrFail EINTR] 0 [] in
  let r := Os [RdChunk 0 [0; 0]; RdFail EINTR; RdChunk 3 [7]; RdChunk 8 [9; 1]] [] 0 [] in
  exists r', recv_data_pkt 3 r = (inl (Some [7; 8; 9]), r') /\ rx_bytes (rx r') = [1].
Proof.
  intros s r.
  destruct (packet_roundtrip [7; 8; 9] [1] [] 0 s r []) as (s' & sent & R & T & K);
    [simpl; lia | repeat constructor | reflexivity |].
  apply K. vm_compute in R. simplify_eq. vm_compute in T. subst sent. reflexivity.
Defined.

(** C35: a packet of an unexpected length is refused and consumed, so that the
    next packet of the stream can be received.  But if the length it announces is
    2^31 or more, [recv_and_discard_bytes] reads with a negative, hence enormous,
    count into its 64-byte buffer: any chunk longer than the buffer overruns it. *)
Theorem bad_length_resyncs (n : Z) (s : os) :
  0 <= n < 2 ^ 31 ->
  (forall data rest, Z.of_nat (length data) < 2 ^ 31 -> n <> Z.of_nat (length data) ->
   rx_bytes (rx s) = packet data ++ rest ->
   exists s', recv_data_pkt n s = (inl None, s') /\ rx_bytes (rx s') = rest) /\
  (forall announced c cs b bs t, 2 ^ 31 <= announced < 2 ^ 32 -> c :: cs = net_bytes announced ->
   rx s = RdChunk c cs :: RdChunk b bs :: t -> DUMPBUF <= Z.of_nat (length bs) < 2 ^ 31 ->
   fst (recv_data_pkt n s) = inr HUB).
Proof.
  intros Hn. split.
  - intros data rest Hl Hne Hr. destruct (recv_data_pkt_ok n data rest s Hl Hn Hr) as (s' & R & B & _).
    destruct (Z.eqb_spec n (Z.of_nat (length data))); [done |]. eauto.
  - intros announced c cs b bs t Ha Ec Hr Hb. unfold recv_data_pkt.
    destruct (recv_bytes_chunk c cs (RdChunk b bs :: t) s) as (s' & R & Rx);
      [by rewrite Ec, net_bytes_length | done |].
    rewrite (bind_done _ _ _ _ _ R), Ec, net_bytes_val, !wrap_small by (unfold in_width; lia).
    destruct (Z.eqb_spec n announced); [lia |]. unfold mbind, M_bind.
    pose proof (discard_overflow announced b bs t s' Ha Rx Hb) as D.
    destruct (recv_and_discard_bytes announced s') as [r s2]. cbn in D. by subst r.
Qed.

Lemma bad_length_resyncs_witness :
  (exists s', recv_data_pkt 2 (Os [RdChunk 0 [0; 0; 3; 7; 8]; RdChunk 9 [1]] [] 0 [])
               = (inl None, s') /\ rx_bytes (rx s') = [1]) /\
  fst (recv_data_pkt 24 (Os [RdChunk 0x80 [0; 0; 0]; RdChunk 1 (replicate 100 2)] [] 0 [])) = inr HUB.
Proof.
  split.
  - apply (proj1 (bad_length_resyncs 2 (Os [RdChunk 0 [0; 0; 3; 7; 8]; RdChunk 9 [1]] [] 0 []) ltac:(lia))
      [7; 8; 9] [1]); [simpl; lia | simpl; lia | reflexivity].
  - apply (proj2 (bad_length_resyncs 24 (Os [RdChunk 0x80 [0; 0; 0]; RdChunk 1 (replicate 100 2)] [] 0 [])
      ltac:(lia)) 0x80000000 0x80 [0; 0; 0] 1 (replicate 100 2) []);
      [lia | reflexivity | reflexivity | vm_compute; split; done].
Defined.


(** [safe_writev] counts correctly: a call that reports success has put on
    the wire as many bytes as its vectors hold, whatever the short writes and
    interruptions. *)
Lemma safe_writev_length (iov : list iovec) (s s' : os) (r : Z) :
  iov_wf iov -> Z.of_nat (iov_size iov) < 2 ^ 31 ->
  safe_writev iov s = (inl r, s') -> r <> -1 ->
  r = Z.of_nat (iov_size iov) /\ length (tx s') = (length (tx s) + iov_size iov)%nat.
Proof.
  intros Hw Hb R Hr. unfold safe_writev in R.
  apply safe_writev_loop_length in R as [-> ?]; [split; [lia | done] | done | lia | lia | done].
Qed.

(** C38: a short write that stops inside the data corrupts the packet.  The
    loop shortens the vector but does not move its start, so the next [writev]
    sends the beginning of the data again in place of its end. *)
Theorem safe_writev_short_write_resends (hdr data : bytes) (k : nat) (s : os) :
  (0 < k < length data)%nat -> Z.of_nat (length hdr + length data) < 2 ^ 31 ->
  wx s = [WrUpTo (length hdr + k)] ->
  exists s', safe_writev [whole hdr; whole data] s =
      (inl (Z.of_nat (length hdr + length data)), s') /\
    tx s' = tx s ++ hdr ++ take k data ++ take (length data - k) data.
Proof.
  intros Hk Hb Hw. unfold safe_writev, wx_fuel. rewrite Hw. simpl.
  rewrite !firstn_all, app_nil_r. unfold mbind, M_bind at 1, sys_write at 1. rewrite Hw.
  rewrite length_app, Nat.min_l by lia.
  destruct (Z.eqb_spec (Z.of_nat (length hdr + k)) (-1)); [lia |].
  rewrite Nat2Z.id, swrap_small by lia.
  destruct (Nat.leb_spec (length hdr) (length hdr + k)); [| lia].
  destruct (Nat.leb_spec (length data) (length hdr + k - length hdr)); [lia |].
  simpl. unfold M_bind at 1. unfold sys_write. simpl.
  rewrite app_nil_r, length_take, Nat.min_l by lia.
  destruct (Z.eqb_spec (Z.of_nat (length data - (length hdr + k - length hdr))) (-1)); [lia |].
  rewrite Nat2Z.id, swrap_small by lia.
  destruct (Nat.leb_spec (length data - (length hdr + k - length hdr))
    (length data - (length hdr + k - length hdr))); [| lia].
  eexists. split.
  - unfold mret, M_ret. do 2 f_equal. lia.
  - simpl. replace (length hdr + k - length hdr)%nat with k by lia.
    rewrite take_app_add', <-!app_assoc; done.
Qed.

Lemma safe_writev_short_write_resends_witness :
  tx (snd (safe_writev [whole [0; 0; 0; 4]; whole [1; 2; 3; 4]] (Os [] [WrUpTo 5] 0 [])))
    = [0; 0; 0; 4; 1; 1; 2; 3].
Proof.
  destruct (safe_writev_short_write_resends [0; 0; 0; 4] [1; 2; 3; 4] 1 (Os [] [WrUpTo 5] 0 []))
    as (s' & R & T); [simpl; lia | simpl; lia | reflexivity |].
  rewrite R. simpl in T |- *. exact T.
Defined.
