(* ===== verification/Arch.v ===== *)
(** * The interface between risu and a CPU architecture (risu.h)

    [risu.h] declares the operations the common code calls and each
    architecture provides.  They are the class [Arch]; the laws the common code
    relies on are the class [ArchLaws].  The theorems about the protocol are
    proved against these two classes and every architecture file provides the
    instances. *)

From S2P Require Import Prelude.

(** ** Operations and results *)

(** [RisuOp].  The C enum is an [int]; code under test can produce values that
    no enumerator names, which are [OP_OTHER]. *)
Inductive RisuOp : Type :=
| OP_SIGILL
| OP_COMPARE
| OP_TESTEND
| OP_SETMEMBLOCK
| OP_GETMEMBLOCK
| OP_COMPAREMEM
| OP_SETUPBEGIN
| OP_SETUPEND
| OP_OTHER (z : Z).

#[export] Instance RisuOp_eq_dec : EqDecision RisuOp.
Proof. solve_decision. Defined.

Definition RisuOp_of_Z (z : Z) : RisuOp :=
  match z with
  | -1 => OP_SIGILL
  | 0 => OP_COMPARE
  | 1 => OP_TESTEND
  | 2 => OP_SETMEMBLOCK
  | 3 => OP_GETMEMBLOCK
  | 4 => OP_COMPAREMEM
  | 5 => OP_SETUPBEGIN
  | 6 => OP_SETUPEND
  | _ => OP_OTHER z
  end.

Definition RisuOp_to_Z (op : RisuOp) : Z :=
  match op with
  | OP_SIGILL => -1
  | OP_COMPARE => 0
  | OP_TESTEND => 1
  | OP_SETMEMBLOCK => 2
  | OP_GETMEMBLOCK => 3
  | OP_COMPAREMEM => 4
  | OP_SETUPBEGIN => 5
  | OP_SETUPEND => 6
  | OP_OTHER z => z
  end.

(** [RisuResult].  A response byte is cast to the enum unchecked, so the
    values beyond the enumerators exist as well. *)
Inductive RisuResult : Type :=
| RES_OK
| RES_END
| RES_MISMATCH_REG
| RES_MISMATCH_MEM
| RES_MISMATCH_OP
| RES_BAD_IO
| RES_BAD_MAGIC
| RES_BAD_SIZE_HEADER
| RES_BAD_SIZE_REGINFO
| RES_BAD_SIZE_MEMBLOCK
| RES_BAD_SIZE_ZERO
| RES_BAD_OP
| RES_SIGBUS
| RES_OTHER (z : Z).

#[export] Instance RisuResult_eq_dec : EqDecision RisuResult.
Proof. solve_decision. Defined.

Definition RisuResult_to_Z (r : RisuResult) : Z :=
  match r with
  | RES_OK => 0
  | RES_END => 1
  | RES_MISMATCH_REG => 2
  | RES_MISMATCH_MEM => 3
  | RES_MISMATCH_OP => 4
  | RES_BAD_IO => 5
  | RES_BAD_MAGIC => 6
  | RES_BAD_SIZE_HEADER => 7
  | RES_BAD_SIZE_REGINFO => 8
  | RES_BAD_SIZE_MEMBLOCK => 9
  | RES_BAD_SIZE_ZERO => 10
  | RES_BAD_OP => 11
  | RES_SIGBUS => 12
  | RES_OTHER z => z
  end.

Definition RisuResult_of_Z (z : Z) : RisuResult :=
  match z with
  | 0 => RES_OK
  | 1 => RES_END
  | 2 => RES_MISMATCH_REG
  | 3 => RES_MISMATCH_MEM
  | 4 => RES_MISMATCH_OP
  | 5 => RES_BAD_IO
  | 6 => RES_BAD_MAGIC
  | 7 => RES_BAD_SIZE_HEADER
  | 8 => RES_BAD_SIZE_REGINFO
  | 9 => RES_BAD_SIZE_MEMBLOCK
  | 10 => RES_BAD_SIZE_ZERO
  | 11 => RES_BAD_OP
  | 12 => RES_SIGBUS
  | _ => RES_OTHER z
  end.

Lemma RisuOp_of_to_Z op : (forall z, op <> OP_OTHER z) -> RisuOp_of_Z (RisuOp_to_Z op) = op.
Proof. destruct op; try done. intros H. by destruct (H z). Qed.

Lemma RisuOp_to_of_Z z : RisuOp_to_Z (RisuOp_of_Z z) = z.
Proof.
  unfold RisuOp_of_Z. destruct z as [|p|p]; try done;
    do 3 (destruct p; try done).
Qed.

Lemma RisuResult_to_of_Z z : RisuResult_to_Z (RisuResult_of_Z z) = z.
Proof.
  unfold RisuResult_of_Z. destruct z as [|p|p]; try done;
    do 4 (destruct p; try done).
Qed.

(** The memory block should be this long. *)
Definition MEMBLOCKLEN : Z := 8192.

Definition RISU_MAGIC : Z := 0x52495355.   (* 'R' 'I' 'S' 'U' *)

Definition FIRST_ARCH_OPT : Z := 0x100.

(** ** Text output

    A call of [fprintf] is recorded as its format string and its arguments. *)
Inductive arg : Type := AInt (z : Z) | AStr (s : string).

Abbreviation text := (list (string * list arg)).

(** ** What an architecture provides *)

(** Where [load_image] has put the test image. *)
Record image : Type := Image {
  image_start_address : Z;
  image_size : Z
}.

Class Arch := {
  reginfo : Type;                       (* struct reginfo *)
  uctx : Type;                          (* ucontext_t and the memory it refers to *)
  aopts : Type;                         (* the architecture's option variables *)
  arch_ptr_bytes : nat;                 (* sizeof(arch_ptr_t) *)
  reginfo_sizeof : nat;                 (* sizeof(struct reginfo) *)
  reginfo_enc : bool -> reginfo -> bytes;  (* memory image, by byte order of the host *)
  reginfo_dec : bool -> bytes -> reginfo;
  advance_pc : uctx -> uctx;
  get_uc_pc : uctx -> Z -> Z;
  set_ucontext_paramreg : Z -> uctx -> uctx;
  get_reginfo_paramreg : reginfo -> Z;
  get_risuop : reginfo -> RisuOp;
  get_pc : uctx -> reginfo -> Z;
  reginfo_init : aopts -> image -> Z -> M uctx reginfo;
  reginfo_update : aopts -> reginfo -> Z -> uctx -> uctx;
  reginfo_is_eq : aopts -> Z -> reginfo -> M reginfo bool;
  reginfo_dump : reginfo -> text;
  reginfo_dump_mismatch : aopts -> reginfo -> reginfo -> text;
  reginfo_size : reginfo -> Z;
  get_arch_big_endian : bool;
  get_arch_start_address : image -> Z;
  get_arch_memory : uctx -> Z -> option Z;       (* None: a null pointer *)
  mem_at : uctx -> Z -> Z -> option bytes;       (* None: not readable *)
  reginfo_host_to_arch : reginfo -> reginfo;
  reginfo_arch_to_host : reginfo -> reginfo
}.

(** ** What the common code relies on

    [same_info m a]: the receiver's copy [m] of a register file agrees with [a]
    on everything that is transmitted and compared. *)
Class ArchLaws `{Arch} := {
  reginfo_wf : reginfo -> Prop;
  uctx_wf : uctx -> Prop;               (* register contents fit their width *)
  same_info : reginfo -> reginfo -> Prop;
  arch_ptr_4_or_8 : arch_ptr_bytes = 4%nat \/ arch_ptr_bytes = 8%nat;
  reginfo_sizeof_small : Z.of_nat reginfo_sizeof < 2 ^ 30;
  reginfo_enc_length le r : length (reginfo_enc le r) = reginfo_sizeof;
  reginfo_enc_bytes le r : all_bytes (reginfo_enc le r);
  reginfo_size_range r : reginfo_wf r -> 0 <= reginfo_size r <= Z.of_nat reginfo_sizeof;
  (* what is received is what was sent, on top of whatever the buffer held *)
  reginfo_transfer le r old :
    reginfo_wf r ->
    let sent := take (Z.to_nat (reginfo_size r)) (reginfo_enc le (reginfo_host_to_arch r)) in
    let m := reginfo_arch_to_host (reginfo_dec le (splice (reginfo_enc le old) sent)) in
    reginfo_size m = reginfo_size r /\ same_info m r;
  reginfo_init_wf o im si u r u' :
    reginfo_init o im si u = (inl r, u') -> reginfo_wf r;
  same_info_is_eq o n m a :
    same_info m a -> reginfo_is_eq o n m a = (inl true, a);
  same_info_update o im si u r u' m :
    uctx_wf u -> reginfo_init o im si u = (inl r, u') -> same_info m r ->
    reginfo_update o m si u' = u';
  reginfo_init_uctx o im si u r u' :
    uctx_wf u -> reginfo_init o im si u = (r, u') -> uctx_wf u';
  advance_pc_wf u : uctx_wf u -> uctx_wf (advance_pc u);
  set_ucontext_paramreg_wf v u : uctx_wf u -> uctx_wf (set_ucontext_paramreg v u);
  mem_at_length u p n bs :
    0 <= n -> mem_at u p n = Some bs -> Z.of_nat (length bs) = n
}.
