(* ===== verification/Getopt.v ===== *)
(** * Scanning options (compat/getopt.c)

    The GNU option scanner that is compiled in where the system has none.  The
    variables of the file are the record [getopt_state].  A C string is the
    [string] before its terminating NUL, a pointer into a string is the suffix
    it points to, and a null pointer is [None].  An [int] that indexes [argv]
    is a [nat].

    [exchange] is shown to rotate two adjacent blocks, and a long name to be
    found when it is exact or an unambiguous abbreviation.  What scanning a
    whole command line does is the subject of [GetoptSpec]. *)

From Stdlib Require Import Ascii.
From stdpp Require Import gmap.
From S2P Require Import Prelude Arch.

(** ** Strings *)

Section strings.

(** A [char] converted to [int]; whether [char] is signed depends on the
    system. *)
Class CharSign := char_signed : bool.
Context `{CharSign}.

Definition char_int (c : ascii) : Z :=
  let z := Z.of_nat (nat_of_ascii c) in
  if char_signed then swrap 8 z else z.

(** [*(const unsigned char * )s] *)
Definition first_byte (s : string) : Z :=
  match s with
  | EmptyString => 0
  | String c _ => Z.of_nat (nat_of_ascii c)
  end.

Definition at_end (s : string) : bool :=
  match s with EmptyString => true | String _ _ => false end.

Fixpoint my_strlen (str : string) : nat :=
  match str with
  | EmptyString => 0
  | String _ t => S (my_strlen t)
  end.

Fixpoint my_index (str : string) (chr : ascii) : option string :=
  match str with
  | EmptyString => None
  | String c t => if Ascii.eqb c chr then Some str else my_index t chr
  end.

Fixpoint my_strncmp (s1 s2 : string) (n : Z) : Z :=
  if n =? 0 then 0
  else match s1, s2 with
  | String a t1, String b t2 =>
      if Ascii.eqb a b then my_strncmp t1 t2 (n - 1)
      else first_byte s1 - first_byte s2
  | _, _ => first_byte s1 - first_byte s2
  end.

Definition my_strcmp (s1 s2 : string) : Z := my_strncmp s1 s2 (-1).
End strings.

(** ** Options and state *)

(** [struct option]; [flag] names the variable it points to. *)
Record option_t : Type := Option {
  name : string;
  has_arg : Z;
  flag : option string;
  val : Z
}.

Definition no_argument : Z := 0.
Definition required_argument : Z := 1.
Definition optional_argument : Z := 2.

Inductive ordering_t : Type := REQUIRE_ORDER | PERMUTE | RETURN_IN_ORDER.

#[export] Instance ordering_eq_dec : EqDecision ordering_t.
Proof. solve_decision. Defined.

Definition BAD_OPTION : Z := 0.
Definition EOF : Z := -1.

Record getopt_state : Type := GetoptState {
  argv : list string;
  optarg : option string;
  optind : nat;
  nextchar : option string;
  opterr : Z;
  optopt : Z;
  ordering : ordering_t;
  first_nonopt : nat;
  last_nonopt : nat;
  longind : Z;                 (* *longind *)
  variables : gmap string Z;   (* the variables that flags point to *)
  messages : text              (* what was written to stderr *)
}.

Definition set_argv (v : list string) (g : getopt_state) : getopt_state :=
  GetoptState v (optarg g) (optind g) (nextchar g) (opterr g) (optopt g) (ordering g)
    (first_nonopt g) (last_nonopt g) (longind g) (variables g) (messages g).
Definition set_optarg (v : option string) (g : getopt_state) : getopt_state :=
  GetoptState (argv g) v (optind g) (nextchar g) (opterr g) (optopt g) (ordering g)
    (first_nonopt g) (last_nonopt g) (longind g) (variables g) (messages g).
Definition set_optind (v : nat) (g : getopt_state) : getopt_state :=
  GetoptState (argv g) (optarg g) v (nextchar g) (opterr g) (optopt g) (ordering g)
    (first_nonopt g) (last_nonopt g) (longind g) (variables g) (messages g).
Definition set_nextchar (v : option string) (g : getopt_state) : getopt_state :=
  GetoptState (argv g) (optarg g) (optind g) v (opterr g) (optopt g) (ordering g)
    (first_nonopt g) (last_nonopt g) (longind g) (variables g) (messages g).
Definition set_optopt (v : Z) (g : getopt_state) : getopt_state :=
  GetoptState (argv g) (optarg g) (optind g) (nextchar g) (opterr g) v (ordering g)
    (first_nonopt g) (last_nonopt g) (longind g) (variables g) (messages g).
Definition set_ordering (v : ordering_t) (g : getopt_state) : getopt_state :=
  GetoptState (argv g) (optarg g) (optind g) (nextchar g) (opterr g) (optopt g) v
    (first_nonopt g) (last_nonopt g) (longind g) (variables g) (messages g).
Definition set_nonopts (f l : nat) (g : getopt_state) : getopt_state :=
  GetoptState (argv g) (optarg g) (optind g) (nextchar g) (opterr g) (optopt g) (ordering g)
    f l (longind g) (variables g) (messages g).
Definition set_longind (v : Z) (g : getopt_state) : getopt_state :=
  GetoptState (argv g) (optarg g) (optind g) (nextchar g) (opterr g) (optopt g) (ordering g)
    (first_nonopt g) (last_nonopt g) v (variables g) (messages g).
Definition set_variable (x : string) (v : Z) (g : getopt_state) : getopt_state :=
  GetoptState (argv g) (optarg g) (optind g) (nextchar g) (opterr g) (optopt g) (ordering g)
    (first_nonopt g) (last_nonopt g) (longind g) (<[x := v]> (variables g)) (messages g).
Definition add_message (t : text) (g : getopt_state) : getopt_state :=
  GetoptState (argv g) (optarg g) (optind g) (nextchar g) (opterr g) (optopt g) (ordering g)
    (first_nonopt g) (last_nonopt g) (longind g) (variables g) (messages g ++ t).

(** [optind++] *)
Definition next_arg : M getopt_state () := modify (fun g => set_optind (S (optind g)) g).

(** [argv[i]] *)
Definition arg_at (i : nat) : M getopt_state string := fun g =>
  match argv g !! i with
  | Some s => (inl s, g)
  | None => (inr HUB, g)
  end.

(** [if (opterr) fprintf(stderr, ...)] *)
Definition complain (fmt : string) (args : list arg) : M getopt_state () :=
  modify (fun g => if truth (opterr g) then add_message [(fmt, args)] g else g).

(** ** exchange *)

(** [while (first < last)], with [first] and [last] indices of [argv]; [fuel]
    bounds the number of swaps.  [None]: outside of [argv]. *)
Fixpoint reverse_loop (fuel first last : nat) (l : list string) : option (list string) :=
  match fuel with
  | O => Some l
  | S fuel' =>
      if (first <? last)%nat then
        match l !! first, l !! last with
        | Some x, Some y =>
            reverse_loop fuel' (S first) (last - 1) (<[last := x]> (<[first := y]> l))
        | _, _ => None
        end
      else Some l
  end.

(** The fuel is enough: the indices come closer with each swap. *)
Definition reverse_range (first last : nat) (l : list string) : option (list string) :=
  reverse_loop (last - first) first last l.

Definition reverse_argv (first last : nat) : M getopt_state () := fun g =>
  match reverse_range first last (argv g) with
  | Some l => (inl (), set_argv l g)
  | None => (inr HUB, g)
  end.

Definition exchange : M getopt_state () :=
  g ← gets id;
  let first := first_nonopt g in
  let first' := (first + (optind g - last_nonopt g))%nat in
  _ ← reverse_argv first (optind g - 1);
  _ ← reverse_argv first (first' - 1);
  _ ← reverse_argv first' (optind g - 1);
  modify (set_nonopts first' (optind g)).

(** ** _getopt_internal *)

(** [s + n] *)
Fixpoint advance (n : nat) (s : string) : string :=
  match n, s with
  | S k, String _ t => advance k t
  | _, _ => s
  end.

(** [*s == c], for a character other than NUL *)
Definition char_is (c : ascii) (s : string) : bool :=
  match s with
  | EmptyString => false
  | String a _ => Ascii.eqb a c
  end.

(** [s[0] == '-'] and [s[1] == '-'] *)
Definition starts_dash (s : string) : bool := char_is "-" s.
Definition second_dash (s : string) : bool := char_is "-" (advance 1 s).

(** [argv[optind][0] != '-' || argv[optind][1] == '\0'] *)
Definition nonoption (s : string) : bool := negb (starts_dash s) || at_end (advance 1 s).

(** [while ( *s && *s != '=') s++] *)
Fixpoint find_equals (s : string) : string :=
  match s with
  | EmptyString => EmptyString
  | String c t => if Ascii.eqb c "=" then s else find_equals t
  end.

(** The loop over the long options: the options that are left, the index of the
    first of them, what has been found so far and whether a second abbreviation
    was seen. *)
Inductive match_t : Type :=
| Found (p : option_t) (i : nat)
| Ambiguous
| NotFound.

Fixpoint match_long (longopts : list option_t) (option_index : nat) (nextchar : string) (len : nat)
    (pfound : option (option_t * nat)) (ambig : bool) : match_t :=
  match longopts with
  | [] =>
      if ambig then Ambiguous
      else match pfound with
           | Some (p, i) => Found p i
           | None => NotFound
           end
  | p :: t =>
      if my_strncmp (name p) nextchar (Z.of_nat len) =? 0 then
        if (len =? my_strlen (name p))%nat then Found p option_index
        else match pfound with
             | None => match_long t (S option_index) nextchar len (Some (p, option_index)) ambig
             | Some _ => match_long t (S option_index) nextchar len pfound true
             end
      else match_long t (S option_index) nextchar len pfound ambig
  end.

Section getopt.
Context `{CharSign}.
Variable posixly_correct : bool.   (* POSIXLY_CORRECT is in the environment *)
Variable argc : nat.
Variable longopts : option (list option_t).
Variable want_longind : bool.      (* longind != NULL *)
Variable long_only : bool.

(** The first call: where to start, and how operands are treated.  Returns
    [optstring], past its first character if that was a flag. *)
Definition start_scan (optstring : string) : M getopt_state string :=
  i ← gets optind;
  if negb (i =? 0)%nat then mret optstring else
  _ ← modify (fun g => set_nextchar None (set_optind 1 (set_nonopts 1 1 g)));
  if char_is "-" optstring
  then _ ← modify (set_ordering RETURN_IN_ORDER); mret (advance 1 optstring)
  else if char_is "+" optstring
  then _ ← modify (set_ordering REQUIRE_ORDER); mret (advance 1 optstring)
  else
    _ ← modify (set_ordering (if posixly_correct then REQUIRE_ORDER else PERMUTE));
    mret optstring.

(** Skip operands; [n] is the number of elements left. *)
Fixpoint skip_nonoptions (n : nat) : M getopt_state () :=
  i ← gets optind;
  if (i <? argc)%nat then
    s ← arg_at i;
    if nonoption s then
      match n with
      | O => stop HFuel
      | S n' => _ ← next_arg; skip_nonoptions n'
      end
    else mret ()
  else mret ().

(** Bring the options before the operands that were skipped, and skip more. *)
Definition permute : M getopt_state () :=
  g ← gets id;
  _ ← (if negb (first_nonopt g =? last_nonopt g)%nat && negb (last_nonopt g =? optind g)%nat
       then exchange
       else if negb (last_nonopt g =? optind g)%nat
       then modify (fun g => set_nonopts (optind g) (last_nonopt g) g)
       else mret ());
  i ← gets optind;
  _ ← skip_nonoptions (argc - i);
  modify (fun g => set_nonopts (first_nonopt g) (optind g) g).

(** The element [--] ends the options. *)
Definition end_of_options : M getopt_state () :=
  _ ← next_arg;
  g ← gets id;
  _ ← (if negb (first_nonopt g =? last_nonopt g)%nat && negb (last_nonopt g =? optind g)%nat
       then exchange
       else if (first_nonopt g =? last_nonopt g)%nat
       then modify (fun g => set_nonopts (optind g) (last_nonopt g) g)
       else mret ());
  modify (fun g => set_optind argc (set_nonopts (first_nonopt g) argc g)).

(** Go to the next element; [Some r] if the call returns [r] at once. *)
Definition next_element : M getopt_state (option Z) :=
  o ← gets ordering;
  _ ← (if bool_decide (o = PERMUTE) then permute else mret ());
  i ← gets optind;
  dashes ← (if negb (i =? argc)%nat then s ← arg_at i; mret (my_strcmp s "--" =? 0)
            else mret false);
  _ ← (if (dashes : bool) then end_of_options else mret ());
  i ← gets optind;
  if (i =? argc)%nat then
    _ ← modify (fun g => if negb (first_nonopt g =? last_nonopt g)%nat
                         then set_optind (first_nonopt g) g else g);
    mret (Some EOF)
  else
    s ← arg_at i;
    if nonoption s then
      if bool_decide (o = REQUIRE_ORDER) then mret (Some EOF)
      else _ ← modify (set_optarg (Some s)); _ ← next_arg; mret (Some 1)
    else
      let skip := if bool_decide (longopts <> None) && second_dash s then 2%nat else 1%nat in
      _ ← modify (set_nextchar (Some (advance skip s)));
      mret None.

(** [nextchar += my_strlen(nextchar)] *)
Definition nextchar_to_end : M getopt_state () := modify (set_nextchar (Some EmptyString)).

(** A long option was found; [s] points to the rest of the element, after the
    name. *)
Definition long_found (optstring : string) (p : option_t) (index : nat) (s : string)
    : M getopt_state Z :=
  _ ← next_arg;
  i ← gets optind;
  prog ← arg_at 0;
  elem ← arg_at (i - 1);
  let done : M getopt_state Z :=
    _ ← nextchar_to_end;
    _ ← (if want_longind then modify (set_longind (Z.of_nat index)) else mret ());
    match flag p with
    | Some x => _ ← modify (set_variable x (val p)); mret 0
    | None => mret (val p)
    end in
  if negb (at_end s) then
    if truth (has_arg p) then _ ← modify (set_optarg (Some (advance 1 s))); done
    else
      _ ← (if second_dash elem
           then complain "%s: option `--%s' doesn't allow an argument\n" [AStr prog; AStr (name p)]
           else complain "%s: option `%c%s' doesn't allow an argument\n"
                  [AStr prog; AInt (first_byte elem); AStr (name p)]);
      _ ← nextchar_to_end; mret BAD_OPTION
  else if has_arg p =? 1 then
    if (i <? argc)%nat then
      a ← arg_at i; _ ← modify (set_optarg (Some a)); _ ← next_arg; done
    else
      _ ← complain "%s: option `%s' requires an argument\n" [AStr prog; AStr elem];
      _ ← nextchar_to_end;
      mret (if char_is ":" optstring then char_int ":" else BAD_OPTION)
  else done.

(** The block for long options; [None]: it is a short option after all. *)
Definition long_option (optstring : string) (opts : list option_t) (next : string)
    : M getopt_state (option Z) :=
  i ← gets optind;
  elem ← arg_at i;
  prog ← arg_at 0;
  let s := find_equals next in
  match match_long opts 0 next (my_strlen next - my_strlen s) None false with
  | Ambiguous =>
      _ ← complain "%s: option `%s' is ambiguous\n" [AStr prog; AStr elem];
      _ ← nextchar_to_end; _ ← next_arg; mret (Some BAD_OPTION)
  | Found p index => r ← long_found optstring p index s; mret (Some r)
  | NotFound =>
      if negb long_only || second_dash elem ||
         match next with
         | EmptyString => true
         | String c _ => bool_decide (my_index optstring c = None)
         end
      then
        _ ← (if second_dash elem
             then complain "%s: unrecognized option `--%s'\n" [AStr prog; AStr next]
             else complain "%s: unrecognized option `%c%s'\n"
                    [AStr prog; AInt (first_byte elem); AStr next]);
        _ ← nextchar_to_end; _ ← next_arg; mret (Some BAD_OPTION)
      else mret None
  end.

(** The argument an option character takes; [rest] is what follows the character
    in its element. *)
Definition required_arg (optstring : string) (c : ascii) (rest : string) : M getopt_state Z :=
  i ← gets optind;
  prog ← arg_at 0;
  r ← (if negb (at_end rest) then
         _ ← modify (set_optarg (Some rest)); _ ← next_arg; mret (char_int c)
       else if (i =? argc)%nat then
         _ ← complain "%s: option requires an argument -- %c\n" [AStr prog; AInt (char_int c)];
         _ ← modify (set_optopt (char_int c));
         mret (if char_is ":" optstring then char_int ":" else BAD_OPTION)
       else
         a ← arg_at i; _ ← modify (set_optarg (Some a)); _ ← next_arg; mret (char_int c));
  _ ← modify (set_nextchar None);
  mret r.

(** An option character that is not listed. *)
Definition illegal (c : ascii) (prog : string) : M getopt_state Z :=
  _ ← complain "%s: illegal option -- %c\n" [AStr prog; AInt (char_int c)];
  _ ← modify (set_optopt (char_int c));
  mret BAD_OPTION.

Definition short_option (optstring next : string) : M getopt_state Z :=
  match next with
  | EmptyString => stop HUB
  | String c rest =>
      let temp := my_index optstring c in
      _ ← modify (set_nextchar (Some rest));
      _ ← (if at_end rest then next_arg else mret ());
      prog ← arg_at 0;
      match temp with
      | None => illegal c prog
      | Some t =>
          if Ascii.eqb c ":" then illegal c prog
          else if char_is ":" (advance 1 t) then
            if char_is ":" (advance 2 t) then
              _ ← (if negb (at_end rest)
                   then _ ← modify (set_optarg (Some rest)); next_arg
                   else modify (set_optarg None));
              _ ← modify (set_nextchar None);
              mret (char_int c)
            else required_arg optstring c rest
          else mret (char_int c)
      end
  end.

(** Decode the element [nextchar] points into. *)
Definition decode (optstring : string) : M getopt_state Z :=
  n ← gets nextchar;
  match n with
  | None => stop HUB
  | Some next =>
      r ← match longopts with
          | None => mret None
          | Some opts =>
              i ← gets optind;
              elem ← arg_at i;
              if starts_dash elem && (second_dash elem || long_only)
              then long_option optstring opts next
              else mret None
          end;
      match (r : option Z) with
      | Some z => mret z
      | None => short_option optstring next
      end
  end.

Definition _getopt_internal (optstring : string) : M getopt_state Z :=
  _ ← modify (set_optarg None);
  optstring ← start_scan optstring;
  n ← gets nextchar;
  r ← (if match n with None => true | Some p => at_end p end then next_element else mret None);
  match (r : option Z) with
  | Some z => mret z
  | None => decode optstring
  end.
End getopt.

Section calls.
Context `{CharSign}.
Variable posixly_correct : bool.

Definition getopt (argc : nat) (optstring : string) : M getopt_state Z :=
  _getopt_internal posixly_correct argc None false false optstring.

Definition getopt_long (argc : nat) (options : string) (long_options : list option_t)
    : M getopt_state Z :=
  _getopt_internal posixly_correct argc (Some long_options) true false options.
End calls.

(** ** exchange rotates *)

Lemma reverse_loop_app fuel pre mid post :
  (length mid - 1 <= fuel)%nat ->
  reverse_loop fuel (length pre) (length pre + length mid - 1) (pre ++ mid ++ post) =
  Some (pre ++ reverse mid ++ post).
Proof.
  revert pre mid post. induction fuel as [|fuel IH]; intros pre mid post Hf.
  { destruct mid as [|x [|y mid]]; [done | done | simpl in Hf; lia]. }
  destruct mid as [|x mid]; [simpl; destruct (Nat.ltb_spec (length pre) (length pre + 0 - 1)); [lia | done] |].
  destruct mid as [|y mid _] using rev_ind.
  { simpl. destruct (Nat.ltb_spec (length pre) (length pre + 1 - 1)); [lia | done]. }
  simpl. rewrite length_app. simpl.
  destruct (Nat.ltb_spec (length pre) (length pre + S (length mid + 1) - 1)); [| lia].
  replace (length pre + S (length mid + 1) - 1)%nat with (length (pre ++ x :: mid))
    by (rewrite length_app; simpl; lia).
  rewrite list_lookup_middle by done.
  replace (pre ++ x :: (mid ++ [y]) ++ post) with ((pre ++ x :: mid) ++ y :: post)
    by (rewrite <-!app_assoc; done).
  rewrite list_lookup_middle by done.
  rewrite <-(app_assoc pre), <-app_comm_cons.
  replace (<[length pre := y]> (pre ++ x :: mid ++ y :: post))
    with ((pre ++ y :: mid) ++ y :: post) by (by rewrite insert_app_r_alt, Nat.sub_diag by done; simpl; rewrite <-app_assoc).
  rewrite (insert_app_r_alt (pre ++ y :: mid)) by (rewrite !length_app; simpl; lia).
  replace (length (pre ++ x :: mid) - length (pre ++ y :: mid))%nat with 0%nat
    by (rewrite !length_app; simpl; lia). simpl.
  replace (S (length pre)) with (length (pre ++ [y])) by (rewrite length_app; simpl; lia).
  replace (length (pre ++ x :: mid) - 1)%nat with (length (pre ++ [y]) + length mid - 1)%nat
    by (rewrite !length_app; simpl; lia).
  replace ((pre ++ y :: mid) ++ x :: post) with ((pre ++ [y]) ++ mid ++ x :: post)
    by (by rewrite <-!app_assoc).
  rewrite IH by (simpl in Hf; rewrite length_app in Hf; simpl in Hf; lia).
  f_equal. rewrite reverse_cons, reverse_app. simpl. by rewrite <-!app_assoc.
Qed.

Lemma reverse_range_app pre mid post :
  reverse_range (length pre) (length pre + length mid - 1) (pre ++ mid ++ post) =
  Some (pre ++ reverse mid ++ post).
Proof. apply reverse_loop_app. lia. Qed.

Lemma exchange_rotates g pre nons opts post :
  argv g = pre ++ nons ++ opts ++ post -> first_nonopt g = length pre ->
  last_nonopt g = (length pre + length nons)%nat ->
  optind g = (length pre + length nons + length opts)%nat ->
  exchange g = (inl (), set_nonopts (length pre + length opts) (optind g)
    (set_argv (pre ++ opts ++ nons ++ post) g)).
Proof.
  intros Ha Hf Hl Ho. unfold exchange, reverse_argv.
  rewrite (bind_done (gets id) _ g g g) by done. unfold id. rewrite Hf, Hl.
  replace (length pre + (optind g - (length pre + length nons)))%nat
    with (length pre + length opts)%nat by lia.
  assert (reverse_range (length pre) (optind g - 1) (argv g) =
    Some (pre ++ reverse (nons ++ opts) ++ post)) as E1.
  { rewrite Ha, Ho, (app_assoc nons). replace (length pre + length nons + length opts - 1)%nat
      with (length pre + length (nons ++ opts) - 1)%nat by (rewrite length_app; lia).
    apply reverse_range_app. }
  rewrite reverse_app, <-app_assoc in E1.
  assert (reverse_range (length pre) (length pre + length opts - 1)
    (pre ++ reverse opts ++ reverse nons ++ post) = Some (pre ++ opts ++ reverse nons ++ post)) as E2.
  { rewrite <-(length_reverse opts), reverse_range_app. by rewrite reverse_involutive. }
  assert (reverse_range (length pre + length opts) (optind g - 1)
    (pre ++ opts ++ reverse nons ++ post) = Some (pre ++ opts ++ nons ++ post)) as E3.
  { rewrite (app_assoc pre opts), <-length_app, Ho.
    replace (length pre + length nons + length opts - 1)%nat
      with (length (pre ++ opts) + length (reverse nons) - 1)%nat
      by (rewrite length_app, length_reverse; lia).
    rewrite reverse_range_app, reverse_involutive. by rewrite <-app_assoc. }
  unfold mbind, M_bind, modify. rewrite E1. cbn [argv set_argv]. rewrite E2.
  cbn [argv set_argv]. by rewrite E3.
Qed.

(** ** Finding a long option *)

(** A C string has no NUL inside. *)
Fixpoint no_nul (s : string) : Prop :=
  match s with
  | EmptyString => True
  | String c t => first_byte s <> 0 /\ no_nul t
  end.

Lemma first_byte_inj a b t1 t2 : first_byte (String a t1) = first_byte (String b t2) -> a = b.
Proof.
  simpl. intros E. rewrite <-(ascii_nat_embedding a), <-(ascii_nat_embedding b).
  f_equal. lia.
Qed.

(** A comparison of as many characters as [w] has tests for the prefix [w]. *)
Lemma my_strncmp_prefix w nm s :
  no_nul w -> (my_strncmp nm (w +:+ s) (Z.of_nat (my_strlen w)) =? 0) = String.prefix w nm.
Proof.
  revert nm. induction w as [|b w IH]; intros nm Hw; cbn [my_strlen].
  { by destruct nm. }
  destruct Hw as [Hb Hw]. change (String b w +:+ s) with (String b (w +:+ s)).
  destruct nm as [|a nm]; cbn [my_strncmp].
  - destruct (Z.eqb_spec (Z.of_nat (S (my_strlen w))) 0); [lia |]. cbn [String.prefix].
    apply Z.eqb_neq. simpl in *. lia.
  - destruct (Z.eqb_spec (Z.of_nat (S (my_strlen w))) 0); [lia |]. cbn [String.prefix].
    destruct (Ascii.eqb_spec a b) as [->|Hab].
    + destruct (ascii_dec b b); [| done].
      replace (Z.of_nat (S (my_strlen w)) - 1) with (Z.of_nat (my_strlen w)) by lia. by apply IH.
    + destruct (ascii_dec b a); [congruence |]. apply Z.eqb_neq. intros E.
      apply Hab, (first_byte_inj _ _ nm (w +:+ s)). lia.
Qed.

Lemma prefix_strlen_eq w nm :
  String.prefix w nm = true -> my_strlen w = my_strlen nm <-> w = nm.
Proof.
  revert nm. induction w as [|a w IH]; intros [|b nm] P; simpl in *; try done.
  destruct (ascii_dec a b) as [->|]; [| done]. destruct (IH nm P). split; intros E.
  - f_equal. auto.
  - f_equal. injection E. auto.
Qed.

Lemma prefix_refl w : String.prefix w w = true.
Proof. induction w as [|a w IH]; [done |]. simpl. by destruct (ascii_dec a a). Qed.

(** An option that [w] may stand for. *)
Definition abbreviates (w : string) (p : option_t) : Prop := String.prefix w (name p) = true.

(** What the search should return for the name [w]. *)
Definition match_ok (w : string) (opts : list option_t) (r : match_t) : Prop :=
  match r with
  | Found p i =>
      opts !! i = Some p /\ abbreviates w p /\
      (name p = w /\ (forall j q, (j < i)%nat -> opts !! j = Some q -> name q <> w) \/
       (forall j q, opts !! j = Some q -> abbreviates w q -> j = i))
  | Ambiguous =>
      (forall j q, opts !! j = Some q -> name q <> w) /\
      exists i j p q, i <> j /\ opts !! i = Some p /\ opts !! j = Some q /\
        abbreviates w p /\ abbreviates w q
  | NotFound => forall j q, opts !! j = Some q -> ~ abbreviates w q
  end.

(** What the loop knows about the options it has passed. *)
Definition seen_ok (w : string) (seen : list option_t) (pfound : option (option_t * nat))
    (ambig : bool) : Prop :=
  (forall j q, seen !! j = Some q -> name q <> w) /\
  match pfound with
  | None => ambig = false /\ forall j q, seen !! j = Some q -> ~ abbreviates w q
  | Some (p, i) =>
      seen !! i = Some p /\ abbreviates w p /\
      if ambig then exists j q, i <> j /\ seen !! j = Some q /\ abbreviates w q
      else forall j q, seen !! j = Some q -> abbreviates w q -> j = i
  end.

Lemma lookup_snoc_cases {A} (l : list A) x j q :
  (l ++ [x]) !! j = Some q -> l !! j = Some q \/ j = length l /\ q = x.
Proof.
  intros E. apply lookup_snoc_Some in E as [[_ E]|[E <-]]; auto.
Qed.

Lemma seen_ok_skip w seen pfound ambig p :
  ~ abbreviates w p -> seen_ok w seen pfound ambig -> seen_ok w (seen ++ [p]) pfound ambig.
Proof.
  intros Hp [Hn Hs]. split.
  - intros j q E. apply lookup_snoc_cases in E as [E|[_ ->]]; [by eapply Hn |].
    intros <-. apply Hp, prefix_refl.
  - destruct pfound as [[p0 i]|].
    + destruct Hs as (E & A & Hs). split; [by apply lookup_app_l_Some |]. split; [done |].
      destruct ambig.
      * destruct Hs as (j & q & Hij & Eq & Aq). exists j, q. split; [done |].
        split; [by apply lookup_app_l_Some | done].
      * intros j q Eq Aq. apply lookup_snoc_cases in Eq as [Eq|[_ ->]]; [by eapply Hs | done].
    + destruct Hs as [-> Hs]. split; [done |]. intros j q Eq.
      apply lookup_snoc_cases in Eq as [Eq|[_ ->]]; [by eapply Hs | done].
Qed.

Lemma seen_ok_abbrev w seen pfound ambig p :
  abbreviates w p -> name p <> w -> seen_ok w seen pfound ambig ->
  seen_ok w (seen ++ [p])
    (match pfound with None => Some (p, length seen) | Some _ => pfound end)
    (match pfound with None => ambig | Some _ => true end).
Proof.
  intros Ap Hne [Hn Hs]. split.
  { intros j q E. apply lookup_snoc_cases in E as [E|[_ ->]]; [by eapply Hn | done]. }
  destruct pfound as [[p0 i]|].
  - destruct Hs as (E & A & _). split; [by apply lookup_app_l_Some |]. split; [done |].
    exists (length seen), p. split; [apply lookup_lt_Some in E; lia |].
    split; [by apply list_lookup_middle | done].
  - destruct Hs as [-> Hs]. split; [by apply list_lookup_middle |]. split; [done |].
    intros j q Eq Aq. apply lookup_snoc_cases in Eq as [Eq|[-> _]]; [by destruct (Hs _ _ Eq) | done].
Qed.

Lemma match_long_ok w s seen opts pfound ambig :
  no_nul w -> seen_ok w seen pfound ambig ->
  match_ok w (seen ++ opts)
    (match_long opts (length seen) (w +:+ s) (my_strlen w) pfound ambig).
Proof.
  intros Hw. revert seen pfound ambig. induction opts as [|p opts IH]; intros seen pfound ambig Hs.
  - rewrite app_nil_r. destruct Hs as [Hn Hs]. simpl.
    destruct ambig, pfound as [[p0 i]|]; simpl; naive_solver.
  - cbn [match_long]. rewrite my_strncmp_prefix by done.
    rewrite (app_assoc seen [p] opts : seen ++ p :: opts = (seen ++ [p]) ++ opts).
    replace (S (length seen)) with (length (seen ++ [p])) by (rewrite length_app; simpl; lia).
    destruct (String.prefix w (name p)) eqn:P.
    + destruct (Nat.eqb_spec (my_strlen w) (my_strlen (name p))) as [E|E].
      * apply prefix_strlen_eq in E; [| done]. simpl.
        assert (((seen ++ [p]) ++ opts) !! length seen = Some p) as L.
        { rewrite <-app_assoc. by apply list_lookup_middle. }
        split; [done |]. split; [done |]. left. split; [done |]. intros j q Hj Eq.
        rewrite <-app_assoc, lookup_app_l in Eq by done. by eapply (proj1 Hs).
      * assert (name p <> w) as Hne by (intros Q; by rewrite Q in E).
        pose proof (seen_ok_abbrev w seen pfound ambig p P Hne Hs) as K.
        destruct pfound; by apply IH.
    + apply IH, seen_ok_skip; [| done]. unfold abbreviates. by rewrite P.
Qed.

(** The name in an element is what comes before the equals sign. *)
Fixpoint before_equals (s : string) : string :=
  match s with
  | EmptyString => EmptyString
  | String c t => if Ascii.eqb c "=" then EmptyString else String c (before_equals t)
  end.

Lemma split_equals s : s = before_equals s +:+ find_equals s.
Proof.
  induction s as [|c t IH]; [done |]. simpl. destruct (Ascii.eqb c "="); [done |].
  change (String c t = String c (before_equals t +:+ find_equals t)). by rewrite <-IH.
Qed.

Lemma my_strlen_app s t : my_strlen (s +:+ t) = (my_strlen s + my_strlen t)%nat.
Proof. induction s as [|c s IH]; [done |]. simpl. f_equal. exact IH. Qed.

Lemma before_equals_strlen s :
  (my_strlen s - my_strlen (find_equals s))%nat = my_strlen (before_equals s).
Proof. rewrite (split_equals s) at 1. rewrite my_strlen_app. lia. Qed.

Lemma no_nul_before s : no_nul s -> no_nul (before_equals s).
Proof.
  induction s as [|c t IH]; [done |]. intros [H1 H2]. simpl.
  destruct (Ascii.eqb c "="); [done |]. split; [done | auto].
Qed.

(** ** Properties *)

(** C17: which long option an element means: the first with exactly the name
    that comes before the equals sign; otherwise the only one that the name
    abbreviates; if the name abbreviates several it is ambiguous, and if it
    abbreviates none there is no such option. *)
Theorem long_option_search (opts : list option_t) (next : string) :
  no_nul next ->
  match_ok (before_equals next) opts
    (match_long opts 0 next (my_strlen next - my_strlen (find_equals next)) None false).
Proof.
  intros Hn. rewrite before_equals_strlen. rewrite (split_equals next) at 2.
  apply (match_long_ok _ _ []); [by apply no_nul_before |].
  split; [intros j q E; by rewrite lookup_nil in E |]. split; [done |].
  intros j q E. by rewrite lookup_nil in E.
Qed.

Lemma long_option_search_witness :
  let opts := [Option "host" 1 None 104; Option "help" 0 None 63; Option "he" 0 None 1]%string in
  match_ok "he" opts (Found (Option "he" 0 None 1) 2).
Proof.
  intros opts. apply (long_option_search opts "he=x"). repeat split; vm_compute; congruence.
Defined.
