(* ===== verification/GetoptSpec.v ===== *)
(** * What scanning options means

    A reference for [getopt_long] with the default treatment of operands: the
    function [parse] reads the arguments once, from left to right, and returns
    the sequence of options with their arguments, the elements that belong to
    options and the operands.  The theorem says that calling [getopt_long] until
    it returns EOF yields this sequence, and permutes [argv] into options
    followed by operands. *)

From Stdlib Require Import Ascii.
From stdpp Require Import gmap.
From S2P Require Import Prelude Arch Getopt.

(** What one call returns: its value, [optarg], and the variable it sets. *)
Record opt_event : Type := OptEvent {
  ev_ret : Z;
  ev_arg : option string;
  ev_set : option (string * Z)
}.

Section reference.
Context `{CharSign}.
Variable optstring : string.
Variable opts : list option_t.

(** The value returned when an argument is missing. *)
Definition missing : Z :=
  if char_is ":" optstring then char_int ":" else BAD_OPTION.

Definition found_event (p : option_t) (arg : option string) : opt_event :=
  match flag p with
  | Some x => OptEvent 0 arg (Some (x, val p))
  | None => OptEvent (val p) arg None
  end.

Definition bad_event : opt_event := OptEvent BAD_OPTION None None.

(** A long option, given without its dashes, and the next element; [true] if it
    takes that element as its argument. *)
Definition long_event (body : string) (next : option string) : opt_event * bool :=
  match match_long opts 0 body (my_strlen (before_equals body)) None false with
  | Found p _ =>
      match find_equals body with
      | String _ arg => (if truth (has_arg p) then found_event p (Some arg) else bad_event, false)
      | EmptyString =>
          if has_arg p =? 1 then
            match next with
            | Some y => (found_event p (Some y), true)
            | None => (OptEvent missing None None, false)
            end
          else (found_event p None, false)
      end
  | Ambiguous | NotFound => (bad_event, false)
  end.

(** How a character is listed in [optstring]. *)
Inductive kind : Type := Unknown | Plain | Required | Optional.

Definition kind_of (c : ascii) : kind :=
  match my_index optstring c with
  | None => Unknown
  | Some t =>
      if Ascii.eqb c ":" then Unknown
      else if char_is ":" (advance 1 t)
      then if char_is ":" (advance 2 t) then Optional else Required
      else Plain
  end.

(** The option characters of an element. *)
Fixpoint cluster (body : string) (next : option string) : list opt_event * bool :=
  match body with
  | EmptyString => ([], false)
  | String c rest =>
      let event arg := OptEvent (char_int c) arg None in
      match kind_of c with
      | Unknown => let '(l, b) := cluster rest next in (bad_event :: l, b)
      | Plain => let '(l, b) := cluster rest next in (event None :: l, b)
      | Optional => ([event (if at_end rest then None else Some rest)], false)
      | Required =>
          if negb (at_end rest) then ([event (Some rest)], false)
          else match next with
               | Some y => ([event (Some y)], true)
               | None => ([OptEvent missing None None], false)
               end
      end
  end.

Definition element (x : string) (next : option string) : list opt_event * bool :=
  if second_dash x then let '(e, b) := long_event (advance 2 x) next in ([e], b)
  else cluster (advance 1 x) next.

(** The whole command line: what the calls return, the elements that belong to
    options, and the operands. *)
Fixpoint parse (args : list string) : list opt_event * (list string * list string) :=
  match args with
  | [] => ([], ([], []))
  | x :: t =>
      if String.eqb x "--" then ([], ([x], t))
      else if nonoption x then let '(e, (o, n)) := parse t in (e, (o, x :: n))
      else
        let '(l, b) := element x (head t) in
        match t with
        | y :: t' =>
            if b then let '(e, (o, n)) := parse t' in (l ++ e, (x :: y :: o, n))
            else let '(e, (o, n)) := parse t in (l ++ e, (x :: o, n))
        | [] => (l, ([x], []))
        end
  end.
End reference.

(** Call [getopt_long] until it returns EOF, and collect what it returned;
    [fuel] bounds the number of calls. *)
Fixpoint getopt_run `{CharSign} (posixly_correct : bool) (argc : nat) (optstring : string)
    (opts : list option_t) (fuel : nat) : M getopt_state (list (Z * option string)) :=
  match fuel with
  | O => stop HFuel
  | S fuel' =>
      c ← getopt_long posixly_correct argc optstring opts;
      if c =? EOF then mret []
      else
        a ← gets optarg;
        l ← getopt_run posixly_correct argc optstring opts fuel';
        mret ((c, a) :: l)
  end.

(** ** Helper lemmas *)

Lemma my_strcmp_eqb s t : no_nul s -> no_nul t -> (my_strcmp s t =? 0) = String.eqb s t.
Proof.
  unfold my_strcmp. assert (-1 < 0) as Hn by lia. revert Hn. generalize (-1) as n.
  revert t. induction s as [|a s IH]; intros t n Hn Hs Ht.
  - destruct t as [|b t]; cbn [my_strncmp String.eqb];
      (destruct (Z.eqb_spec n 0); [lia |]); [done |].
    apply Z.eqb_neq. destruct Ht as [Ht _]. simpl in *. lia.
  - destruct Hs as [Ha Hs]. destruct t as [|b t]; cbn [my_strncmp];
      (destruct (Z.eqb_spec n 0); [lia |]).
    + simpl in *. apply Z.eqb_neq. lia.
    + destruct Ht as [Hb Ht]. cbn [String.eqb]. destruct (Ascii.eqb_spec a b) as [->|Hab].
      * apply IH; [lia | done | done].
      * apply Z.eqb_neq. intros E. apply Hab, (first_byte_inj _ _ s t). lia.
Qed.

Lemma no_nul_dashes : no_nul "--".
Proof. repeat split; vm_compute; congruence. Qed.

Lemma arg_at_ok i s g : argv g !! i = Some s -> arg_at i g = (inl s, g).
Proof. intros E. unfold arg_at. by rewrite E. Qed.

Lemma wp_arg_at i s g (Q : string -> getopt_state -> Prop) :
  argv g !! i = Some s -> Q s g -> wp (arg_at i) g Q.
Proof. intros E HQ. by eapply wp_done; [apply arg_at_ok |]. Qed.

(** Messages are the only effect of [complain]. *)
Lemma complain_eq fmt args g :
  exists t, complain fmt args g = (inl (), add_message t g).
Proof.
  unfold complain, modify. destruct (truth (opterr g)); [by eexists |].
  exists []. f_equal. destruct g. unfold add_message. simpl. by rewrite app_nil_r.
Qed.

Lemma wp_complain fmt args g (Q : () -> getopt_state -> Prop) :
  (forall t, Q () (add_message t g)) -> wp (complain fmt args) g Q.
Proof. intros HQ. destruct (complain_eq fmt args g) as [t E]. by eapply wp_done. Qed.

(** ** The state between calls *)

Section correct.
Context `{CharSign}.
Variables (optstring : string) (opts : list option_t) (prog : string) (argc : nat).

(** [argv] is the program name, options that are in place, operands that were
    skipped, options seen since then, and the rest. *)
Record located (g : getopt_state) (D N R rest : list string) : Prop := {
  lo_argv : argv g = prog :: D ++ N ++ R ++ rest;
  lo_first : first_nonopt g = S (length D);
  lo_last : last_nonopt g = S (length D + length N);
  lo_optind : optind g = S (length D + length N + length R);
  lo_ordering : ordering g = PERMUTE;
  lo_argc : argc = S (length D + length N + length R + length rest);
  lo_no_nul : Forall no_nul rest
}.

Lemma located_lookup g D N R x rest :
  located g D N R (x :: rest) -> argv g !! optind g = Some x.
Proof.
  intros []. rewrite lo_argv0, lo_optind0. cbn [lookup list_lookup].
  rewrite !app_assoc. apply list_lookup_middle. rewrite !length_app. lia.
Qed.

Lemma located_prog g D N R rest : located g D N R rest -> argv g !! 0%nat = Some prog.
Proof. intros []. by rewrite lo_argv0. Qed.

Lemma located_more g D N R x rest : located g D N R (x :: rest) -> (optind g < argc)%nat.
Proof. intros []. rewrite lo_optind0, lo_argc0. simpl. lia. Qed.

Lemma located_end g D N R : located g D N R [] -> optind g = argc.
Proof. intros []. rewrite lo_optind0, lo_argc0. simpl. lia. Qed.

(** The next element belongs to the options. *)
Lemma located_take g g' D N R x rest :
  located g D N R (x :: rest) ->
  argv g' = argv g -> first_nonopt g' = first_nonopt g -> last_nonopt g' = last_nonopt g ->
  ordering g' = ordering g -> optind g' = S (optind g) ->
  located g' D N (R ++ [x]) rest.
Proof.
  intros [] Ea Ef El Eo Ei. split; try congruence.
  - by rewrite Ea, lo_argv0, <-app_assoc.
  - rewrite Ei, lo_optind0, length_app. simpl. lia.
  - rewrite lo_argc0, length_app. simpl. lia.
  - by inversion lo_no_nul0.
Qed.

Lemma located_same g g' D N R rest :
  located g D N R rest ->
  argv g' = argv g -> first_nonopt g' = first_nonopt g -> last_nonopt g' = last_nonopt g ->
  ordering g' = ordering g -> optind g' = optind g -> located g' D N R rest.
Proof. intros [] ? ? ? ? ?. split; congruence. Qed.

(** ** Going to the next element *)

Lemma skip_nonoptions_ok n g A rest :
  argv g = A ++ rest -> optind g = length A -> argc = length (A ++ rest) ->
  (length rest <= n)%nat ->
  exists N rest', rest = N ++ rest' /\ Forall (fun x => nonoption x = true) N /\
    match rest' with [] => True | x :: _ => nonoption x = false end /\
    skip_nonoptions argc n g = (inl (), set_optind (optind g + length N) g).
Proof.
  revert g A rest. induction n as [|n IH]; intros g A rest Ha Hi Hc Hn.
  - destruct rest; [| simpl in Hn; lia]. exists [], []. split_and!; try done.
    rewrite Nat.add_0_r. simpl. unfold mbind, M_bind, gets. rewrite Hc, Hi, app_nil_r.
    destruct (Nat.ltb_spec (length A) (length A)); [lia |]. rewrite <-Hi. by destruct g.
  - cbn [skip_nonoptions]. rewrite (bind_done (gets optind) _ g (optind g) g) by done.
    rewrite Hc, length_app. destruct rest as [|x rest].
    + exists [], []. split_and!; try done. rewrite Hi. simpl.
      destruct (Nat.ltb_spec (length A) (length A + 0)); [lia |].
      rewrite Nat.add_0_r, <-Hi. by destruct g.
    + destruct (Nat.ltb_spec (optind g) (length A + length (x :: rest))); [| simpl in *; lia].
      rewrite (bind_done _ _ _ _ _ (arg_at_ok (optind g) x g
        ltac:(by rewrite Ha, Hi; apply list_lookup_middle))).
      destruct (nonoption x) eqn:Hx.
      * destruct (IH (set_optind (S (optind g)) g) (A ++ [x]) rest) as (N & rest' & E & F & Hh & S1).
        { simpl. by rewrite Ha, <-app_assoc. }
        { simpl. rewrite length_app, Hi. simpl. lia. }
        { by rewrite <-app_assoc. }
        { simpl in Hn. lia. }
        exists (x :: N), rest'. split; [by rewrite E |]. split; [by constructor |]. split; [done |].
        rewrite <-length_app, <-Hc. unfold next_arg. rewrite (bind_done (modify _) _ _ () _ eq_refl), S1. simpl.
        by rewrite Nat.add_succ_r.
      * exists [], (x :: rest). split_and!; try done. rewrite Nat.add_0_r. by destruct g.
Qed.

(** What [permute] does: options seen lately come before the operands, and
    further operands are skipped. *)
Lemma permute_ok g D N R rest :
  located g D N R rest ->
  exists N' rest' g', rest = N' ++ rest' /\ Forall (fun x => nonoption x = true) N' /\
    match rest' with [] => True | x :: _ => nonoption x = false end /\
    permute argc g = (inl (), g') /\ located g' (D ++ R) (N ++ N') [] rest' /\
    variables g' = variables g /\ optarg g' = optarg g.
Proof.
  intros L. unfold permute. rewrite (bind_done (gets id) _ g g g) by done. unfold id.
  set (m1 := if negb _ && negb _ then _ else _).
  assert (exists g1, m1 g = (inl (), g1) /\ argv g1 = (prog :: (D ++ R) ++ N) ++ rest /\
    first_nonopt g1 = S (length (D ++ R)) /\ optind g1 = optind g /\ ordering g1 = PERMUTE /\
    variables g1 = variables g /\ optarg g1 = optarg g) as (g1 & E1 & A1 & F1 & I1 & O1 & V1 & G1).
  { unfold m1. destruct L. rewrite lo_first0, lo_last0, lo_optind0, length_app.
    destruct (Nat.eqb_spec (S (length D)) (S (length D + length N))) as [HN|HN]; cbn [negb andb].
    - assert (N = []) as -> by (apply nil_length_inv; lia). simpl.
      destruct (Nat.eqb_spec (length D + 0) (length D + 0 + length R)) as [HR|HR]; cbn [negb].
      + assert (R = []) as -> by (apply nil_length_inv; lia). exists g. rewrite !app_nil_r.
        split_and!; try done; simpl; lia.
      + eexists. split; [reflexivity |]. simpl. rewrite lo_argv0, lo_optind0, app_nil_r, <-app_assoc.
        split_and!; try done; simpl; lia.
    - destruct (Nat.eqb_spec (S (length D + length N)) (S (length D + length N + length R)))
        as [HR|HR]; cbn [negb].
      + assert (R = []) as -> by (apply nil_length_inv; lia). exists g. rewrite !app_nil_r.
        split_and!; try done; [rewrite lo_argv0; simpl; by rewrite <-app_assoc | simpl; lia].
      + eexists. split; [apply (exchange_rotates g (prog :: D) N R rest); simpl; lia || done |].
        simpl. split_and!; try done. by rewrite <-!app_assoc. }
  rewrite (bind_done _ _ _ _ _ E1). rewrite (bind_done (gets optind) _ g1 (optind g1) g1) by done.
  assert (optind g1 = length (prog :: (D ++ R) ++ N)) as I1'.
  { rewrite I1. destruct L. rewrite lo_optind0. simpl. rewrite !length_app. lia. }
  assert (argc = length ((prog :: (D ++ R) ++ N) ++ rest)) as C1.
  { destruct L. rewrite lo_argc0. simpl. rewrite !length_app. lia. }
  destruct (skip_nonoptions_ok (argc - optind g1) g1 _ rest A1 I1' C1) as (N' & rest' & E & F & Hh & S1).
  { rewrite C1, length_app, I1'. lia. }
  exists N', rest'. rewrite (bind_done _ _ _ _ _ S1). eexists.
  split; [done |]. split; [done |]. split; [done |]. split; [reflexivity |].
  split; [| done]. destruct L.
  split; simpl; rewrite ?A1, ?E, ?I1', ?F1, ?length_app; simpl; rewrite ?length_app; try done; try lia.
  - by rewrite <-!app_assoc.
  - rewrite C1, E, !length_app. simpl. rewrite !length_app. lia.
  - rewrite E in lo_no_nul0. by apply Forall_app in lo_no_nul0 as [_ ?].
Qed.

Lemma parse_operands N rest :
  Forall (fun x => nonoption x = true) N ->
  parse optstring opts (N ++ rest) =
  let '(e, (o, n)) := parse optstring opts rest in (e, (o, N ++ n)).
Proof.
  induction 1 as [|x N Hx _ IH]; simpl; [by destruct (parse optstring opts rest) as [e [o n]] |].
  destruct (String.eqb_spec x "--") as [->|_]; [done |].
  rewrite Hx, IH. by destruct (parse optstring opts rest) as [e [o n]].
Qed.

(** Scanning is over: options, then operands. *)
Definition finished (O Nn : list string) (g : getopt_state) : Prop :=
  argv g = prog :: O ++ Nn /\ optind g = S (length O).

Lemma end_of_options_ok g D N x rest :
  located g D N [] (x :: rest) ->
  exists g', end_of_options argc g = (inl (), g') /\
    argv g' = prog :: (D ++ [x]) ++ N ++ rest /\ optind g' = argc /\
    first_nonopt g' = S (length (D ++ [x])) /\ last_nonopt g' = argc /\
    variables g' = variables g /\ optarg g' = optarg g.
Proof.
  intros L. unfold end_of_options, next_arg. rewrite (bind_done (modify _) _ _ () _ eq_refl).
  set (g1 := set_optind _ g).
  assert (located g1 D N [x] rest) as L1 by (by apply (located_take g g1 D N [] x rest)).
  rewrite (bind_done (gets id) _ g1 g1 g1) by done. unfold id.
  set (m1 := if negb _ && negb _ then _ else _).
  assert (exists g2, m1 g1 = (inl (), g2) /\ argv g2 = prog :: (D ++ [x]) ++ N ++ rest /\
    first_nonopt g2 = S (length (D ++ [x])) /\ variables g2 = variables g /\ optarg g2 = optarg g)
    as (g2 & E2 & A2 & F2 & V2 & G2).
  { unfold m1. pose proof L1 as []. rewrite lo_first0, lo_last0, lo_optind0, length_app.
    destruct (Nat.eqb_spec (S (length D)) (S (length D + length N))) as [HN|HN]; cbn [negb andb].
    - assert (N = []) as -> by (apply nil_length_inv; lia).
      eexists. split; [reflexivity |]. cbn [argv first_nonopt variables optarg set_nonopts].
      rewrite lo_argv0, lo_optind0, <-app_assoc. simpl. split_and!; try done. lia.
    - destruct (Nat.eqb_spec (S (length D + length N)) (S (length D + length N + length [x])))
        as [HR|HR]; [simpl in HR; lia |]; cbn [negb].
      eexists. split; [apply (exchange_rotates g1 (prog :: D) N [x] rest); simpl; lia || done |].
      simpl. rewrite <-app_assoc. done. }
  rewrite (bind_done _ _ _ _ _ E2). eexists. split; [reflexivity |]. done.
Qed.

(** What is pending once [nextchar] points into the first element of the rest. *)
Definition body_events (x body : string) (next : option string) : list opt_event * bool :=
  if second_dash x then let '(e, b) := long_event optstring opts body next in ([e], b)
  else cluster optstring body next.

Definition after (x : string) (t : list string) (r : list opt_event * bool)
    : list opt_event * (list string * list string) :=
  let '(l, b) := r in
  match t with
  | y :: t' =>
      if b then let '(e, (o, n)) := parse optstring opts t' in (l ++ e, (x :: y :: o, n))
      else let '(e, (o, n)) := parse optstring opts t in (l ++ e, (x :: o, n))
  | [] => (l, ([x], []))
  end.

Lemma parse_option x t :
  nonoption x = false -> x <> "--"%string ->
  parse optstring opts (x :: t) =
  after x t (body_events x (advance (if second_dash x then 2 else 1) x) (head t)).
Proof.
  intros Hx Hd. cbn [parse]. destruct (String.eqb_spec x "--"); [done |]. rewrite Hx.
  unfold element, body_events, after. destruct (second_dash x).
  - destruct (long_event optstring opts (advance 2 x) (head t)) as [e b]. by destruct t.
  - destruct (cluster optstring (advance 1 x) (head t)) as [e b]. by destruct t.
Qed.

(** Inside the element [x] of the rest [x :: t]: [p] is what is left of it. *)
Definition inside (x p : string) : Prop :=
  nonoption x = false /\ at_end p = false.

Lemma nonoption_false x : nonoption x = false -> starts_dash x = true /\ at_end (advance 1 x) = false.
Proof.
  unfold nonoption. intros E. apply orb_false_iff in E as [E1 E2].
  by apply negb_false_iff in E1.
Qed.

Lemma inside_start x :
  nonoption x = false -> x <> "--"%string ->
  inside x (advance (if second_dash x then 2 else 1) x).
Proof.
  intros Hx Hd. split; [done |]. destruct (nonoption_false x Hx) as [H1 H2].
  destruct (second_dash x) eqn:E; [| done].
  destruct x as [|a [|b [|c x]]]; try done. exfalso. apply Hd.
  unfold second_dash, starts_dash, char_is in *. simpl in *.
  apply Ascii.eqb_eq in H1 as ->. by apply Ascii.eqb_eq in E as ->.
Qed.

(** The end of the command line: [optind] goes back to the operands. *)
Lemma next_element_end g D N :
  located g D N [] [] ->
  finished D N (if negb (first_nonopt g =? last_nonopt g)%nat then set_optind (first_nonopt g) g else g).
Proof.
  intros L. pose proof (located_end _ _ _ _ L) as Hend. destruct L. rewrite lo_first0, lo_last0.
  destruct (Nat.eqb_spec (S (length D)) (S (length D + length N))) as [HN|HN]; cbn [negb];
    split; simpl; rewrite ?lo_argv0, ?app_nil_r; try done.
  rewrite lo_optind0. simpl. lia.
Qed.

Lemma next_element_ok g D N R rest e o n :
  located g D N R rest -> parse optstring opts rest = (e, (o, n)) ->
  exists r g', next_element argc (Some opts) g = (inl r, g') /\
    variables g' = variables g /\ optarg g' = optarg g /\
    (r = Some EOF /\ e = [] /\ finished (D ++ R ++ o) (N ++ n) g' \/
     r = None /\ exists N' x t p n0, located g' (D ++ R) N' [] (x :: t) /\ nextchar g' = Some p /\
       inside x p /\ after x t (body_events x p (head t)) = (e, (o, n0)) /\ N ++ n = N' ++ n0).
Proof.
  intros L P. destruct (permute_ok g D N R rest L) as (N0 & rest' & g1 & -> & F & Hh & E1 & L1 & V1 & G1).
  unfold next_element. rewrite (bind_done (gets ordering) _ g (ordering g) g) by done.
  rewrite (lo_ordering _ _ _ _ _ L), (bool_decide_true (PERMUTE = PERMUTE)) by done. rewrite (bind_done _ _ _ _ _ E1).
  rewrite (bind_done (gets optind) _ g1 (optind g1) g1) by done.
  rewrite parse_operands in P by done.
  destruct (parse optstring opts rest') as [e' [o' n']] eqn:P'. injection P as <- <- <-.
  destruct rest' as [|x t].
  - pose proof (located_end _ _ _ _ L1) as Hend. injection P' as <- <- <-.
    rewrite Hend, Nat.eqb_refl. cbn [negb].
    rewrite (bind_done (mret _) _ g1 false g1), (bind_done (mret _) _ g1 () g1) by done.
    rewrite (bind_done (gets optind) _ g1 argc g1) by (by rewrite <-Hend). rewrite Nat.eqb_refl.
    rewrite (bind_done (modify _) _ _ () _ eq_refl). eexists _, _. split; [reflexivity |].
    pose proof (next_element_end _ _ _ L1) as K. rewrite !app_nil_r.
    destruct (negb _); (split; [done |]); (split; [done |]); left; done.
  - pose proof (located_lookup _ _ _ _ _ _ L1) as Hx. pose proof (located_more _ _ _ _ _ _ L1) as Hm.
    destruct (Nat.eqb_spec (optind g1) argc) as [?|_]; [lia |]. cbn [negb].
    assert (no_nul x) as Hnx by (by destruct L1; inversion lo_no_nul0).
    rewrite (bind_done (_ ≫= _) _ g1 (String.eqb x "--") g1).
    2: { rewrite (bind_done _ _ _ _ _ (arg_at_ok _ _ _ Hx)).
         by rewrite my_strcmp_eqb by (done || apply no_nul_dashes). }
    destruct (String.eqb_spec x "--") as [Ex|Hd].
    + destruct (end_of_options_ok _ _ _ _ _ L1) as (g2 & E2 & A2 & I2 & F2 & L2 & V2 & G2).
      rewrite (bind_done _ _ _ _ _ E2).
      rewrite (bind_done (gets optind) _ g2 argc g2) by (by rewrite <-I2). rewrite Nat.eqb_refl.
      rewrite (bind_done (modify _) _ _ () _ eq_refl). eexists _, _. split; [reflexivity |].
      assert (e' = [] /\ o' = [x] /\ n' = t) as (-> & -> & ->).
      { rewrite Ex in P' |- *. cbn in P'. by injection P' as <- <- <-. }
      rewrite F2, L2.
      destruct (Nat.eqb_spec (S (length ((D ++ R) ++ [x]))) argc) as [HN|HN];
        cbn [negb]; (split; [cbn; congruence |]); (split; [cbn; congruence |]); left;
        (split; [done |]); (split; [done |]); split; simpl;
        rewrite ?A2, ?I2, <-?app_assoc; try done; by rewrite <-?app_assoc in HN.
    + rewrite (bind_done (mret _) _ g1 () g1) by done.
      rewrite (bind_done (gets optind) _ g1 (optind g1) g1) by done.
      destruct (Nat.eqb_spec (optind g1) argc) as [?|_]; [lia |].
      rewrite (bind_done _ _ _ _ _ (arg_at_ok _ _ _ Hx)). rewrite Hh.
      rewrite (bool_decide_true (Some opts <> None)) by done. cbn [andb].
      rewrite (bind_done (modify _) _ _ () _ eq_refl). eexists _, _. split; [reflexivity |].
      split; [done |]. split; [done |]. right. split; [done |].
      eexists (N ++ N0), x, t, _, n'. split; [by eapply located_same |].
      split; [reflexivity |]. split; [by apply inside_start |].
      split; [| by rewrite <-app_assoc]. rewrite <-P'. symmetry. by apply parse_option.
Qed.

(** ** Decoding an element *)

Definition apply_set (ev : opt_event) (vars : gmap string Z) : gmap string Z :=
  match ev_set ev with
  | Some (x, v) => <[x := v]> vars
  | None => vars
  end.

(** The call has returned what [ev] says. *)
Definition reports (g : getopt_state) (ev : opt_event) (r : Z) (g' : getopt_state) : Prop :=
  r = ev_ret ev /\ optarg g' = ev_arg ev /\ variables g' = apply_set ev (variables g).

(** The element [x] has been used up, and if [b] the next one too. *)
Definition took (b : bool) (g : getopt_state) (D N R : list string) (x : string) (t : list string)
    : Prop :=
  (nextchar g = None \/ nextchar g = Some EmptyString) /\
  if b then match t with
            | y :: t' => located g D N (R ++ [x; y]) t'
            | [] => False
            end
  else located g D N (R ++ [x]) t.

Lemma took_one g g' D N R x t :
  located g D N R (x :: t) ->
  argv g' = argv g -> first_nonopt g' = first_nonopt g -> last_nonopt g' = last_nonopt g ->
  ordering g' = ordering g -> optind g' = S (optind g) ->
  (nextchar g' = None \/ nextchar g' = Some EmptyString) ->
  took false g' D N R x t.
Proof. intros L. intros. split; [done |]. by eapply located_take. Qed.

Lemma took_two g g' D N R x y t :
  located g D N R (x :: y :: t) ->
  argv g' = argv g -> first_nonopt g' = first_nonopt g -> last_nonopt g' = last_nonopt g ->
  ordering g' = ordering g -> optind g' = S (S (optind g)) ->
  (nextchar g' = None \/ nextchar g' = Some EmptyString) ->
  took true g' D N R x (y :: t).
Proof.
  intros L Ea Ef El Eo Ei Hn. split; [done |].
  replace (R ++ [x; y]) with ((R ++ [x]) ++ [y]) by (by rewrite <-app_assoc).
  eapply (located_take (set_optind (S (optind g)) g) g'); try done.
  by eapply (located_take g).
Qed.

(** The end of [long_found]: the option has been found, with its argument. *)
Lemma long_done g p index arg g2 (T : getopt_state -> Prop) :
  optarg g2 = arg -> variables g2 = variables g ->
  (forall g', argv g' = argv g2 -> first_nonopt g' = first_nonopt g2 ->
     last_nonopt g' = last_nonopt g2 -> ordering g' = ordering g2 -> optind g' = optind g2 ->
     nextchar g' = Some EmptyString -> T g') ->
  wp (_ ← modify (set_nextchar (Some EmptyString));
      _ ← modify (set_longind (Z.of_nat index));
      match flag p with
      | Some x => _ ← modify (set_variable x (val p)); mret 0
      | None => mret (val p)
      end) g2 (fun r g' => reports g (found_event p arg) r g' /\ T g').
Proof.
  intros Earg Ev K. unfold reports, found_event, apply_set.
  wp_steps. destruct (flag p); wp_steps; cbn; rewrite ?Ev; (split; [done | by apply K]).
Qed.

Lemma long_found_ok g D N R x t p index s ev b :
  located g D N R (x :: t) -> optarg g = None ->
  match s with
  | String _ arg => (if truth (has_arg p) then found_event p (Some arg) else bad_event, false)
  | EmptyString =>
      if has_arg p =? 1 then
        match head t with
        | Some y => (found_event p (Some y), true)
        | None => (OptEvent (missing optstring) None None, false)
        end
      else (found_event p None, false)
  end = (ev, b) ->
  wp (long_found argc true optstring p index s) g
    (fun r g' => reports g ev r g' /\ took b g' D N R x t).
Proof.
  intros L Ha E. pose proof (located_prog _ _ _ _ _ L) as Hp.
  pose proof (located_lookup _ _ _ _ _ _ L) as Hx.
  unfold long_found, next_arg, nextchar_to_end. wp_steps. cbn [optind set_optind].
  wp_steps. eapply wp_arg_at; [exact Hp |]. wp_steps.
  eapply wp_arg_at; [cbn; rewrite Nat.sub_0_r; exact Hx |].
  set (g1 := set_optind (S (optind g)) g).
  destruct s as [|c arg]; cbn [at_end negb].
  - destruct (has_arg p =? 1).
    + destruct t as [|y t]; cbn [head] in E; injection E as <- <-.
      * pose proof (lo_optind _ _ _ _ _ L) as Li. pose proof (lo_argc _ _ _ _ _ L) as Lc.
        simpl in Lc. destruct (Nat.ltb_spec (S (optind g)) argc); [lia |].
        wp_steps. apply wp_complain. intros m. wp_steps. split; [done |].
        eapply took_one; [exact L | ..]; try done. by right.
      * pose proof (lo_optind _ _ _ _ _ L) as Li. pose proof (lo_argc _ _ _ _ _ L) as Lc.
        simpl in Lc. destruct (Nat.ltb_spec (S (optind g)) argc); [| lia].
        wp_steps. eapply wp_arg_at.
        { eapply (located_lookup g1). by eapply (located_take g g1). }
        wp_steps. apply long_done; [done .. |]. intros. eapply took_two; [exact L | ..]; try done. by right.
    + injection E as <- <-. apply long_done; [done .. |]. intros. eapply took_one; [exact L | ..]; try done. by right.
  - destruct (truth (has_arg p)); injection E as <- <-.
    + wp_steps. apply long_done; [done .. |]. intros. eapply took_one; [exact L | ..]; try done. by right.
    + wp_steps. destruct (second_dash x); apply wp_complain; intros m; wp_steps;
        (split; [done |]); (eapply took_one; [exact L | ..]; try done; by right).
Qed.

Lemma long_option_ok g D N R x t next ev b :
  located g D N R (x :: t) -> optarg g = None -> second_dash x = true ->
  long_event optstring opts next (head t) = (ev, b) ->
  wp (long_option argc true false optstring opts next) g
    (fun r g' => exists z, r = Some z /\ reports g ev z g' /\ took b g' D N R x t).
Proof.
  intros L Ha Hd E. unfold long_option, long_event in *.
  pose proof (located_prog _ _ _ _ _ L) as Hp. pose proof (located_lookup _ _ _ _ _ _ L) as Hx.
  wp_steps. eapply wp_arg_at; [exact Hx |]. wp_steps. eapply wp_arg_at; [exact Hp |].
  rewrite before_equals_strlen.
  assert (forall fmt args, wp (_ ← complain fmt args; _ ← nextchar_to_end; _ ← next_arg;
    mret (Some BAD_OPTION)) g
    (fun r g' => exists z, r = Some z /\ reports g bad_event z g' /\ took false g' D N R x t)) as Bad.
  { intros fmt args. wp_steps. apply wp_complain. intros m. unfold nextchar_to_end, next_arg.
    wp_steps. exists BAD_OPTION. split; [done |]. split; [done |].
    eapply took_one; [exact L | ..]; try done. by right. }
  destruct (match_long _ _ _ _ _ _) as [p index| |].
  - wp_steps. eapply wp_mono; [eapply long_found_ok; [exact L | done | exact E] |].
    intros r g' Hr. wp_steps. by exists r.
  - injection E as <- <-. apply Bad.
  - injection E as <- <-. cbn [negb orb]. rewrite Hd. apply Bad.
Qed.

Lemma required_arg_ok g g0 D N R x t c rest ev b :
  located g D N R (x :: t) -> optarg g = None ->
  g0 = set_nextchar (Some rest) (if at_end rest then set_optind (S (optind g)) g else g) ->
  (if negb (at_end rest) then ([OptEvent (char_int c) (Some rest) None], false)
   else match head t with
        | Some y => ([OptEvent (char_int c) (Some y) None], true)
        | None => ([OptEvent (missing optstring) None None], false)
        end) = ([ev], b) ->
  wp (required_arg argc optstring c rest) g0
    (fun r g' => reports g ev r g' /\ took b g' D N R x t).
Proof.
  intros L Ha -> E. unfold required_arg, next_arg.
  pose proof (located_prog _ _ _ _ _ L) as Hp.
  pose proof (lo_optind _ _ _ _ _ L) as Li. pose proof (lo_argc _ _ _ _ _ L) as Lc.
  wp_steps. eapply wp_arg_at; [by destruct (at_end rest) |]. wp_steps.
  destruct (at_end rest) eqn:Er; cbn [negb] in *.
  - cbn [optind set_nextchar set_optind]. destruct t as [|y t]; cbn [head] in E; injection E as <- <-.
    + simpl in Lc. destruct (Nat.eqb_spec (S (optind g)) argc); [| lia].
      wp_steps. apply wp_complain. intros m. wp_steps. split; [done |].
      eapply took_one; [exact L | ..]; try done. by left.
    + simpl in Lc. destruct (Nat.eqb_spec (S (optind g)) argc); [lia |].
      wp_steps. eapply wp_arg_at.
      { eapply (located_lookup (set_optind (S (optind g)) g)). by eapply (located_take g). }
      wp_steps. split; [done |]. eapply took_two; [exact L | ..]; try done. by left.
  - injection E as <- <-. wp_steps. split; [done |].
    eapply took_one; [exact L | ..]; try done. by left.
Qed.

(** One option character: the element is used up, or goes on. *)
Definition goes_on (g : getopt_state) (D N R : list string) (x : string) (t : list string)
    (rest : string) (l : list opt_event) (b : bool) : Prop :=
  l = [] /\ took b g D N R x t \/
  at_end rest = false /\ located g D N R (x :: t) /\ nextchar g = Some rest /\
  cluster optstring rest (head t) = (l, b).

Lemma goes_on_plain g g' D N R x t rest l b :
  located g D N R (x :: t) -> cluster optstring rest (head t) = (l, b) ->
  argv g' = argv g -> first_nonopt g' = first_nonopt g -> last_nonopt g' = last_nonopt g ->
  ordering g' = ordering g -> optind g' = (if at_end rest then S (optind g) else optind g) ->
  nextchar g' = Some rest -> goes_on g' D N R x t rest l b.
Proof.
  intros L E Ea Ef El Eo Ei En. destruct rest as [|c rest]; simpl in Ei.
  - left. injection E as <- <-. split; [done |]. eapply took_one; [exact L | ..]; try done. by right.
  - right. split; [done |]. split; [by eapply located_same | done].
Qed.

Lemma short_option_ok g D N R x t c rest ev l b :
  located g D N R (x :: t) -> optarg g = None ->
  cluster optstring (String c rest) (head t) = (ev :: l, b) ->
  wp (short_option argc optstring (String c rest)) g
    (fun r g' => reports g ev r g' /\ goes_on g' D N R x t rest l b).
Proof.
  intros L Ha E. pose proof (located_prog _ _ _ _ _ L) as Hp.
  cbn [short_option]. unfold next_arg, illegal. wp_steps.
  set (g0 := set_nextchar (Some rest) (if at_end rest then set_optind (S (optind g)) g else g)).
  assert (forall k, wp k g0 (fun r g' => reports g ev r g' /\ goes_on g' D N R x t rest l b) ->
    wp (if at_end rest then modify (fun g => set_optind (S (optind g)) g) else mret ())
      (set_nextchar (Some rest) g)
      (fun _ g1 => wp k g1 (fun r g' => reports g ev r g' /\ goes_on g' D N R x t rest l b))) as Start.
  { intros k Hk. unfold g0 in Hk. by destruct (at_end rest). }
  apply Start. wp_steps. eapply (wp_arg_at _ prog); [unfold g0; by destruct (at_end rest) |].
  assert (forall m, cluster optstring rest (head t) = (l, b) -> ev = bad_event ->
    wp (_ ← complain m [AStr prog; AInt (char_int c)]; _ ← modify (set_optopt (char_int c));
        mret BAD_OPTION) g0
      (fun r g' => reports g ev r g' /\ goes_on g' D N R x t rest l b)) as Bad.
  { intros m El ->. wp_steps. apply wp_complain. intros mm. wp_steps.
    split; [unfold g0; by destruct (at_end rest) |].
    eapply goes_on_plain; [exact L | exact El | ..]; unfold g0; by destruct (at_end rest). }
  cbn [cluster] in E. unfold kind_of in E. destruct (my_index optstring c) as [u|].
  2: { destruct (cluster optstring rest (head t)) as [l' b'] eqn:El. injection E as <- <- <-. by apply Bad. }
  destruct (Ascii.eqb c ":").
  { destruct (cluster optstring rest (head t)) as [l' b'] eqn:El. injection E as <- <- <-. by apply Bad. }
  destruct (char_is ":" (advance 1 u)).
  - destruct (char_is ":" (advance 2 u)).
    + injection E as <- <- <-. wp_steps. unfold g0.
      destruct (at_end rest) eqn:Er; cbn [negb]; wp_steps; (split; [done |]); left;
        (split; [done |]); (eapply took_one; [exact L | ..]; try done; by left).
    + assert (l = []) as ->.
      { destruct (negb (at_end rest)); [by injection E |]. by destruct (head t); injection E. }
      eapply wp_mono; [by eapply required_arg_ok |]. intros r g' [Hr Ht]. split; [done |]. by left.
  - destruct (cluster optstring rest (head t)) as [l' b'] eqn:El. injection E as <- <- <-.
    wp_steps. split; [unfold g0; by destruct (at_end rest) |].
    eapply goes_on_plain; [exact L | exact El | ..]; unfold g0; by destruct (at_end rest).
Qed.

(** ** Calls *)

(** What the calls that follow will return: the events [es], and then [argv] is
    the program name, [O] and [Nn]. *)
Inductive pending (es : list opt_event) (O Nn : list string) (g : getopt_state) : Prop :=
| pending_between D N R rest o n :
    located g D N R rest -> (nextchar g = None \/ nextchar g = Some EmptyString) ->
    parse optstring opts rest = (es, (o, n)) -> O = D ++ R ++ o -> Nn = N ++ n ->
    pending es O Nn g
| pending_inside D N R x t p o n :
    located g D N R (x :: t) -> nextchar g = Some p -> inside x p -> second_dash x = false ->
    after x t (cluster optstring p (head t)) = (es, (o, n)) -> O = D ++ R ++ o -> Nn = N ++ n ->
    pending es O Nn g.

Lemma after_cons x t ev l b es o n :
  after x t (ev :: l, b) = (es, (o, n)) ->
  exists es', es = ev :: es' /\ after x t (l, b) = (es', (o, n)).
Proof.
  unfold after. intros E. destruct t as [|y t]; [by injection E as <- <- <-; eexists |].
  destruct b; destruct (parse _ _ _) as [e' [o' n']]; injection E as <- <- <-; by eexists.
Qed.

Lemma took_pending g D N R x t b es o n :
  took b g D N R x t -> after x t ([], b) = (es, (o, n)) -> pending es (D ++ R ++ o) (N ++ n) g.
Proof.
  intros [Hn Ht] E. unfold after in E. destruct b.
  - destruct t as [|y t]; [done |]. destruct (parse _ _ _) as [e' [o' n']] eqn:P.
    injection E as <- <- <-. eapply pending_between; [exact Ht | done | exact P | | done].
    by rewrite <-(app_assoc R).
  - destruct t as [|y t].
    + injection E as <- <- <-. eapply pending_between; [exact Ht | done | done | | done].
      by rewrite <-app_assoc.
    + destruct (parse _ _ _) as [e' [o' n']] eqn:P. injection E as <- <- <-.
      eapply pending_between; [exact Ht | done | exact P | | done]. by rewrite <-app_assoc.
Qed.

Lemma cluster_some p next : at_end p = false -> exists c rest ev l b, p = String c rest /\
  cluster optstring p next = (ev :: l, b).
Proof.
  destruct p as [|c rest]; [done |]. intros _. exists c, rest. cbn [cluster].
  destruct (kind_of optstring c); try (destruct (cluster optstring rest next)); try eauto 10.
  destruct (negb (at_end rest)); [eauto 10 |]. destruct next; eauto 10.
Qed.

Lemma decode_ok g D N R x t p es o n :
  located g D N R (x :: t) -> nextchar g = Some p -> inside x p -> optarg g = None ->
  after x t (body_events x p (head t)) = (es, (o, n)) ->
  wp (decode argc (Some opts) true false optstring) g
    (fun r g' => exists ev es', es = ev :: es' /\ reports g ev r g' /\
       pending es' (D ++ R ++ o) (N ++ n) g').
Proof.
  intros L En Hin Ha E. pose proof (located_lookup _ _ _ _ _ _ L) as Hx.
  pose proof Hin as [Hno Hp]. destruct (nonoption_false _ Hno) as [Hs _].
  unfold decode. wp_steps. rewrite En. wp_steps. eapply wp_arg_at; [exact Hx |].
  rewrite Hs, orb_false_r. cbn [andb]. unfold body_events in E.
  destruct (second_dash x) eqn:Hd.
  - destruct (long_event optstring opts p (head t)) as [ev b] eqn:El.
    destruct (after_cons _ _ _ _ _ _ _ _ E) as (es' & -> & E').
    eapply wp_mono; [by eapply long_option_ok |]. intros r g' (z & -> & Hr & Ht). wp_steps.
    exists ev, es'. split; [done |]. split; [done |]. by eapply took_pending.
  - wp_steps. destruct (cluster_some p (head t) Hp) as (c & rest & ev & l & b & -> & Ec).
    rewrite Ec in E. destruct (after_cons _ _ _ _ _ _ _ _ E) as (es' & -> & E').
    eapply wp_mono; [by eapply short_option_ok |]. intros r g' [Hr Hg].
    exists ev, es'. split; [done |]. split; [done |].
    destruct Hg as [[-> Ht]|(Er & L' & En' & Ec')]; [by eapply took_pending |].
    eapply pending_inside; [exact L' | done | done | done | | done | done]. by rewrite Ec'.
Qed.

Lemma located_scanning g D N R rest : located g D N R rest -> (optind g =? 0)%nat = false.
Proof. intros []. by rewrite lo_optind0. Qed.

(** The element after [start_scan]. *)
Definition scan (optstring : string) : M getopt_state Z :=
  n ← gets nextchar;
  r ← (if match n with None => true | Some p => at_end p end
       then next_element argc (Some opts) else mret None);
  match (r : option Z) with
  | Some z => mret z
  | None => decode argc (Some opts) true false optstring
  end.

(** What a call does: it returns the next event, or EOF when there is none. *)
Definition call_ok (es : list opt_event) (O Nn : list string) (g : getopt_state) (r : Z)
    (g' : getopt_state) : Prop :=
  match es with
  | [] => r = EOF /\ finished O Nn g' /\ variables g' = variables g
  | ev :: es' => reports g ev r g' /\ pending es' O Nn g'
  end.

Lemma scan_ok es O Nn g :
  pending es O Nn g -> optarg g = None -> wp (scan optstring) g (call_ok es O Nn g).
Proof.
  intros Hpend Ha. unfold scan. wp_steps.
  destruct Hpend as [D N R rest o n L Hn P -> ->|D N R x t p o n L Hn Hin Hd E -> ->].
  - assert (match nextchar g with Some p => at_end p | None => true end = true) as ->
      by (by destruct Hn as [->| ->]).
    destruct (next_element_ok _ _ _ _ _ _ _ _ L P) as (r & g' & E & Ev & Eo & K).
    eapply wp_done; [exact E |]. destruct K as [(-> & -> & F)|(-> & N' & x & t & p & n0 & L' & En & Hin & Ea & ->)].
    + by wp_steps.
    + eapply wp_mono; [eapply decode_ok; [exact L' | done | done | congruence | exact Ea] |].
      intros r g2 (ev & es' & -> & (Hr1 & Hr2 & Hr3) & Hp). split.
      * split; [done |]. split; [done |]. by rewrite Hr3, Ev.
      * by rewrite <-app_assoc in Hp.
  - destruct Hin as [Hno Hp]. rewrite Hn, Hp. wp_steps.
    eapply wp_mono; [eapply decode_ok; [exact L | done | done | done |] |].
    { unfold body_events. rewrite Hd. exact E. }
    intros r g2 (ev & es' & -> & Hr & Hpend). done.
Qed.

Lemma pending_keeps es O Nn g :
  pending es O Nn g -> pending es O Nn (set_optarg None g) /\ (optind g =? 0)%nat = false.
Proof.
  intros [D N R rest o n L Hn P -> ->|D N R x t p o n L Hn Hin Hd E -> ->];
    (split; [| by eapply located_scanning]).
  - eapply pending_between; [by eapply (located_same g) | done | exact P | done | done].
  - eapply pending_inside; [by eapply (located_same g) | done | done | done | exact E | done | done].
Qed.

Lemma getopt_long_ok posixly es O Nn g :
  pending es O Nn g -> wp (getopt_long posixly argc optstring opts) g (call_ok es O Nn g).
Proof.
  intros Hpend. destruct (pending_keeps _ _ _ _ Hpend) as [Hp' Hi].
  unfold getopt_long, _getopt_internal, start_scan. wp_steps.
  change (optind (set_optarg None g)) with (optind g). rewrite Hi. cbn [negb]. apply wp_ret.
  eapply wp_mono; [by apply (scan_ok es O Nn (set_optarg None g)) |]. intros r g' K. by destruct es.
Qed.

(** The first call starts the scan. *)
Lemma getopt_long_start g args es o n :
  argv g = prog :: args -> argc = S (length args) -> optind g = 0%nat -> Forall no_nul args ->
  char_is "-" optstring = false -> char_is "+" optstring = false ->
  parse optstring opts args = (es, (o, n)) ->
  wp (getopt_long false argc optstring opts) g (call_ok es o n g).
Proof.
  intros Ha Hc Hi Hn H1 H2 P.
  unfold getopt_long, _getopt_internal, start_scan. wp_steps.
  change (optind (set_optarg None g)) with (optind g). rewrite Hi, H1, H2. cbn [negb Nat.eqb].
  do 5 wp_step.
  set (g1 := set_ordering _ _).
  assert (pending es o n g1) as K.
  { apply (pending_between es o n g1 [] [] [] args o n); [| by left | done | done | done].
    split; simpl; try done. }
  eapply wp_mono; [by apply (scan_ok es o n g1) |]. intros r g' Hr. by destruct es.
Qed.

(** All calls from there on. *)
Definition event_pair (ev : opt_event) : Z * option string := (ev_ret ev, ev_arg ev).

Definition apply_sets (es : list opt_event) (vars : gmap string Z) : gmap string Z :=
  foldl (fun v ev => apply_set ev v) vars es.

Definition all_done (es : list opt_event) (O Nn : list string) (g : getopt_state)
    (l : list (Z * option string)) (g' : getopt_state) : Prop :=
  l = event_pair <$> es /\ finished O Nn g' /\ variables g' = apply_sets es (variables g).

Lemma getopt_run_step posixly fuel es O Nn g :
  (length es < S fuel)%nat -> Forall (fun ev => ev_ret ev <> EOF) es ->
  wp (getopt_long posixly argc optstring opts) g (call_ok es O Nn g) ->
  (forall es' g', pending es' O Nn g' -> (length es' < fuel)%nat ->
     Forall (fun ev => ev_ret ev <> EOF) es' ->
     wp (getopt_run posixly argc optstring opts fuel) g' (all_done es' O Nn g')) ->
  wp (getopt_run posixly argc optstring opts (S fuel)) g (all_done es O Nn g).
Proof.
  intros Hf Hes Hcall IH. cbn [getopt_run]. apply wp_bind. eapply wp_mono; [exact Hcall |].
  intros r g' K. destruct es as [|ev es]; simpl in K.
  - destruct K as (-> & F & V). rewrite Z.eqb_refl. by apply wp_ret.
  - destruct K as [(-> & Ea & Ev) Hp]. inversion Hes as [|? ? H1 H2]; subst.
    destruct (Z.eqb_spec (ev_ret ev) EOF); [done |]. apply wp_bind, wp_gets, wp_bind.
    eapply wp_mono; [apply IH; [exact Hp | simpl in Hf; lia | done] |].
    intros l g2 (-> & F & V). apply wp_ret. split; [by rewrite Ea |]. split; [done |].
    rewrite V, Ev. done.
Qed.

Lemma getopt_run_pending posixly fuel es O Nn g :
  pending es O Nn g -> (length es < fuel)%nat -> Forall (fun ev => ev_ret ev <> EOF) es ->
  wp (getopt_run posixly argc optstring opts fuel) g (all_done es O Nn g).
Proof.
  revert es g. induction fuel as [|fuel IH]; intros es g Hp Hf Hes; [lia |].
  apply getopt_run_step; [done | done | by apply getopt_long_ok | auto].
Qed.
End correct.

(** ** The reference *)

(** Every element of the command line belongs to the options or is an operand,
    and both keep their order. *)
Lemma parse_split `{CharSign} optstring opts args es o n :
  parse optstring opts args = (es, (o, n)) ->
  o ++ n ≡ₚ args /\ o `sublist_of` args /\ n `sublist_of` args.
Proof.
  remember (length args) as k eqn:Hk. revert args Hk es o n.
  induction k as [k IH] using lt_wf_ind; intros args -> es o n E.
  destruct args as [|x t]; [by injection E as <- <- <- |]. cbn [parse] in E.
  destruct (String.eqb x "--").
  { injection E as <- <- <-. split; [done |]. split; [| by constructor].
    apply sublist_skip, sublist_nil_l. }
  destruct (nonoption x).
  - destruct (parse optstring opts t) as [e' [o' n']] eqn:P. injection E as <- <- <-.
    destruct (IH (length t) ltac:(simpl; lia) t eq_refl _ _ _ P) as (K1 & K2 & K3).
    split; [by rewrite <-Permutation_middle, K1 |]. split; by constructor.
  - destruct (element optstring opts x (head t)) as [l b]. destruct t as [|y t].
    { injection E as <- <- <-. split_and!; [done | done | apply sublist_nil_l]. }
    destruct b; (destruct (parse optstring opts _) as [e' [o' n']] eqn:P); injection E as <- <- <-.
    + destruct (IH (length t) ltac:(simpl; lia) t eq_refl _ _ _ P) as (K1 & K2 & K3).
      split; [simpl; by rewrite K1 |]. split; by repeat constructor.
    + destruct (IH (length (y :: t)) ltac:(simpl; lia) _ eq_refl _ _ _ P) as (K1 & K2 & K3).
      split; [simpl; by rewrite K1 |]. split; by constructor.
Qed.

(** ** Properties *)

(** C10: scanning a command line from the start.  Calling [getopt_long] until it
    returns EOF terminates, stays inside [argv], returns exactly the options
    and arguments that the reference [parse] reads from left to right, stores to
    the variables the flags point to in that order, and leaves [argv] permuted:
    the elements of options first, then the operands, each in the order given,
    with [optind] at the first operand. *)
Theorem getopt_scans `{CharSign} optstring opts prog args g es o n fuel :
  argv g = prog :: args -> optind g = 0%nat -> Forall no_nul args ->
  char_is "-" optstring = false -> char_is "+" optstring = false ->
  parse optstring opts args = (es, (o, n)) -> Forall (fun ev => ev_ret ev <> EOF) es ->
  (length es < fuel)%nat ->
  exists g', getopt_run false (S (length args)) optstring opts fuel g =
      (inl (event_pair <$> es), g') /\
    argv g' = prog :: o ++ n /\ optind g' = S (length o) /\
    o ++ n ≡ₚ args /\ o `sublist_of` args /\ n `sublist_of` args /\
    variables g' = apply_sets es (variables g).
Proof.
  intros Ha Hi Hn H1 H2 P Hes Hf. destruct fuel as [|fuel]; [lia |].
  destruct (wp_inv _ _ _ (getopt_run_step optstring opts prog (S (length args)) false fuel es o n g
    Hf Hes (getopt_long_start _ _ _ _ _ _ _ _ _ Ha eq_refl Hi Hn H1 H2 P)
    (fun es' g' K1 K2 K3 => getopt_run_pending _ _ _ _ _ _ _ _ _ _ K1 K2 K3)))
    as (l & g' & E & -> & [Fa Fi] & V).
  exists g'. split; [exact E |]. split; [done |]. split; [done |].
  destruct (parse_split _ _ _ _ _ _ P) as (? & ? & ?). done.
Qed.

Lemma getopt_scans_witness :
  let _ : CharSign := true in
  let opts := [Option "master" 0 (Some "ismaster") 1; Option "host" 1 None 104]%string in
  let args := ["img"; "--master"; "-t"; "f"; "x"; "--host=h"]%string in
  let g := GetoptState ("risu"%string :: args) None 0 None 1 0 REQUIRE_ORDER 0 0 0 ∅ [] in
  exists g', getopt_run false 7 "h:t:" opts 5 g =
      (inl [(0, None); (116, Some "f"%string); (104, Some "h"%string)], g') /\
    argv g' = ["risu"; "--master"; "-t"; "f"; "--host=h"; "img"; "x"]%string /\
    optind g' = 5%nat /\ variables g' = {["ismaster"%string := 1]}.
Proof.
  intros HC opts args g.
  edestruct (getopt_scans "h:t:" opts "risu" args g) with (fuel := 5%nat)
    as (g' & E & Ea & Ei & _ & _ & _ & Ev);
    [reflexivity | reflexivity | | reflexivity | reflexivity | vm_compute; reflexivity | | | ].
  - repeat constructor; vm_compute; congruence.
  - repeat constructor; vm_compute; congruence.
  - simpl. lia.
  - exists g'. split; [exact E |]. split; [exact Ea |]. split; [exact Ei |]. exact Ev.
Defined.
