(* ===== verification/Argv.v ===== *)
(** * Splitting a line into arguments (risu_main.c)

    [argcargv] splits a line into words in place: the words are copied to the
    front of the buffer and terminated there, while the rest of the line is
    still being read.  Blanks separate words, quotes and backslashes protect
    characters, and the end of a line ends the words.  It makes two passes, the
    first of which only counts.

    The model keeps the buffer as a list of characters, pointers into it as
    indices, and stops with undefined behaviour on every access outside of the
    buffer or of the array of pointers.  The theorem relates it to [lex], which
    reads the line once and has no buffer. *)

From Stdlib Require Import Ascii.
From S2P Require Import Prelude Arch.

(** ** Characters *)

Definition NUL : ascii := Ascii.zero.
Definition TAB : ascii := ascii_of_nat 9.
Definition LF : ascii := ascii_of_nat 10.
Definition CR : ascii := ascii_of_nat 13.
Definition QUOTE : ascii := ascii_of_nat 34.
Definition APOS : ascii := ascii_of_nat 39.
Definition BACKSLASH : ascii := ascii_of_nat 92.

Definition blank (c : ascii) : bool := Ascii.eqb c TAB || Ascii.eqb c " ".
Definition newline (c : ascii) : bool := Ascii.eqb c LF || Ascii.eqb c CR.

(** The messages. *)
Definition missing_quote : string := "Missing terminating " +:+ String QUOTE " quote\n".
Definition missing_apos : string := "Missing terminating ' quote\n".
Definition missing_escaped : string := "Missing \ quoted character\n".

(** The [switch] after a backslash. *)
Definition unescape (c : ascii) : ascii :=
  if Ascii.eqb c BACKSLASH then BACKSLASH
  else if Ascii.eqb c "t" then TAB
  else if Ascii.eqb c "n" then LF
  else if Ascii.eqb c "r" then CR
  else c.

(** ** argcargv *)

Record split_state : Type := SplitState {
  line_buf : list ascii;
  line_s : nat;               (* s *)
  line_d : nat;               (* d *)
  word_count : nat;           (* argc *)
  word_ptrs : list nat;       (* argv *)
  printed : text
}.

Definition set_line_buf v st := SplitState v (line_s st) (line_d st) (word_count st) (word_ptrs st) (printed st).
Definition set_line_s v st := SplitState (line_buf st) v (line_d st) (word_count st) (word_ptrs st) (printed st).
Definition set_line_d v st := SplitState (line_buf st) (line_s st) v (word_count st) (word_ptrs st) (printed st).
Definition set_word_count v st := SplitState (line_buf st) (line_s st) (line_d st) v (word_ptrs st) (printed st).
Definition set_word_ptrs v st := SplitState (line_buf st) (line_s st) (line_d st) (word_count st) v (printed st).
Definition set_printed v st := SplitState (line_buf st) (line_s st) (line_d st) (word_count st) (word_ptrs st) v.

(** [*s] *)
Definition peek : M split_state ascii := fun st =>
  match line_buf st !! line_s st with
  | Some c => (inl c, st)
  | None => (inr HUB, st)
  end.

(** [s++] *)
Definition bump : M split_state () := modify (fun st => set_line_s (S (line_s st)) st).

(** [if (p) *d++ = c] *)
Definition put (p : bool) (c : ascii) : M split_state () := fun st =>
  if p then
    if (line_d st <? length (line_buf st))%nat
    then (inl (), set_line_d (S (line_d st)) (set_line_buf (<[line_d st := c]> (line_buf st)) st))
    else (inr HUB, st)
  else (inl (), st).

(** [if (p) argv[argc] = d; argc++] *)
Definition start_word (p : bool) : M split_state () := fun st =>
  if p then
    if (word_count st <? length (word_ptrs st))%nat
    then (inl (), set_word_count (S (word_count st))
                    (set_word_ptrs (<[word_count st := line_d st]> (word_ptrs st)) st))
    else (inr HUB, st)
  else (inl (), set_word_count (S (word_count st)) st).

Definition printf (msg : string) : M split_state () :=
  modify (fun st => set_printed (printed st ++ [(msg, [])]) st).

Section passes.
Variable p : bool.   (* the second pass *)

(** [while ( *s && *s != q) { if (p) *d++ = *s; s++; }] *)
Fixpoint quoted_loop (q : ascii) (fuel : nat) : M split_state () :=
  match fuel with
  | O => stop HFuel
  | S fuel' =>
      c ← peek;
      if Ascii.eqb c NUL || Ascii.eqb c q then mret ()
      else _ ← put p c; _ ← bump; quoted_loop q fuel'
  end.

Definition quoted (q : ascii) (msg : string) (fuel : nat) : M split_state () :=
  _ ← bump;
  _ ← quoted_loop q fuel;
  c ← peek;
  if Ascii.eqb c q then bump else printf msg.

Definition backslash : M split_state () :=
  _ ← bump;
  c ← peek;
  if negb (Ascii.eqb c NUL) then _ ← put p (unescape c); bump
  else printf missing_escaped.

(** The loop over the characters of a word; [true] if it jumps to
    [donewords]. *)
Fixpoint word_loop (fuel : nat) : M split_state bool :=
  match fuel with
  | O => stop HFuel
  | S fuel' =>
      c ← peek;
      if Ascii.eqb c NUL then mret false
      else if Ascii.eqb c QUOTE
      then _ ← quoted QUOTE missing_quote fuel'; word_loop fuel'
      else if Ascii.eqb c APOS
      then _ ← quoted APOS missing_apos fuel'; word_loop fuel'
      else if Ascii.eqb c BACKSLASH then _ ← backslash; word_loop fuel'
      else if blank c then _ ← bump; mret false
      else if newline c then _ ← bump; _ ← put p NUL; mret true
      else _ ← put p c; _ ← bump; word_loop fuel'
  end.

Fixpoint skip_blanks (fuel : nat) : M split_state () :=
  match fuel with
  | O => stop HFuel
  | S fuel' => c ← peek; if blank c then _ ← bump; skip_blanks fuel' else mret ()
  end.

(** The loop over the words of the line. *)
Fixpoint words_loop (fuel : nat) : M split_state () :=
  match fuel with
  | O => stop HFuel
  | S fuel' =>
      c ← peek;
      if Ascii.eqb c NUL then mret () else
      _ ← skip_blanks (S fuel');
      c ← peek;
      if newline c then bump
      else if Ascii.eqb c NUL then words_loop fuel'
      else
        _ ← start_word p;
        eol ← word_loop (S fuel');
        if (eol : bool) then mret ()
        else _ ← put p NUL; words_loop fuel'
  end.

(** One pass over the line that starts at [buf].  The fuel is more than the
    number of characters, and every step of a loop reads one. *)
Definition split_pass (buf : nat) : M split_state () :=
  _ ← modify (fun st => set_word_count 0 (set_line_s buf (set_line_d buf st)));
  n ← gets (fun st => S (length (line_buf st)));
  words_loop n.
End passes.

(** [want]: [dargv] is not null.  Returns [argv], [argc] and the rest of the
    line; [None] for a null pointer. *)
Definition argcargv (want : bool) (buf : option nat) : M split_state (list nat * nat * option nat) :=
  match buf with
  | None => mret ([], 0%nat, None)
  | Some b =>
      _ ← split_pass false b;
      _ ← (if want
           then _ ← modify (fun st => set_word_ptrs (replicate (word_count st) 0%nat) st);
                split_pass true b
           else mret ());
      st ← gets id;
      mret (word_ptrs st, word_count st, Some (line_s st))
  end.

(** ** The reference *)

Inductive mode : Type := Between | Bare | Quoted (q : ascii) | Escaped.

(** Read a line in a mode, with [w] read of the current word: the words, what
    follows the line, and the mode at its end. *)
Fixpoint lex (m : mode) (w : list ascii) (cs : list ascii)
    : list (list ascii) * list ascii * mode :=
  match cs with
  | [] => (match m with Between => [] | _ => [w] end, [], m)
  | c :: t =>
      match m with
      | Quoted q => if Ascii.eqb c q then lex Bare w t else lex m (w ++ [c]) t
      | Escaped => lex Bare (w ++ [unescape c]) t
      | Between | Bare =>
          let between := match m with Between => true | _ => false end in
          if blank c then
            let '(ws, rest, m') := lex Between [] t in
            (if between then ws else w :: ws, rest, m')
          else if newline c then (if between then [] else [w], t, Between)
          else if Ascii.eqb c QUOTE || Ascii.eqb c APOS then lex (Quoted c) w t
          else if Ascii.eqb c BACKSLASH then lex Escaped w t
          else lex Bare (w ++ [c]) t
      end
  end.

(** What is printed when the line ends in a mode. *)
Definition complaint (m : mode) : text :=
  match m with
  | Quoted q =>
      [(if Ascii.eqb q QUOTE then missing_quote else missing_apos, [])]
  | Escaped => [(missing_escaped, [])]
  | _ => []
  end.

(** ** The state inside a pass *)

Section pass.
Variables (p : bool) (orig post : list ascii).

(** [s] is at the characters [cs] of the line, which have not been overwritten;
    the second pass has written [A]. *)
Record passed (A cs : list ascii) (st : split_state) : Prop := {
  rd_rest : drop (line_s st) (line_buf st) = cs ++ NUL :: post;
  rd_first : p = false -> line_buf st = orig;
  rd_written : p = true -> take (length A) (line_buf st) = A;
  rd_length : length (line_buf st) = length orig
}.

(** The second pass writes at [d], which is not ahead of [s]. *)
Definition reading (A cs : list ascii) (st : split_state) : Prop :=
  passed A cs st /\ (p = true -> line_d st = length A /\ length A <= line_s st)%nat.

Lemma passed_lookup A cs st :
  passed A cs st -> line_buf st !! line_s st = head (cs ++ [NUL]).
Proof.
  intros []. rewrite <-(Nat.add_0_r (line_s st)), <-lookup_drop, rd_rest0. by destruct cs.
Qed.

Lemma passed_bound A cs st : passed A cs st -> (line_s st + length cs < length (line_buf st))%nat.
Proof.
  intros []. apply (f_equal length) in rd_rest0. rewrite length_drop, length_app in rd_rest0.
  simpl in rd_rest0. lia.
Qed.

Lemma wp_peek A cs st (Q : ascii -> split_state -> Prop) :
  passed A cs st -> (forall c, head (cs ++ [NUL]) = Some c -> Q c st) -> wp peek st Q.
Proof.
  intros R HQ. unfold wp, peek. rewrite (passed_lookup _ _ _ R).
  destruct cs as [|c cs]; by apply HQ.
Qed.

Lemma reading_printed A cs st v : reading A cs st -> reading A cs (set_printed v st).
Proof. intros [[] Hd]. by split; [split |]. Qed.

Lemma drop_next (l : list ascii) i c t : drop i l = c :: t -> drop (S i) l = t.
Proof.
  revert i. induction l as [|x l IH]; intros [|i] E; try done.
  - by injection E as -> ->.
  - by apply IH.
Qed.

Lemma wp_bump A c cs st (Q : () -> split_state -> Prop) :
  reading A (c :: cs) st ->
  (forall st', reading A cs st' -> (p = true -> length A < line_s st')%nat ->
     word_count st' = word_count st -> word_ptrs st' = word_ptrs st -> printed st' = printed st ->
     Q () st') -> wp bump st Q.
Proof.
  intros [[] Hd] HQ. apply wp_modify. apply HQ; try done.
  - split; [| simpl; intuition lia]. split; simpl; try done. by apply drop_next in rd_rest0.
  - simpl. intuition lia.
Qed.

(** The bookkeeping that copying characters does not touch. *)
Definition same_words (st st' : split_state) : Prop :=
  word_count st' = word_count st /\ word_ptrs st' = word_ptrs st /\ printed st' = printed st.

Lemma take_snoc_insert (l A : list ascii) c :
  take (length A) l = A -> (length A < length l)%nat ->
  take (length (A ++ [c])) (<[length A := c]> l) = A ++ [c].
Proof.
  intros E Hl. rewrite length_app, Nat.add_1_r.
  rewrite (take_S_r _ _ c) by (by apply list_lookup_insert_eq).
  by rewrite take_insert_ge, E by done.
Qed.

(** Copying a character and stepping over one. *)
Lemma wp_put A c c0 cs st (Q : () -> split_state -> Prop) :
  reading A (c0 :: cs) st ->
  (forall st1, (forall Q' : () -> split_state -> Prop,
     (forall st', reading (A ++ [c]) cs st' -> same_words st st' -> Q' () st') -> wp bump st1 Q') ->
   Q () st1) -> wp (put p c) st Q.
Proof.
  intros [R Hd] HQ. pose proof (passed_bound _ _ _ R) as B. simpl in B. destruct R.
  unfold wp, put. destruct p eqn:Hp in |- *.
  - destruct (Hd Hp) as [H2 H3].
    destruct (Nat.ltb_spec (line_d st) (length (line_buf st))); [| lia].
    apply HQ. intros Q' HQ'. apply wp_modify. apply HQ'; [| done]. rewrite H2 in *.
    split; [| simpl; rewrite length_app; simpl; lia]. split; simpl; try congruence.
    + rewrite drop_insert_lt by lia. by apply drop_next in rd_rest0.
    + intros _. apply take_snoc_insert; auto.
    + by rewrite length_insert.
  - apply HQ. intros Q' HQ'. apply wp_modify. apply HQ'; [| done].
    split; [| congruence]. split; simpl; try congruence; auto. by apply drop_next in rd_rest0.
Qed.

(** Terminating a word. *)
Lemma put_nul A cs st :
  reading A cs st -> (p = true -> length A < line_s st \/ cs = [])%nat ->
  exists st', put p NUL st = (inl (), st') /\ passed (A ++ [NUL]) cs st' /\ same_words st st' /\
    line_s st' = line_s st /\ (p = true -> line_d st' = length (A ++ [NUL])).
Proof.
  intros [R Hd] Hs. pose proof (passed_bound _ _ _ R) as B. destruct R.
  unfold put. destruct p eqn:Hp in |- *.
  2: { exists st. split_and!; try done. split; congruence || auto. }
  destruct (Hd Hp) as [H2 H3]. specialize (Hs Hp).
  destruct (Nat.ltb_spec (line_d st) (length (line_buf st))); [| lia].
  eexists. split; [done |]. rewrite H2 in *. split_and!; try done;
    [| intros _; simpl; rewrite length_app; simpl; lia].
  split; simpl; try congruence.
  - destruct (decide (line_s st = length A)) as [E|E]; [| by rewrite drop_insert_lt by lia].
    destruct Hs as [Hs| ->]; [lia |]. rewrite E in *.
    rewrite (drop_S _ NUL) by (by apply list_lookup_insert_eq). rewrite drop_insert_lt by lia.
    by rewrite (drop_next _ _ _ _ rd_rest0).
  - intros _. apply take_snoc_insert; auto.
  - by rewrite length_insert.
Qed.

(** ** The loops *)

Definition plain (cs : list ascii) : Prop := Forall (fun c => c <> NUL) cs.

Lemma head_cons c t (c' : ascii) : head ((c :: t) ++ [NUL]) = Some c' -> c' = c.
Proof. intros E. by injection E. Qed.

Lemma eqb_nul c : c <> NUL -> Ascii.eqb c NUL = false.
Proof. by apply Ascii.eqb_neq. Qed.

Lemma quoted_loop_ok q fuel A cs st :
  q <> NUL -> plain cs -> reading A cs st -> (length cs < fuel)%nat ->
  wp (quoted_loop p q fuel) st (fun _ st' => exists w cs',
    reading (A ++ w) cs' st' /\ same_words st st' /\ plain cs' /\ (length cs' <= length cs)%nat /\
    (forall w0, lex (Quoted q) w0 cs = lex (Quoted q) (w0 ++ w) cs') /\
    match cs' with [] => True | c :: _ => c = q end).
Proof.
  intros Hq. revert A cs st. induction fuel as [|fuel IH]; intros A cs st Hc R Hf; [lia |].
  cbn [quoted_loop]. wp_step. apply (wp_peek _ _ _ _ (proj1 R)). intros c Ec.
  destruct cs as [|c0 cs].
  - injection Ec as <-. rewrite Ascii.eqb_refl. cbn [orb]. wp_step. exists [], []. rewrite app_nil_r.
    split_and!; try done. intros w0. by rewrite app_nil_r.
  - apply head_cons in Ec as ->. inversion Hc as [|? ? Hc0 Hc']; subst. rewrite eqb_nul by done.
    cbn [orb]. destruct (Ascii.eqb_spec c0 q) as [->|Hne].
    + wp_step. exists [], (q :: cs). rewrite app_nil_r. split_and!; try done.
      intros w0. by rewrite app_nil_r.
    + wp_step. apply (wp_put A c0 c0 cs); [done |]. intros st1 K. wp_step. apply K.
      intros st' R' S'. eapply wp_mono; [apply (IH _ _ _ Hc' R'); simpl in Hf; lia |].
      intros _ st2 (w & cs' & R2 & S2 & P2 & L2 & X2 & H2).
      exists (c0 :: w), cs'. rewrite <-app_assoc in R2. split; [done |].
      split; [unfold same_words in *; intuition congruence |]. split; [done |].
      split; [simpl; lia |]. split; [| done]. intros w0. cbn [lex].
      destruct (Ascii.eqb_spec c0 q); [done |]. rewrite X2. by rewrite <-app_assoc.
Qed.
(** A part of a word has been read: the line goes on, or it ends there. *)
Definition part_ok (A w0 cs : list ascii) (st st' : split_state) : Prop :=
  exists w cs', reading (A ++ w) cs' st' /\ plain cs' /\ (length cs' < length cs)%nat /\
    word_count st' = word_count st /\ word_ptrs st' = word_ptrs st /\
    (printed st' = printed st /\ lex Bare w0 cs = lex Bare w cs' \/
     cs' = [] /\ exists m, lex Bare w0 cs = ([w], [], m) /\ printed st' = printed st ++ complaint m).

Lemma quoted_ok q msg fuel A w0 cs st :
  (q = QUOTE /\ msg = missing_quote \/ q = APOS /\ msg = missing_apos) ->
  plain cs -> reading (A ++ w0) (q :: cs) st -> (length cs < fuel)%nat ->
  wp (quoted p q msg fuel) st (fun _ st' => part_ok A w0 (q :: cs) st st').
Proof.
  intros Hq Hc R Hf. assert (q <> NUL) as Hn by (destruct Hq as [[-> _]|[-> _]]; discriminate).
  assert (complaint (Quoted q) = [(msg, [])]) as Hm by (by destruct Hq as [[-> ->]|[-> ->]]).
  assert (lex Bare w0 (q :: cs) = lex (Quoted q) w0 cs) as Hx by (by destruct Hq as [[-> _]|[-> _]]).
  unfold quoted, printf. wp_step. apply (wp_bump _ _ _ _ _ R). intros st1 R1 _ C1 W1 P1.
  wp_step. eapply wp_mono; [by apply (quoted_loop_ok q fuel _ _ _ Hn Hc R1) |].
  intros _ st2 (w & cs' & R2 & (C2 & W2 & P2) & Hc' & L2 & X2 & H2). rewrite X2 in Hx.
  rewrite <-app_assoc in R2. wp_step. apply (wp_peek _ _ _ _ (proj1 R2)). intros c Ec.
  destruct cs' as [|c' cs'].
  - injection Ec as <-. destruct (Ascii.eqb_spec NUL q); [congruence |]. wp_step.
    exists (w0 ++ w), []. split; [by apply reading_printed |].
    split; [constructor |]. split; [simpl; lia |]. cbn. split; [congruence |]. split; [congruence |]. right.
    split; [done |]. exists (Quoted q). split; [done |]. rewrite Hm. congruence.
  - apply head_cons in Ec as ->. subst c'. rewrite Ascii.eqb_refl.
    apply (wp_bump _ _ _ _ _ R2). intros st3 R3 _ C3 W3 P3.
    exists (w0 ++ w), cs'. split; [done |]. split; [by inversion Hc' |].
    split; [simpl in *; lia |]. split; [congruence |]. split; [congruence |]. left.
    split; [congruence |]. rewrite Hx. cbn [lex]. by rewrite Ascii.eqb_refl.
Qed.

Lemma backslash_ok A w0 cs st :
  plain cs -> reading (A ++ w0) (BACKSLASH :: cs) st ->
  wp (backslash p) st (fun _ st' => part_ok A w0 (BACKSLASH :: cs) st st').
Proof.
  intros Hc R. unfold backslash, printf. wp_step. apply (wp_bump _ _ _ _ _ R). intros st1 R1 _ C1 W1 P1.
  wp_step. apply (wp_peek _ _ _ _ (proj1 R1)). intros c Ec. destruct cs as [|c0 cs].
  - injection Ec as <-. rewrite Ascii.eqb_refl. cbn [negb]. wp_step.
    exists w0, []. split; [by apply reading_printed |]. split; [constructor |]. split; [simpl; lia |]. cbn.
    split; [congruence |]. split; [congruence |]. right. split; [done |]. exists Escaped.
    split; [done |]. cbn. congruence.
  - apply head_cons in Ec as ->. inversion Hc as [|? ? Hc0 Hc']; subst. rewrite eqb_nul by done.
    cbn [negb]. wp_step. apply (wp_put _ _ _ _ _ _ R1). intros st2 K. apply K.
    intros st' R' (C2 & W2 & P2). rewrite <-app_assoc in R'. exists (w0 ++ [unescape c0]), cs.
    split; [done |]. split; [done |]. split; [simpl; lia |]. split; [congruence |].
    split; [congruence |]. left. split; [congruence |]. done.
Qed.

(** What the loop over a word does. *)
Definition word_ok (A w0 cs : list ascii) (st : split_state) (eol : bool) (st' : split_state) : Prop :=
  exists w cs', plain cs' /\ (length cs' <= length cs)%nat /\
    word_count st' = word_count st /\ word_ptrs st' = word_ptrs st /\
    (eol = true /\ lex Bare w0 cs = ([w], cs', Between) /\ passed (A ++ w ++ [NUL]) cs' st' /\
       printed st' = printed st \/
     eol = false /\ reading (A ++ w) cs' st' /\ (p = true -> length (A ++ w) < line_s st')%nat /\
       (length cs' < length cs)%nat /\ printed st' = printed st /\
       lex Bare w0 cs = (let '(ws, r, m) := lex Between [] cs' in (w :: ws, r, m)) \/
     eol = false /\ cs' = [] /\ reading (A ++ w) [] st' /\
       exists m, lex Bare w0 cs = ([w], [], m) /\ printed st' = printed st ++ complaint m).

Lemma word_loop_nil fuel A w0 st :
  reading (A ++ w0) [] st -> wp (word_loop p (S fuel)) st (fun eol st' => eol = false /\ st' = st).
Proof.
  intros R. cbn [word_loop]. wp_step. apply (wp_peek _ _ _ _ (proj1 R)). intros c Ec.
  injection Ec as <-. rewrite Ascii.eqb_refl. by wp_step.
Qed.

Lemma word_continue fuel A w0 cs st st1 :
  part_ok A w0 cs st st1 -> (0 < fuel)%nat ->
  (forall w cs', reading (A ++ w) cs' st1 -> plain cs' -> (length cs' < length cs)%nat ->
     wp (word_loop p fuel) st1 (word_ok A w cs' st1)) ->
  wp (word_loop p fuel) st1 (word_ok A w0 cs st).
Proof.
  intros (w & cs' & R & Hc & L & C & W & [[P X]|(-> & m & X & P)]) Hf IH.
  - eapply wp_mono; [by apply IH |].
    intros eol st' (w' & cs2 & Hc2 & L2 & C2 & W2 & K). exists w', cs2.
    split; [done |]. split; [lia |]. split; [congruence |]. split; [congruence |].
    rewrite X, <-P. destruct K as [K|[(K1 & K2 & K3 & K4 & K5)|K]]; [by left | | by right; right].
    right. left. split; [done |]. split; [done |]. split; [done |]. split; [lia | exact K5].
  - destruct fuel as [|fuel]; [lia |]. eapply wp_mono; [by eapply (word_loop_nil fuel A w) |].
    intros eol st' [-> ->]. exists w, []. split; [constructor |]. split; [simpl; lia |].
    split; [done |]. split; [done |]. right. right. eauto 10.
Qed.

Lemma word_loop_ok fuel A w0 cs st :
  plain cs -> reading (A ++ w0) cs st -> (length cs < fuel)%nat ->
  wp (word_loop p fuel) st (word_ok A w0 cs st).
Proof.
  revert w0 cs st. induction fuel as [|fuel IH]; intros w0 cs st Hc R Hf; [lia |].
  destruct cs as [|c cs].
  { eapply wp_mono; [by eapply (word_loop_nil fuel A w0) |]. intros eol st' [-> ->].
    exists w0, []. split; [constructor |]. split; [done |]. split; [done |]. split; [done |].
    right. right. split; [done |]. split; [done |]. split; [done |]. exists Bare.
    split; [done |]. by rewrite app_nil_r. }
  cbn [word_loop]. wp_step. apply (wp_peek _ _ _ _ (proj1 R)). intros c' Ec.
  apply head_cons in Ec as ->. inversion Hc as [|? ? Hc0 Hc']; subst. rewrite eqb_nul by done.
  simpl in Hf.
  assert (forall st1, part_ok A w0 (c :: cs) st st1 ->
    wp (word_loop p fuel) st1 (word_ok A w0 (c :: cs) st)) as Cont.
  { intros st1 K. eapply word_continue; [exact K | lia |]. intros w cs' R' P' L'.
    apply IH; [done | done |]. simpl in L'. lia. }
  destruct (Ascii.eqb_spec c QUOTE) as [->|Hq].
  { wp_step. eapply wp_mono; [apply quoted_ok; [by left | done | exact R | lia] |]. auto. }
  destruct (Ascii.eqb_spec c APOS) as [->|Ha].
  { wp_step. eapply wp_mono; [apply quoted_ok; [by right | done | exact R | lia] |]. auto. }
  destruct (Ascii.eqb_spec c BACKSLASH) as [->|Hb].
  { wp_step. eapply wp_mono; [by apply backslash_ok; [| exact R] |]. auto. }
  assert (lex Bare w0 (c :: cs) = if blank c then
      (let '(ws, r, m) := lex Between [] cs in (w0 :: ws, r, m))
    else if newline c then ([w0], cs, Between) else lex Bare (w0 ++ [c]) cs) as X.
  { cbn [lex]. destruct (Ascii.eqb_spec c QUOTE); [done |]. destruct (Ascii.eqb_spec c APOS); [done |].
    destruct (Ascii.eqb_spec c BACKSLASH); [done |]. done. }
  destruct (blank c); [| destruct (newline c)].
  - wp_step. apply (wp_bump _ _ _ _ _ R). intros st1 R1 L1 C1 W1 P1. wp_step.
    exists w0, cs. split; [done |]. split; [simpl; lia |]. split; [done |]. split; [done |].
    right. left. split; [done |]. split; [done |]. split; [done |]. split; [simpl; lia | done].
  - wp_step. apply (wp_bump _ _ _ _ _ R). intros st1 R1 L1 C1 W1 P1. wp_step.
    destruct (put_nul _ _ _ R1) as (st2 & E2 & R2 & (C2 & W2 & P2) & _); [auto |].
    eapply wp_done; [exact E2 |]. wp_step. exists w0, cs. split; [done |]. split; [simpl; lia |].
    split; [congruence |]. split; [congruence |]. left. rewrite app_assoc.
    split; [done |]. split; [done |]. split; [done | congruence].
  - wp_step. apply (wp_put _ _ _ _ _ _ R). intros st1 K. wp_step. apply K.
    intros st2 R2 (C2 & W2 & P2). rewrite <-app_assoc in R2. apply Cont.
    exists (w0 ++ [c]), cs. split; [done |]. split; [done |]. split; [simpl; lia |].
    split; [done |]. split; [done |]. by left.
Qed.

Lemma skip_blanks_ok fuel A cs st :
  plain cs -> reading A cs st -> (length cs < fuel)%nat ->
  wp (skip_blanks fuel) st (fun _ st' => exists cs', reading A cs' st' /\ plain cs' /\
    (length cs' <= length cs)%nat /\ same_words st st' /\ lex Between [] cs = lex Between [] cs' /\
    match cs' with [] => True | c :: _ => blank c = false end).
Proof.
  revert cs st. induction fuel as [|fuel IH]; intros cs st Hc R Hf; [lia |].
  cbn [skip_blanks]. wp_step. apply (wp_peek _ _ _ _ (proj1 R)). intros c Ec.
  destruct cs as [|c0 cs].
  - injection Ec as <-. change (blank NUL) with false. cbn iota. wp_step. by exists [].
  - apply head_cons in Ec as ->. destruct (blank c0) eqn:Hb; [| wp_step; by exists (c0 :: cs)].
    wp_step. apply (wp_bump _ _ _ _ _ R). intros st1 R1 _ C1 W1 P1. simpl in Hf.
    eapply wp_mono; [apply (IH cs); [by inversion Hc | done | lia] |].
    intros _ st2 (cs' & R2 & Hc' & L2 & (C2 & W2 & P2) & X2 & H2). exists cs'.
    split; [done |]. split; [done |]. split; [simpl; lia |].
    split; [unfold same_words; intuition congruence |]. split; [| done].
    cbn [lex]. rewrite Hb. by destruct (lex Between [] cs) as [[ws r] m].
Qed.

(** The words as they are stored. *)
Definition stored (ws : list (list ascii)) : list ascii := concat ((fun w => w ++ [NUL]) <$> ws).

(** Where the words start. *)
Fixpoint offsets (base : nat) (ws : list (list ascii)) : list nat :=
  match ws with
  | [] => []
  | w :: ws' => base :: offsets (base + length w + 1) ws'
  end.

(** The array of pointers: some are set, and in the second pass it is large
    enough for the words to come. *)
Definition ptrs_ok (ptrs : list nat) (k : nat) (st : split_state) : Prop :=
  word_count st = length ptrs /\
  (p = true -> take (length ptrs) (word_ptrs st) = ptrs /\
     (length ptrs + k <= length (word_ptrs st))%nat).

Definition words_ok (A : list ascii) (ptrs : list nat) (cs : list ascii)
    (st st' : split_state) : Prop :=
  exists ws r m, lex Between [] cs = (ws, r, m) /\ passed (A ++ stored ws) r st' /\
    ptrs_ok (ptrs ++ offsets (length A) ws) 0 st' /\
    length (word_ptrs st') = length (word_ptrs st) /\
    printed st' = printed st ++ complaint m.

Lemma lex_word c cs :
  blank c = false -> newline c = false -> lex Between [] (c :: cs) = lex Bare [] (c :: cs).
Proof. intros Hb Hn. cbn [lex]. by rewrite Hb, Hn. Qed.

Lemma lex_some m w cs : m <> Between -> exists w' ws r m', lex m w cs = (w' :: ws, r, m').
Proof.
  revert m w. induction cs as [|c cs IH]; intros m w Hm; [destruct m; try done; by eexists _, _, _, _ |].
  destruct m as [| |q|]; [done | | |]; cbn [lex].
  - destruct (blank c); [destruct (lex Between [] cs) as [[ws r] m']; by eexists _, _, _, _ |].
    destruct (newline c); [by eexists _, _, _, _ |].
    destruct (_ || _); [by apply IH |]. destruct (Ascii.eqb c BACKSLASH); by apply IH.
  - destruct (Ascii.eqb c q); by apply IH.
  - by apply IH.
Qed.

Lemma start_word_ok A cs ptrs k st :
  reading A cs st -> ptrs_ok ptrs (S k) st ->
  exists st', start_word p st = (inl (), st') /\ reading A cs st' /\
    ptrs_ok (ptrs ++ [length A]) k st' /\ length (word_ptrs st') = length (word_ptrs st) /\
    printed st' = printed st.
Proof.
  intros [[] Hd] [Hw Hp]. unfold start_word. destruct p eqn:Ep in |- *.
  - destruct (Hp Ep) as [H1 H2]. destruct (Hd Ep) as [H3 H4]. rewrite Hw, H3 in *.
    destruct (Nat.ltb_spec (length ptrs) (length (word_ptrs st))); [| lia].
    eexists. split; [done |]. split; [by split; [split |] |]. split; [split |]; simpl.
    + rewrite length_app. simpl. lia.
    + intros _. rewrite length_insert, length_app. simpl. split; [| lia].
      rewrite Nat.add_1_r, (take_S_r _ _ (length A)) by (by apply list_lookup_insert_eq).
      by rewrite take_insert_ge, H1 by done.
    + by rewrite length_insert.
  - eexists. split; [done |]. split; [by split; [split |] |]. split; [split |]; simpl; try done.
    + rewrite length_app. simpl. lia.
    + congruence.
Qed.

Lemma ptrs_ok_same ptrs k st st' :
  ptrs_ok ptrs k st -> word_count st' = word_count st -> word_ptrs st' = word_ptrs st ->
  ptrs_ok ptrs k st'.
Proof. unfold ptrs_ok. intros H1 -> ->. exact H1. Qed.

Lemma stored_cons w ws : stored (w :: ws) = (w ++ [NUL]) ++ stored ws.
Proof. done. Qed.

(** One word, and the words after it. *)
Lemma words_ok_cons A ptrs w cs cs' st st1 st' :
  lex Between [] cs = (let '(ws, r, m) := lex Between [] cs' in (w :: ws, r, m)) ->
  length (word_ptrs st1) = length (word_ptrs st) -> printed st1 = printed st ->
  words_ok (A ++ w ++ [NUL]) (ptrs ++ [length A]) cs' st1 st' -> words_ok A ptrs cs st st'.
Proof.
  intros X Hl Hp (ws & r & m & E & Hpass & Hptr & Hl' & Hp'). exists (w :: ws), r, m.
  rewrite X, E. split; [done |]. rewrite stored_cons, app_assoc. split; [done |].
  split; [| split; congruence]. cbn [offsets]. rewrite <-app_assoc in Hptr.
  rewrite !length_app, Nat.add_assoc in Hptr. exact Hptr.
Qed.

(** The last word. *)
Lemma words_ok_last A ptrs w r m cs st st1 :
  lex Between [] cs = ([w], r, m) -> passed (A ++ w ++ [NUL]) r st1 ->
  ptrs_ok (ptrs ++ [length A]) 0 st1 -> length (word_ptrs st1) = length (word_ptrs st) ->
  printed st1 = printed st ++ complaint m -> words_ok A ptrs cs st st1.
Proof.
  intros X Hpass Hptr Hl Hp. exists [w], r, m. split; [done |]. split; [| done].
  unfold stored. simpl. by rewrite app_nil_r.
Qed.

Lemma ptrs_ok_weaken ptrs k k' st : (k' <= k)%nat -> ptrs_ok ptrs k st -> ptrs_ok ptrs k' st.
Proof. intros Hk [H1 H2]. split; [done |]. intros Hp. destruct (H2 Hp). split; [done | lia]. Qed.

Lemma words_ok_nil A ptrs k cs r st st' :
  lex Between [] cs = ([], r, Between) -> passed A r st' -> ptrs_ok ptrs k st -> same_words st st' ->
  words_ok A ptrs cs st st'.
Proof.
  intros X Hpass Hptr (C & W & P). exists [], r, Between. split; [done |].
  unfold stored. simpl. rewrite !app_nil_r. split; [done |].
  split; [| split; congruence]. eapply ptrs_ok_same; [| done | done].
  by eapply ptrs_ok_weaken; [| done]; lia.
Qed.

Lemma words_loop_nil fuel A st :
  passed A [] st -> wp (words_loop p (S fuel)) st (fun _ st' => st' = st).
Proof.
  intros R. cbn [words_loop]. wp_step. apply (wp_peek _ _ _ _ R). intros c Ec.
  injection Ec as <-. rewrite Ascii.eqb_refl. by wp_step.
Qed.

Lemma words_loop_done fuel A ptrs st :
  passed A [] st -> ptrs_ok ptrs 0 st ->
  wp (words_loop p (S fuel)) st (fun _ => words_ok A ptrs [] st).
Proof.
  intros R Hp. eapply wp_mono; [by eapply words_loop_nil |]. intros _ ? ->. by eapply words_ok_nil.
Qed.

(** One word, and the words behind it. *)
Lemma words_loop_word fuel A ptrs c cs st :
  (forall A ptrs cs st, plain cs -> reading A cs st -> (S (length cs) < S fuel)%nat ->
     ptrs_ok ptrs (length (lex Between [] cs).1.1) st ->
     wp (words_loop p (S fuel)) st (fun _ => words_ok A ptrs cs st)) ->
  plain (c :: cs) -> reading A (c :: cs) st -> (S (length cs) < S fuel)%nat ->
  blank c = false -> newline c = false ->
  ptrs_ok ptrs (length (lex Between [] (c :: cs)).1.1) st ->
  wp (_ ← start_word p; eol ← word_loop p (S (S fuel));
      if (eol : bool) then mret () else _ ← put p NUL; words_loop p (S fuel))
    st (fun _ => words_ok A ptrs (c :: cs) st).
Proof.
  intros IH Hc R Hf Hb Hn Hptr. wp_step. rewrite <-(app_nil_r A) in R.
  pose proof (lex_word _ cs Hb Hn) as X2. rewrite X2 in Hptr.
  destruct (lex_some Bare [] (c :: cs)) as (w1 & ws1 & r1 & m1 & E1); [done |].
  rewrite E1 in Hptr. cbn [fst length] in Hptr.
  destruct (start_word_ok _ _ _ _ _ R Hptr) as (st2 & E2 & R2 & Hptr2 & Hl2 & T2).
  eapply wp_done; [exact E2 |]. wp_step.
  eapply wp_mono; [apply (word_loop_ok _ A [] (c :: cs)); [done | done | simpl; lia] |].
  intros eol st3 (w & cs' & P3 & L3 & C3 & W3 & K). rewrite app_nil_r in Hptr2.
  rewrite <-X2 in K, E1. simpl in L3.
  pose proof (ptrs_ok_same _ _ _ _ Hptr2 C3 W3) as Hptr3.
  destruct K as [(-> & X3 & R3 & T3)|[(-> & R3 & S3 & L4 & T3 & X3)|(-> & -> & R3 & m & X3 & T3)]].
  - wp_step. eapply words_ok_last; [exact X3 | exact R3 | | congruence | simpl; rewrite app_nil_r; congruence].
    by eapply ptrs_ok_weaken; [| exact Hptr3]; lia.
  - wp_step. destruct (put_nul _ _ _ R3) as (st4 & E4 & R4 & (C4 & W4 & T4) & S4 & D4); [auto |].
    eapply wp_done; [exact E4 |]. rewrite <-app_assoc in R4, D4. rewrite E1 in X3.
    assert (lex Between [] cs' = (ws1, r1, m1)) as E5.
    { destruct (lex Between [] cs') as [[ws5 r5] m5]. by injection X3 as _ -> -> ->. }
    eapply wp_mono.
    { apply (IH (A ++ w ++ [NUL]) (ptrs ++ [length A]) cs' st4); [done | | simpl in L4; lia |].
      - split; [done |]. intros Hp. specialize (D4 Hp). specialize (S3 Hp).
        rewrite !length_app in *. simpl in *. split; [done | lia].
      - rewrite E5. by eapply ptrs_ok_same. }
    intros u st5. apply (words_ok_cons _ _ w); [by rewrite E1 | congruence | congruence].
  - wp_step. destruct (put_nul _ _ _ R3) as (st4 & E4 & R4 & (C4 & W4 & T4) & _ & _); [auto |].
    eapply wp_done; [exact E4 |]. rewrite <-app_assoc in R4.
    eapply wp_mono; [by eapply words_loop_nil |]. intros _ st5 ->.
    eapply words_ok_last; [exact X3 | exact R4 | | congruence | congruence].
    eapply ptrs_ok_weaken; [| by eapply ptrs_ok_same]. lia.
Qed.

Lemma words_loop_ok fuel A ptrs cs st :
  plain cs -> reading A cs st -> (S (length cs) < fuel)%nat ->
  ptrs_ok ptrs (length (lex Between [] cs).1.1) st ->
  wp (words_loop p fuel) st (fun _ => words_ok A ptrs cs st).
Proof.
  revert A ptrs cs st. induction fuel as [|fuel IH]; intros A ptrs cs st Hc R Hf Hptr; [lia |].
  destruct cs as [|c cs]; [by apply words_loop_done; [apply R |] |].
  cbn [words_loop]. wp_step. apply (wp_peek _ _ _ _ (proj1 R)). intros c' Ec.
  apply head_cons in Ec as ->. inversion Hc as [|? ? Hc0 Hc']; subst. rewrite eqb_nul by done.
  wp_step. eapply wp_mono; [apply (skip_blanks_ok _ A (c :: cs)); [done | done | simpl in *; lia] |].
  intros _ st1 (cs1 & R1 & P1 & L1 & (C1 & W1 & T1) & X1 & H1). rewrite X1 in Hptr.
  assert (forall st', words_ok A ptrs cs1 st1 st' -> words_ok A ptrs (c :: cs) st st') as Back.
  { intros st' (ws & r & m & E & K1 & K2 & K3 & K4). exists ws, r, m.
    split_and!; congruence || done. }
  apply (fun H => wp_mono _ _ _ _ H (fun a => Back)).
  pose proof (ptrs_ok_same _ _ _ _ Hptr C1 W1) as Hptr1.
  wp_step. apply (wp_peek _ _ _ _ (proj1 R1)). intros c1 Ec1. destruct fuel as [|fuel]; [simpl in Hf; lia |].
  destruct cs1 as [|c2 cs1].
  { injection Ec1 as <-. change (newline NUL) with false. cbn iota. rewrite Ascii.eqb_refl.
    by apply words_loop_done; [apply R1 |]. }
  apply head_cons in Ec1 as ->. inversion P1 as [|? ? Hc2 P1']; subst.
  destruct (newline c2) eqn:Hn.
  { apply (wp_bump _ _ _ _ _ R1). intros st2 R2 _ C2 W2 T2.
    eapply words_ok_nil; [| apply R2 | by eapply ptrs_ok_same | done].
    cbn [lex]. by rewrite H1, Hn. }
  rewrite eqb_nul by done. simpl in Hf, L1. apply words_loop_word; try done. lia.
Qed.
End pass.

(** ** The two passes *)

Lemma split_pass_ok p pre cs post st ws r m :
  line_buf st = pre ++ cs ++ NUL :: post -> plain cs -> lex Between [] cs = (ws, r, m) ->
  (p = true -> length ws <= length (word_ptrs st))%nat ->
  wp (split_pass p (length pre)) st (fun _ st' =>
    passed p (line_buf st) post (pre ++ stored ws) r st' /\
    ptrs_ok p (offsets (length pre) ws) 0 st' /\
    length (word_ptrs st') = length (word_ptrs st) /\
    printed st' = printed st ++ complaint m).
Proof.
  intros Hb Hc X Hw. unfold split_pass. wp_steps. set (st1 := set_word_count _ _).
  eapply wp_mono; [apply (words_loop_ok p (line_buf st) post _ pre [] cs st1) |].
  - done.
  - split; [split |]; simpl; try done.
    + rewrite Hb. by rewrite drop_app_length.
    + intros _. rewrite Hb. by rewrite take_app_length.
  - simpl. rewrite Hb, !length_app. simpl. lia.
  - rewrite X. split; [done |]. auto.
  - intros _ st' (ws' & r' & m' & X' & K). rewrite X in X'. injection X' as <- <- <-. exact K.
Qed.

(** The C string at an address. *)
Fixpoint before_nul (l : list ascii) : list ascii :=
  match l with
  | [] => []
  | c :: t => if Ascii.eqb c NUL then [] else c :: before_nul t
  end.

Lemma before_nul_app w t : plain w -> before_nul (w ++ NUL :: t) = w.
Proof.
  induction 1 as [|c w Hc _ IH]; [done |]. simpl. destruct (Ascii.eqb_spec c NUL); [done |]. by rewrite IH.
Qed.

Lemma unescape_plain c : c <> NUL -> unescape c <> NUL.
Proof. intros H. unfold unescape. repeat case_if; try done. Qed.

Lemma lex_plain m w cs ws r m' :
  plain cs -> plain w -> lex m w cs = (ws, r, m') -> Forall plain ws.
Proof.
  intros Hc. revert m w ws. induction Hc as [|c cs Hc0 Hc IH]; intros m w ws Hw E.
  { cbn [lex] in E. injection E as <- <- <-. destruct m; by repeat constructor. }
  assert (plain (w ++ [c]) /\ plain (w ++ [unescape c])) as [W1 W2].
  { split; apply Forall_app; split; try done; constructor; try done. by apply unescape_plain. }
  destruct m as [| |q|]; cbn [lex] in E.
  - destruct (blank c).
    + destruct (lex Between [] cs) as [[ws0 r0] m0] eqn:X. injection E as <- <- <-.
      by eapply IH; [| exact X]; constructor.
    + destruct (newline c); [injection E as <- <- <-; constructor |].
      destruct (_ || _); [by eapply IH; [| exact E] |].
      destruct (Ascii.eqb c BACKSLASH); by eapply IH; [| exact E].
  - destruct (blank c).
    + destruct (lex Between [] cs) as [[ws0 r0] m0] eqn:X. injection E as <- <- <-.
      constructor; [done |]. by eapply IH; [| exact X]; constructor.
    + destruct (newline c); [injection E as <- <- <-; by repeat constructor |].
      destruct (_ || _); [by eapply IH; [| exact E] |].
      destruct (Ascii.eqb c BACKSLASH); by eapply IH; [| exact E].
  - destruct (Ascii.eqb c q); by eapply IH; [| exact E].
  - by eapply IH; [| exact E].
Qed.

(** A word is found where its pointer says. *)
Lemma stored_lookup base ws i w off t :
  Forall plain ws -> ws !! i = Some w -> offsets (length base) ws !! i = Some off ->
  before_nul (drop off (base ++ stored ws ++ t)) = w.
Proof.
  intros Hws. revert base i. induction Hws as [|w0 ws Hw0 _ IH]; intros base i E1 E2; [done |].
  destruct i as [|i].
  - injection E1 as ->. injection E2 as <-. rewrite drop_app_length, stored_cons, <-!app_assoc.
    by apply before_nul_app.
  - rewrite stored_cons. rewrite <-(IH (base ++ w0 ++ [NUL]) i E1).
    + by rewrite <-!app_assoc.
    + rewrite !length_app, Nat.add_assoc. exact E2.
Qed.

Lemma offsets_length base ws : length (offsets base ws) = length ws.
Proof. revert base. induction ws as [|w ws IH]; intros base; [done |]. simpl. by rewrite IH. Qed.

Lemma argcargv_ok pre cs post st ws r m :
  line_buf st = pre ++ cs ++ NUL :: post -> plain cs -> lex Between [] cs = (ws, r, m) ->
  exists s st', argcargv true (Some (length pre)) st =
      (inl (offsets (length pre) ws, length ws, Some s), st') /\
    (forall i w off, ws !! i = Some w -> offsets (length pre) ws !! i = Some off ->
       before_nul (drop off (line_buf st')) = w) /\
    take (length pre) (line_buf st') = pre /\ drop s (line_buf st') = r ++ NUL :: post /\
    length (line_buf st') = length (line_buf st) /\
    printed st' = printed st ++ complaint m ++ complaint m.
Proof.
  intros Hb Hc X. unfold argcargv.
  destruct (wp_inv _ _ _ (split_pass_ok false pre cs post st ws r m Hb Hc X ltac:(done)))
    as ([] & st1 & E1 & R1 & [C1 _] & L1 & T1).
  rewrite (bind_done _ _ _ _ _ E1). set (st2 := set_word_ptrs (replicate (word_count st1) 0%nat) st1).
  assert (line_buf st2 = pre ++ cs ++ NUL :: post) as Hb2.
  { simpl. rewrite (rd_first _ _ _ _ _ _ R1) by done. exact Hb. }
  rewrite offsets_length in C1.
  destruct (wp_inv _ _ _ (split_pass_ok true pre cs post st2 ws r m Hb2 Hc X
    ltac:(intros _; simpl; rewrite length_replicate; lia))) as ([] & st3 & E3 & R3 & [C3 P3] & L3 & T3).
  destruct (P3 eq_refl) as [P4 _]. rewrite offsets_length in C3, P4.
  rewrite (bind_done (_ ≫= _) _ st1 () st3) by exact E3.
  simpl in L3. rewrite length_replicate, C1 in L3.
  assert (word_ptrs st3 = offsets (length pre) ws) as Hptr by (by rewrite <-P4, take_ge by lia).
  exists (line_s st3), st3. split; [unfold mbind, M_bind, gets, id, mret, M_ret; by rewrite Hptr, C3 |]. destruct R3.
  specialize (rd_written0 eq_refl). simpl in T3.
  split_and!; try done.
  - intros i w off E4 E5.
    rewrite <-(take_drop (length (pre ++ stored ws)) (line_buf st3)), rd_written0, <-app_assoc.
    eapply stored_lookup; [| done | done].
    eapply lex_plain; [exact Hc | constructor | exact X].
  - rewrite <-(Nat.min_l (length pre) (length (pre ++ stored ws))) by (rewrite length_app; lia).
    by rewrite <-take_take, rd_written0, take_app_length.
  - rewrite rd_length0, Hb2. by rewrite Hb.
  - by rewrite T3, T1, <-app_assoc.
Qed.

(** ** Writing a line *)

(** A character as it can be written in a line. *)
Definition escape (c : ascii) : list ascii :=
  if Ascii.eqb c TAB then [BACKSLASH; "t"%char]
  else if Ascii.eqb c LF then [BACKSLASH; "n"%char]
  else if Ascii.eqb c CR then [BACKSLASH; "r"%char]
  else if Ascii.eqb c " " || Ascii.eqb c QUOTE || Ascii.eqb c APOS || Ascii.eqb c BACKSLASH
  then [BACKSLASH; c]
  else [c].

Definition escape_word (w : list ascii) : list ascii :=
  match w with
  | [] => [QUOTE; QUOTE]
  | _ => concat (escape <$> w)
  end.

Fixpoint escape_words (ws : list (list ascii)) : list ascii :=
  match ws with
  | [] => [LF]
  | w :: ws' => escape_word w ++ " "%char :: escape_words ws'
  end.

Lemma lex_escape c w t : lex Bare w (escape c ++ t) = lex Bare (w ++ [c]) t.
Proof.
  unfold escape. destruct (Ascii.eqb_spec c TAB) as [->|H1]; [done |].
  destruct (Ascii.eqb_spec c LF) as [->|H2]; [done |].
  destruct (Ascii.eqb_spec c CR) as [->|H3]; [done |].
  destruct (Ascii.eqb_spec c " ") as [->|H4]; [done |].
  destruct (Ascii.eqb_spec c QUOTE) as [->|H5]; [done |].
  destruct (Ascii.eqb_spec c APOS) as [->|H6]; [done |].
  destruct (Ascii.eqb_spec c BACKSLASH) as [->|H7]; [done |]. cbn.
  unfold blank, newline. by rewrite !(proj2 (Ascii.eqb_neq _ _)) by done.
Qed.

Lemma lex_escapes w0 w t : lex Bare w0 (concat (escape <$> w) ++ t) = lex Bare (w0 ++ w) t.
Proof.
  revert w0. induction w as [|c w IH]; intros w0; simpl; [by rewrite app_nil_r |].
  by rewrite <-app_assoc, lex_escape, IH, <-app_assoc.
Qed.

Lemma lex_escape_word w t :
  lex Between [] (escape_word w ++ " "%char :: t) =
  let '(ws, r, m) := lex Between [] t in (w :: ws, r, m).
Proof.
  destruct w as [|c w]; [done |].
  transitivity (lex Bare [] (escape_word (c :: w) ++ " "%char :: t)).
  - unfold escape_word. simpl. unfold escape. repeat (case_if; [done |]).
    bool_simpl. simpl. apply lex_word; unfold blank, newline; apply orb_false_iff; intuition.
  - unfold escape_word. by rewrite lex_escapes.
Qed.

Lemma lex_escape_words ws r : lex Between [] (escape_words ws ++ r) = (ws, r, Between).
Proof.
  induction ws as [|w ws IH]; [done |]. cbn [escape_words]. rewrite <-app_assoc. simpl.
  by rewrite lex_escape_word, IH.
Qed.

Lemma escape_words_plain ws : Forall plain ws -> plain (escape_words ws).
Proof.
  induction 1 as [|w ws Hw _ IH]; [repeat constructor; done |]. cbn [escape_words].
  apply Forall_app. split; [| by constructor].
  destruct Hw as [|c w Hc Hw]; [by repeat constructor |]. unfold escape_word.
  assert (forall c, c <> NUL -> plain (escape c)) as Esc.
  { intros c' Hc'. unfold escape. repeat case_if; by repeat constructor. }
  simpl. apply Forall_app. split; [by apply Esc |]. clear Hc c.
  induction Hw as [|c w Hc _ IHw]; simpl; [constructor |]. apply Forall_app. split; [by apply Esc | exact IHw].
Qed.

(** ** Properties *)

(** C15: [argcargv] splits the line in place.  It terminates and stays inside the
    buffer and the array of pointers; it finds the words that reading the line
    once finds ([lex]); every pointer leads to its word, terminated; the rest of
    the buffer, where the next line starts, is as it was, and so is what comes
    before the line.  What it complains about it says twice, once per pass. *)
Theorem argcargv_splits pre cs post st ws r m :
  line_buf st = pre ++ cs ++ NUL :: post -> plain cs -> lex Between [] cs = (ws, r, m) ->
  exists s st', argcargv true (Some (length pre)) st =
      (inl (offsets (length pre) ws, length ws, Some s), st') /\
    (forall i w off, ws !! i = Some w -> offsets (length pre) ws !! i = Some off ->
       before_nul (drop off (line_buf st')) = w) /\
    take (length pre) (line_buf st') = pre /\ drop s (line_buf st') = r ++ NUL :: post /\
    length (line_buf st') = length (line_buf st) /\
    printed st' = printed st ++ complaint m ++ complaint m.
Proof. apply argcargv_ok. Qed.

Lemma argcargv_splits_witness :
  let line := String.list_ascii_of_string "risu 'a b'\ c -x" in
  let st := SplitState ((line ++ [LF]) ++ String.list_ascii_of_string "next" ++ [NUL]) 0 0 0 [] [] in
  exists s st', argcargv true (Some 0%nat) st = (inl ([0; 5; 11]%nat, 3%nat, Some s), st') /\
    (forall i w off, (String.list_ascii_of_string <$> ["risu"; "a b c"; "-x"]%string) !! i = Some w ->
       [0; 5; 11]%nat !! i = Some off -> before_nul (drop off (line_buf st')) = w) /\
    drop s (line_buf st') = String.list_ascii_of_string "next" ++ [NUL].
Proof.
  intros line st.
  destruct (argcargv_splits [] ((line ++ [LF]) ++ String.list_ascii_of_string "next") [] st
    (String.list_ascii_of_string <$> ["risu"; "a b c"; "-x"]%string) (String.list_ascii_of_string "next") Between)
    as (s & st' & E & Hw & _ & Hd & _).
  - reflexivity.
  - repeat constructor; discriminate.
  - vm_compute. reflexivity.
  - exists s, st'. split; [exact E |]. split; [exact Hw | exact Hd].
Defined.

(** C16: every list of arguments can be written as a line: the escaped arguments,
    read back by [argcargv], are the arguments, and reading stops behind the
    line. *)
Theorem argcargv_roundtrip pre (args : list (list ascii)) post st :
  Forall plain args -> line_buf st = pre ++ escape_words args ++ NUL :: post ->
  exists s st', argcargv true (Some (length pre)) st =
      (inl (offsets (length pre) args, length args, Some s), st') /\
    (forall i w off, args !! i = Some w -> offsets (length pre) args !! i = Some off ->
       before_nul (drop off (line_buf st')) = w) /\
    drop s (line_buf st') = NUL :: post /\ printed st' = printed st.
Proof.
  intros Hp Hb. pose proof (lex_escape_words args []) as X. rewrite app_nil_r in X.
  destruct (argcargv_ok pre _ post st args [] Between Hb (escape_words_plain _ Hp) X)
    as (s & st' & E & Hw & _ & Hd & _ & Ht). rewrite app_nil_r in Ht.
  by exists s, st'.
Qed.

Lemma argcargv_roundtrip_witness :
  let args := String.list_ascii_of_string <$> ["-t"; "a file"]%string in
  let st := SplitState (escape_words args ++ [NUL]) 0 0 0 [] [] in
  Forall plain args /\
  exists s st', argcargv true (Some 0%nat) st = (inl (offsets 0 args, 2%nat, Some s), st') /\
    drop s (line_buf st') = [NUL].
Proof.
  intros args st. assert (Forall plain args) as Hp.
  { repeat constructor; discriminate. }
  split; [exact Hp |].
  destruct (argcargv_roundtrip [] args [] st Hp eq_refl) as (s & st' & E & _ & Hd & _).
  exists s, st'. split; [exact E | exact Hd].
Defined.
