(* ===== verification/Header.v ===== *)
(** * The trace header (risu.h, and the endian functions of risu.c)

    Every message of the master starts with a [trace_header_t].  The header is
    sent as its memory image; the master may swap it to the byte order of the
    architecture, and the apprentice recognises a swapped header by its magic
    number. *)

From S2P Require Import Prelude Endian Arch.

Record trace_header_t : Type := Header {
  magic : Z;       (* uint32_t *)
  size : Z;        (* uint32_t *)
  risu_op : Z;     (* int32_t *)
  pc : Z           (* arch_ptr_t *)
}.

Section header.
Context `{Build} `{Arch}.

(** Layout: three 32-bit fields, padding before an 8-byte pointer, [pc]. *)
Definition header_layout : list nat :=
  if (arch_ptr_bytes =? 8)%nat then [4; 4; 4; 4; 8]%nat else [4; 4; 4; 4]%nat.

(** [sizeof(trace_header_t)] *)
Definition header_sizeof : Z := Z.of_nat (layout_size header_layout).

Definition header_enc (h : trace_header_t) : bytes :=
  encode_fields host_le header_layout
    (if (arch_ptr_bytes =? 8)%nat
     then [magic h; size h; u32 (risu_op h); 0; pc h]
     else [magic h; size h; u32 (risu_op h); pc h]).

Definition header_dec (bs : bytes) : trace_header_t :=
  match decode_fields host_le header_layout bs with
  | [m; s; o; p] => Header m s (s32 o) p
  | [m; s; o; _; p] => Header m s (s32 o) p
  | _ => Header 0 0 0 0
  end.

Definition byte_swap_header (h : trace_header_t) : trace_header_t :=
  Header (BYTESWAP_32 (magic h))
         (BYTESWAP_32 (size h))
         (s32 (BYTESWAP_32 (u32 (risu_op h))))
         (if (arch_ptr_bytes =? 8)%nat then BYTESWAP_64 (pc h) else BYTESWAP_32 (pc h)).

(** The condition of [header_host_to_arch], with its conditional [!]. *)
Definition header_swaps : bool :=
  if def_LITTLE_ENDIAN then negb (negb get_arch_big_endian)
  else negb get_arch_big_endian.

Definition header_host_to_arch (h : trace_header_t) : trace_header_t :=
  if header_swaps then
    if magic h =? BYTESWAP_32 RISU_MAGIC then h else byte_swap_header h
  else h.

Definition header_arch_to_host (h : trace_header_t) : trace_header_t :=
  if magic h =? BYTESWAP_32 RISU_MAGIC then byte_swap_header h else h.

(** Every field holds a value of its type. *)
Definition header_wf (h : trace_header_t) : Prop :=
  in_width 32 (magic h) /\ in_width 32 (size h) /\
  - 2 ^ 31 <= risu_op h < 2 ^ 31 /\ in_width (8 * Z.of_nat arch_ptr_bytes) (pc h).

(** The swap of an [arch_ptr_t] is the built-in one, or pointers have 4 bytes. *)
Definition ptr_swap_ok : Prop := arch_ptr_bytes = 8%nat -> bswap_builtins = true.

Lemma header_enc_length h : length (header_enc h) = Z.to_nat header_sizeof.
Proof.
  unfold header_enc, header_sizeof, header_layout.
  rewrite Nat2Z.id, encode_fields_length; by case_if.
Qed.
End header.

(** Two processes of one test: their builds may differ, the architecture is
    the same. *)
Section transfer.
Context (A B : Build) `{Arch}.
Context (ptr : arch_ptr_bytes = 4%nat \/ arch_ptr_bytes = 8%nat).

(** A header is read back by a host of the same byte order, and read back
    swapped by a host of the other. *)
Lemma header_dec_enc (h : trace_header_t) t :
  header_wf h -> (@host_le A <> @host_le B -> @ptr_swap_ok A _) ->
  @header_dec B _ (@header_enc A _ h ++ t) =
  if eqb (@host_le A) (@host_le B) then h else @byte_swap_header A _ h.
Proof.
  intros (Hm & Hs & Ho & Hp) Hb. unfold header_dec, header_enc, header_layout.
  assert (in_width 32 (u32 (risu_op h))) as Hu by by apply wrap_range.
  assert (forall le (n : nat) x t', in_width (8 * Z.of_nat n) x ->
    int_val (@host_le B) (take n (int_bytes le n x ++ t')) =
    if eqb le (@host_le B) then x else builtin_bswap n x) as K.
  { intros le n x t' Hx. rewrite take_app_length' by by rewrite int_bytes_length.
    destruct (eqb le (@host_le B)) eqn:E.
    - apply eqb_prop in E as ->. by rewrite int_val_bytes, wrap_small.
    - replace (@host_le B) with (negb le) by (by destruct le, (@host_le B)).
      rewrite <-(negb_involutive le) at 2. rewrite <-int_bytes_bswap, int_val_bytes.
      apply wrap_small, builtin_bswap_range. }
  assert (forall le (n : nat) x t', drop n (int_bytes le n x ++ t') = t') as D.
  { intros. by rewrite drop_app_length' by by rewrite int_bytes_length. }
  destruct ptr as [E|E]; rewrite E in *; cbn [Nat.eqb encode_fields decode_fields];
    rewrite <-!app_assoc; rewrite !D, !K by done; unfold byte_swap_header;
    rewrite E; cbn [Nat.eqb].
  - rewrite !BYTESWAP_32_spec by done. destruct h as [m z o p]. simpl in *.
    case_if; [| done]. by rewrite swrap_wrap, swrap_small by lia.
  - destruct h as [m z o p]. cbn [magic size risu_op pc] in *.
    destruct (eqb (@host_le A) (@host_le B)) eqn:L.
    + by rewrite swrap_wrap, swrap_small by lia.
    + apply eqb_false_iff in L. specialize (Hb L E).
      by rewrite !BYTESWAP_32_spec, BYTESWAP_64_spec.
Qed.

Lemma byte_swap_header_wf (h : trace_header_t) :
  header_wf h -> @ptr_swap_ok A _ -> header_wf (@byte_swap_header A _ h).
Proof.
  intros (Hm & Hs & Ho & Hp) Hb. unfold header_wf, byte_swap_header. cbn [magic size risu_op pc].
  split; [by apply BYTESWAP_32_range |]. split; [by apply BYTESWAP_32_range |].
  split; [by apply (swrap_range 32) |].
  destruct ptr as [E|E]; rewrite E in *; cbn [Nat.eqb].
  - by apply BYTESWAP_32_range.
  - rewrite BYTESWAP_64_spec by auto. apply builtin_bswap_range.
Qed.

Lemma byte_swap_header_twice (h : trace_header_t) :
  header_wf h -> @ptr_swap_ok A _ -> @ptr_swap_ok B _ ->
  @byte_swap_header B _ (@byte_swap_header A _ h) = h.
Proof.
  intros (Hm & Hs & Ho & Hp) Hba Hbb. unfold byte_swap_header. cbn [magic size risu_op pc].
  assert (forall x, in_width 32 x -> @BYTESWAP_32 B (@BYTESWAP_32 A x) = x) as K.
  { intros x Hx. rewrite (@BYTESWAP_32_spec A) by done.
    rewrite (@BYTESWAP_32_spec B) by apply (builtin_bswap_range 4).
    by apply builtin_bswap_involutive. }
  rewrite wrap_swrap, (wrap_small 32 (@BYTESWAP_32 A _)) by
    (lia || by apply BYTESWAP_32_range, wrap_range).
  rewrite !K by (done || by apply wrap_range).
  rewrite swrap_wrap, swrap_small by lia.
  destruct h as [m z o p]. cbn [magic size risu_op pc] in *. f_equal.
  destruct ptr as [E|E]; rewrite E in *; cbn [Nat.eqb]; [by apply K |].
  rewrite (@BYTESWAP_64_spec B), (@BYTESWAP_64_spec A) by auto.
  by apply builtin_bswap_involutive.
Qed.

Lemma swapped_magic : @BYTESWAP_32 A RISU_MAGIC = 0x55534952.
Proof. rewrite BYTESWAP_32_spec; [done | vm_compute; split; congruence]. Qed.
End transfer.


(** The receiver sees the sender's header, or its swap. *)
Lemma header_transfer (A B : Build) `{Arch} (h : trace_header_t) t :
  arch_ptr_bytes = 4%nat \/ arch_ptr_bytes = 8%nat ->
  header_wf h -> magic h = RISU_MAGIC -> @ptr_swap_ok A _ -> @ptr_swap_ok B _ ->
  @header_arch_to_host B _
    (@header_dec B _ (@header_enc A _ (@header_host_to_arch A _ h) ++ t)) = h.
Proof.
  intros ptr Hw Hm Ha Hb. unfold header_host_to_arch. rewrite swapped_magic, Hm.
  change (RISU_MAGIC =? 0x55534952) with false. cbn iota.
  assert (forall k, magic k = RISU_MAGIC -> @header_arch_to_host B _ k = k) as N.
  { intros k E. unfold header_arch_to_host. by rewrite E, swapped_magic. }
  assert (@header_arch_to_host B _ (@byte_swap_header A _ h) = h) as S.
  { unfold header_arch_to_host. cbn [magic byte_swap_header].
    rewrite Hm, !swapped_magic. simpl. by apply byte_swap_header_twice. }
  destruct (@header_swaps A _).
  - rewrite header_dec_enc by auto using byte_swap_header_wf. case_if; [done |].
    rewrite byte_swap_header_twice by done. by apply N.
  - rewrite header_dec_enc by done. case_if; [by apply N | done].
Qed.

(** ** Properties *)

(** C30: a header crosses any pair of hosts: whatever the byte orders of the two
    hosts, whatever the byte order of the architecture, and whether or not the
    sender's compiler says it is little-endian, the apprentice reads the header
    the master wrote.  (8-byte pointers need the compiler's byte swap, which
    the portable macro does not provide.) *)
Theorem header_crosses_hosts (A B : Build) `{Arch} (h : trace_header_t) (rest : bytes) :
  arch_ptr_bytes = 4%nat \/ arch_ptr_bytes = 8%nat ->
  header_wf h -> magic h = RISU_MAGIC -> @ptr_swap_ok A _ -> @ptr_swap_ok B _ ->
  @header_arch_to_host B _
    (@header_dec B _ (@header_enc A _ (@header_host_to_arch A _ h) ++ rest)) = h.
Proof. apply header_transfer. Qed.
