(* ===== verification/Risu.v ===== *)
(** * Master and apprentice (risu.c)

    The common code of risu: what the signal handlers of the two processes do,
    the messages they exchange, and the outcome each process reports.

    The static variables of risu.c are the record [risu], together with the
    context of the interrupted program, the descriptor [comm_fd] and the
    compressed trace file.  Functions of the source are computations in
    [M risu].  The program under test is a parameter [cpu]: from the context it
    is resumed in it computes the next signal, or returns. *)

From S2P Require Import Prelude Endian Comms Arch Header.

(** zlib: [gzread], [gzwrite] and [gzclose] on a file opened with [gzdopen]. *)
Class Zlib := {
  gzfile : Type;
  gzread : gzfile -> Z -> (Z * bytes) * gzfile;
  gzwrite : gzfile -> bytes -> Z * gzfile;
  gzclose : gzfile -> gzfile
}.

(** The settings of a process that do not change while it runs. *)
Record settings `{Arch} : Type := Settings {
  trace : bool;            (* record to or play back from a file *)
  comm_std : bool;         (* comm_fd is standard input or output *)
  have_zlib : bool;        (* HAVE_ZLIB *)
  opts : aopts;            (* the architecture's options *)
  img : image
}.

Section risu.
Context `{Build} `{Arch} `{Zlib}.

(** ** State *)

Record risu : Type := Risu {
  ri_master : reginfo;   (* ri[MASTER] *)
  ri_apprentice : reginfo;   (* ri[APPRENTICE] *)
  other_memblock : bytes;
  header : trace_header_t;
  memblock : option Z;   (* None: NULL *)
  arch_memblock : Z;
  signal_count : Z;
  illegal_instructions : Z;
  signal_pc : Z;
  is_setup : bool;
  uc : uctx;   (* the context the signal handler was given *)
  io : os;   (* the descriptor comm_fd *)
  gz : gzfile;   (* gz_trace_file *)
  comm_open : bool;   (* comm_fd has not been closed *)
  err : text   (* what was written to stderr *)
}.

Definition set_ri_master (v : reginfo) (s : risu) : risu :=
  Risu v (ri_apprentice s) (other_memblock s) (header s) (memblock s) (arch_memblock s)
    (signal_count s) (illegal_instructions s) (signal_pc s) (is_setup s) (uc s) (io s)
    (gz s) (comm_open s) (err s).
Definition set_ri_apprentice (v : reginfo) (s : risu) : risu :=
  Risu (ri_master s) v (other_memblock s) (header s) (memblock s) (arch_memblock s)
    (signal_count s) (illegal_instructions s) (signal_pc s) (is_setup s) (uc s) (io s)
    (gz s) (comm_open s) (err s).
Definition set_other_memblock (v : bytes) (s : risu) : risu :=
  Risu (ri_master s) (ri_apprentice s) v (header s) (memblock s) (arch_memblock s)
    (signal_count s) (illegal_instructions s) (signal_pc s) (is_setup s) (uc s) (io s)
    (gz s) (comm_open s) (err s).
Definition set_header (v : trace_header_t) (s : risu) : risu :=
  Risu (ri_master s) (ri_apprentice s) (other_memblock s) v (memblock s)
    (arch_memblock s) (signal_count s) (illegal_instructions s) (signal_pc s)
    (is_setup s) (uc s) (io s) (gz s) (comm_open s) (err s).
Definition set_memblock (v : option Z) (s : risu) : risu :=
  Risu (ri_master s) (ri_apprentice s) (other_memblock s) (header s) v (arch_memblock s)
    (signal_count s) (illegal_instructions s) (signal_pc s) (is_setup s) (uc s) (io s)
    (gz s) (comm_open s) (err s).
Definition set_arch_memblock (v : Z) (s : risu) : risu :=
  Risu (ri_master s) (ri_apprentice s) (other_memblock s) (header s) (memblock s) v
    (signal_count s) (illegal_instructions s) (signal_pc s) (is_setup s) (uc s) (io s)
    (gz s) (comm_open s) (err s).
Definition set_signal_count (v : Z) (s : risu) : risu :=
  Risu (ri_master s) (ri_apprentice s) (other_memblock s) (header s) (memblock s)
    (arch_memblock s) v (illegal_instructions s) (signal_pc s) (is_setup s) (uc s)
    (io s) (gz s) (comm_open s) (err s).
Definition set_illegal_instructions (v : Z) (s : risu) : risu :=
  Risu (ri_master s) (ri_apprentice s) (other_memblock s) (header s) (memblock s)
    (arch_memblock s) (signal_count s) v (signal_pc s) (is_setup s) (uc s) (io s) (gz s)
    (comm_open s) (err s).
Definition set_signal_pc (v : Z) (s : risu) : risu :=
  Risu (ri_master s) (ri_apprentice s) (other_memblock s) (header s) (memblock s)
    (arch_memblock s) (signal_count s) (illegal_instructions s) v (is_setup s) (uc s)
    (io s) (gz s) (comm_open s) (err s).
Definition set_is_setup (v : bool) (s : risu) : risu :=
  Risu (ri_master s) (ri_apprentice s) (other_memblock s) (header s) (memblock s)
    (arch_memblock s) (signal_count s) (illegal_instructions s) (signal_pc s) v (uc s)
    (io s) (gz s) (comm_open s) (err s).
Definition set_uc (v : uctx) (s : risu) : risu :=
  Risu (ri_master s) (ri_apprentice s) (other_memblock s) (header s) (memblock s)
    (arch_memblock s) (signal_count s) (illegal_instructions s) (signal_pc s)
    (is_setup s) v (io s) (gz s) (comm_open s) (err s).
Definition set_io (v : os) (s : risu) : risu :=
  Risu (ri_master s) (ri_apprentice s) (other_memblock s) (header s) (memblock s)
    (arch_memblock s) (signal_count s) (illegal_instructions s) (signal_pc s)
    (is_setup s) (uc s) v (gz s) (comm_open s) (err s).
Definition set_gz (v : gzfile) (s : risu) : risu :=
  Risu (ri_master s) (ri_apprentice s) (other_memblock s) (header s) (memblock s)
    (arch_memblock s) (signal_count s) (illegal_instructions s) (signal_pc s)
    (is_setup s) (uc s) (io s) v (comm_open s) (err s).
Definition set_comm_open (v : bool) (s : risu) : risu :=
  Risu (ri_master s) (ri_apprentice s) (other_memblock s) (header s) (memblock s)
    (arch_memblock s) (signal_count s) (illegal_instructions s) (signal_pc s)
    (is_setup s) (uc s) (io s) (gz s) v (err s).
Definition set_err (v : text) (s : risu) : risu :=
  Risu (ri_master s) (ri_apprentice s) (other_memblock s) (header s) (memblock s)
    (arch_memblock s) (signal_count s) (illegal_instructions s) (signal_pc s)
    (is_setup s) (uc s) (io s) (gz s) (comm_open s) v.

Definition fprintf (fmt : string) (args : list arg) : M risu () :=
  modify (fun s => set_err (err s ++ [(fmt, args)]) s).

Definition on_io {A} (m : M os A) : M risu A := zoom io set_io m.
Definition on_uc {A} (m : M uctx A) : M risu A := zoom uc set_uc m.

(** An [arch_ptr_t]. *)
Definition arch_ptr (z : Z) : Z := wrap (8 * Z.of_nat arch_ptr_bytes) z.

Section process.
Variable cfg : settings.

(** ** I/O functions *)

(** [read_buffer]: the result, and the bytes that were stored in the buffer. *)
Definition read_buffer (n : Z) : M risu (RisuResult * bytes) :=
  if negb (trace cfg) then
    d ← on_io (recv_data_pkt (s32 n));
    mret (match d with
          | Some bs => (RES_OK, bs)
          | None => (RES_BAD_IO, [])
          end)
  else
    r ← (if have_zlib cfg && negb (comm_std cfg) then
           fun s => let '(r, g) := gzread (gz s) n in (inl r, set_gz g s)
         else on_io (sys_read n));
    mret (if u64 (fst r) =? n then RES_OK else RES_BAD_IO, snd r).

(** [write_buffer(ptr, n)], where [obj] is the object [ptr] points to. *)
Definition write_buffer (obj : bytes) (n : Z) : M risu RisuResult :=
  if Z.of_nat (length obj) <? n then stop HUB
  else
    let data := take (Z.to_nat n) obj in
    if negb (trace cfg) then
      r ← on_io (send_data_pkt data);
      mret (RisuResult_of_Z r)
    else
      r ← (if have_zlib cfg && negb (comm_std cfg) then
             fun s => let '(r, g) := gzwrite (gz s) data in (inl r, set_gz g s)
           else on_io (sys_write data));
      mret (if u64 r =? n then RES_OK else RES_BAD_IO).

Definition respond (r : RisuResult) : M risu () :=
  if negb (trace cfg) then on_io (send_response_byte (RisuResult_to_Z r))
  else mret ().

(** ** The master *)

(** The first [switch] of [send_register_info]: the payload ([extra]) and its
    size. *)
Definition prepare_payload (op : RisuOp) : M risu (Z * option bytes) :=
  match op with
  | OP_TESTEND | OP_COMPARE | OP_SIGILL =>
      r ← gets ri_master;
      let r' := reginfo_host_to_arch r in
      _ ← modify (set_ri_master r');
      mret (reginfo_size r, Some (reginfo_enc host_le r'))
  | OP_COMPAREMEM =>
      mb ← gets memblock;
      u ← gets uc;
      match mb with
      | None => mret (MEMBLOCKLEN, None)
      | Some p =>
          match mem_at u p MEMBLOCKLEN with
          | Some bs => mret (MEMBLOCKLEN, Some bs)
          | None => stop HUB
          end
      end
  | OP_SETMEMBLOCK | OP_GETMEMBLOCK | OP_SETUPBEGIN | OP_SETUPEND => mret (0, None)
  | OP_OTHER _ => stop HAbort
  end.

(** What both sides do when an operation on the memory block or on the setup
    phase has been agreed on. *)
Definition do_setmemblock (r : reginfo) : M risu () :=
  u ← gets uc;
  let a := get_reginfo_paramreg r in
  _ ← modify (set_arch_memblock (arch_ptr a));
  modify (set_memblock (get_arch_memory u (arch_ptr a))).

Definition do_getmemblock (r : reginfo) : M risu () :=
  base ← gets arch_memblock;
  let paramreg := arch_ptr (get_reginfo_paramreg r) in
  on_uc (modify (set_ucontext_paramreg (arch_ptr (paramreg + base)))).

(** The second [switch] of [send_register_info]. *)
Definition master_after_send (op : RisuOp) : M risu RisuResult :=
  r ← gets ri_master;
  match op with
  | OP_COMPARE | OP_SIGILL | OP_COMPAREMEM => mret RES_OK
  | OP_TESTEND => mret RES_END
  | OP_SETMEMBLOCK => _ ← do_setmemblock r; mret RES_OK
  | OP_GETMEMBLOCK => _ ← do_getmemblock r; mret RES_OK
  | OP_SETUPBEGIN => _ ← modify (set_is_setup true); mret RES_OK
  | OP_SETUPEND => _ ← modify (set_is_setup false); mret RES_OK
  | OP_OTHER _ => stop HAbort
  end.

(** Both sides count illegal instructions, and skip them silently during the
    setup phase. *)
Definition count_illegal (op : RisuOp) : M risu bool :=
  match op with
  | OP_SIGILL =>
      _ ← modify (fun s => set_illegal_instructions (u64 (illegal_instructions s + 1)) s);
      gets is_setup
  | _ => mret false
  end.

(** The header, then the payload if there is one. *)
Definition send_message (h : trace_header_t) (extra : option bytes) : M risu RisuResult :=
  res ← write_buffer (header_enc h) header_sizeof;
  if negb (bool_decide (res = RES_OK)) then mret res else
  match extra with
  | None => mret RES_OK
  | Some obj => write_buffer obj (size h)
  end.

Definition send_register_info (siaddr : Z) : M risu RisuResult :=
  r ← on_uc (reginfo_init (opts cfg) (img cfg) siaddr);
  _ ← modify (set_ri_master r);
  let op := get_risuop r in
  skip ← count_illegal op;
  if (skip : bool) then mret RES_OK else
  u ← gets uc;
  let pc := arch_ptr (get_pc u r) in
  payload ← prepare_payload op;
  _ ← modify (set_header (header_host_to_arch
        (Header RISU_MAGIC (u32 (fst payload)) (RisuOp_to_Z op) pc)));
  h ← gets header;
  res ← send_message h (snd payload);
  if negb (bool_decide (res = RES_OK)) then mret res else master_after_send op.

(** A handler resumes the program ([None]) or jumps back to [master] or
    [apprentice] with a result. *)
Definition finish_signal (si : Z) (r : RisuResult) : M risu (option RisuResult) :=
  match r with
  | RES_OK => _ ← on_uc (modify advance_pc); mret None
  | _ =>
      u ← gets uc;
      _ ← modify (set_signal_pc (get_uc_pc u si));
      mret (Some r)
  end.

Inductive signal : Type := SIGILL | SIGBUS.

Definition master_sigill (sig : signal) (si : Z) : M risu (option RisuResult) :=
  _ ← modify (fun s => set_signal_count (u64 (signal_count s + 1)) s);
  r ← match sig with
      | SIGBUS => mret RES_SIGBUS
      | SIGILL => send_register_info si
      end;
  finish_signal si r.

(** ** The apprentice *)

(** [recv_register_info] up to the check of the magic number: a short read
    leaves its bytes in [header], the byte order is put right, and if the magic
    number is wrong the rest cannot be trusted. *)
Definition recv_header : M risu RisuResult :=
  hb ← read_buffer header_sizeof;
  h0 ← gets header;
  _ ← modify (set_header (header_dec (splice (header_enc h0) (snd hb))));
  if negb (bool_decide (fst hb = RES_OK)) then mret (fst hb) else
  _ ← modify (fun s => set_header (header_arch_to_host (header s)) s);
  h ← gets header;
  mret (if negb (magic h =? RISU_MAGIC) then RES_BAD_MAGIC else RES_OK).

(** A register file arrives: it must fit, and its size must be the one it has
    by its own account. *)
Definition recv_reginfo (h : trace_header_t) : M risu RisuResult :=
  if Z.of_nat reginfo_sizeof <? size h then mret RES_BAD_SIZE_HEADER else
  _ ← respond RES_OK;
  rb ← read_buffer (size h);
  old ← gets ri_master;
  let r := reginfo_arch_to_host
             (reginfo_dec host_le (splice (reginfo_enc host_le old) (snd rb))) in
  _ ← modify (set_ri_master r);
  mret (if bool_decide (fst rb = RES_OK) && negb (size h =? u32 (reginfo_size r))
        then RES_BAD_SIZE_REGINFO else fst rb).

(** A memory block arrives. *)
Definition recv_memblock (h : trace_header_t) : M risu RisuResult :=
  if negb (size h =? MEMBLOCKLEN) then mret RES_BAD_SIZE_MEMBLOCK else
  _ ← respond RES_OK;
  mb ← read_buffer MEMBLOCKLEN;
  _ ← modify (fun s => set_other_memblock (splice (other_memblock s) (snd mb)) s);
  mret (fst mb).

(** The [switch] of [recv_register_info]. *)
Definition recv_payload : M risu RisuResult :=
  h ← gets header;
  match RisuOp_of_Z (risu_op h) with
  | OP_COMPARE | OP_TESTEND | OP_SIGILL => recv_reginfo h
  | OP_COMPAREMEM => recv_memblock h
  | OP_SETMEMBLOCK | OP_GETMEMBLOCK | OP_SETUPBEGIN | OP_SETUPEND =>
      mret (if size h =? 0 then RES_OK else RES_BAD_SIZE_ZERO)
  | OP_OTHER _ => mret RES_BAD_OP
  end.

Definition recv_register_info : M risu RisuResult :=
  res ← recv_header;
  if negb (bool_decide (res = RES_OK)) then mret res else recv_payload.

(** [memcmp(memblock, other_memblock, MEMBLOCKLEN) != 0] *)
Definition memblock_differs : M risu bool :=
  mb ← gets memblock;
  u ← gets uc;
  other ← gets other_memblock;
  match mb with
  | None => stop HUB
  | Some p =>
      match mem_at u p MEMBLOCKLEN with
      | Some bs => mret (negb (bool_decide (bs = other)))
      | None => stop HUB
      end
  end.

(** The comparison of two register files, for [OP_COMPARE], [OP_TESTEND] and
    [OP_SIGILL]. *)
Definition compare_reginfo (op : RisuOp) (siaddr : Z) : M risu RisuResult :=
  h ← gets header;
  setup ← gets is_setup;
  m ← gets ri_master;
  match RisuOp_of_Z (risu_op h) with
  | OP_COMPARE | OP_TESTEND | OP_SIGILL =>
      n ← gets signal_count;
      eq ← (if (setup : bool) then mret true
            else zoom ri_apprentice set_ri_apprentice (reginfo_is_eq (opts cfg) n m));
      if negb eq then mret RES_MISMATCH_REG
      else if negb (RisuOp_to_Z op =? risu_op h) then mret RES_MISMATCH_OP
      else
        match op with
        | OP_TESTEND => mret RES_END
        | OP_SIGILL => mret RES_OK
        | _ => _ ← on_uc (modify (reginfo_update (opts cfg) m siaddr)); mret RES_OK
        end
  | _ => mret RES_MISMATCH_OP
  end.

(** The [switch] of [recv_and_compare_register_info]. *)
Definition compare_op (op : RisuOp) (siaddr : Z) : M risu RisuResult :=
  h ← gets header;
  a ← gets ri_apprentice;
  let same_op := RisuOp_to_Z op =? risu_op h in
  match op with
  | OP_COMPARE | OP_TESTEND | OP_SIGILL => compare_reginfo op siaddr
  | OP_SETMEMBLOCK =>
      if negb same_op then mret RES_MISMATCH_OP
      else _ ← do_setmemblock a; mret RES_OK
  | OP_GETMEMBLOCK =>
      if negb same_op then mret RES_MISMATCH_OP
      else _ ← do_getmemblock a; mret RES_OK
  | OP_COMPAREMEM =>
      if negb same_op then mret RES_MISMATCH_OP
      else d ← memblock_differs;
           mret (if (d : bool) then RES_MISMATCH_MEM else RES_OK)
  | OP_SETUPBEGIN | OP_SETUPEND =>
      if negb same_op then mret RES_MISMATCH_OP
      else _ ← modify (set_is_setup (bool_decide (op = OP_SETUPBEGIN))); mret RES_OK
  | OP_OTHER _ => stop HAbort
  end.

Definition recv_and_compare_register_info (siaddr : Z) : M risu RisuResult :=
  r ← on_uc (reginfo_init (opts cfg) (img cfg) siaddr);
  _ ← modify (set_ri_apprentice r);
  let op := get_risuop r in
  skip ← count_illegal op;
  if (skip : bool) then mret RES_OK else
  res ← recv_register_info;
  res ← (if bool_decide (res = RES_OK) then compare_op op siaddr else mret res);
  _ ← respond (if bool_decide (res = RES_OK) then RES_OK else RES_END);
  mret res.

Definition apprentice_sigill (sig : signal) (si : Z) : M risu (option RisuResult) :=
  _ ← modify (fun s => set_signal_count (u64 (signal_count s + 1)) s);
  r ← match sig with
      | SIGBUS => mret RES_SIGBUS
      | SIGILL => recv_and_compare_register_info si
      end;
  finish_signal si r.

(** ** Running the test image *)

(** The program under test: from a context to the next signal, with the
    address the signal reports and the context of the interruption; [None] if
    the image returns. *)
Variable cpu : uctx -> option (signal * Z * uctx).

(** [do_image] between [sigsetjmp] and the jump back: resume the image until a
    handler jumps ([Some r]) or the image returns ([None]).  [fuel] bounds the
    number of signals. *)
Fixpoint run_image (handler : signal -> Z -> M risu (option RisuResult)) (fuel : nat)
    : M risu (option RisuResult) :=
  match fuel with
  | O => stop HFuel
  | S fuel' =>
      u ← gets uc;
      match cpu u with
      | None => mret None
      | Some (sig, si, u') =>
          _ ← modify (set_uc u');
          o ← handler sig si;
          match o with
          | Some r => mret (Some r)
          | None => run_image handler fuel'
          end
      end
  end.

(** ** Reporting *)

Definition print_loc : M risu () :=
  p ← gets signal_pc;
  fprintf " at image + 0x%x" [AInt (arch_ptr (p - get_arch_start_address (img cfg)))].

Definition print_stats : M risu () :=
  n ← gets signal_count;
  i ← gets illegal_instructions;
  fprintf " after %zd checkpoints and %zd illegal instructions\n"
    [AInt (u64 (n - i)); AInt i].

Definition report (fmt : string) (args : list arg) : M risu () :=
  _ ← fprintf fmt args;
  _ ← print_loc;
  print_stats.

(** [gzclose] writes what zlib still holds; then the descriptor is closed. *)
Definition close_comm : M risu () :=
  _ ← (if have_zlib cfg && trace cfg && negb (comm_std cfg)
       then modify (fun s => set_gz (gzclose (gz s)) s)
       else mret ());
  modify (set_comm_open false).

Definition dump (t : text) : M risu () := modify (fun s => set_err (err s ++ t) s).

(** The [switch] of [master] after a jump. *)
Definition master_result (res : RisuResult) : M risu Z :=
  match res with
  | RES_END =>
      _ ← fprintf "done" []; _ ← print_stats; _ ← close_comm; mret EXIT_SUCCESS
  | RES_BAD_IO =>
      _ ← report "i/o error" []; mret EXIT_FAILURE
  | RES_SIGBUS =>
      _ ← report "bus error" []; _ ← close_comm; mret EXIT_FAILURE
  | r =>
      _ ← report "unexpected result %d" [AInt (RisuResult_to_Z r)];
      _ ← close_comm; mret EXIT_FAILURE
  end.

Definition master (fuel : nat) : M risu Z :=
  _ ← fprintf "starting image at 0x%x\n" [AInt (get_arch_start_address (img cfg))];
  o ← run_image master_sigill fuel;
  match o with
  | None => _ ← fprintf "image returned unexpectedly\n" []; mret EXIT_FAILURE
  | Some r => master_result r
  end.

Definition op_name (op : RisuOp) : M risu string :=
  match op with
  | OP_SIGILL => mret "SIGILL"%string
  | OP_COMPARE => mret "COMPARE"%string
  | OP_TESTEND => mret "TESTEND"%string
  | OP_SETMEMBLOCK => mret "SETMEMBLOCK"%string
  | OP_GETMEMBLOCK => mret "GETMEMBLOCK"%string
  | OP_COMPAREMEM => mret "COMPAREMEM"%string
  | OP_SETUPBEGIN => mret "SETUPBEGIN"%string
  | OP_SETUPEND => mret "SETUPEND"%string
  | OP_OTHER _ => stop HAbort
  end.

(** The [switch] of [apprentice] after a jump. *)
Definition apprentice_result (res : RisuResult) : M risu Z :=
  h ← gets header;
  m ← gets ri_master;
  a ← gets ri_apprentice;
  match res with
  | RES_END =>
      _ ← fprintf "done" []; _ ← print_stats; mret EXIT_SUCCESS
  | RES_MISMATCH_REG =>
      _ ← report "Mismatch reg" [];
      _ ← fprintf "master reginfo:\n" [];
      _ ← dump (reginfo_dump m);
      _ ← fprintf "apprentice reginfo:\n" [];
      _ ← dump (reginfo_dump a);
      _ ← dump (reginfo_dump_mismatch (opts cfg) m a);
      mret EXIT_FAILURE
  | RES_MISMATCH_MEM => _ ← report "Mismatch mem" []; mret EXIT_FAILURE
  | RES_MISMATCH_OP =>
      _ ← report "Mismatch header" [];
      m_name ← op_name (RisuOp_of_Z (risu_op h));
      a_name ← op_name (get_risuop a);
      _ ← fprintf "mismatch detail (master : apprentice):\n  opcode: %s vs %s\n"
            [AStr m_name; AStr a_name];
      mret EXIT_FAILURE
  | RES_BAD_IO => _ ← report "i/o error" []; mret EXIT_FAILURE
  | RES_BAD_MAGIC =>
      _ ← report "Unexpected magic number: %#08x" [AInt (magic h)]; mret EXIT_FAILURE
  | RES_BAD_SIZE_HEADER =>
      _ ← report "Payload size %u in header exceeds expected size %d"
            [AInt (size h); AInt (Z.of_nat reginfo_sizeof)];
      mret EXIT_FAILURE
  | RES_BAD_SIZE_REGINFO =>
      _ ← report "Payload size %u in header doesn't match received payload size %d"
            [AInt (size h); AInt (reginfo_size m)];
      mret EXIT_FAILURE
  | RES_BAD_SIZE_MEMBLOCK =>
      _ ← report
            "Payload size %u in header doesn't match the expected memory block payload size %d"
            [AInt (size h); AInt MEMBLOCKLEN];
      mret EXIT_FAILURE
  | RES_BAD_SIZE_ZERO =>
      _ ← report "Payload size %u in header is expected to be 0" [AInt (size h)];
      mret EXIT_FAILURE
  | RES_BAD_OP =>
      _ ← report "Unexpected opcode: %d" [AInt (risu_op h)]; mret EXIT_FAILURE
  | RES_SIGBUS => _ ← report "bus error" []; mret EXIT_FAILURE
  | r =>
      _ ← report "Unexpected result %dx" [AInt (RisuResult_to_Z r)]; mret EXIT_FAILURE
  end.

Definition apprentice (fuel : nat) : M risu Z :=
  _ ← fprintf "starting image at 0x%x\n" [AInt (get_arch_start_address (img cfg))];
  o ← run_image apprentice_sigill fuel;
  match o with
  | None => _ ← fprintf "image returned unexpectedly\n" []; mret EXIT_FAILURE
  | Some r => apprentice_result r
  end.
End process.

(** The state [risu_main] starts a test in: the static variables are zero. *)
Definition risu_start (u : uctx) (s : os) (g : gzfile) : risu :=
  let zero := reginfo_dec host_le (replicate reginfo_sizeof 0) in
  Risu zero zero (replicate (Z.to_nat MEMBLOCKLEN) 0) (Header 0 0 0 0) None 0
    0 0 0 false u s g true [].
End risu.
