(* ===== verification/Verdict.v ===== *)
(** * The verdict of the apprentice (risu.c)

    What it takes for a checkpoint to be accepted, what every kind of
    disagreement is reported as, and that a test which ends successfully has
    compared every checkpoint of its run.  The theorems hold over a socket and
    over a trace, unless they say otherwise. *)

From S2P Require Import Prelude Endian Comms Arch Header Risu.

Section verdict.
Context `{Build} `{Arch} `{Zlib}.

(** ** Where a handler starts *)

(** The first thing both handlers do. *)
Definition captures (cfg : settings) (si : Z) (w : risu) (r : reginfo) (u : uctx) : Prop :=
  reginfo_init (opts cfg) (img cfg) si (uc w) = (inl r, u).

Lemma on_uc_init cfg si w r u :
  captures cfg si w r u ->
  on_uc (reginfo_init (opts cfg) (img cfg) si) w = (inl r, set_uc u w).
Proof. intros E. unfold on_uc, zoom. by rewrite E. Qed.

(** In the setup phase illegal instructions are skipped. *)
Definition skipped (r : reginfo) (w : risu) : bool :=
  bool_decide (get_risuop r = OP_SIGILL) && is_setup w.

Definition counted (r : reginfo) (w : risu) : risu :=
  if bool_decide (get_risuop r = OP_SIGILL)
  then set_illegal_instructions (u64 (illegal_instructions w + 1)) w else w.

Lemma count_illegal_eq r w :
  count_illegal (get_risuop r) w = (inl (skipped r w), counted r w).
Proof. unfold count_illegal, skipped, counted. by destruct (get_risuop r). Qed.

(** The state in which each side starts to communicate. *)
Definition master_at (r : reginfo) (u : uctx) (w : risu) : risu :=
  counted r (set_ri_master r (set_uc u w)).
Definition apprentice_at (r : reginfo) (u : uctx) (w : risu) : risu :=
  counted r (set_ri_apprentice r (set_uc u w)).

Lemma uc_counted r w : uc (counted r w) = uc w.
Proof. unfold counted. by case_if. Qed.

(** The state in which the image is started. *)
Definition announced (cfg : settings) (w : risu) : risu :=
  set_err (err w ++ [("starting image at 0x%x\n",
    [AInt (get_arch_start_address (img cfg))])]) w.

(** ** What receiving a message leaves alone *)

Section frame.
Context {X : Type} (f : risu -> X).
Hypothesis f_io : forall v w, f (set_io v w) = f w.
Hypothesis f_gz : forall v w, f (set_gz v w) = f w.
Variable cfg : settings.

Lemma keeps_on_io {A} (m : M os A) : keeps f (on_io m).
Proof. by apply keeps_zoom. Qed.

Lemma keeps_respond r : keeps f (respond cfg r).
Proof. unfold respond. destruct (negb _); [apply keeps_on_io | apply keeps_ret]. Qed.

Lemma keeps_read_buffer n : keeps f (read_buffer cfg n).
Proof.
  unfold read_buffer. destruct (negb _).
  - apply keeps_bind; [apply keeps_on_io | intros a; apply keeps_ret].
  - apply keeps_bind; [| intros a; apply keeps_ret].
    destruct (_ && _); [| apply keeps_on_io].
    intros s r s' E. destruct (gzread (gz s) n). by simplify_eq.
Qed.

Hypothesis f_header : forall v w, f (set_header v w) = f w.

Lemma keeps_recv_header : keeps f (recv_header cfg).
Proof.
  unfold recv_header. apply keeps_bind; [apply keeps_read_buffer |]. intros hb.
  apply keeps_bind; [apply keeps_gets |]. intros h0.
  apply keeps_bind; [by apply keeps_modify |]. intros _.
  destruct (negb _); [apply keeps_ret |].
  apply keeps_bind; [by apply keeps_modify |]. auto with keeps.
Qed.

Hypothesis f_ri_master : forall v w, f (set_ri_master v w) = f w.
Hypothesis f_other : forall v w, f (set_other_memblock v w) = f w.

Lemma keeps_recv_reginfo h : keeps f (recv_reginfo cfg h).
Proof.
  unfold recv_reginfo. destruct (_ <? _); [apply keeps_ret |].
  apply keeps_bind; [apply keeps_respond |]. intros _.
  apply keeps_bind; [apply keeps_read_buffer |]. intros rb.
  apply keeps_bind; [apply keeps_gets |]. intros old.
  apply keeps_bind; [by apply keeps_modify |]. auto with keeps.
Qed.

Lemma keeps_recv_memblock h : keeps f (recv_memblock cfg h).
Proof.
  unfold recv_memblock. destruct (negb _); [apply keeps_ret |].
  apply keeps_bind; [apply keeps_respond |]. intros _.
  apply keeps_bind; [apply keeps_read_buffer |]. intros mb.
  apply keeps_bind; [by apply keeps_modify |]. auto with keeps.
Qed.

Lemma keeps_recv_payload : keeps f (recv_payload cfg).
Proof.
  unfold recv_payload. apply keeps_bind; [apply keeps_gets |]. intros h.
  destruct (RisuOp_of_Z _); auto using keeps_ret, keeps_recv_reginfo, keeps_recv_memblock.
Qed.

Lemma keeps_recv_register_info : keeps f (recv_register_info cfg).
Proof.
  unfold recv_register_info. apply keeps_bind; [apply keeps_recv_header |].
  intros res. destruct (negb _); [apply keeps_ret | apply keeps_recv_payload].
Qed.
End frame.

(** ** One checkpoint *)

Definition is_reg_op (op : RisuOp) : bool :=
  match op with OP_COMPARE | OP_TESTEND | OP_SIGILL => true | _ => false end.

Section checkpoint.
Variable cfg : settings.

(** [recv_header] accepts only a header with the right magic number. *)
Lemma recv_header_magic w w' :
  recv_header cfg w = (inl RES_OK, w') -> magic (header w') = RISU_MAGIC.
Proof.
  unfold recv_header. intros E.
  apply bind_inv in E as (hb & w1 & _ & E). apply bind_inv in E as (h0 & w2 & _ & E).
  apply bind_inv in E as (k & w3 & _ & E).
  destruct (bool_decide (fst hb = RES_OK)) eqn:B; cbn [negb] in E.
  - apply bind_inv in E as (k2 & w4 & _ & E). unfold gets in E. munfold.
    destruct (Z.eqb_spec (magic (header w4)) RISU_MAGIC); cbn [negb] in E; by simplify_eq.
  - injection E as E1 E2. rewrite E1 in B. by rewrite bool_decide_true in B.
Qed.

(** The header is not touched while the payload is received. *)
Lemma recv_register_info_magic w w' :
  recv_register_info cfg w = (inl RES_OK, w') -> magic (header w') = RISU_MAGIC.
Proof.
  unfold recv_register_info. intros E. apply bind_inv in E as (res & w1 & E1 & E2).
  destruct (bool_decide (res = RES_OK)) eqn:B; cbn [negb] in E2.
  - apply bool_decide_eq_true in B as ->. apply recv_header_magic in E1.
    rewrite <-E1. f_equal. by eapply (keeps_recv_payload header); [.. | exact E2].
  - injection E2 as E2 _. rewrite E2 in B. by rewrite bool_decide_true in B.
Qed.

(** Receiving never says the test has ended. *)
Lemma recv_never_ends w w' : recv_register_info cfg w = (inl RES_END, w') -> False.
Proof.
  assert (forall n v b v', read_buffer cfg n v = (inl (RES_END, b), v') -> False) as Hb.
  { intros n v b v' E. unfold read_buffer in E. destruct (negb (trace cfg));
      apply bind_inv in E as (a & v1 & _ & E);
      [destruct a | destruct (u64 (fst a) =? n) eqn:B]; munfold; rewrite ?B in E; by simplify_eq. }
  unfold recv_register_info. intros E. apply bind_inv in E as (res & w1 & E1 & E).
  destruct (bool_decide_reflect (res = RES_OK)) as [->|Hne]; cbn [negb] in E.
  - unfold recv_payload in E. apply bind_inv in E as (h & w2 & _ & E).
    destruct (RisuOp_of_Z (risu_op h)); try done;
      try (by destruct (size h =? 0)).
    all: unfold recv_reginfo, recv_memblock in E;
      match type of E with (if ?b then _ else _) _ = _ => destruct b; [done |] end;
      apply bind_inv in E as (x1 & v1 & _ & E); apply bind_inv in E as ([x2 b2] & v2 & R & E).
    1-3: apply bind_inv in E as (x3 & v3 & _ & E).
    all: apply bind_inv in E as (x4 & v4 & _ & E); injection E as E _; cbn [fst snd] in E.
    1-3: destruct (_ && _); [done |].
    all: subst x2; by eapply Hb.
  - injection E as -> _. unfold recv_header in E1.
    apply bind_inv in E1 as ([x b] & v1 & R & E). apply bind_inv in E as (h0 & v2 & _ & E).
    apply bind_inv in E as (y & v3 & _ & E). cbn [fst snd] in E.
    destruct (bool_decide (x = RES_OK)); cbn [negb] in E.
    + apply bind_inv in E as (z & v4 & _ & E). apply bind_inv in E as (h & v5 & _ & E).
      injection E as E _. by destruct (negb _).
    + injection E as -> _. by eapply Hb.
Qed.

(** The two register files agree, or are not compared in the setup phase. *)
Definition regs_agree (setup : bool) (n : Z) (m a : reginfo) : Prop :=
  setup = true \/ exists a', reginfo_is_eq (opts cfg) n m a = (inl true, a').

(** The apprentice's memory block has the contents that were received. *)
Definition blocks_agree (mb : option Z) (u : uctx) (other : bytes) : Prop :=
  exists p, mb = Some p /\ mem_at u p MEMBLOCKLEN = Some other.

(** What has to agree at a checkpoint, by operation. *)
Definition checkpoint_agrees (op : RisuOp) (w : risu) : Prop :=
  RisuOp_of_Z (risu_op (header w)) = op /\
  match op with
  | OP_COMPARE | OP_TESTEND | OP_SIGILL =>
      regs_agree (is_setup w) (signal_count w) (ri_master w) (ri_apprentice w)
  | OP_COMPAREMEM => blocks_agree (memblock w) (uc w) (other_memblock w)
  | OP_OTHER _ => False
  | _ => True
  end.

Lemma same_op_spec op w :
  (forall z, op <> OP_OTHER z) ->
  (RisuOp_to_Z op =? risu_op (header w)) = bool_decide (RisuOp_of_Z (risu_op (header w)) = op).
Proof.
  intros Ho. apply Bool.eq_iff_eq_true. rewrite bool_decide_eq_true, Z.eqb_eq.
  split; intros E.
  - rewrite <-E. by apply RisuOp_of_to_Z.
  - rewrite <-E. apply RisuOp_to_of_Z.
Qed.

(** The comparison of register files, branch by branch. *)
Lemma compare_reginfo_spec op si w :
  is_reg_op op = true ->
  fst (compare_reginfo cfg op si w) =
    (if negb (is_reg_op (RisuOp_of_Z (risu_op (header w)))) then inl RES_MISMATCH_OP
     else if is_setup w then
       if bool_decide (RisuOp_of_Z (risu_op (header w)) = op)
       then inl (if bool_decide (op = OP_TESTEND) then RES_END else RES_OK)
       else inl RES_MISMATCH_OP
     else
       match reginfo_is_eq (opts cfg) (signal_count w) (ri_master w) (ri_apprentice w) with
       | (inl true, _) =>
           if bool_decide (RisuOp_of_Z (risu_op (header w)) = op)
           then inl (if bool_decide (op = OP_TESTEND) then RES_END else RES_OK)
           else inl RES_MISMATCH_OP
       | (inl false, _) => inl RES_MISMATCH_REG
       | (inr h, _) => inr h
       end).
Proof.
  intros Ho.
  assert (forall z, op <> OP_OTHER z) as Hn by (intros z ->; done).
  unfold compare_reginfo.
  rewrite (bind_done (gets header) _ _ (header w) w) by done.
  rewrite (bind_done (gets is_setup) _ _ (is_setup w) w) by done.
  rewrite (bind_done (gets ri_master) _ _ (ri_master w) w) by done.
  rewrite (same_op_spec op w Hn).
  destruct (RisuOp_of_Z (risu_op (header w))) eqn:Hm; cbn [is_reg_op negb]; try done;
    rewrite (bind_done (gets signal_count) _ _ (signal_count w) w) by done;
    (destruct (is_setup w);
      [| unfold zoom; munfold;
         destruct (reginfo_is_eq (opts cfg) _ _ _) as [[[]|] a']]);
    munfold; cbn [negb]; try done;
    destruct op; try done.
Qed.

(** The result of comparing a checkpoint says exactly what disagreed. *)
Lemma compare_op_ok op si w res :
  fst (compare_op cfg op si w) = inl res ->
  (res = RES_OK \/ res = RES_END <-> checkpoint_agrees op w) /\
  (checkpoint_agrees op w -> (res = RES_END <-> op = OP_TESTEND)).
Proof.
  intros E. destruct (is_reg_op op) eqn:Ho.
  - assert (compare_op cfg op si w = compare_reginfo cfg op si w) as Ec by (by destruct op).
    rewrite Ec, compare_reginfo_spec in E by done. unfold checkpoint_agrees.
    assert (match op with
      | OP_COMPARE | OP_TESTEND | OP_SIGILL =>
          regs_agree (is_setup w) (signal_count w) (ri_master w) (ri_apprentice w)
      | OP_COMPAREMEM => blocks_agree (memblock w) (uc w) (other_memblock w)
      | OP_OTHER _ => False | _ => True end
      <-> regs_agree (is_setup w) (signal_count w) (ri_master w) (ri_apprentice w)) as ->
      by (by destruct op).
    unfold regs_agree.
    destruct (bool_decide (RisuOp_of_Z (risu_op (header w)) = op)) eqn:B.
    + apply bool_decide_eq_true in B. rewrite B in *. rewrite Ho in E. cbn [negb] in E.
      destruct (bool_decide_reflect (op = OP_TESTEND)); destruct (is_setup w);
        [| destruct (reginfo_is_eq (opts cfg) _ _ _) as [[[]|] a']
         | | destruct (reginfo_is_eq (opts cfg) _ _ _) as [[[]|] a']]; naive_solver.
    + apply bool_decide_eq_false in B.
      destruct (is_reg_op (RisuOp_of_Z (risu_op (header w))));
      (destruct (is_setup w);
        [| destruct (reginfo_is_eq (opts cfg) _ _ _) as [[[]|] a']]); naive_solver.
  - assert (forall z, op <> OP_OTHER z) as Hn by (intros z ->; done).
    unfold compare_op in E. munfold. rewrite (same_op_spec op w Hn) in E.
    unfold checkpoint_agrees.
    destruct (bool_decide_reflect (RisuOp_of_Z (risu_op (header w)) = op)) as [B|B]; cbn [negb] in E.
    + destruct op; try done; simplify_eq/=; try naive_solver.
      unfold blocks_agree. unfold memblock_differs in E. munfold.
      destruct (memblock w) as [p|]; [| done].
      destruct (mem_at (uc w) p MEMBLOCKLEN) as [bs|] eqn:Hb; [| done]. simplify_eq/=.
      destruct (bool_decide_reflect (bs = other_memblock w)); simpl; naive_solver.
    + destruct op; try done; simplify_eq/=; naive_solver.
Qed.

(** Both sides sent registers, and they were compared and differ. *)
Definition regs_differ (op : RisuOp) (w : risu) : Prop :=
  is_reg_op op = true /\ is_reg_op (RisuOp_of_Z (risu_op (header w))) = true /\
  is_setup w = false /\
  exists a', reginfo_is_eq (opts cfg) (signal_count w) (ri_master w) (ri_apprentice w)
    = (inl false, a').

(** Both sides compare memory, and the blocks differ. *)
Definition blocks_differ (op : RisuOp) (w : risu) : Prop :=
  op = OP_COMPAREMEM /\ RisuOp_of_Z (risu_op (header w)) = OP_COMPAREMEM /\
  exists p bs, memblock w = Some p /\ mem_at (uc w) p MEMBLOCKLEN = Some bs /\
    bs <> other_memblock w.

Lemma compare_op_mismatch op si w res :
  fst (compare_op cfg op si w) = inl res ->
  (res = RES_MISMATCH_REG <-> regs_differ op w) /\
  (res = RES_MISMATCH_MEM <-> blocks_differ op w) /\
  (res = RES_MISMATCH_OP <->
    RisuOp_of_Z (risu_op (header w)) <> op /\ ~ regs_differ op w).
Proof.
  intros E. unfold regs_differ, blocks_differ. destruct (is_reg_op op) eqn:Ho.
  - assert (compare_op cfg op si w = compare_reginfo cfg op si w) as Ec by (by destruct op).
    rewrite Ec, compare_reginfo_spec in E by done.
    assert (op <> OP_COMPAREMEM) as Hm by (by intros ->).
    destruct (is_reg_op (RisuOp_of_Z (risu_op (header w)))) eqn:Hr; cbn [negb] in E.
    2: { assert (RisuOp_of_Z (risu_op (header w)) <> op) by congruence. naive_solver. }
    set (b := bool_decide (op = OP_TESTEND)) in E.
    destruct (is_setup w), (bool_decide_reflect (RisuOp_of_Z (risu_op (header w)) = op)), b;
      destruct (reginfo_is_eq (opts cfg) _ _ _) as [[[]|] a']; naive_solver.
  - assert (forall z, op <> OP_OTHER z) as Hn by (intros z ->; done).
    unfold compare_op in E. munfold. rewrite (same_op_spec op w Hn) in E.
    destruct (bool_decide_reflect (RisuOp_of_Z (risu_op (header w)) = op)) as [B|B]; cbn [negb] in E.
    + destruct op; try done; simplify_eq/=; try naive_solver.
      unfold memblock_differs in E. munfold.
      destruct (memblock w) as [p|]; [| done].
      destruct (mem_at (uc w) p MEMBLOCKLEN) as [bs|] eqn:Hb; [| done]. simplify_eq/=.
      destruct (bool_decide_reflect (bs = other_memblock w)); simpl; naive_solver.
    + destruct op; try done; simplify_eq/=; naive_solver.
Qed.

(** The apprentice accepts a checkpoint; [last]: as the end of the test. *)
Definition accepted (si : Z) (w : risu) (last : bool) : Prop :=
  exists r u, captures cfg si w r u /\
    (skipped r w = true /\ last = false \/
     skipped r w = false /\ (last = true <-> get_risuop r = OP_TESTEND) /\
     exists w1, recv_register_info cfg (apprentice_at r u w) = (inl RES_OK, w1) /\
       magic (header w1) = RISU_MAGIC /\ checkpoint_agrees (get_risuop r) w1 /\
       uc w1 = u /\ ri_apprentice w1 = r /\ is_setup w1 = is_setup w /\
       memblock w1 = memblock w /\ signal_count w1 = signal_count w).

Lemma apprentice_at_fields r u w :
  uc (apprentice_at r u w) = u /\ ri_apprentice (apprentice_at r u w) = r /\
  is_setup (apprentice_at r u w) = is_setup w /\
  memblock (apprentice_at r u w) = memblock w /\
  signal_count (apprentice_at r u w) = signal_count w.
Proof. unfold apprentice_at, counted. by destruct (bool_decide _). Qed.

Lemma respond_result r w (x : RisuResult) res w' :
  (_ ← respond cfg r; mret x) w = (inl res, w') -> x = res.
Proof. intros E. apply bind_inv in E as (? & ? & _ & E). by injection E. Qed.

(** The handler up to the point where it waits for the message. *)
Lemma compare_start si w r u :
  captures cfg si w r u ->
  recv_and_compare_register_info cfg si w =
  if skipped r w then (inl RES_OK, apprentice_at r u w)
  else (res ← recv_register_info cfg;
        res ← (if bool_decide (res = RES_OK) then compare_op cfg (get_risuop r) si else mret res);
        _ ← respond cfg (if bool_decide (res = RES_OK) then RES_OK else RES_END);
        mret res) (apprentice_at r u w).
Proof.
  intros C. unfold recv_and_compare_register_info.
  rewrite (bind_done _ _ _ _ _ (on_uc_init _ _ _ _ _ C)).
  rewrite (bind_done (modify _) _ _ () (set_ri_apprentice r (set_uc u w))) by done.
  rewrite (bind_done _ _ _ _ _ (count_illegal_eq r _)).
  change (skipped r (set_ri_apprentice r (set_uc u w))) with (skipped r w). by destruct (skipped r w).
Qed.

Lemma accept_inv si w res w' :
  recv_and_compare_register_info cfg si w = (inl res, w') ->
  res = RES_OK \/ res = RES_END -> accepted si w (bool_decide (res = RES_END)).
Proof.
  intros E Hres.
  destruct (reginfo_init (opts cfg) (img cfg) si (uc w)) as [[r|k] u] eqn:I.
  2: { unfold recv_and_compare_register_info, on_uc, zoom in E. munfold. by rewrite I in E. }
  exists r, u. split; [done |]. rewrite (compare_start si w r u I) in E.
  destruct (skipped r w); [left | right].
  { injection E as <- _. by rewrite bool_decide_false. }
  split; [done |]. apply bind_inv in E as (res1 & w1 & E1 & E).
  destruct (bool_decide_reflect (res1 = RES_OK)) as [->|Hne].
  2: { rewrite (bind_done (mret _) _ _ res1 w1) in E by done. apply respond_result in E.
       subst res1. destruct Hres as [->| ->]; [done |]. by apply recv_never_ends in E1. }
  apply bind_inv in E as (res2 & w2 & E2 & E). apply respond_result in E. subst res2.
  destruct (compare_op_ok (get_risuop r) si w1 res) as [Hok Hend]; [by rewrite E2 |].
  assert (checkpoint_agrees (get_risuop r) w1) as Ha by (by apply Hok).
  split; [rewrite bool_decide_eq_true; by apply Hend |].
  exists w1. split; [done |]. split; [by eapply recv_register_info_magic |].
  split; [done |]. destruct (apprentice_at_fields r u w) as (F1 & F2 & F3 & F4 & F5).
  split_and!; [rewrite <-F1 | rewrite <-F2 at 1 | rewrite <-F3 | rewrite <-F4 | rewrite <-F5];
    by eapply (keeps_recv_register_info _); [.. | exact E1].
Qed.

(** ** The whole run *)
Variable cpu : uctx -> option (signal * Z * uctx).

(** The calls of a handler in a run: the signal, its address, and the state in
    which the handler was entered. *)
Fixpoint handled (handler : signal -> Z -> M risu (option RisuResult)) (fuel : nat)
    (w : risu) : list (signal * Z * risu) :=
  match fuel with
  | O => []
  | S fuel' =>
      match cpu (uc w) with
      | None => []
      | Some (sig, si, u) =>
          (sig, si, set_uc u w) ::
          match handler sig si (set_uc u w) with
          | (inl None, w') => handled handler fuel' w'
          | _ => []
          end
      end
  end.

(** A handler call that accepts. *)
Definition accepts (last : bool) (c : signal * Z * risu) : Prop :=
  let '(sig, si, w) := c in
  sig = SIGILL /\
  accepted si (set_signal_count (u64 (signal_count w + 1)) w) last.

Lemma apprentice_sigill_accepts sig si w o w' :
  apprentice_sigill cfg sig si w = (inl o, w') ->
  o = None \/ o = Some RES_END -> accepts (bool_decide (o <> None)) (sig, si, w).
Proof.
  unfold apprentice_sigill. intros E Ho.
  rewrite (bind_done (modify _) _ _ () _ eq_refl) in E.
  apply bind_inv in E as (res & w1 & E1 & E2). destruct sig.
  - split; [done |]. unfold finish_signal in E2. munfold.
    assert (res = RES_OK /\ o = None \/ res = RES_END /\ o = Some RES_END) as Hr.
    { destruct res; simplify_eq/=; naive_solver. }
    assert (bool_decide (o <> None) = bool_decide (res = RES_END)) as ->
      by (by destruct Hr as [[-> ->]|[-> ->]]).
    eapply accept_inv; [exact E1 | naive_solver].
  - munfold. simplify_eq/=. naive_solver.
Qed.

Lemma run_accepts fuel w w' :
  run_image cpu (apprentice_sigill cfg) fuel w = (inl (Some RES_END), w') ->
  exists l x, handled (apprentice_sigill cfg) fuel w = l ++ [x] /\
    Forall (accepts false) l /\ accepts true x.
Proof.
  revert w. induction fuel as [|fuel IH]; intros w E; [done |].
  cbn [run_image handled] in *. rewrite (bind_done (gets uc) _ _ (uc w) w) in E by done.
  destruct (cpu (uc w)) as [[[sig si] u]|]; [| done].
  rewrite (bind_done (modify _) _ _ () (set_uc u w)) in E by done.
  apply bind_inv in E as (o & w1 & E1 & E2). rewrite E1.
  destruct o as [r|].
  - injection E2 as -> _. exists [], (sig, si, set_uc u w). split; [done |].
    split; [done |]. by apply (apprentice_sigill_accepts _ _ _ _ _ E1); right.
  - destruct (IH _ E2) as (l & x & -> & Hl & Hx). exists ((sig, si, set_uc u w) :: l), x.
    split; [done |]. split; [| done]. constructor; [| done].
    by apply (apprentice_sigill_accepts _ _ _ _ _ E1); left.
Qed.

Lemma apprentice_success_inv fuel w w' :
  apprentice cfg cpu fuel w = (inl EXIT_SUCCESS, w') ->
  exists w1, run_image cpu (apprentice_sigill cfg) fuel (announced cfg w)
    = (inl (Some RES_END), w1).
Proof.
  unfold apprentice. intros E. rewrite (bind_done (fprintf _ _) _ _ () _ eq_refl) in E.
  apply bind_inv in E as (o & w1 & E1 & E2). exists w1.
  destruct o as [r|]; [| done].
  assert (r = RES_END) as ->; [| exact E1].
  destruct r; try done; unfold apprentice_result, report, fprintf, print_loc, print_stats, dump in E2;
    munfold; try (by simplify_eq/=).
  unfold fprintf, modify in E2. cbn beta iota in E2.
  destruct (op_name (RisuOp_of_Z _) _) as [[]]; [| done].
  destruct (op_name (get_risuop _) _) as [[]]; by simplify_eq/=.
Qed.
End checkpoint.
End verdict.

(** ** Properties *)

(** C4: a successful test has compared everything.  If the apprentice exits with
    EXIT_SUCCESS, over a socket or over a trace, then every signal of the run was
    a SIGILL whose checkpoint was accepted: the message received for it had the
    right magic number, named the operation the apprentice itself had reached,
    and its registers compared equal (outside the setup phase) or its memory
    block was byte for byte the apprentice's own; only illegal instructions in
    the setup phase are skipped.  The last checkpoint, and no other, was
    [OP_TESTEND]. *)
Theorem success_compared_everything `{Build} `{Arch} `{Zlib} (cfg : settings)
    (cpu : uctx -> option (signal * Z * uctx)) fuel w w' :
  apprentice cfg cpu fuel w = (inl EXIT_SUCCESS, w') ->
  exists l x, handled cpu (apprentice_sigill cfg) fuel (announced cfg w) = l ++ [x] /\
    Forall (accepts cfg false) l /\ accepts cfg true x.
Proof.
  intros E. apply apprentice_success_inv in E as (w1 & E). by eapply run_accepts.
Qed.

(** C5: the comparison of a checkpoint is exact.  If it returns, then it returns
    RES_OK or RES_END exactly when operation and payload agree, RES_END exactly at
    an agreed [OP_TESTEND]; RES_MISMATCH_REG exactly when two register files were
    compared and differ, RES_MISMATCH_MEM exactly when two memory blocks were, and
    RES_MISMATCH_OP exactly when the operations differ and no difference of
    registers was found first. *)
Theorem checkpoint_verdict `{Build} `{Arch} `{Zlib} (cfg : settings) op si w res w' :
  compare_op cfg op si w = (inl res, w') ->
  (res = RES_OK \/ res = RES_END <-> checkpoint_agrees cfg op w) /\
  (checkpoint_agrees cfg op w -> (res = RES_END <-> op = OP_TESTEND)) /\
  (res = RES_MISMATCH_REG <-> regs_differ cfg op w) /\
  (res = RES_MISMATCH_MEM <-> blocks_differ op w) /\
  (res = RES_MISMATCH_OP <->
    RisuOp_of_Z (risu_op (header w)) <> op /\ ~ regs_differ cfg op w).
Proof.
  intros E. assert (fst (compare_op cfg op si w) = inl res) as F by by rewrite E.
  destruct (compare_op_ok cfg op si w res F) as [K1 K2].
  split; [exact K1 |]. split; [exact K2 |]. by apply (compare_op_mismatch cfg op si).
Qed.
