(* ===== verification/Trace.v ===== *)
(** * Recording and playing back a trace

    With [--trace] the master writes its messages to a file and the apprentice
    reads them back later.  The theorems say that what a master records, an
    apprentice on a machine that behaves the same accepts, message by message
    and for the whole run; and what goes wrong when the file is not read or
    written in the way the code assumes. *)

From S2P Require Import Prelude Endian Comms Arch Header Risu Verdict.

(** zlib's documented behaviour, as long as no I/O error happens: what is
    written is stored, [gzread] returns as many bytes as it was asked for while
    the file has them. *)
Class ZlibLaws `{Zlib} := {
  gz_written : gzfile -> bytes;
  gz_unread : gzfile -> bytes;
  gzwrite_count g bs : fst (gzwrite g bs) = Z.of_nat (length bs);
  gzwrite_data g bs : gz_written (snd (gzwrite g bs)) = gz_written g ++ bs;
  gzread_data g n : 0 <= n <= Z.of_nat (length (gz_unread g)) ->
    fst (gzread g n) = (n, take (Z.to_nat n) (gz_unread g));
  gzread_rest g n : 0 <= n <= Z.of_nat (length (gz_unread g)) ->
    gz_unread (snd (gzread g n)) = drop (Z.to_nat n) (gz_unread g);
  gzread_end g n : Z.of_nat (length (gz_unread g)) < n ->
    fst (gzread g n) = (Z.of_nat (length (gz_unread g)), gz_unread g);
  gzclose_data g : gz_written (gzclose g) = gz_written g
}.

(** A regular file opened for reading. *)
Definition file_rx (bs : bytes) : list rd_event :=
  match bs with
  | [] => [RdEof]
  | b :: t => [RdChunk b t; RdEof]
  end.

Lemma file_rx_read n bs s :
  rx s = file_rx bs -> 0 <= n <= Z.of_nat (length bs) -> n < 2 ^ 63 ->
  exists s', sys_read n s = (inl (n, take (Z.to_nat n) bs), s') /\
    rx s' = file_rx (drop (Z.to_nat n) bs).
Proof.
  intros Hr Hn Hb. unfold sys_read. destruct (Z.eqb_spec n 0) as [->|?].
  { exists s. by rewrite take_0, drop_0. }
  rewrite Hr. destruct bs as [|b t]; cbn [file_rx]; [simpl in Hn; lia |].
  rewrite Z.min_l by lia. rewrite Z2Nat.id by lia.
  eexists. split; [done |]. cbn [rx set_rx]. by destruct (drop _ (b :: t)).
Qed.

Section trace.
Context `{Build} `{ArchLaws} `{ZlibLaws}.

Definition uses_gz (cfg : settings) : bool := have_zlib cfg && negb (comm_std cfg).

(** What has been recorded so far. *)
Definition recorded (cfg : settings) (w : risu) : bytes :=
  if uses_gz cfg then gz_written (gz w) else tx (io w).

(** The rest of the file being played back is [bs]. *)
Definition playback (cfg : settings) (bs : bytes) (w : risu) : Prop :=
  if uses_gz cfg then gz_unread (gz w) = bs else rx (io w) = file_rx bs.

(** Plain writes are taken whole. *)
Definition writable (cfg : settings) (w : risu) : Prop :=
  uses_gz cfg = true \/ wx (io w) = [].

(** [w'] differs from [w] in its descriptors only. *)
Definition io_only (w w' : risu) : Prop := exists i g, w' = set_io i (set_gz g w).

Lemma write_buffer_trace cfg obj n w :
  trace cfg = true -> writable cfg w ->
  0 <= n <= Z.of_nat (length obj) -> n < 2 ^ 63 ->
  exists w', write_buffer cfg obj n w = (inl RES_OK, w') /\
    recorded cfg w' = recorded cfg w ++ take (Z.to_nat n) obj /\
    writable cfg w' /\ io_only w w'.
Proof.
  intros Ht Hw Hn Hb. unfold write_buffer, recorded, writable, io_only.
  destruct (Z.ltb_spec (Z.of_nat (length obj)) n); [lia |]. rewrite Ht. simpl.
  change (have_zlib cfg && negb (comm_std cfg)) with (uses_gz cfg).
  assert (length (take (Z.to_nat n) obj) = Z.to_nat n) as L by (rewrite length_take; lia).
  assert (u64 n = n) as E by (apply wrap_small; unfold in_width; lia).
  destruct (uses_gz cfg) eqn:U.
  - unfold mbind, M_bind. pose proof (gzwrite_count (gz w) (take (Z.to_nat n) obj)) as C.
    pose proof (gzwrite_data (gz w) (take (Z.to_nat n) obj)) as D.
    destruct (gzwrite (gz w) (take (Z.to_nat n) obj)) as [k g]. simpl in C, D. subst k.
    rewrite L, Z2Nat.id, E, Z.eqb_refl by lia.
    eexists. split; [done |]. cbn [gz set_gz]. split; [done |]. split; [by left |].
    exists (io w), g. by destruct w.
  - destruct Hw as [?|Hw]; [congruence |].
    unfold mbind, M_bind, on_io, zoom, sys_write. rewrite Hw, L, Z2Nat.id, E, Z.eqb_refl by lia.
    eexists. split; [done |]. cbn [io set_io tx send_tx wx]. split; [done |].
    split; [by right |]. exists (send_tx (take (Z.to_nat n) obj) (io w)), (gz w).
    by destruct w.
Qed.

Lemma read_buffer_trace cfg n bs w :
  trace cfg = true -> playback cfg bs w ->
  0 <= n <= Z.of_nat (length bs) -> n < 2 ^ 63 ->
  exists w', read_buffer cfg n w = (inl (RES_OK, take (Z.to_nat n) bs), w') /\
    playback cfg (drop (Z.to_nat n) bs) w' /\ io_only w w'.
Proof.
  intros Ht Hp Hn Hb. unfold read_buffer, playback, io_only in *. rewrite Ht. simpl.
  change (have_zlib cfg && negb (comm_std cfg)) with (uses_gz cfg).
  assert (u64 n = n) as E by (apply wrap_small; unfold in_width; lia).
  destruct (uses_gz cfg) eqn:U.
  - subst bs. unfold mbind, M_bind.
    pose proof (gzread_data (gz w) n Hn) as D. pose proof (gzread_rest (gz w) n Hn) as R.
    destruct (gzread (gz w) n) as [r g]. simpl in D, R. subst r. cbn [fst snd].
    rewrite E, Z.eqb_refl. eexists. split; [done |]. split; [done |].
    exists (io w), g. by destruct w.
  - destruct (file_rx_read n bs (io w) Hp Hn Hb) as (s' & R & F).
    unfold mbind, M_bind, on_io, zoom. rewrite R. cbn [fst snd].
    rewrite E, Z.eqb_refl. eexists. split; [done |]. split; [done |].
    exists s', (gz w). by destruct w.
Qed.

Lemma header_sizeof_small : 0 <= header_sizeof < 2 ^ 30.
Proof. unfold header_sizeof, header_layout. case_if; vm_compute; split; congruence. Qed.

Lemma header_sizeof_nonneg : 0 <= header_sizeof.
Proof. apply header_sizeof_small. Qed.

(** Payload and header agree. *)
Definition payload_ok (h : trace_header_t) (extra : option bytes) : Prop :=
  match extra with
  | None => True
  | Some obj => 0 <= size h <= Z.of_nat (length obj) /\ size h < 2 ^ 63
  end.

Definition payload (h : trace_header_t) (extra : option bytes) : bytes :=
  match extra with
  | None => []
  | Some obj => take (Z.to_nat (size h)) obj
  end.

Lemma send_message_trace cfg h extra w :
  trace cfg = true -> writable cfg w -> payload_ok h extra ->
  exists w', send_message cfg h extra w = (inl RES_OK, w') /\
    recorded cfg w' = recorded cfg w ++ header_enc h ++ payload h extra /\
    writable cfg w' /\ io_only w w'.
Proof.
  intros Ht Hw Hp. pose proof header_sizeof_small as Hs. unfold send_message.
  destruct (write_buffer_trace cfg (header_enc h) header_sizeof w) as (w1 & R1 & D1 & W1 & O1);
    [done | done | rewrite header_enc_length; lia | lia |].
  rewrite (bind_done _ _ _ _ _ R1). rewrite take_ge in D1 by (rewrite header_enc_length; lia).
  cbn [negb bool_decide]. rewrite bool_decide_true by done. simpl.
  destruct extra as [obj|]; simpl.
  - destruct Hp as [Hp1 Hp2].
    destruct (write_buffer_trace cfg obj (size h) w1) as (w2 & R2 & D2 & W2 & O2);
      [done | done | done | done |].
    exists w2. rewrite R2, D2, D1, <-app_assoc. split; [done |]. split; [done |].
    split; [done |]. destruct O1 as (i1 & g1 & ->). destruct O2 as (i2 & g2 & ->).
    exists i2, g2. by destruct w.
  - exists w1. rewrite app_nil_r. done.
Qed.

(** A header made by [send_register_info]. *)
Definition good_header (h : trace_header_t) : Prop :=
  header_wf h /\ magic h = RISU_MAGIC.

Lemma header_roundtrip h :
  good_header h -> header_arch_to_host (header_dec (header_enc h)) = h.
Proof.
  intros [Hw Hm]. rewrite <-(app_nil_r (header_enc h)).
  rewrite header_dec_enc; [| apply arch_ptr_4_or_8 | done | done].
  rewrite eqb_reflx. unfold header_arch_to_host. by rewrite Hm, swapped_magic.
Qed.

Lemma recv_header_trace cfg h rest w :
  trace cfg = true -> good_header h -> playback cfg (header_enc h ++ rest) w ->
  exists w', recv_header cfg w = (inl RES_OK, w') /\ playback cfg rest w' /\
    exists i g, w' = set_header h (set_io i (set_gz g w)).
Proof.
  intros Ht Hh Hp. pose proof header_sizeof_small as Hs.
  destruct (read_buffer_trace cfg header_sizeof _ w Ht Hp) as (w1 & R1 & P1 & (i & g & ->));
    [rewrite length_app, header_enc_length; lia | lia |].
  rewrite take_app_length' in R1 by by rewrite header_enc_length.
  rewrite drop_app_length' in P1 by by rewrite header_enc_length.
  unfold recv_header. rewrite (bind_done _ _ _ _ _ R1).
  unfold mbind, M_bind, gets, modify. cbn [fst snd]. rewrite bool_decide_true by done.
  cbn [negb header set_header]. rewrite splice_full by by rewrite !header_enc_length.
  rewrite header_roundtrip by done. destruct Hh as [_ ->]. rewrite Z.eqb_refl.
  eexists. split; [reflexivity |]. split; [done |]. by exists i, g.
Qed.

Lemma respond_trace cfg r w : trace cfg = true -> respond cfg r w = (inl (), w).
Proof. intros E. unfold respond. by rewrite E. Qed.

(** The three kinds of messages: registers, a memory block, no payload. *)

Lemma recv_reginfo_trace cfg h r rest w :
  trace cfg = true -> reginfo_wf r -> size h = reginfo_size r ->
  playback cfg (payload h (Some (reginfo_enc host_le (reginfo_host_to_arch r))) ++ rest) w ->
  exists w', recv_reginfo cfg h w = (inl RES_OK, w') /\ playback cfg rest w' /\
    exists i g m, same_info m r /\ w' = set_ri_master m (set_io i (set_gz g w)).
Proof.
  intros Ht Hr Hs Hp. simpl in Hp.
  pose proof (reginfo_size_range r Hr) as Hsz. pose proof reginfo_sizeof_small as Hsm.
  set (sent := take (Z.to_nat (size h)) (reginfo_enc host_le (reginfo_host_to_arch r))) in *.
  assert (length sent = Z.to_nat (size h)) as Ls.
  { unfold sent. rewrite length_take, reginfo_enc_length. lia. }
  destruct (read_buffer_trace cfg (size h) _ _ Ht Hp) as (w2 & R2 & P2 & (i2 & g2 & ->));
    [rewrite length_app, Ls; lia | lia |].
  rewrite take_app_length' in R2 by done. rewrite drop_app_length' in P2 by done.
  destruct (reginfo_transfer host_le r (ri_master w) Hr) as [T1 T2].
  rewrite <-Hs in T1, T2. fold sent in T1, T2. set (m := reginfo_arch_to_host _) in T1, T2.
  unfold recv_reginfo. destruct (Z.ltb_spec (Z.of_nat reginfo_sizeof) (size h)); [lia |].
  rewrite (bind_done _ _ _ _ _ (respond_trace cfg RES_OK _ Ht)).
  rewrite (bind_done _ _ _ _ _ R2). unfold mbind, M_bind, gets, modify. cbn [fst snd].
  rewrite bool_decide_true by done. change (reginfo_arch_to_host _) with m.
  rewrite T1, wrap_small, Z.eqb_refl by (unfold in_width; lia).
  eexists. split; [reflexivity |]. split; [done |]. by exists i2, g2, m.
Qed.

Lemma recv_memblock_trace cfg h bs rest w :
  trace cfg = true -> size h = MEMBLOCKLEN -> Z.of_nat (length bs) = MEMBLOCKLEN ->
  Z.of_nat (length (other_memblock w)) = MEMBLOCKLEN ->
  playback cfg (payload h (Some bs) ++ rest) w ->
  exists w', recv_memblock cfg h w = (inl RES_OK, w') /\ playback cfg rest w' /\
    exists i g, w' = set_other_memblock bs (set_io i (set_gz g w)).
Proof.
  intros Ht Hs Hl Ho Hp. simpl in Hp. rewrite Hs, take_ge in Hp by lia.
  destruct (read_buffer_trace cfg MEMBLOCKLEN _ _ Ht Hp) as (w2 & R2 & P2 & (i2 & g2 & ->));
    [rewrite length_app; unfold MEMBLOCKLEN in *; lia | unfold MEMBLOCKLEN; lia |].
  rewrite take_app_length' in R2 by lia. rewrite drop_app_length' in P2 by lia.
  unfold recv_memblock. rewrite Hs, Z.eqb_refl. cbn [negb].
  rewrite (bind_done _ _ _ _ _ (respond_trace cfg RES_OK _ Ht)).
  rewrite (bind_done _ _ _ _ _ R2). unfold mbind, M_bind, gets, modify. cbn [fst snd].
  eexists. split; [reflexivity |]. split; [done |]. exists i2, g2.
  cbn [other_memblock set_io set_gz set_other_memblock]. by rewrite splice_full by lia.
Qed.

(** ** One message, recorded and played back *)

(** The two processes are at the same point of the same computation. *)
Record synced (wm wa : risu) : Prop := {
  sy_uc : uc wa = uc wm;
  sy_wf : uctx_wf (uc wm);
  sy_setup : is_setup wa = is_setup wm;
  sy_memblock : memblock wa = memblock wm;
  sy_arch_memblock : arch_memblock wa = arch_memblock wm;
  sy_count : signal_count wa = signal_count wm;
  sy_illegal : illegal_instructions wa = illegal_instructions wm;
  sy_err : err wa = err wm;
  sy_other : Z.of_nat (length (other_memblock wa)) = MEMBLOCKLEN
}.

(** The header of a message. *)
Definition message_header (u : uctx) (r : reginfo) (sz : Z) : trace_header_t :=
  Header RISU_MAGIC (u32 sz) (RisuOp_to_Z (get_risuop r)) (arch_ptr (get_pc u r)).

Lemma message_header_good u r sz :
  (forall z, get_risuop r <> OP_OTHER z) -> good_header (message_header u r sz).
Proof.
  intros Ho. split; [| done]. split; [vm_compute; split; congruence |].
  split; [by apply wrap_range |]. split; [| by apply wrap_range; lia].
  simpl. destruct (get_risuop r) eqn:E; simpl; try lia. by destruct (Ho z).
Qed.

Lemma master_sends cfg si w r u sz extra w2 :
  trace cfg = true -> header_swaps = false -> writable cfg w2 ->
  captures cfg si w r u -> skipped r w = false ->
  prepare_payload (get_risuop r) (master_at r u w) = (inl (sz, extra), w2) ->
  payload_ok (message_header u r sz) extra ->
  exists w3, send_register_info cfg si w = master_after_send (get_risuop r) w3 /\
    recorded cfg w3 = recorded cfg w2 ++
      header_enc (message_header u r sz) ++ payload (message_header u r sz) extra /\
    writable cfg w3 /\ exists i g, w3 = set_header (message_header u r sz) (set_io i (set_gz g w2)).
Proof.
  intros Ht Hsw Hw Hc Hk Hp Hok.
  destruct (send_message_trace cfg (message_header u r sz) extra
    (set_header (message_header u r sz) w2)) as (w3 & R3 & D3 & W3 & (i & g & E3));
    [done | done | done |].
  exists w3. split; [| split; [done | split; [done | exists i, g; by subst w3]]].
  unfold send_register_info. rewrite (bind_done _ _ _ _ _ (on_uc_init _ _ _ _ _ Hc)).
  rewrite (bind_done (modify _) _ _ () (set_ri_master r (set_uc u w))) by done.
  rewrite (bind_done _ _ _ _ _ (count_illegal_eq r _)).
  change (skipped r (set_ri_master r (set_uc u w))) with (skipped r w). rewrite Hk.
  rewrite (bind_done (gets uc) _ _ u (master_at r u w)).
  2: { unfold gets. f_equal. f_equal. unfold master_at. by rewrite uc_counted. }
  rewrite (bind_done _ _ _ _ _ Hp).
  rewrite (bind_done (modify _) _ _ () (set_header (message_header u r sz) w2)).
  2: { unfold modify, header_host_to_arch. by rewrite Hsw. }
  rewrite (bind_done (gets header) _ _ (message_header u r sz) _) by done.
  cbn [fst snd]. rewrite (bind_done _ _ _ _ _ R3). by rewrite bool_decide_true.
Qed.

Lemma apprentice_compares cfg si w r u w2 res w3 :
  trace cfg = true -> captures cfg si w r u -> skipped r w = false ->
  recv_register_info cfg (apprentice_at r u w) = (inl RES_OK, w2) ->
  compare_op cfg (get_risuop r) si w2 = (inl res, w3) ->
  recv_and_compare_register_info cfg si w = (inl res, w3).
Proof.
  intros Ht Hc Hk Hr Ho.
  unfold recv_and_compare_register_info.
  rewrite (bind_done _ _ _ _ _ (on_uc_init _ _ _ _ _ Hc)).
  rewrite (bind_done (modify _) _ _ () (set_ri_apprentice r (set_uc u w))) by done.
  rewrite (bind_done _ _ _ _ _ (count_illegal_eq r _)).
  change (skipped r (set_ri_apprentice r (set_uc u w))) with (skipped r w). rewrite Hk.
  rewrite (bind_done _ _ _ _ _ Hr), bool_decide_true by done.
  rewrite (bind_done _ _ _ _ _ Ho).
  by rewrite (bind_done _ _ _ _ _ (respond_trace cfg _ _ Ht)).
Qed.

Lemma recv_register_info_trace cfg h rest w :
  trace cfg = true -> good_header h -> playback cfg (header_enc h ++ rest) w ->
  exists w1, recv_register_info cfg w = recv_payload cfg w1 /\ playback cfg rest w1 /\
    exists i g, w1 = set_header h (set_io i (set_gz g w)).
Proof.
  intros Ht Hh Hp. destruct (recv_header_trace cfg h rest w Ht Hh Hp) as (w1 & R & P & E).
  exists w1. split; [| done]. unfold recv_register_info.
  rewrite (bind_done _ _ _ _ _ R). by rewrite bool_decide_true.
Qed.

Section replay.
Variables (cm ca : settings).
Hypothesis (Htm : trace cm = true) (Hta : trace ca = true).
Hypothesis (Hopts : opts ca = opts cm) (Himg : img ca = img cm).
Hypothesis (Hswap : header_swaps = false).

(** The master's message at a signal is recorded, and the apprentice accepts it
    and ends up in the corresponding state. *)
Definition replays (si : Z) (wm : risu) : Prop :=
  exists T res wm', send_register_info cm si wm = (inl res, wm') /\
    (res = RES_OK \/ res = RES_END) /\
    recorded cm wm' = recorded cm wm ++ T /\ writable cm wm' /\
    forall wa rest, synced wm wa -> playback ca (T ++ rest) wa ->
      exists wa', recv_and_compare_register_info ca si wa = (inl res, wa') /\
        synced wm' wa' /\ playback ca rest wa'.

Lemma synced_captures si wm wa r u :
  synced wm wa -> captures cm si wm r u -> captures ca si wa r u.
Proof. intros S C. unfold captures in *. by rewrite Hopts, Himg, (sy_uc _ _ S). Qed.

Lemma synced_skipped r wm wa : synced wm wa -> skipped r wa = skipped r wm.
Proof. intros S. unfold skipped. by rewrite (sy_setup _ _ S). Qed.

Lemma replay_skip si wm r u :
  writable cm wm -> captures cm si wm r u -> skipped r wm = true ->
  replays si wm.
Proof.
  intros W C K. exists [], RES_OK, (master_at r u wm).
  assert (get_risuop r = OP_SIGILL) as E.
  { unfold skipped in K. apply andb_prop in K as [K _]. by apply bool_decide_eq_true in K. }
  split; [| split; [by left | split; [| split]]].
  - unfold send_register_info. rewrite (bind_done _ _ _ _ _ (on_uc_init _ _ _ _ _ C)).
    rewrite (bind_done (modify _) _ _ () (set_ri_master r (set_uc u wm))) by done.
    rewrite (bind_done _ _ _ _ _ (count_illegal_eq r _)).
    change (skipped r (set_ri_master r (set_uc u wm))) with (skipped r wm). by rewrite K.
  - unfold master_at, counted. rewrite E. by rewrite app_nil_r.
  - unfold master_at, counted. by rewrite E.
  - intros wa rest S P. exists (apprentice_at r u wa). split; [| split].
    + unfold recv_and_compare_register_info.
      rewrite (bind_done _ _ _ _ _ (on_uc_init _ _ _ _ _ (synced_captures _ _ _ _ _ S C))).
      rewrite (bind_done (modify _) _ _ () (set_ri_apprentice r (set_uc u wa))) by done.
      rewrite (bind_done _ _ _ _ _ (count_illegal_eq r _)).
      change (skipped r (set_ri_apprentice r (set_uc u wa))) with (skipped r wa).
      by rewrite (synced_skipped _ _ _ S), K.
    + unfold master_at, apprentice_at, counted. rewrite E. destruct S.
      split; simpl; try done; [by eapply reginfo_init_uctx | congruence].
    + unfold apprentice_at, counted. by rewrite E.
Qed.

(** Both sides have captured their registers. *)
Lemma synced_at r u w v :
  synced w v -> uctx_wf u ->
  synced (master_at r u w) (master_at r u v) /\ synced (master_at r u w) (apprentice_at r u v).
Proof.
  intros [] Hu. unfold master_at, apprentice_at, counted.
  split; destruct (bool_decide _); split; simpl; congruence || done.
Qed.

Lemma writable_master_at r u w : writable cm w -> writable cm (master_at r u w).
Proof. unfold master_at, counted. by destruct (bool_decide _). Qed.

Lemma recorded_master_at r u w : recorded cm (master_at r u w) = recorded cm w.
Proof. unfold master_at, counted. by destruct (bool_decide _). Qed.

Lemma playback_apprentice_at r u bs w :
  playback ca bs w -> playback ca bs (apprentice_at r u w).
Proof. unfold apprentice_at, counted. by destruct (bool_decide _). Qed.

(** A register file compared with its own copy: the comparison succeeds and the
    update changes nothing. *)
Lemma compare_reginfo_same si w r u :
  get_risuop r = OP_COMPARE \/ get_risuop r = OP_TESTEND \/ get_risuop r = OP_SIGILL ->
  risu_op (header w) = RisuOp_to_Z (get_risuop r) ->
  ri_apprentice w = r -> same_info (ri_master w) r -> uc w = u ->
  reginfo_update (opts ca) (ri_master w) si u = u ->
  compare_op ca (get_risuop r) si w =
    (inl (if bool_decide (get_risuop r = OP_TESTEND) then RES_END else RES_OK), w).
Proof.
  intros Hop Hh Ha Hm Hu Hup.
  assert (set_ri_apprentice r w = w) as Ea by (subst; by destruct w).
  assert (set_uc u w = w) as Eu by (subst; by destruct w).
  assert ((if is_setup w then mret true
           else zoom ri_apprentice set_ri_apprentice
                  (reginfo_is_eq (opts ca) (signal_count w) (ri_master w))) w
          = (inl true, w)) as Q.
  { destruct (is_setup w); [done |]. unfold zoom.
    by rewrite Ha, same_info_is_eq, Ea by done. }
  assert (compare_op ca (get_risuop r) si w = compare_reginfo ca (get_risuop r) si w) as ->.
  { by destruct Hop as [->|[->| ->]]. }
  unfold compare_reginfo.
  rewrite (bind_done (gets header) _ _ (header w) w) by done.
  rewrite (bind_done (gets is_setup) _ _ (is_setup w) w) by done.
  rewrite (bind_done (gets ri_master) _ _ (ri_master w) w) by done. rewrite Hh.
  replace (RisuOp_of_Z (RisuOp_to_Z (get_risuop r))) with (get_risuop r)
    by (by destruct Hop as [->|[->| ->]]).
  rewrite Z.eqb_refl. cbn [negb].
  destruct Hop as [E|[E|E]]; rewrite E in *;
    rewrite (bind_done (gets signal_count) _ _ (signal_count w) w) by done;
    rewrite (bind_done _ _ _ _ _ Q); cbn [negb]; try done.
  rewrite (bind_done _ _ _ () w); [done |].
  unfold on_uc, zoom, modify. by rewrite Hu, Hup, Eu.
Qed.

(** Registers: the apprentice accepts. *)
Lemma replay_reginfo si wm r u :
  writable cm wm -> captures cm si wm r u -> skipped r wm = false ->
  get_risuop r = OP_COMPARE \/ get_risuop r = OP_TESTEND \/ get_risuop r = OP_SIGILL ->
  replays si wm.
Proof.
  intros W C K Hop.
  assert (reginfo_wf r) as Hr by (by eapply reginfo_init_wf).
  pose proof (reginfo_size_range r Hr) as Hsz. pose proof reginfo_sizeof_small as Hsm.
  set (h := message_header u r (reginfo_size r)).
  assert (size h = reginfo_size r) as Hs.
  { simpl. apply wrap_small. unfold in_width. lia. }
  assert (good_header h) as Hh.
  { apply message_header_good. intros z. by destruct Hop as [->|[->| ->]]. }
  destruct (master_sends cm si wm r u (reginfo_size r)
    (Some (reginfo_enc host_le (reginfo_host_to_arch r)))
    (set_ri_master (reginfo_host_to_arch r) (master_at r u wm)))
    as (w3 & R3 & D3 & W3 & (i3 & g3 & E3)); try done.
  { by apply writable_master_at. }
  { unfold prepare_payload, master_at, counted.
    destruct Hop as [->|[->| ->]]; reflexivity. }
  { simpl. fold h. split; [rewrite reginfo_enc_length |]; fold h in Hs; simpl in Hs; lia. }
  fold h in D3, E3.
  exists (header_enc h ++ payload h (Some (reginfo_enc host_le (reginfo_host_to_arch r)))),
    (if bool_decide (get_risuop r = OP_TESTEND) then RES_END else RES_OK), w3.
  split; [| split; [case_if; auto | split; [| split; [done |]]]].
  { rewrite R3. unfold master_after_send. by destruct Hop as [->|[->| ->]]. }
  { rewrite D3. f_equal. apply recorded_master_at. }
  intros wa rest S P. rewrite <-app_assoc in P. apply (playback_apprentice_at r u) in P.
  destruct (recv_register_info_trace ca h _ _ Hta Hh P) as (w1 & R1 & P1 & (i1 & g1 & E1)).
  destruct (recv_reginfo_trace ca h r rest w1) as (w2 & R2 & P2 & (i2 & g2 & m & Hm & E2));
    [done | done | done | done |].
  assert (recv_payload ca w1 = (inl RES_OK, w2)) as Rp.
  { unfold recv_payload. rewrite (bind_done (gets header) _ _ h w1) by (by rewrite E1).
    change (risu_op h) with (RisuOp_to_Z (get_risuop r)).
    destruct Hop as [->|[->| ->]]; exact R2. }
  assert (reginfo_update (opts ca) m si u = u) as Hup.
  { rewrite Hopts. eapply same_info_update; [exact (sy_wf _ _ S) | exact C | done]. }
  exists w2. split; [| split; [| done]].
  - eapply apprentice_compares; [done | by eapply synced_captures | | by rewrite R1 | ].
    { by rewrite (synced_skipped _ _ _ S). }
    eapply compare_reginfo_same; try done.
    + by rewrite E2, E1.
    + rewrite E2, E1. unfold apprentice_at, counted. by destruct (bool_decide _).
    + rewrite E2. exact Hm.
    + rewrite E2, E1. unfold apprentice_at. simpl. by rewrite uc_counted.
  - subst. destruct (synced_at r u _ _ S) as [_ []]; [| by split].
    by eapply reginfo_init_uctx; [exact (sy_wf _ _ S) | exact C].
Qed.

Lemma counted_other r w : get_risuop r <> OP_SIGILL -> counted r w = w.
Proof. intros E. unfold counted. by rewrite bool_decide_false. Qed.

Lemma skipped_other r w : get_risuop r <> OP_SIGILL -> skipped r w = false.
Proof. intros E. unfold skipped. by rewrite bool_decide_false. Qed.

Lemma MEMBLOCKLEN_u32 : u32 MEMBLOCKLEN = MEMBLOCKLEN.
Proof. done. Qed.

Lemma MEMBLOCKLEN_small : 0 <= MEMBLOCKLEN < 2 ^ 31.
Proof. unfold MEMBLOCKLEN. lia. Qed.

#[local] Opaque MEMBLOCKLEN.

Lemma compare_memblock_same si w p bs :
  risu_op (header w) = RisuOp_to_Z OP_COMPAREMEM -> memblock w = Some p ->
  mem_at (uc w) p MEMBLOCKLEN = Some bs -> other_memblock w = bs ->
  compare_op ca OP_COMPAREMEM si w = (inl RES_OK, w).
Proof.
  intros Hh Hp Hb Ho. unfold compare_op.
  rewrite (bind_done (gets header) _ _ (header w) w) by done.
  rewrite (bind_done (gets ri_apprentice) _ _ (ri_apprentice w) w) by done.
  rewrite Hh, Z.eqb_refl. cbn [negb].
  rewrite (bind_done memblock_differs _ w false w); [done |].
  unfold memblock_differs.
  rewrite (bind_done (gets memblock) _ _ (memblock w) w) by done.
  rewrite (bind_done (gets uc) _ _ (uc w) w) by done.
  rewrite (bind_done (gets other_memblock) _ _ (other_memblock w) w) by done.
  by rewrite Hp, Hb, bool_decide_true.
Qed.

(** A memory block: the memories are the same. *)
Lemma replay_memblock si wm r u p bs :
  writable cm wm -> captures cm si wm r u ->
  get_risuop r = OP_COMPAREMEM -> memblock wm = Some p ->
  mem_at u p MEMBLOCKLEN = Some bs -> replays si wm.
Proof.
  intros W C Hop Hmb Hmem.
  assert (get_risuop r <> OP_SIGILL) as Hns by by rewrite Hop.
  pose proof (mem_at_length _ _ _ _ (proj1 MEMBLOCKLEN_small) Hmem) as Hl.
  set (h := message_header u r MEMBLOCKLEN).
  assert (good_header h) as Hh by (apply message_header_good; intros z; by rewrite Hop).
  destruct (master_sends cm si wm r u MEMBLOCKLEN (Some bs) (master_at r u wm))
    as (w3 & R3 & D3 & W3 & (i3 & g3 & E3)); try done;
    [by apply writable_master_at | by apply skipped_other | | |].
  { unfold master_at. rewrite counted_other by done. rewrite Hop.
    unfold prepare_payload, mbind, M_bind, gets. simpl. by rewrite Hmb, Hmem. }
  { pose proof MEMBLOCKLEN_small. unfold payload_ok. cbn [size message_header].
    rewrite Hl, MEMBLOCKLEN_u32. lia. }
  fold h in D3, E3.
  exists (header_enc h ++ payload h (Some bs)), RES_OK, w3.
  split; [by rewrite R3, Hop |]. split; [by left |].
  split; [by rewrite D3, recorded_master_at |]. split; [done |].
  intros wa rest S P. rewrite <-app_assoc in P. apply (playback_apprentice_at r u) in P.
  destruct (recv_register_info_trace ca h _ _ Hta Hh P) as (w1 & R1 & P1 & (i1 & g1 & E1)).
  assert (Z.of_nat (length (other_memblock w1)) = MEMBLOCKLEN) as Ho1.
  { rewrite E1. unfold apprentice_at. rewrite counted_other by done. exact (sy_other _ _ S). }
  destruct (recv_memblock_trace ca h bs rest w1) as (w2 & R2 & P2 & (i2 & g2 & E2));
    [done | exact MEMBLOCKLEN_u32 | done | done | done |].
  exists w2. split; [| split; [| done]].
  - eapply apprentice_compares; [done | by eapply synced_captures | by apply skipped_other | |].
    + rewrite R1. unfold recv_payload.
      rewrite (bind_done (gets header) _ _ h w1) by (by rewrite E1).
      change (risu_op h) with (RisuOp_to_Z (get_risuop r)). rewrite Hop. exact R2.
    + rewrite Hop. unfold apprentice_at in E1. rewrite counted_other in E1 by done.
      apply (compare_memblock_same _ _ p bs); rewrite E2, E1; try done.
      * cbn [risu_op header set_header set_other_memblock set_io set_gz]. by rewrite <-Hop.
      * rewrite <-Hmb. exact (sy_memblock _ _ S).
  - subst. destruct (synced_at r u _ _ S) as [_ []]; [| by split].
    by eapply reginfo_init_uctx; [exact (sy_wf _ _ S) | exact C].
Qed.

(** Operations without payload: both sides do the same. *)
Lemma plain_steps si r u :
  get_risuop r = OP_SETMEMBLOCK \/ get_risuop r = OP_GETMEMBLOCK \/
  get_risuop r = OP_SETUPBEGIN \/ get_risuop r = OP_SETUPEND ->
  exists f, (forall w, ri_master w = r -> uc w = u ->
      master_after_send (get_risuop r) w = (inl RES_OK, f w)) /\
    (forall w, ri_apprentice w = r -> uc w = u ->
      risu_op (header w) = RisuOp_to_Z (get_risuop r) ->
      compare_op ca (get_risuop r) si w = (inl RES_OK, f w)) /\
    (forall w, gz (f w) = gz w /\ io (f w) = io w) /\
    (forall v w, synced v w -> uc w = u -> synced (f v) (f w)).
Proof.
  intros Hop. unfold master_after_send, compare_op, do_setmemblock, do_getmemblock, on_uc, zoom.
  destruct Hop as [E|[E|[E|E]]]; rewrite E; munfold;
    [exists (fun w => set_memblock (get_arch_memory u (arch_ptr (get_reginfo_paramreg r)))
               (set_arch_memblock (arch_ptr (get_reginfo_paramreg r)) w))
    |exists (fun w => set_uc (set_ucontext_paramreg
               (arch_ptr (arch_ptr (get_reginfo_paramreg r) + arch_memblock w)) u) w)
    |exists (set_is_setup true) | exists (set_is_setup false)].
  all: (split; [intros w <- <-; done |]); (split; [intros w <- <- ->; done |]);
    (split; [done |]); intros v w S' Hw; destruct S'; split; simpl; try congruence; try done.
  apply set_ucontext_paramreg_wf. congruence.
Qed.

Lemma replay_plain si wm r u :
  writable cm wm -> captures cm si wm r u ->
  get_risuop r = OP_SETMEMBLOCK \/ get_risuop r = OP_GETMEMBLOCK \/
  get_risuop r = OP_SETUPBEGIN \/ get_risuop r = OP_SETUPEND -> replays si wm.
Proof.
  intros W C Hop.
  assert (get_risuop r <> OP_SIGILL) as Hns by (by destruct Hop as [->|[->|[->| ->]]]).
  set (h := message_header u r 0).
  assert (good_header h) as Hh.
  { apply message_header_good. intros z. by destruct Hop as [->|[->|[->| ->]]]. }
  destruct (master_sends cm si wm r u 0 None (master_at r u wm))
    as (w3 & R3 & D3 & W3 & (i3 & g3 & E3)); try done;
    [by apply writable_master_at | by apply skipped_other | |].
  { by destruct Hop as [->|[->|[->| ->]]]. }
  fold h in D3, E3. unfold payload in D3. rewrite app_nil_r, recorded_master_at in D3.
  unfold master_at in E3. rewrite counted_other in E3 by done.
  destruct (plain_steps si r u Hop) as (f & Fm & Fa & Fio & Fs).
  exists (header_enc h), RES_OK, (f w3).
  split; [rewrite R3; apply Fm; by subst w3 |]. split; [by left |].
  unfold recorded, writable, playback in *. destruct (Fio w3) as [-> ->].
  split; [done |]. split; [done |].
  intros wa rest S P. fold (playback ca (header_enc h ++ rest) wa) in P.
  apply (playback_apprentice_at r u) in P.
  destruct (recv_register_info_trace ca h _ _ Hta Hh P) as (w1 & R1 & P1 & (i1 & g1 & E1)).
  unfold apprentice_at in E1. rewrite counted_other in E1 by done.
  exists (f w1). split; [| split].
  - eapply apprentice_compares; [done | by eapply synced_captures | by apply skipped_other | |].
    + rewrite R1. unfold recv_payload.
      rewrite (bind_done (gets header) _ _ h w1) by (by rewrite E1).
      change (risu_op h) with (RisuOp_to_Z (get_risuop r)). change (size h) with 0.
      by destruct Hop as [->|[->|[->| ->]]].
    + apply Fa; by subst w1.
  - apply Fs; [| by subst w1]. subst. destruct (synced_at r u _ _ S) as [_ S'].
    { by eapply reginfo_init_uctx; [exact (sy_wf _ _ S) | exact C]. }
    unfold master_at, apprentice_at in S'. rewrite !counted_other in S' by done.
    destruct S'. by split.
  - destruct (Fio w1) as [-> ->]. exact P1.
Qed.

(** [OP_COMPAREMEM] before any [OP_SETMEMBLOCK]: the master has no block to
    send. *)
Definition null_compare (cfg : settings) (si : Z) (w : risu) : bool :=
  match reginfo_init (opts cfg) (img cfg) si (uc w) with
  | (inl r, _) =>
      bool_decide (get_risuop r = OP_COMPAREMEM) && bool_decide (memblock w = None)
  | _ => false
  end.

Lemma send_inv si w res w' :
  send_register_info cm si w = (inl res, w') ->
  exists r u, captures cm si w r u /\
    (skipped r w = true \/
     skipped r w = false /\
     exists x, prepare_payload (get_risuop r) (master_at r u w) = x /\
       match fst x with inl _ => True | inr _ => False end).
Proof.
  intros E. unfold send_register_info in E.
  destruct (reginfo_init (opts cm) (img cm) si (uc w)) as [[r|k] u] eqn:I.
  2: { unfold on_uc, zoom in E. unfold mbind, M_bind in E. by rewrite I in E. }
  exists r, u. split; [done |].
  rewrite (bind_done _ _ _ _ _ (on_uc_init _ _ _ _ _ I)) in E.
  rewrite (bind_done (modify _) _ _ () (set_ri_master r (set_uc u w))) in E by done.
  rewrite (bind_done _ _ _ _ _ (count_illegal_eq r _)) in E.
  change (skipped r (set_ri_master r (set_uc u w))) with (skipped r w) in E.
  destruct (skipped r w); [by left | right]. split; [done |]. eexists. split; [done |].
  rewrite (bind_done (gets uc) _ _ _ (master_at r u w)) in E by done.
  apply bind_inv in E as (a & s1 & P & _). by rewrite P.
Qed.

(** Every message a master sends is replayed. *)
Lemma replay_any si wm res wm' :
  writable cm wm -> null_compare cm si wm = false ->
  send_register_info cm si wm = (inl res, wm') -> replays si wm.
Proof.
  intros W N E. apply send_inv in E as (r & u & C & [K|[K (x & P & Hx)]]).
  { by eapply replay_skip. }
  destruct (get_risuop r) eqn:Hop; try (by eapply replay_reginfo; eauto);
    try (by eapply replay_plain; eauto).
  - unfold null_compare in N. unfold captures in C. rewrite C, Hop in N.
    rewrite bool_decide_true in N by done. simpl in N. apply bool_decide_eq_false in N.
    destruct (memblock wm) as [p|] eqn:Hp; [| done].
    destruct (mem_at u p MEMBLOCKLEN) as [bs|] eqn:Hm; [by eapply replay_memblock |].
    subst x. unfold prepare_payload, master_at in Hx. rewrite counted_other in Hx by (by rewrite Hop).
    rewrite (bind_done (gets memblock) _ _ (Some p) (set_ri_master r (set_uc u wm))) in Hx
      by (by rewrite <-Hp).
    rewrite (bind_done (gets uc) _ _ u (set_ri_master r (set_uc u wm))) in Hx by done.
    by rewrite Hm in Hx.
  - by subst x.
Qed.

(** What a handler adds to a message. *)
Lemma replay_signal sig si wm o wm' :
  writable cm wm -> null_compare cm si wm = false ->
  master_sigill cm sig si wm = (inl o, wm') ->
  exists T, recorded cm wm' = recorded cm wm ++ T /\ writable cm wm' /\
    forall wa rest, synced wm wa -> playback ca (T ++ rest) wa ->
      exists wa', apprentice_sigill ca sig si wa = (inl o, wa') /\
        synced wm' wa' /\ playback ca rest wa'.
Proof.
  intros W N E. unfold master_sigill in E.
  set (tick w := set_signal_count (u64 (signal_count w + 1)) w).
  rewrite (bind_done (modify _) _ _ () (tick wm)) in E by done.
  assert (forall wa, synced wm wa -> synced (tick wm) (tick wa)) as St
    by (intros wa S; destruct S; split; simpl; congruence).
  destruct sig.
  - apply bind_inv in E as (res & w1 & E1 & E2).
    destruct (replay_any si (tick wm) _ _ W N E1)
      as (T & res' & w1' & R & Hres & D & W1 & A). rewrite E1 in R. simplify_eq R.
    intros <- <-. exists T.
    assert (recorded cm wm' = recorded cm w1 /\ writable cm wm') as [-> Wm'].
    { destruct Hres as [-> | ->]; vm_compute in E2; by simplify_eq E2; intros <- <-. }
    split; [done |]. split; [done |]. intros wa rest S P.
    destruct (A (tick wa) rest (St _ S) P) as (wa1 & RA & SA & PA).
    unfold apprentice_sigill.
    rewrite (bind_done (modify _) _ _ () (tick wa)) by done.
    rewrite (bind_done _ _ _ _ _ RA).
    destruct Hres as [-> | ->]; simpl in E2 |- *; munfold; simplify_eq E2; intros <- <-;
      (eexists; split; [reflexivity |]; split; [| done]); destruct SA; split; simpl; try congruence.
    by apply advance_pc_wf.
  - rewrite (bind_done (mret _) _ _ RES_SIGBUS (tick wm)) in E by done.
    cbn [finish_signal] in E. munfold. simplify_eq E. intros <- <-.
    exists []. rewrite app_nil_r. split; [done |]. split; [done |]. intros wa rest S P.
    eexists. split; [unfold apprentice_sigill; munfold; simpl; reflexivity |].
    split; [| done]. destruct (St _ S); by split.
Qed.

(** ** The whole run *)
Variable cpu : uctx -> option (signal * Z * uctx).
Hypothesis cpu_wf : forall u sig si u',
  uctx_wf u -> cpu u = Some (sig, si, u') -> uctx_wf u'.

(** No memory block is compared before it is set. *)
Fixpoint memblock_set (fuel : nat) (w : risu) : bool :=
  match fuel with
  | O => true
  | S fuel' =>
      match cpu (uc w) with
      | None => true
      | Some (sig, si, u) =>
          negb (null_compare cm si (set_uc u w)) &&
          match master_sigill cm sig si (set_uc u w) with
          | (inl None, w') => memblock_set fuel' w'
          | _ => true
          end
      end
  end.

Lemma replay_run fuel wm o wm' :
  writable cm wm -> memblock_set fuel wm = true ->
  run_image cpu (master_sigill cm) fuel wm = (inl o, wm') ->
  exists T, recorded cm wm' = recorded cm wm ++ T /\
    forall wa rest, synced wm wa -> playback ca (T ++ rest) wa ->
      exists wa', run_image cpu (apprentice_sigill ca) fuel wa = (inl o, wa') /\
        synced wm' wa' /\ playback ca rest wa'.
Proof.
  revert wm. induction fuel as [|fuel IH]; intros wm W N E; [done |].
  cbn [run_image memblock_set] in *.
  rewrite (bind_done (gets uc) _ _ (uc wm) wm) in E by done.
  destruct (cpu (uc wm)) as [[[sig si] u]|] eqn:C.
  2: { simplify_eq E. intros <- <-. exists []. rewrite app_nil_r. split; [done |].
       intros wa rest S P. exists wa. rewrite (bind_done (gets uc) _ _ (uc wm) wa).
       - by rewrite C.
       - unfold gets. by rewrite (sy_uc _ _ S). }
  apply andb_prop in N as [N1 N2]. apply negb_true_iff in N1.
  rewrite (bind_done (modify _) _ _ () (set_uc u wm)) in E by done.
  apply bind_inv in E as (o1 & w1 & E1 & E2). rewrite E1 in N2.
  destruct (replay_signal sig si (set_uc u wm) o1 w1 W N1 E1) as (T1 & D1 & W1 & A1).
  assert (exists T2, recorded cm wm' = recorded cm w1 ++ T2 /\
    forall wa rest, synced w1 wa -> playback ca (T2 ++ rest) wa ->
      exists wa', (match o1 with
                   | Some r => mret (Some r)
                   | None => run_image cpu (apprentice_sigill ca) fuel
                   end) wa = (inl o, wa') /\
        synced wm' wa' /\ playback ca rest wa') as (T2 & D2 & A2).
  { destruct o1 as [r|]; [| by apply IH]. simplify_eq E2. intros <- <-.
    exists []. rewrite app_nil_r. split; [done |]. intros wa rest S P. by exists wa. }
  exists (T1 ++ T2). split; [by rewrite D2, D1, <-app_assoc |]. intros wa rest S P.
  rewrite <-app_assoc in P.
  assert (synced (set_uc u wm) (set_uc u wa)) as S1.
  { destruct S. split; simpl; try done. by eapply cpu_wf. }
  destruct (A1 (set_uc u wa) _ S1 P) as (wa1 & RA & SA & PA).
  destruct (A2 wa1 rest SA PA) as (wa2 & RB & SB & PB).
  exists wa2. split; [| done].
  rewrite (bind_done (gets uc) _ _ (uc wm) wa) by (unfold gets; by rewrite (sy_uc _ _ S)).
  rewrite C. rewrite (bind_done (modify _) _ _ () (set_uc u wa)) by done.
  by rewrite (bind_done _ _ _ _ _ RA).
Qed.

Lemma master_success fuel w w' :
  master cm cpu fuel w = (inl EXIT_SUCCESS, w') ->
  exists w1, run_image cpu (master_sigill cm) fuel
      (announced cm w)
    = (inl (Some RES_END), w1) /\ recorded cm w' = recorded cm w1 /\
    signal_count w' = signal_count w1 /\ illegal_instructions w' = illegal_instructions w1 /\
    err w' = err w1 ++ [("done", []); (" after %zd checkpoints and %zd illegal instructions\n",
      [AInt (u64 (signal_count w1 - illegal_instructions w1)); AInt (illegal_instructions w1)])].
Proof.
  unfold master. intros E. rewrite (bind_done (fprintf _ _) _ _ () _ eq_refl) in E.
  apply bind_inv in E as (o & w1 & E1 & E2). exists w1.
  destruct o as [r|]; [| done].
  assert (r = RES_END) as ->.
  { destruct r; try done; unfold master_result, report, fprintf, print_loc, print_stats, close_comm in E2;
      munfold; destruct (have_zlib cm && trace cm && negb (comm_std cm)); by simplify_eq/=. }
  split; [exact E1 |].
  unfold master_result, report, fprintf, print_stats, close_comm in E2. munfold. unfold recorded, uses_gz.
  rewrite Htm in E2. destruct (have_zlib cm), (comm_std cm); simplify_eq/=;
    rewrite ?gzclose_data; by rewrite <-app_assoc.
Qed.

Lemma apprentice_success fuel w w1 :
  run_image cpu (apprentice_sigill ca) fuel
      (announced ca w)
    = (inl (Some RES_END), w1) ->
  apprentice ca cpu fuel w = (inl EXIT_SUCCESS,
    set_err (err w1 ++ [("done", []); (" after %zd checkpoints and %zd illegal instructions\n",
      [AInt (u64 (signal_count w1 - illegal_instructions w1)); AInt (illegal_instructions w1)])]) w1).
Proof.
  intros E. unfold apprentice. rewrite (bind_done (fprintf _ _) _ _ () _ eq_refl).
  rewrite (bind_done _ _ _ _ _ E).
  unfold apprentice_result, fprintf, print_stats. munfold. cbn. by rewrite <-app_assoc.
Qed.
End replay.

Lemma synced_start cm ca u sm gm sa ga :
  img ca = img cm -> uctx_wf u ->
  synced (announced cm (risu_start u sm gm)) (announced ca (risu_start u sa ga)).
Proof.
  intros Hi Hu. split; try done.
  simpl. by rewrite Hi.
Qed.

(** ** Messages that are not as expected *)

(** What the checks on a header find. *)
Definition header_check (h : trace_header_t) : RisuResult :=
  if negb (magic h =? RISU_MAGIC) then RES_BAD_MAGIC
  else match RisuOp_of_Z (risu_op h) with
  | OP_COMPARE | OP_TESTEND | OP_SIGILL =>
      if Z.of_nat reginfo_sizeof <? size h then RES_BAD_SIZE_HEADER else RES_OK
  | OP_COMPAREMEM => if size h =? MEMBLOCKLEN then RES_OK else RES_BAD_SIZE_MEMBLOCK
  | OP_SETMEMBLOCK | OP_GETMEMBLOCK | OP_SETUPBEGIN | OP_SETUPEND =>
      if size h =? 0 then RES_OK else RES_BAD_SIZE_ZERO
  | OP_OTHER _ => RES_BAD_OP
  end.

(** [recv_header] on any bytes of the right number. *)
Lemma recv_header_any cfg hb rest w :
  trace cfg = true -> Z.of_nat (length hb) = header_sizeof -> playback cfg (hb ++ rest) w ->
  let h := header_arch_to_host (header_dec hb) in
  exists w', recv_header cfg w =
      (inl (if negb (magic h =? RISU_MAGIC) then RES_BAD_MAGIC else RES_OK), w') /\
    playback cfg rest w' /\ exists i g, w' = set_header h (set_io i (set_gz g w)).
Proof.
  intros Ht Hl Hp h. pose proof header_sizeof_small as Hs.
  destruct (read_buffer_trace cfg header_sizeof _ w Ht Hp) as (w1 & R1 & P1 & (i & g & ->));
    [rewrite length_app; lia | lia |].
  rewrite take_app_length' in R1 by lia. rewrite drop_app_length' in P1 by lia.
  unfold recv_header. rewrite (bind_done _ _ _ _ _ R1).
  unfold mbind, M_bind, gets, modify. cbn [fst snd]. rewrite bool_decide_true by done.
  cbn [negb header set_header]. rewrite splice_full by (rewrite header_enc_length; lia).
  eexists. split; [reflexivity |]. split; [done |]. by exists i, g.
Qed.

Lemma recv_payload_bad cfg w :
  magic (header w) = RISU_MAGIC -> header_check (header w) <> RES_OK ->
  recv_payload cfg w = (inl (header_check (header w)), w).
Proof.
  intros Hm Hc. unfold recv_payload.
  rewrite (bind_done (gets header) _ _ (header w) w) by done.
  unfold header_check in *. rewrite Hm, Z.eqb_refl in *. cbn [negb] in *.
  unfold recv_reginfo, recv_memblock.
  destruct (RisuOp_of_Z (risu_op (header w))); try done;
    match goal with
    | |- context [?a <? ?b] => destruct (a <? b)
    | |- context [?a =? ?b] => destruct (a =? b)
    end; cbn [negb] in *; done.
Qed.

Lemma read_buffer_short cfg n b t more w :
  trace cfg = true -> uses_gz cfg = false -> rx (io w) = RdChunk b t :: more ->
  Z.of_nat (length (b :: t)) < n < 2 ^ 63 ->
  exists w', read_buffer cfg n w = (inl (RES_BAD_IO, b :: t), w') /\ rx (io w') = more.
Proof.
  intros Ht Hg Hr Hn. unfold read_buffer. rewrite Ht. cbn [negb].
  change (have_zlib cfg && negb (comm_std cfg)) with (uses_gz cfg). rewrite Hg.
  unfold on_io, zoom, mbind, M_bind, sys_read. rewrite Hr.
  destruct (Z.eqb_spec n 0) as [->|_]; [lia |].
  rewrite Z.min_r, Nat2Z.id by lia. cbn [fst snd].
  rewrite wrap_small by (unfold in_width; lia).
  destruct (Z.eqb_spec (Z.of_nat (length (b :: t))) n) as [E|_]; [lia |].
  rewrite take_ge, drop_ge by done. eexists. split; [reflexivity |]. done.
Qed.

(** The header is sent before the payload, with the size as the header has it
    at that moment. *)
Lemma send_swapped cfg si w r u :
  trace cfg = true -> writable cfg w -> header_swaps = true ->
  captures cfg si w r u -> skipped r w = false -> is_reg_op (get_risuop r) = true ->
  Z.of_nat reginfo_sizeof < BYTESWAP_32 (u32 (reginfo_size r)) ->
  fst (send_register_info cfg si w) = inr HUB.
Proof.
  intros Ht Hw Hsw Hc Hk Ho Hsz. pose proof header_sizeof_small as Hs.
  unfold send_register_info. rewrite (bind_done _ _ _ _ _ (on_uc_init _ _ _ _ _ Hc)).
  rewrite (bind_done (modify _) _ _ () (set_ri_master r (set_uc u w))) by done.
  rewrite (bind_done _ _ _ _ _ (count_illegal_eq r _)).
  change (skipped r (set_ri_master r (set_uc u w))) with (skipped r w). rewrite Hk.
  set (w1 := counted r _).
  assert (prepare_payload (get_risuop r) w1 = (inl (reginfo_size r,
    Some (reginfo_enc host_le (reginfo_host_to_arch r))),
    set_ri_master (reginfo_host_to_arch r) w1)) as P.
  { unfold w1, counted. destruct (get_risuop r); done. }
  rewrite (bind_done (gets uc) _ _ (uc w1) w1) by done.
  rewrite (bind_done _ _ _ _ _ P).
  set (h := header_host_to_arch _).
  assert (size h = BYTESWAP_32 (u32 (reginfo_size r))) as Eh.
  { unfold h, header_host_to_arch. rewrite Hsw, swapped_magic. by cbn [magic fst]. }
  rewrite (bind_done (modify _) _ _ () _ eq_refl).
  rewrite (bind_done (gets header) _ _ h _) by done.
  set (w2 := set_header h _).
  destruct (write_buffer_trace cfg (header_enc h) header_sizeof w2) as (w3 & R3 & _);
    [done | | rewrite header_enc_length; lia | lia |].
  { unfold w2, w1, counted. by destruct (bool_decide _). }
  assert (fst (send_message cfg h (Some (reginfo_enc host_le (reginfo_host_to_arch r))) w2)
    = inr HUB) as Q.
  { unfold send_message. rewrite (bind_done _ _ _ _ _ R3), bool_decide_true by done.
    cbn [negb]. unfold write_buffer. rewrite reginfo_enc_length, Eh.
    by destruct (Z.ltb_spec (Z.of_nat reginfo_sizeof)
      (BYTESWAP_32 (u32 (reginfo_size r)))); [| lia]. }
  cbn [snd].
  destruct (send_message cfg h _ w2) as [[]] eqn:Es; [done |].
  rewrite (bind_stop _ _ _ _ _ Es). exact Q.
Qed.

(** Without a memory block the master announces a payload and sends none. *)
Lemma send_null_memblock cfg si w r u :
  trace cfg = true -> writable cfg w -> header_swaps = false ->
  captures cfg si w r u -> get_risuop r = OP_COMPAREMEM -> memblock w = None ->
  exists w', send_register_info cfg si w = (inl RES_OK, w') /\
    recorded cfg w' = recorded cfg w ++ header_enc (message_header u r MEMBLOCKLEN).
Proof.
  intros Ht Hw Hs Hc Ho Hm. assert (get_risuop r <> OP_SIGILL) as Hns by by rewrite Ho.
  destruct (master_sends cfg si w r u MEMBLOCKLEN None (master_at r u w))
    as (w3 & R3 & D3 & _ & _); try done; [| by apply skipped_other | |].
  { unfold master_at. by rewrite counted_other. }
  { unfold master_at. rewrite counted_other, Ho by done.
    unfold prepare_payload.
    rewrite (bind_done (gets memblock) _ _ None (set_ri_master r (set_uc u w)))
      by (by rewrite <-Hm).
    by rewrite (bind_done (gets uc) _ _ u (set_ri_master r (set_uc u w))). }
  exists w3. split; [by rewrite R3, Ho |].
  rewrite D3. unfold master_at. rewrite counted_other by done. simpl. by rewrite app_nil_r.
Qed.

(** The rest of the recording is shorter than what is to be read. *)
Lemma read_buffer_end cfg n bs w :
  trace cfg = true -> playback cfg bs w -> Z.of_nat (length bs) < n < 2 ^ 63 ->
  exists w', read_buffer cfg n w = (inl (RES_BAD_IO, bs), w').
Proof.
  intros Ht Hp Hn. unfold read_buffer, playback in *. rewrite Ht. cbn [negb].
  change (have_zlib cfg && negb (comm_std cfg)) with (uses_gz cfg).
  assert ((u64 (Z.of_nat (length bs)) =? n) = false) as E
    by (apply Z.eqb_neq; rewrite wrap_small; unfold in_width; lia).
  destruct (uses_gz cfg).
  - subst bs. unfold mbind, M_bind. destruct Hn as [Hn _]. pose proof (gzread_end (gz w) n Hn) as D.
    destruct (gzread (gz w) n) as [r g]. cbn [fst] in D. subst r. cbn [fst snd]. rewrite E. by eexists.
  - unfold on_io, zoom, mbind, M_bind, sys_read. rewrite Hp.
    destruct (Z.eqb_spec n 0); [lia |]. destruct bs as [|b t]; cbn [file_rx fst snd].
    + change (u64 0) with (u64 (Z.of_nat (length (@nil Z)))). rewrite E. by eexists.
    + rewrite Z.min_r, Nat2Z.id, take_ge by lia. cbn [fst snd]. rewrite E. by eexists.
Qed.

(** A header without its payload: what follows in the recording is taken for the
    block. *)
Lemma recv_memblock_missing cfg h rest w :
  trace cfg = true -> good_header h ->
  RisuOp_of_Z (risu_op h) = OP_COMPAREMEM -> size h = MEMBLOCKLEN ->
  playback cfg (header_enc h ++ rest) w -> Z.of_nat (length (other_memblock w)) = MEMBLOCKLEN ->
  (Z.of_nat (length rest) < MEMBLOCKLEN -> fst (recv_register_info cfg w) = inl RES_BAD_IO) /\
  (MEMBLOCKLEN <= Z.of_nat (length rest) ->
   exists w', recv_register_info cfg w = (inl RES_OK, w') /\
     other_memblock w' = take (Z.to_nat MEMBLOCKLEN) rest /\
     playback cfg (drop (Z.to_nat MEMBLOCKLEN) rest) w' /\ header w' = h /\ memblock w' = memblock w).
Proof.
  intros Ht Hh Ho Hs P L. pose proof MEMBLOCKLEN_small as Hm.
  destruct (recv_register_info_trace cfg h _ _ Ht Hh P) as (w1 & R1 & P1 & (i1 & g1 & E1)).
  rewrite R1. unfold recv_payload.
  rewrite (bind_done (gets header) _ _ h w1) by (by rewrite E1).
  rewrite Ho. unfold recv_memblock. rewrite Hs, Z.eqb_refl. cbn [negb].
  rewrite (bind_done _ _ _ _ _ (respond_trace cfg RES_OK _ Ht)). split; intros Hl.
  - destruct (read_buffer_end cfg MEMBLOCKLEN rest w1 Ht P1) as (w2 & R2); [lia |].
    by rewrite (bind_done _ _ _ _ _ R2).
  - destruct (read_buffer_trace cfg MEMBLOCKLEN rest w1 Ht P1) as (w2 & R2 & P2 & (i2 & g2 & E2)); [lia | lia |].
    rewrite (bind_done _ _ _ _ _ R2). eexists. split; [reflexivity |]. cbn [fst snd]. split_and!; [| exact P2 | by rewrite E2, E1 | by rewrite E2, E1].
    cbn [other_memblock set_other_memblock]. apply splice_full.
    rewrite E2, E1. cbn [other_memblock set_io set_gz set_header]. rewrite length_take. lia.
Qed.

(** What a master records, an apprentice accepts. *)
Lemma replay_accepts (cm ca : settings) (cpu : uctx -> option (signal * Z * uctx))
    fuel u sm gm sa ga wm :
  trace cm = true -> trace ca = true -> opts ca = opts cm -> img ca = img cm ->
  header_swaps = false -> uctx_wf u ->
  (forall v sig si v', uctx_wf v -> cpu v = Some (sig, si, v') -> uctx_wf v') ->
  writable cm (risu_start u sm gm) -> recorded cm (risu_start u sm gm) = [] ->
  memblock_set cm cpu fuel (announced cm (risu_start u sm gm)) = true ->
  master cm cpu fuel (risu_start u sm gm) = (inl EXIT_SUCCESS, wm) ->
  playback ca (recorded cm wm) (risu_start u sa ga) ->
  exists wa, apprentice ca cpu fuel (risu_start u sa ga) = (inl EXIT_SUCCESS, wa) /\
    signal_count wa = signal_count wm /\
    illegal_instructions wa = illegal_instructions wm /\
    err wa = err wm /\ playback ca [] wa.
Proof.
  intros Htm Hta Ho Hi Hs Hu Hc Hw Hr Hn E P.
  destruct (master_success cm Htm cpu fuel _ _ E) as (w1 & E1 & D & -> & -> & ->).
  destruct (replay_run cm ca Htm Hta Ho Hi Hs cpu Hc fuel (announced cm (risu_start u sm gm))
    _ _ Hw Hn E1) as (T & DT & A).
  change (recorded cm (announced cm (risu_start u sm gm))) with
    (recorded cm (risu_start u sm gm)) in DT. rewrite Hr in DT. simpl in DT.
  rewrite D, DT, <-(app_nil_r T) in P.
  destruct (A (announced ca (risu_start u sa ga)) [] (synced_start _ _ _ _ _ _ _ Hi Hu) P)
    as (w2 & R & S & P2).
  eexists. split; [by apply apprentice_success |].
  simpl. rewrite (sy_count _ _ S), (sy_illegal _ _ S), (sy_err _ _ S). done.
Qed.

(** ** Properties *)

(** C1: what a master records, an apprentice accepts.  If the master's run of
    an image ends successfully (a [OP_TESTEND] was reached and every byte was
    written), then an apprentice that plays the recording back, on a machine
    that behaves the same, with the same image and options, also ends
    successfully: it reads exactly the recording, reports the same number of
    checkpoints and illegal instructions, and prints the same text.  It needs
    headers that are recorded in the byte order of the host, and an image that
    sets its memory block before it compares it. *)
Theorem record_replay (cm ca : settings) (cpu : uctx -> option (signal * Z * uctx))
    fuel u sm gm sa ga wm :
  trace cm = true -> trace ca = true -> opts ca = opts cm -> img ca = img cm ->
  header_swaps = false -> uctx_wf u ->
  (forall v sig si v', uctx_wf v -> cpu v = Some (sig, si, v') -> uctx_wf v') ->
  writable cm (risu_start u sm gm) -> recorded cm (risu_start u sm gm) = [] ->
  memblock_set cm cpu fuel (announced cm (risu_start u sm gm)) = true ->
  master cm cpu fuel (risu_start u sm gm) = (inl EXIT_SUCCESS, wm) ->
  playback ca (recorded cm wm) (risu_start u sa ga) ->
  exists wa, apprentice ca cpu fuel (risu_start u sa ga) = (inl EXIT_SUCCESS, wa) /\
    signal_count wa = signal_count wm /\
    illegal_instructions wa = illegal_instructions wm /\
    err wa = err wm /\ playback ca [] wa.
Proof. apply replay_accepts. Qed.

(** C34: a message that does not look as expected is rejected before anything
    more is read: whatever bytes arrive as a header, if the magic number, the
    operation or the size for the operation is wrong, the result names what is
    wrong (in this order), only the header has been consumed, and neither
    register file nor memory block was stored. *)
Theorem bad_header_rejected (cfg : settings) hb rest w :
  trace cfg = true -> Z.of_nat (length hb) = header_sizeof -> playback cfg (hb ++ rest) w ->
  header_check (header_arch_to_host (header_dec hb)) <> RES_OK ->
  exists w', recv_register_info cfg w =
      (inl (header_check (header_arch_to_host (header_dec hb))), w') /\
    playback cfg rest w' /\ header w' = header_arch_to_host (header_dec hb) /\
    ri_master w' = ri_master w /\ other_memblock w' = other_memblock w.
Proof.
  intros Ht Hl Hp Hc.
  destruct (recv_header_any cfg hb rest w Ht Hl Hp) as (w1 & R1 & P1 & (i & g & E1)).
  unfold recv_register_info. rewrite (bind_done _ _ _ _ _ R1).
  assert (header w1 = header_arch_to_host (header_dec hb)) as Eh by by rewrite E1.
  exists w1. split; [| by rewrite E1 in *].
  destruct (Z.eqb_spec (magic (header_arch_to_host (header_dec hb))) RISU_MAGIC) as [Em|Em];
    cbn [negb].
  - rewrite bool_decide_true by done. cbn [negb]. rewrite <-Eh in *. by apply recv_payload_bad.
  - rewrite bool_decide_false by done. cbn [negb]. unfold header_check.
    by rewrite (proj2 (Z.eqb_neq _ _) Em).
Qed.

(** Playing back from a pipe can fail although the recording is complete:
    when the first [read] of a header returns fewer bytes than the header has,
    which a pipe may do at any point, the apprentice reports an I/O error, no
    matter what follows. *)
Lemma pipe_short_read_fails (cfg : settings) b t more w :
  trace cfg = true -> comm_std cfg = true -> rx (io w) = RdChunk b t :: more ->
  Z.of_nat (length (b :: t)) < header_sizeof ->
  exists w', recv_register_info cfg w = (inl RES_BAD_IO, w') /\ rx (io w') = more.
Proof.
  intros Ht Hc Hr Hl. pose proof header_sizeof_small.
  assert (uses_gz cfg = false) as Hg by (unfold uses_gz; rewrite Hc; by destruct (have_zlib cfg)).
  destruct (read_buffer_short cfg header_sizeof b t more w Ht Hg Hr) as (w1 & R1 & M1); [lia |].
  unfold recv_register_info, recv_header. eexists. split.
  - erewrite bind_done.
    2: { rewrite (bind_done _ _ _ _ _ R1). munfold. rewrite bool_decide_false by done.
         cbn [negb fst]. reflexivity. }
    rewrite bool_decide_false by done. reflexivity.
  - exact M1.
Qed.

(** C36: when the header is swapped to the byte order of the architecture, the
    size is swapped with it, and the master then takes the swapped size for the
    length of the payload: for every register file whose swapped size is larger
    than the structure, it writes beyond the end of the structure. *)
Theorem swapped_header_overruns (cfg : settings) si w r u :
  trace cfg = true -> writable cfg w -> header_swaps = true ->
  captures cfg si w r u -> skipped r w = false -> is_reg_op (get_risuop r) = true ->
  Z.of_nat reginfo_sizeof < BYTESWAP_32 (u32 (reginfo_size r)) ->
  fst (send_register_info cfg si w) = inr HUB.
Proof. apply send_swapped. Qed.

(** C37: comparing a memory block that was never set.  The master records a
    header that announces MEMBLOCKLEN bytes and no bytes, and carries on.  An
    apprentice that plays the recording back takes the next MEMBLOCKLEN bytes of
    it, the messages that follow, for the block, or fails with an I/O error if
    there are fewer.  If it has not set its block either, as it runs the same
    image, it never accepts the checkpoint: it fails, or compares with a null
    pointer. *)
Theorem unset_memblock_unplayable (cm ca : settings) si w r u rest wa sia ra ua :
  trace cm = true -> writable cm w -> header_swaps = false ->
  captures cm si w r u -> get_risuop r = OP_COMPAREMEM -> memblock w = None ->
  trace ca = true -> playback ca (header_enc (message_header u r MEMBLOCKLEN) ++ rest) wa ->
  Z.of_nat (length (other_memblock wa)) = MEMBLOCKLEN ->
  captures ca sia wa ra ua -> get_risuop ra = OP_COMPAREMEM -> memblock wa = None ->
  (exists w', send_register_info cm si w = (inl RES_OK, w') /\
    recorded cm w' = recorded cm w ++ header_enc (message_header u r MEMBLOCKLEN)) /\
  (Z.of_nat (length rest) < MEMBLOCKLEN ->
   fst (recv_register_info ca wa) = inl RES_BAD_IO /\
   fst (recv_and_compare_register_info ca sia wa) = inl RES_BAD_IO) /\
  (MEMBLOCKLEN <= Z.of_nat (length rest) ->
   (exists w', recv_register_info ca wa = (inl RES_OK, w') /\
     other_memblock w' = take (Z.to_nat MEMBLOCKLEN) rest /\
     playback ca (drop (Z.to_nat MEMBLOCKLEN) rest) w') /\
   fst (recv_and_compare_register_info ca sia wa) = inr HUB).
Proof.
  intros Ht Hw Hs Hc Ho Hm Hta P L Ca Oa Ma. split; [by eapply send_null_memblock |].
  set (h := message_header u r MEMBLOCKLEN) in *.
  assert (good_header h) as Hh by (apply message_header_good; intros z; by rewrite Ho).
  assert (RisuOp_of_Z (risu_op h) = OP_COMPAREMEM) as Hop by (simpl; by rewrite Ho).
  destruct (recv_memblock_missing ca h rest wa Hta Hh Hop eq_refl P L) as [A1 A2].
  assert (MEMBLOCKLEN <= Z.of_nat (length rest) -> exists w', recv_register_info ca wa = (inl RES_OK, w') /\
    other_memblock w' = take (Z.to_nat MEMBLOCKLEN) rest /\
    playback ca (drop (Z.to_nat MEMBLOCKLEN) rest) w') as A3 by naive_solver.
  assert (playback ca (header_enc h ++ rest) (apprentice_at ra ua wa) /\
    other_memblock (apprentice_at ra ua wa) = other_memblock wa) as [P' L']
    by (unfold apprentice_at, counted; by destruct (bool_decide _)).
  rewrite <-L' in L. destruct (recv_memblock_missing ca h rest _ Hta Hh Hop eq_refl P' L) as [B1 B2].
  assert (skipped ra wa = false) as Sk by (by apply skipped_other; rewrite Oa).
  rewrite (compare_start ca sia wa ra ua Ca), Sk. split; intros Hl; (split; [by auto |]).
  - destruct (recv_register_info ca (apprentice_at ra ua wa)) as [[q|?] w1] eqn:E; specialize (B1 Hl); [| done].
    injection B1 as ->. rewrite (bind_done _ _ _ _ _ E), bool_decide_false by done.
    rewrite (bind_done (mret RES_BAD_IO) _ _ RES_BAD_IO w1) by done.
    by rewrite (bind_done _ _ _ _ _ (respond_trace ca _ _ Hta)).
  - destruct (B2 Hl) as (w1 & E & _ & _ & Eh & M1). rewrite (bind_done _ _ _ _ _ E), bool_decide_true by done.
    destruct (apprentice_at_fields ra ua wa) as (_ & _ & _ & F & _). rewrite F, Ma in M1.
    rewrite (bind_stop _ _ w1 HUB w1); [done |]. rewrite Oa. unfold compare_op, memblock_differs.
    munfold. rewrite Eh. cbn [risu_op message_header h]. rewrite Ho, Z.eqb_refl. cbn [negb]. by rewrite M1.
Qed.
End trace.
