(* ===== verification/Session.v ===== *)
(** * A session over a socket

    Without [--trace] master and apprentice run at the same time and talk over
    a TCP connection: every packet of the master is answered by one byte of the
    apprentice.  [performs] describes what a process does with the connection as
    a conversation, a list of actions; master and apprentice hold dual
    conversations, and two processes with dual conversations cannot deadlock,
    however the network delays the bytes.  The theorems follow from this.  As
    each packet is answered before the next one is sent, at most one packet is
    under way. *)

From stdpp Require Import relations.
From S2P Require Import Prelude Endian Comms Arch Header Risu Verdict Trace.

(** ** Conversations *)

Inductive act : Type :=
| Put (bs : bytes)   (* these bytes are sent *)
| Get (bs : bytes).  (* these bytes are received *)

Abbreviation conversation := (list act).

Fixpoint puts (l : conversation) : bytes :=
  match l with
  | [] => []
  | Put o :: t => o ++ puts t
  | Get _ :: t => puts t
  end.

Fixpoint gets_of (l : conversation) : bytes :=
  match l with
  | [] => []
  | Put _ :: t => gets_of t
  | Get i :: t => i ++ gets_of t
  end.

(** What has been sent when [n] bytes have been received. *)
Fixpoint puts_before (l : conversation) (n : nat) : bytes :=
  match l with
  | [] => []
  | Put o :: t => o ++ puts_before t n
  | Get i :: t => if (length i <=? n)%nat then puts_before t (n - length i) else []
  end.

(** The conversation of the other side. *)
Definition flip_act (a : act) : act :=
  match a with Put bs => Get bs | Get bs => Put bs end.

Definition dual (l : conversation) : conversation := map flip_act l.

Lemma dual_app l1 l2 : dual (l1 ++ l2) = dual l1 ++ dual l2.
Proof. apply map_app. Qed.

Lemma dual_dual l : dual (dual l) = l.
Proof. induction l as [|[] l IH]; simpl; [done | by f_equal | by f_equal]. Qed.

Lemma puts_dual l : puts (dual l) = gets_of l.
Proof. induction l as [|[] l IH]; simpl; congruence. Qed.

Lemma gets_dual l : gets_of (dual l) = puts l.
Proof. induction l as [|[] l IH]; simpl; congruence. Qed.

Lemma puts_app l1 l2 : puts (l1 ++ l2) = puts l1 ++ puts l2.
Proof. induction l1 as [|[] l IH]; simpl; rewrite ?IH, ?app_assoc; done. Qed.

Lemma gets_app l1 l2 : gets_of (l1 ++ l2) = gets_of l1 ++ gets_of l2.
Proof. induction l1 as [|[] l IH]; simpl; rewrite ?IH, ?app_assoc; done. Qed.

Lemma puts_before_all l n : (length (gets_of l) <= n)%nat -> puts_before l n = puts l.
Proof.
  revert n. induction l as [|[o|i] l IH]; intros n Hn; simpl in *; [done | by rewrite IH |].
  rewrite length_app in Hn. destruct (Nat.leb_spec (length i) n); [apply IH |]; lia.
Qed.

Lemma puts_before_app_l l1 l2 n :
  (n < length (gets_of l1))%nat -> puts_before (l1 ++ l2) n = puts_before l1 n.
Proof.
  revert n. induction l1 as [|[o|i] l IH]; intros n Hn; simpl in *; [lia | by rewrite IH |].
  rewrite length_app in Hn. destruct (Nat.leb_spec (length i) n); [apply IH; lia | done].
Qed.

Lemma puts_before_app_r l1 l2 n :
  puts_before (l1 ++ l2) (length (gets_of l1) + n) = puts l1 ++ puts_before l2 n.
Proof.
  induction l1 as [|[o|i] l IH]; simpl; [done | by rewrite IH, app_assoc |].
  rewrite length_app. destruct (Nat.leb_spec (length i) (length i + length (gets_of l) + n)); [| lia].
  rewrite <-IH. f_equal. lia.
Qed.

Lemma prefix_split (o p k : bytes) :
  p `prefix_of` o ++ k -> (length o <= length p)%nat -> exists p', p = o ++ p' /\ p' `prefix_of` k.
Proof.
  intros [t E] L. exists (drop (length o) p).
  assert (take (length o) p = o) as T.
  { assert (take (length o) (o ++ k) = take (length o) (p ++ t)) as Q by by rewrite E.
    by rewrite take_app_length, take_app_le in Q. }
  split; [rewrite <-(take_drop (length o) p) at 1; by rewrite T |]. exists t.
  by rewrite <-(drop_app_length o k), E, drop_app_le.
Qed.

Lemma puts_before_prefix l n : puts_before l n `prefix_of` puts l.
Proof.
  revert n. induction l as [|[o|i] l IH]; intros n; simpl; [done | by apply prefix_app |].
  destruct (_ <=? _)%nat; [done | apply prefix_nil].
Qed.

(** Two sides that hold dual conversations never wait for each other: when
    everything that was sent has arrived, both are finished. *)
Lemma dual_progress l p q :
  p = puts_before l (length q) -> q = puts_before (dual l) (length p) ->
  p = puts l /\ q = gets_of l.
Proof.
  revert p q. induction l as [|[o|i] l IH]; intros p q Hp Hq; simpl in *; [done | |].
  - destruct (Nat.leb_spec (length o) (length p)) as [Hl|Hl].
    + rewrite Hp, length_app in Hq. rewrite Nat.add_comm, Nat.add_sub in Hq.
      destruct (IH (puts_before l (length q)) q) as [E1 E2]; [done | done |].
      split; [by rewrite Hp, E1 | done].
    + rewrite Hp, length_app in Hl. lia.
  - destruct (Nat.leb_spec (length i) (length q)) as [Hl|Hl].
    + rewrite Hq, length_app in Hp. rewrite Nat.add_comm, Nat.add_sub in Hp.
      destruct (IH p (puts_before (dual l) (length p))) as [E1 E2]; [done | done |].
      split; [done | by rewrite Hq, E2].
    + rewrite Hq, length_app in Hl. lia.
Qed.

(** When only one side may speak, what has been delivered is all that one of
    the two has sent. *)
Lemma dual_one_way l p q :
  p `prefix_of` puts_before l (length q) -> q `prefix_of` puts_before (dual l) (length p) ->
  p = puts_before l (length q) \/ q = puts_before (dual l) (length p).
Proof.
  revert p q. induction l as [|[o|i] l IH]; intros p q Hp Hq; simpl in *.
  - left. by apply prefix_nil_inv in Hp.
  - destruct (Nat.leb_spec (length o) (length p)) as [Hl|Hl]; [| right; by apply prefix_nil_inv in Hq].
    destruct (prefix_split o p _ Hp Hl) as (p' & -> & Hp'). rewrite length_app, Nat.add_comm, Nat.add_sub in *.
    destruct (IH p' q Hp' Hq) as [-> | E]; [by left | by right].
  - destruct (Nat.leb_spec (length i) (length q)) as [Hl|Hl]; [| left; by apply prefix_nil_inv in Hp].
    destruct (prefix_split i q _ Hq Hl) as (q' & -> & Hq'). rewrite length_app, Nat.add_comm, Nat.add_sub in *.
    destruct (IH p q' Hp Hq') as [E | ->]; [by left | by right].
Qed.

(** Packets of at most [n] bytes, each answered with one byte. *)
Inductive exchanges (n : nat) : conversation -> Prop :=
| ex_nil : exchanges n []
| ex_cons o b l : (0 < length o <= n)%nat -> exchanges n l -> exchanges n (Put o :: Get [b] :: l).

Lemma exchanges_app n l1 l2 : exchanges n l1 -> exchanges n l2 -> exchanges n (l1 ++ l2).
Proof. induction 1; [done |]. intros E. constructor; auto. Qed.

(** Then at most one packet is under way, or one answer. *)
Lemma exchanges_bound n l p q :
  exchanges n l ->
  p `prefix_of` puts_before l (length q) -> q `prefix_of` puts_before (dual l) (length p) ->
  (length (puts_before l (length q)) <= length p + n)%nat /\
  (length (puts_before (dual l) (length p)) <= length q + 1)%nat.
Proof.
  intros E. revert p q. induction E as [|o b l Ho E IH]; intros p q Hp Hq; simpl in *; [lia |].
  destruct (Nat.leb_spec (length o) (length p)) as [Hl|Hl].
  2: { apply prefix_nil_inv in Hq as ->. simpl. rewrite app_nil_r. lia. }
  destruct (prefix_split o p _ Hp Hl) as (p' & -> & Hp').
  assert (length (o ++ p') - length o = length p')%nat as Lp by (rewrite length_app; lia). rewrite !Lp in *.
  rewrite (length_app o p') in *. destruct q as [|c q]; simpl in *.
  - apply prefix_nil_inv in Hp' as ->. split; [rewrite length_app; simpl; lia |].
    destruct E as [|o' b' l Ho' E]; simpl; [lia |].
    destruct (Nat.leb_spec (length o') 0); simpl; lia.
  - apply prefix_cons_inv_2 in Hq. rewrite Nat.sub_0_r in *. destruct (IH p' q Hp' Hq).
    rewrite length_app. simpl. lia.
Qed.

(** ** The connection *)

Definition is_chunk (e : rd_event) : Prop := match e with RdChunk _ _ => True | _ => False end.

(** Bytes have arrived in chunks of any size, more may come, and writes are
    taken whole. *)
Definition connected (s : os) : Prop := Forall is_chunk (rx s) /\ wx s = [].

Lemma sys_read_connected n s r s' : sys_read n s = (r, s') -> connected s -> connected s'.
Proof.
  unfold sys_read, connected. intros E [Hc Hw]. destruct (n =? 0); [by injection E as <- <- |].
  destruct (rx s) as [|[b bs|e|] t] eqn:R;
    [injection E as <- <-; by rewrite R | | by apply Forall_cons in Hc as [[] _] ..].
  apply Forall_cons in Hc as [_ Hc]. injection E as <- <-. cbn [rx wx set_rx].
  split; [| done]. destruct (drop _ _); [done | by constructor].
Qed.

Lemma recv_bytes_loop_connected fuel n acc s r s' :
  recv_bytes_loop fuel n acc s = (r, s') -> connected s -> connected s'.
Proof.
  revert n acc s. induction fuel as [|fuel IH]; intros n acc s E Hc; simpl in E.
  - destruct (n =? 0); by injection E as <- <-.
  - destruct (n =? 0); [by injection E as <- <- |].
    unfold mbind, M_bind in E. destruct (sys_read (size_t n) s) as [[a|h] s1] eqn:R.
    + apply sys_read_connected in R; [| done].
      destruct (fst a <=? 0); [| by eapply IH]. unfold gets in E.
      destruct (errno s1 =? EINTR); [by eapply IH | by injection E as <- <-].
    + injection E as <- <-. by eapply sys_read_connected.
Qed.

Lemma recv_bytes_connected n s r s' : recv_bytes n s = (r, s') -> connected s -> connected s'.
Proof. apply recv_bytes_loop_connected. Qed.

(** Too few bytes: the loop waits. *)
Lemma recv_bytes_loop_waits fuel n acc s :
  (rx_weight (rx s) < fuel)%nat -> Forall is_chunk (rx s) ->
  Z.of_nat (length (rx_bytes (rx s))) < n < 2 ^ 31 ->
  exists s', recv_bytes_loop fuel n acc s = (inr HBlock, s') /\ same_tx s s'.
Proof.
  revert n acc s. induction fuel as [|fuel IH]; intros n acc s Hf Hc Hn; [lia |].
  simpl. destruct (Z.eqb_spec n 0); [lia |]. rewrite size_t_small by lia.
  unfold mbind, M_bind, sys_read. destruct (Z.eqb_spec n 0); [lia |].
  destruct (rx s) as [|[b bs|e|] t] eqn:R;
    [by exists s | | by apply Forall_cons in Hc as [[] _] ..].
  apply Forall_cons in Hc as [_ Hc]. cbn [rx_bytes] in Hn. rewrite length_app in Hn.
  rewrite Z.min_r, Nat2Z.id, take_ge, drop_ge by lia. cbn [fst snd rest_of_chunk].
  destruct (Z.leb_spec (Z.of_nat (length (b :: bs))) 0); [simpl in *; lia |].
  destruct (IH (n - Z.of_nat (length (b :: bs))) (acc ++ b :: bs) (set_rx (fun _ => t) s))
    as (s' & E & T); [simpl in *; lia | done | simpl in *; lia |].
  exists s'. split; [exact E | exact T].
Qed.

Lemma recv_bytes_waits n s :
  Forall is_chunk (rx s) -> Z.of_nat (length (rx_bytes (rx s))) < n < 2 ^ 31 ->
  exists s', recv_bytes n s = (inr HBlock, s') /\ same_tx s s'.
Proof. intros. apply recv_bytes_loop_waits; [unfold rx_fuel; lia | done | done]. Qed.

Lemma recv_data_pkt_connected n data rest s :
  connected s -> Z.of_nat (length data) < 2 ^ 31 -> n = Z.of_nat (length data) ->
  rx_bytes (rx s) = packet data ++ rest ->
  exists s', recv_data_pkt n s = (inl (Some data), s') /\
    connected s' /\ rx_bytes (rx s') = rest /\ tx s' = tx s.
Proof.
  intros Hc Hl -> Hr.
  destruct (recv_data_pkt_ok (Z.of_nat (length data)) data rest s Hl) as (s' & R & B & T);
    [lia | done |].
  rewrite Z.eqb_refl in R. exists s'. split; [done |]. split; [| by destruct T].
  unfold recv_data_pkt in R. apply bind_inv in R as (hb & s1 & R1 & R).
  apply recv_bytes_connected in R1; [| done].
  destruct (_ =? _); apply bind_inv in R as (d & s2 & R2 & R).
  - injection R as _ <-. by eapply recv_bytes_connected.
  - by injection R.
Qed.

(** A packet that has not arrived entirely is waited for. *)
Lemma recv_data_pkt_waits data part more s :
  connected s -> Z.of_nat (length data) < 2 ^ 31 ->
  packet data = part ++ more -> more <> [] -> rx_bytes (rx s) = part ->
  exists s', recv_data_pkt (Z.of_nat (length data)) s = (inr HBlock, s') /\ tx s' = tx s.
Proof.
  intros [Hc Hw] Hl Hp Hm Hr. unfold recv_data_pkt.
  assert (length (packet data) = (4 + length data)%nat) as Lp
    by (unfold packet; rewrite length_app, net_bytes_length; done).
  assert (length part < 4 + length data)%nat as Hlt.
  { rewrite Hp, length_app in Lp. destruct more; [done | simpl in Lp; lia]. }
  destruct (decide (length part < 4)%nat) as [Hs|Hs].
  - destruct (recv_bytes_waits 4 s) as (s' & R & T); [done | rewrite Hr; lia |].
    exists s'. rewrite (bind_stop _ _ _ _ _ R). split; [done | by destruct T].
  - destruct (recv_bytes_ok 4 s) as (s1 & R1 & B1 & T1); [lia | rewrite Hr; lia |].
    assert (take 4 part = net_bytes (Z.of_nat (length data))) as E4.
    { replace (take 4 part) with (take 4 (part ++ more)) by (by rewrite take_app_le by lia).
      rewrite <-Hp. unfold packet. by rewrite take_app_length' by by rewrite net_bytes_length. }
    change (Z.to_nat 4) with 4%nat in R1, B1. rewrite Hr, E4 in R1. rewrite Hr in B1.
    rewrite (bind_done _ _ _ _ _ R1), net_bytes_val, Z.eqb_refl.
    destruct (recv_bytes_waits (Z.of_nat (length data)) s1) as (s2 & R2 & T2).
    + by destruct (recv_bytes_connected _ _ _ _ R1 (conj Hc Hw)).
    + rewrite B1, length_drop. lia.
    + exists s2. rewrite (bind_stop _ _ _ _ _ R2). split; [done |].
      destruct T1 as [_ <-]. by destruct T2.
Qed.

(** ** Processes that hold a conversation *)

Section session.
Context `{Build} `{ArchLaws} `{ZlibLaws}.

(** From state [w], with whatever connection, the computation [m] holds the
    conversation [l]: if all it asks for arrives it returns [a] in the state
    [w1]; as long as something is missing it waits, having sent what comes
    before. *)
Definition performs {A} (m : M risu A) (w : risu) (l : conversation) (a : A) (w1 : risu) : Prop :=
  forall s, connected s ->
  (forall rest, rx_bytes (rx s) = gets_of l ++ rest ->
    exists s', m (set_io s w) = (inl a, set_io s' w1) /\
      connected s' /\ rx_bytes (rx s') = rest /\ tx s' = tx s ++ puts l) /\
  (forall p more, gets_of l = p ++ more -> more <> [] -> rx_bytes (rx s) = p ->
    exists w', m (set_io s w) = (inr HBlock, w') /\
      tx (io w') = tx s ++ puts_before l (length p)).

Lemma performs_pure {A} (m : M risu A) w a w1 :
  (forall s, m (set_io s w) = (inl a, set_io s w1)) -> performs m w [] a w1.
Proof.
  intros E s Hs. split.
  - intros rest Hr. exists s. by rewrite E, app_nil_r.
  - intros p more Hp Hm. by destruct p, more.
Qed.

(** The same computation, started elsewhere. *)
Lemma performs_eq {A} (m' : M risu A) w' (m : M risu A) w l a w1 :
  (forall s, m (set_io s w) = m' (set_io s w')) -> performs m' w' l a w1 -> performs m w l a w1.
Proof. intros E P s Hs. rewrite E. by apply P. Qed.

Lemma performs_ret {A} (a : A) w : performs (mret a) w [] a w.
Proof. by apply performs_pure. Qed.

Lemma performs_bind {A B} (m : M risu A) (k : A -> M risu B) w l1 a w1 l2 b w2 :
  performs m w l1 a w1 -> performs (k a) w1 l2 b w2 -> performs (m ≫= k) w (l1 ++ l2) b w2.
Proof.
  intros Hm Hk s Hs. destruct (Hm s Hs) as [Hm1 Hm2]. split.
  - intros rest Hr. rewrite gets_app, <-app_assoc in Hr.
    destruct (Hm1 _ Hr) as (s1 & E1 & C1 & B1 & T1).
    destruct (Hk s1 C1) as [Hk1 _]. destruct (Hk1 rest B1) as (s2 & E2 & C2 & B2 & T2).
    exists s2. rewrite (bind_done _ _ _ _ _ E1), puts_app, T2, T1, app_assoc. done.
  - intros p more Hp Hmo Hr. rewrite gets_app in Hp.
    apply app_eq_inv in Hp as [(k' & E1 & E2)|(k' & E1 & E2)].
    + destruct (decide (k' = [])) as [->|Hn].
      * rewrite app_nil_r in E1. simpl in E2.
        destruct (Hm1 []) as (s1 & R1 & C1 & B1 & T1); [by rewrite app_nil_r, E1 |].
        destruct (Hk s1 C1) as [_ Hk2].
        destruct (Hk2 [] more) as (w' & R2 & T2); [done | done | done |].
        exists w'. rewrite (bind_done _ _ _ _ _ R1), T2, T1.
        by rewrite <-E1, <-(Nat.add_0_r (length (gets_of l1))), puts_before_app_r, app_assoc.
      * destruct (Hm2 p k' E1 Hn Hr) as (w' & R & T).
        exists w'. rewrite (bind_stop _ _ _ _ _ R), T, puts_before_app_l; [done |].
        rewrite E1, length_app. destruct k'; [done | simpl; lia].
    + rewrite E1 in Hr |- *. destruct (Hm1 k' Hr) as (s1 & R1 & C1 & B1 & T1).
      destruct (Hk s1 C1) as [_ Hk2].
      destruct (Hk2 k' more E2 Hmo B1) as (w' & R2 & T2).
      exists w'. rewrite (bind_done _ _ _ _ _ R1), length_app, puts_before_app_r, T2, T1.
      by rewrite app_assoc.
Qed.

(** A computation on the rest of the state comes first. *)
Lemma performs_step {A B} (m : M risu A) (k : A -> M risu B) w a w1 l b w2 :
  (forall s, m (set_io s w) = (inl a, set_io s w1)) ->
  performs (k a) w1 l b w2 -> performs (m ≫= k) w l b w2.
Proof. intros E K. apply (performs_bind m k w [] a w1 l); [by apply performs_pure | done]. Qed.

Lemma on_io_eq {A} (m : M os A) s w :
  on_io m (set_io s w) = (fst (m s), set_io (snd (m s)) w).
Proof. unfold on_io, zoom. change (io (set_io s w)) with s. by destruct (m s). Qed.

(** *** Computations that leave the connection alone *)

Definition io_free {A} (m : M risu A) : Prop :=
  forall s w, m (set_io s w) = (fst (m w), set_io s (snd (m w))).

Lemma io_free_ret {A} (a : A) : io_free (mret a).
Proof. done. Qed.

Lemma io_free_stop {A} h : io_free (stop (A := A) h).
Proof. done. Qed.

Lemma io_free_bind {A B} (m : M risu A) (k : A -> M risu B) :
  io_free m -> (forall a, io_free (k a)) -> io_free (m ≫= k).
Proof.
  intros Hm Hk s w. unfold mbind, M_bind. rewrite Hm.
  destruct (m w) as [[a|h] w1]; [apply Hk | done].
Qed.

Lemma io_free_zoom {S A} (get : risu -> S) put (m : M S A) :
  (forall s w, get (set_io s w) = get w) ->
  (forall v s w, put v (set_io s w) = set_io s (put v w)) -> io_free (zoom get put m).
Proof.
  intros Hg Hp s w. unfold zoom. rewrite Hg. destruct (m (get w)). by rewrite Hp.
Qed.

Lemma performs_free {A} (m : M risu A) w a w1 :
  io_free m -> m w = (inl a, w1) -> performs m w [] a w1.
Proof. intros F E. apply performs_pure. intros s. by rewrite F, E. Qed.

Ltac io_free_steps :=
  repeat first
    [ done
    | apply io_free_bind; [| intros ?]
    | by apply io_free_zoom
    | match goal with |- io_free (match ?x with _ => _ end) => destruct x end ].

Section socket.
Variable cfg : settings.
Hypothesis Hsock : trace cfg = false.

Lemma performs_write obj n w b :
  0 <= n <= Z.of_nat (length obj) -> n < 2 ^ 30 ->
  performs (write_buffer cfg obj n) w
    [Put (packet (take (Z.to_nat n) obj)); Get [b]] (RisuResult_of_Z b) w.
Proof.
  intros Hn Hb s [Hc Hw]. unfold write_buffer.
  destruct (Z.ltb_spec (Z.of_nat (length obj)) n); [lia |]. rewrite Hsock. cbn [negb].
  set (d := take (Z.to_nat n) obj).
  assert (Z.of_nat (length d) < 2 ^ 30) as Hd by (unfold d; rewrite length_take; lia).
  assert (wr_clean (4 + length d) (wx s)) as Hcl by (rewrite Hw; constructor).
  split; cbn [gets_of puts puts_before app].
  - intros rest Hr. destruct (rx s) as [|[c cs|e|] t] eqn:R; [done | |
      by apply Forall_cons in Hc as [[] _] ..]. simpl in Hr. injection Hr as -> Hr.
    destruct (send_data_pkt_ok d s b cs t Hd Hcl R) as (s' & E & T & X & (k & W)).
    exists s'. unfold mbind, M_bind. rewrite on_io_eq, E. cbn [fst snd].
    split; [done |]. apply Forall_cons in Hc as [_ Hc]. split; [split |].
    + rewrite X. destruct cs; [done | by constructor].
    + by rewrite W, Hw, drop_nil.
    + rewrite X, rest_of_chunk_bytes. split; [done |]. by rewrite app_nil_r.
  - intros p more Hp Hm Hr. destruct p as [|c p]; [| by destruct p, more].
    assert (rx s = []) as R.
    { destruct (rx s) as [|[c cs|e|] t]; [done | done |
        by apply Forall_cons in Hc as [[] _] ..]. }
    destruct (send_data_pkt_blocks d s Hd Hcl R) as (s' & E & T).
    exists (set_io s' w). unfold mbind, M_bind. rewrite on_io_eq, E. cbn [fst snd].
    split; [done |]. simpl. by rewrite app_nil_r.
Qed.

Lemma performs_read data n w :
  n = Z.of_nat (length data) -> n < 2 ^ 31 ->
  performs (read_buffer cfg n) w [Get (packet data)] (RES_OK, data) w.
Proof.
  intros -> Hl s Hs. unfold read_buffer. rewrite Hsock. cbn [negb].
  rewrite swrap_small by lia. split; cbn [gets_of puts puts_before].
  - intros rest Hr. rewrite app_nil_r in Hr.
    destruct (recv_data_pkt_connected _ data rest s Hs Hl eq_refl Hr) as (s' & E & C & B & T).
    exists s'. unfold mbind, M_bind. rewrite on_io_eq, E, app_nil_r. done.
  - intros p more Hp Hm Hr. rewrite app_nil_r in Hp.
    destruct (recv_data_pkt_waits data p more s Hs Hl Hp Hm Hr) as (s' & E & T).
    exists (set_io s' w). unfold mbind, M_bind. rewrite on_io_eq, E. split; [done |].
    destruct (Nat.leb_spec (length (packet data)) (length p)) as [L|L].
    + rewrite Hp, length_app in L. destruct more; [done | simpl in L; lia].
    + simpl. by rewrite app_nil_r.
Qed.

Lemma performs_respond r w :
  performs (respond cfg r) w [Put [u8 (RisuResult_to_Z r)]] () w.
Proof.
  intros s [Hc Hw]. unfold respond. rewrite Hsock. cbn [negb].
  destruct (send_response_byte_ok (RisuResult_to_Z r) s) as (s' & E & T & X & (k & W));
    [rewrite Hw; constructor | rewrite Hw; constructor |].
  split; cbn [gets_of puts puts_before app].
  - intros rest Hr. exists s'. rewrite on_io_eq, E. split; [done |].
    split; [split; [by rewrite X | by rewrite W, Hw, drop_nil] |]. by rewrite X.
  - intros p more Hp Hm. by destruct p, more.
Qed.

Lemma io_free_compare_op op si : io_free (compare_op cfg op si).
Proof.
  unfold compare_op, compare_reginfo, do_setmemblock, do_getmemblock, memblock_differs.
  io_free_steps.
Qed.

(** ** One message *)

(** The master's side of a message; [b] is the last answer. *)
Definition talk (h : trace_header_t) (extra : option bytes) (b : Z) : conversation :=
  Put (packet (header_enc h)) ::
  match extra with
  | None => []
  | Some _ => [Get [RisuResult_to_Z RES_OK]; Put (packet (payload h extra))]
  end ++ [Get [b]].

(** The longest packet: a length, and a register structure or a block of memory. *)
Definition packet_limit : nat := 4 + Nat.max reginfo_sizeof (Z.to_nat MEMBLOCKLEN).

Lemma talk_exchanges h extra b :
  (length (payload h extra) <= Nat.max reginfo_sizeof (Z.to_nat MEMBLOCKLEN))%nat ->
  exchanges packet_limit (talk h extra b).
Proof.
  intros L. assert (forall d, length (packet d) = 4 + length d)%nat as Lp
    by (intros d; unfold packet; by rewrite length_app, net_bytes_length).
  assert (Z.to_nat header_sizeof <= Z.to_nat MEMBLOCKLEN)%nat as Lh 
    by (unfold header_sizeof, header_layout; case_if; by apply Nat.leb_le).
  unfold talk, packet_limit. destruct extra; cbn [app];
    repeat (constructor; [rewrite Lp, ?header_enc_length; lia |]); constructor.
Qed.

Definition payload_fits (h : trace_header_t) (extra : option bytes) : Prop :=
  match extra with
  | None => True
  | Some obj => 0 <= size h <= Z.of_nat (length obj) /\ size h < 2 ^ 30
  end.

Lemma performs_send_message h extra w b :
  payload_fits h extra ->
  performs (send_message cfg h extra) w (talk h extra b) (RisuResult_of_Z b) w.
Proof.
  intros Hp. pose proof header_sizeof_small as Hs. unfold send_message, talk.
  assert (forall b, performs (write_buffer cfg (header_enc h) header_sizeof) w
    [Put (packet (header_enc h)); Get [b]] (RisuResult_of_Z b) w) as Hh.
  { intros b'. rewrite <-(take_ge (header_enc h) (Z.to_nat header_sizeof)) at 2
      by (rewrite header_enc_length; lia).
    apply performs_write; [rewrite header_enc_length |]; lia. }
  destruct extra as [obj|]; cbn [app].
  - change (Put ?a :: Get ?x :: ?l) with ([Put a; Get x] ++ l).
    eapply performs_bind; [apply Hh |]. cbn [RisuResult_to_Z RisuResult_of_Z].
    rewrite bool_decide_true by done. apply performs_write; apply Hp.
  - change (Put ?a :: Get ?x :: []) with ([Put a; Get x] ++ []).
    eapply performs_bind; [apply Hh |].
    destruct (bool_decide_reflect (RisuResult_of_Z b = RES_OK)) as [->|];
      apply performs_ret.
Qed.

(** The master's handler: it goes on if the answer is RES_OK, and returns the
    answer otherwise. *)
Lemma performs_send si w r u sz extra w2 b res w3 :
  header_swaps = false -> captures cfg si w r u -> skipped r w = false ->
  (forall s, prepare_payload (get_risuop r) (set_io s (master_at r u w)) =
    (inl (sz, extra), set_io s w2)) ->
  payload_fits (message_header u r sz) extra ->
  (if bool_decide (RisuResult_of_Z b = RES_OK)
   then forall s, master_after_send (get_risuop r)
     (set_io s (set_header (message_header u r sz) w2)) = (inl res, set_io s w3)
   else res = RisuResult_of_Z b /\ w3 = set_header (message_header u r sz) w2) ->
  performs (send_register_info cfg si) w (talk (message_header u r sz) extra b) res w3.
Proof.
  intros Hsw Hc Hk Hp Hf Ha. unfold send_register_info.
  apply (performs_step _ _ _ r (set_uc u w)).
  { intros s. exact (on_uc_init cfg si (set_io s w) r u Hc). }
  apply (performs_step _ _ _ () (set_ri_master r (set_uc u w))); [done |].
  apply (performs_step _ _ _ false (master_at r u w)).
  { intros s. rewrite count_illegal_eq.
    change (skipped r (set_io s (set_ri_master r (set_uc u w)))) with (skipped r w).
    rewrite Hk. f_equal. unfold master_at, counted. by case_if. }
  apply (performs_step _ _ _ u (master_at r u w)).
  { intros s. unfold gets. do 2 f_equal. unfold master_at, counted. by case_if. }
  apply (performs_step _ _ _ (sz, extra) w2 _ _ _ Hp).
  apply (performs_step _ _ _ () (set_header (message_header u r sz) w2)).
  { intros s. unfold modify, header_host_to_arch. by rewrite Hsw. }
  apply (performs_step _ _ _ (message_header u r sz) (set_header (message_header u r sz) w2));
    [done |]. cbn [fst snd].
  rewrite <-(app_nil_r (talk _ _ _)).
  eapply performs_bind; [by apply performs_send_message |].
  destruct (bool_decide (RisuResult_of_Z b = RES_OK)); cbn [negb].
  - by apply performs_pure.
  - destruct Ha as [-> ->]. apply performs_ret.
Qed.

Lemma performs_recv_header h w :
  good_header h ->
  performs (recv_header cfg) w [Get (packet (header_enc h))] RES_OK (set_header h w).
Proof.
  intros Hh. pose proof header_sizeof_small as Hs. unfold recv_header.
  rewrite <-(app_nil_r [Get _]). eapply performs_bind.
  { apply performs_read; [rewrite header_enc_length | ]; lia. }
  apply performs_pure. intros s. munfold. cbn [fst snd].
  rewrite bool_decide_true by done. cbn [negb header set_header set_io].
  rewrite splice_full by by rewrite !header_enc_length.
  rewrite header_roundtrip by done. destruct Hh as [_ ->]. by rewrite Z.eqb_refl.
Qed.

(** What the apprentice in state [w] makes of the register file [r] of the
    master. *)
Definition received (r : reginfo) (w : risu) : reginfo :=
  reginfo_arch_to_host (reginfo_dec host_le (splice (reginfo_enc host_le (ri_master w))
    (take (Z.to_nat (reginfo_size r)) (reginfo_enc host_le (reginfo_host_to_arch r))))).

Lemma received_same r w :
  reginfo_wf r -> reginfo_size (received r w) = reginfo_size r /\ same_info (received r w) r.
Proof. apply reginfo_transfer. Qed.

Lemma performs_recv_reginfo h r w :
  reginfo_wf r -> size h = reginfo_size r ->
  performs (recv_reginfo cfg h) w
    [Put [RisuResult_to_Z RES_OK];
     Get (packet (payload h (Some (reginfo_enc host_le (reginfo_host_to_arch r)))))]
    RES_OK (set_ri_master (received r w) w).
Proof.
  intros Hr Hs.
  pose proof (reginfo_size_range r Hr) as Hsz. pose proof reginfo_sizeof_small as Hsm.
  set (sent := take (Z.to_nat (size h)) (reginfo_enc host_le (reginfo_host_to_arch r))).
  assert (length sent = Z.to_nat (size h)) as Ls.
  { unfold sent. rewrite length_take, reginfo_enc_length. lia. }
  destruct (received_same r w Hr) as [T1 _].
  assert (received r w = reginfo_arch_to_host
    (reginfo_dec host_le (splice (reginfo_enc host_le (ri_master w)) sent))) as Em
    by (unfold received; by rewrite <-Hs).
  unfold recv_reginfo.
  destruct (Z.ltb_spec (Z.of_nat reginfo_sizeof) (size h)); [lia |].
  change ([Put ?x; Get ?y]) with ([Put x] ++ [Get y] ++ []).
  eapply performs_bind; [apply performs_respond |].
  eapply performs_bind; [apply (performs_read sent); [rewrite Ls; lia | lia] |].
  apply performs_pure. intros s. munfold. cbn [fst snd].
  change (ri_master (set_io s w)) with (ri_master w). rewrite <-Em.
  rewrite bool_decide_true by done. cbn [andb].
  by rewrite T1, <-Hs, wrap_small, Z.eqb_refl by (unfold in_width; lia).
Qed.

Lemma performs_recv_memblock h bs w :
  size h = MEMBLOCKLEN -> Z.of_nat (length bs) = MEMBLOCKLEN ->
  Z.of_nat (length (other_memblock w)) = MEMBLOCKLEN ->
  performs (recv_memblock cfg h) w
    [Put [RisuResult_to_Z RES_OK]; Get (packet (payload h (Some bs)))]
    RES_OK (set_other_memblock bs w).
Proof.
  intros Hs Hl Ho. pose proof MEMBLOCKLEN_small. unfold recv_memblock.
  rewrite Hs, Z.eqb_refl. cbn [negb].
  change ([Put ?x; Get ?y]) with ([Put x] ++ [Get y] ++ []).
  eapply performs_bind; [apply performs_respond |]. unfold payload.
  rewrite Hs, take_ge by lia.
  eapply performs_bind; [apply (performs_read bs); [done | lia] |].
  apply performs_pure. intros s. munfold. cbn [fst snd].
  cbn [other_memblock set_io set_other_memblock]. by rewrite splice_full by lia.
Qed.

(** The apprentice's handler: the answer says only whether to go on. *)
Lemma performs_compare si w r u l w2 res w3 :
  captures cfg si w r u -> skipped r w = false ->
  performs (recv_register_info cfg) (apprentice_at r u w) l RES_OK w2 ->
  compare_op cfg (get_risuop r) si w2 = (inl res, w3) ->
  performs (recv_and_compare_register_info cfg si) w
    (l ++ [Put [if bool_decide (res = RES_OK) then 0 else 1]]) res w3.
Proof.
  intros Hc Hk Hr Ho. unfold recv_and_compare_register_info.
  apply (performs_step _ _ _ r (set_uc u w)).
  { intros s. exact (on_uc_init cfg si (set_io s w) r u Hc). }
  apply (performs_step _ _ _ () (set_ri_apprentice r (set_uc u w))); [done |].
  apply (performs_step _ _ _ false (apprentice_at r u w)).
  { intros s. rewrite count_illegal_eq.
    change (skipped r (set_io s (set_ri_apprentice r (set_uc u w)))) with (skipped r w).
    rewrite Hk. f_equal. unfold apprentice_at, counted. by case_if. }
  eapply performs_bind; [exact Hr |]. rewrite bool_decide_true by done.
  rewrite <-(app_nil_l [Put _]).
  eapply performs_bind; [apply performs_free; [apply io_free_compare_op | exact Ho] |].
  rewrite <-(app_nil_r [Put _]). eapply performs_bind; [| apply performs_ret].
  destruct (bool_decide (res = RES_OK)); apply performs_respond.
Qed.

Lemma performs_recv h w l res w1 :
  good_header h ->
  performs (recv_payload cfg) (set_header h w) l res w1 ->
  performs (recv_register_info cfg) w (Get (packet (header_enc h)) :: l) res w1.
Proof.
  intros Hh Hp. unfold recv_register_info. change (Get ?a :: l) with ([Get a] ++ l).
  eapply performs_bind; [by apply performs_recv_header |]. by rewrite bool_decide_true.
Qed.

(** The apprentice receives a message and stores its payload. *)
Lemma performs_recv_regs u r w :
  reginfo_wf r -> is_reg_op (get_risuop r) = true ->
  let h := message_header u r (reginfo_size r) in
  performs (recv_register_info cfg) w
    [Get (packet (header_enc h)); Put [0];
     Get (packet (payload h (Some (reginfo_enc host_le (reginfo_host_to_arch r)))))]
    RES_OK (set_ri_master (received r w) (set_header h w)).
Proof.
  intros Hr Ho h. pose proof (reginfo_size_range r Hr). pose proof reginfo_sizeof_small.
  assert (performs (recv_reginfo cfg h) (set_header h w) _ RES_OK _) as P
    by (apply (performs_recv_reginfo h r); [done |]; simpl; apply wrap_small; unfold in_width; lia).
  eapply performs_recv.
  { apply message_header_good. intros z E. by rewrite E in Ho. }
  unfold recv_payload. apply (performs_step _ _ _ h (set_header h w)); [done |].
  change (risu_op h) with (RisuOp_to_Z (get_risuop r)).
  by destruct (get_risuop r).
Qed.

Lemma io_free_after_send op : io_free (master_after_send op).
Proof. unfold master_after_send, do_setmemblock, do_getmemblock. io_free_steps. Qed.

Lemma io_free_prepare op : io_free (prepare_payload op).
Proof. unfold prepare_payload. io_free_steps. Qed.

Lemma performs_send_skip si w r u :
  captures cfg si w r u -> skipped r w = true ->
  performs (send_register_info cfg si) w [] RES_OK (master_at r u w).
Proof.
  intros Hc Hk. unfold send_register_info.
  apply (performs_step _ _ _ r (set_uc u w)).
  { intros s. exact (on_uc_init cfg si (set_io s w) r u Hc). }
  apply (performs_step _ _ _ () (set_ri_master r (set_uc u w))); [done |].
  apply (performs_step _ _ _ true (master_at r u w)); [| apply performs_ret].
  intros s. rewrite count_illegal_eq.
  change (skipped r (set_io s (set_ri_master r (set_uc u w)))) with (skipped r w).
  rewrite Hk. f_equal. unfold master_at, counted. by case_if.
Qed.

Lemma performs_compare_skip si w r u :
  captures cfg si w r u -> skipped r w = true ->
  performs (recv_and_compare_register_info cfg si) w [] RES_OK (apprentice_at r u w).
Proof.
  intros Hc Hk. unfold recv_and_compare_register_info.
  apply (performs_step _ _ _ r (set_uc u w)).
  { intros s. exact (on_uc_init cfg si (set_io s w) r u Hc). }
  apply (performs_step _ _ _ () (set_ri_apprentice r (set_uc u w))); [done |].
  apply (performs_step _ _ _ true (apprentice_at r u w)); [| apply performs_ret].
  intros s. rewrite count_illegal_eq.
  change (skipped r (set_io s (set_ri_apprentice r (set_uc u w)))) with (skipped r w).
  rewrite Hk. f_equal. unfold apprentice_at, counted. by case_if.
Qed.

(** Registers leave the master; [b] is the apprentice's last answer. *)
Lemma performs_send_regs si w r u b :
  header_swaps = false -> captures cfg si w r u -> skipped r w = false ->
  is_reg_op (get_risuop r) = true ->
  let h := message_header u r (reginfo_size r) in
  performs (send_register_info cfg si) w
    (talk h (Some (reginfo_enc host_le (reginfo_host_to_arch r))) b)
    (if bool_decide (RisuResult_of_Z b = RES_OK)
     then if bool_decide (get_risuop r = OP_TESTEND) then RES_END else RES_OK
     else RisuResult_of_Z b)
    (set_header h (set_ri_master (reginfo_host_to_arch r) (master_at r u w))).
Proof.
  intros Hsw Hc Hk Ho h.
  assert (reginfo_wf r) as Hr by (by eapply reginfo_init_wf).
  pose proof (reginfo_size_range r Hr). pose proof reginfo_sizeof_small.
  apply (performs_send _ _ _ _ _ _ (set_ri_master (reginfo_host_to_arch r) (master_at r u w)));
    try done.
  - intros s. unfold prepare_payload, master_at, counted. subst h. revert Ho.
    by destruct (get_risuop r).
  - simpl. rewrite reginfo_enc_length, wrap_small by (unfold in_width; lia). lia.
  - case_if; [| done]. intros s. unfold master_after_send. subst h. revert Ho.
    by destruct (get_risuop r).
Qed.

(** ** Any message *)

(** What the apprentice in state [w] has stored when the master's message with
    the register file [r] and the payload [extra] has arrived. *)
Definition arrived (u : uctx) (r : reginfo) (sz : Z) (extra : option bytes) (w : risu) : risu :=
  let w1 := set_header (message_header u r sz) w in
  match get_risuop r with
  | OP_COMPARE | OP_TESTEND | OP_SIGILL => set_ri_master (received r w) w1
  | OP_COMPAREMEM => set_other_memblock (default [] extra) w1
  | _ => w1
  end.

(** The apprentice's side of a message that it reads to its end. *)
Definition hears (h : trace_header_t) (extra : option bytes) : conversation :=
  Get (packet (header_enc h)) ::
  match extra with
  | None => []
  | Some _ => [Put [RisuResult_to_Z RES_OK]; Get (packet (payload h extra))]
  end.

Lemma hears_talk h extra b : hears h extra ++ [Put [b]] = dual (talk h extra b).
Proof. by destruct extra. Qed.

(** What the master has to send; a memory block must have been set. *)
Lemma prepare_payload_inv r w sz extra w2 :
  reginfo_wf r -> ri_master w = r -> prepare_payload (get_risuop r) w = (inl (sz, extra), w2) ->
  (get_risuop r = OP_COMPAREMEM -> extra <> None) ->
  (forall z, get_risuop r <> OP_OTHER z) /\
  if is_reg_op (get_risuop r) then
    sz = reginfo_size r /\ extra = Some (reginfo_enc host_le (reginfo_host_to_arch r))
  else if bool_decide (get_risuop r = OP_COMPAREMEM) then
    sz = MEMBLOCKLEN /\ exists bs, extra = Some bs /\ Z.of_nat (length bs) = MEMBLOCKLEN
  else sz = 0 /\ extra = None.
Proof.
  intros Hr Hw E Hx. unfold prepare_payload in E.
  destruct (get_risuop r) eqn:Op; munfold; rewrite ?Hw in E; simplify_eq/=; try (by split).
  destruct (memblock w) as [p|]; [| by simplify_eq/=; destruct (Hx eq_refl)].
  destruct (mem_at (uc w) p MEMBLOCKLEN) as [bs|] eqn:B; [| done]. simplify_eq/=.
  apply mem_at_length in B; [| done]. by eauto.
Qed.

Lemma performs_recv_message u r w0 sz extra w2 w :
  reginfo_wf r -> ri_master w0 = r -> prepare_payload (get_risuop r) w0 = (inl (sz, extra), w2) ->
  (get_risuop r = OP_COMPAREMEM -> extra <> None) ->
  Z.of_nat (length (other_memblock w)) = MEMBLOCKLEN ->
  performs (recv_register_info cfg) w (hears (message_header u r sz) extra) RES_OK (arrived u r sz extra w).
Proof.
  intros Hr Hm E Hx Ho. destruct (prepare_payload_inv r w0 sz extra w2 Hr Hm E Hx) as [Hn K].
  unfold arrived, hears. destruct (is_reg_op (get_risuop r)) eqn:Rg.
  { destruct K as [-> ->]. pose proof (performs_recv_regs u r w Hr Rg) as P. revert P.
    by destruct (get_risuop r). }
  set (h := message_header u r sz). assert (good_header h) as Hh by (by apply message_header_good).
  apply performs_recv; [done |]. unfold recv_payload. apply (performs_step _ _ _ h (set_header h w)); [done |].
  change (risu_op h) with (RisuOp_to_Z (get_risuop r)).
  destruct (bool_decide_reflect (get_risuop r = OP_COMPAREMEM)) as [Op|Op].
  - destruct K as (-> & bs & -> & Hl). rewrite Op.
    apply performs_recv_memblock; [exact MEMBLOCKLEN_u32 | done | done].
  - destruct K as [-> ->]. destruct (get_risuop r) eqn:Q; try done; apply performs_ret.
Qed.

(** The master's handler when the answer is not RES_OK. *)
Lemma performs_send_refused si w r u sz extra w2 b :
  header_swaps = false -> captures cfg si w r u -> skipped r w = false ->
  prepare_payload (get_risuop r) (master_at r u w) = (inl (sz, extra), w2) ->
  (get_risuop r = OP_COMPAREMEM -> extra <> None) -> RisuResult_of_Z b <> RES_OK ->
  performs (send_register_info cfg si) w (talk (message_header u r sz) extra b) (RisuResult_of_Z b)
    (set_header (message_header u r sz) w2).
Proof.
  intros Hsw Hc Hk E Hx Hb. assert (reginfo_wf r) as Hr by (by eapply reginfo_init_wf).
  assert (ri_master (master_at r u w) = r) as Hm by (unfold master_at, counted; by case_if).
  destruct (prepare_payload_inv r _ sz extra w2 Hr Hm E Hx) as [_ K].
  pose proof (reginfo_size_range r Hr). pose proof reginfo_sizeof_small. assert (0 <= MEMBLOCKLEN < 2 ^ 30) as Hlt by done.
  apply (performs_send si w r u sz extra w2 b); try done.
  - intros s. by rewrite io_free_prepare, E.
  - destruct (is_reg_op _); [destruct K as [-> ->] |
      destruct (bool_decide _); [destruct K as (-> & bs & -> & Hl) | by destruct K as [-> ->]]]; simpl.
    + rewrite reginfo_enc_length, wrap_small by (unfold in_width; lia). lia.
    + rewrite Hl, MEMBLOCKLEN_u32. lia.
  - by rewrite bool_decide_false.
Qed.

(** ** Headers that are refused *)

Lemma performs_recv_refused hb w :
  Z.of_nat (length hb) = header_sizeof ->
  let h := header_arch_to_host (header_dec hb) in header_check h <> RES_OK ->
  performs (recv_register_info cfg) w [Get (packet hb)] (header_check h) (set_header h w).
Proof.
  intros Hl h Hc. pose proof header_sizeof_small as Hs. unfold recv_register_info.
  assert (performs (recv_header cfg) w [Get (packet hb)]
    (if negb (magic h =? RISU_MAGIC) then RES_BAD_MAGIC else RES_OK) (set_header h w)) as P.
  { unfold recv_header. rewrite <-(app_nil_r [Get _]).
    eapply performs_bind; [apply performs_read; lia |].
    apply performs_pure. intros s. munfold. cbn [fst snd]. rewrite bool_decide_true by done.
    cbn [negb header set_header set_io].
    by rewrite splice_full by (rewrite header_enc_length; lia). }
  rewrite <-(app_nil_r [Get _]). eapply performs_bind; [exact P |].
  destruct (Z.eqb_spec (magic h) RISU_MAGIC) as [Em|Em]; cbn [negb].
  - rewrite bool_decide_true by done. apply performs_pure. intros s.
    exact (recv_payload_bad cfg (set_io s (set_header h w)) Em Hc).
  - rewrite bool_decide_false by done. replace (header_check h) with RES_BAD_MAGIC; [apply performs_ret |].
    unfold header_check. by rewrite (proj2 (Z.eqb_neq _ _) Em).
Qed.

Lemma performs_compare_refused si w r u l res w2 :
  captures cfg si w r u -> skipped r w = false -> res <> RES_OK ->
  performs (recv_register_info cfg) (apprentice_at r u w) l res w2 ->
  performs (recv_and_compare_register_info cfg si) w (l ++ [Put [1]]) res w2.
Proof.
  intros Hc Hk Hn Hr.
  apply (performs_eq (res ← recv_register_info cfg;
    res ← (if bool_decide (res = RES_OK) then compare_op cfg (get_risuop r) si else mret res);
    _ ← respond cfg (if bool_decide (res = RES_OK) then RES_OK else RES_END); mret res)
    (apprentice_at r u w)).
  - intros s. rewrite (compare_start cfg si (set_io s w) r u Hc).
    change (skipped r (set_io s w)) with (skipped r w). rewrite Hk. f_equal.
    unfold apprentice_at, counted. by case_if.
  - eapply performs_bind; [exact Hr |]. rewrite bool_decide_false by done.
    rewrite <-(app_nil_l [Put _]). eapply performs_bind; [apply performs_ret |].
    rewrite bool_decide_false by done. rewrite <-(app_nil_r [Put _]).
    eapply performs_bind; [apply (performs_respond RES_END) | apply performs_ret].
Qed.
End socket.

(** ** Both sides of a checkpoint *)

Section run.
Variables (ct cm ca : settings).
Hypothesis (Htt : trace ct = true) (Htm : trace cm = false) (Hta : trace ca = false).
Hypothesis (Hom : opts cm = opts ct) (Hoa : opts ca = opts ct).
Hypothesis (Him : img cm = img ct) (Hia : img ca = img ct).
Hypothesis (Hswap : header_swaps = false).

(** What the recording master [ct] does at a signal, the master [cm] and the
    apprentice [ca] do with each other: they hold dual conversations, return the
    same result and stay in step. *)
Definition converses (si : Z) (w : risu) (res : RisuResult) (w' : risu) : Prop :=
  exists l, exchanges packet_limit l /\ forall wm wa, synced w wm -> synced w wa ->
    exists wm' wa', performs (send_register_info cm si) wm l res wm' /\
      performs (recv_and_compare_register_info ca si) wa (dual l) res wa' /\
      synced w' wm' /\ synced w' wa'.

(** Both sides capture what the recording master does. *)
Lemma captures_both si w r u wm wa :
  captures ct si w r u -> synced w wm -> synced w wa ->
  captures cm si wm r u /\ captures ca si wa r u /\
  synced (master_at r u w) (master_at r u wm) /\ synced (master_at r u w) (apprentice_at r u wa).
Proof.
  intros C Sm Sa.
  assert (uctx_wf u) as Wu by (by eapply reginfo_init_uctx; [exact (sy_wf _ _ Sm) | exact C]).
  split; [by eapply synced_captures |]. split; [by eapply synced_captures |].
  split; by apply synced_at.
Qed.

Lemma converse_skip si w r u :
  captures ct si w r u -> skipped r w = true -> converses si w RES_OK (master_at r u w).
Proof.
  intros C K. exists []. split; [constructor |]. intros wm wa Sm Sa.
  destruct (captures_both si w r u wm wa C Sm Sa) as (Cm & Ca & Ym & Ya).
  exists (master_at r u wm), (apprentice_at r u wa). split_and!; try done.
  - apply performs_send_skip; [done | by rewrite (synced_skipped _ _ _ Sm)].
  - apply performs_compare_skip; [done | by rewrite (synced_skipped _ _ _ Sa)].
Qed.

Lemma converse_reginfo si w r u res w' :
  writable ct w -> captures ct si w r u -> skipped r w = false ->
  is_reg_op (get_risuop r) = true -> send_register_info ct si w = (inl res, w') ->
  converses si w res w'.
Proof.
  intros W C K Hop E.
  assert (get_risuop r = OP_COMPARE \/ get_risuop r = OP_TESTEND \/ get_risuop r = OP_SIGILL)
    as Hop' by (revert Hop; destruct (get_risuop r); auto; done).
  assert (reginfo_wf r) as Hr by (by eapply reginfo_init_wf).
  pose proof (reginfo_size_range r Hr) as Hsz. pose proof reginfo_sizeof_small as Hsm.
  set (h := message_header u r (reginfo_size r)).
  destruct (master_sends ct si w r u (reginfo_size r)
    (Some (reginfo_enc host_le (reginfo_host_to_arch r)))
    (set_ri_master (reginfo_host_to_arch r) (master_at r u w)))
    as (w3 & R3 & D3 & W3 & (i3 & g3 & E3)); try done.
  { unfold master_at, counted. by destruct (bool_decide _). }
  { unfold prepare_payload, master_at, counted. subst h. revert Hop. by destruct (get_risuop r). }
  { simpl. rewrite reginfo_enc_length, wrap_small by (unfold in_width; lia). lia. }
  fold h in E3. set (b := if bool_decide (get_risuop r = OP_TESTEND) then 1 else 0).
  assert (res = (if bool_decide (get_risuop r = OP_TESTEND) then RES_END else RES_OK) /\ w' = w3)
    as [Eres ->].
  { rewrite R3 in E. unfold master_after_send in E. clear -E Hop'.
    munfold. destruct Hop' as [Q|[Q|Q]]; rewrite Q in E |- *; by simplify_eq/=. }
  exists (talk h (Some (reginfo_enc host_le (reginfo_host_to_arch r))) b).
  split; [apply talk_exchanges; unfold payload; rewrite length_take, reginfo_enc_length; lia |].
  intros wm wa Sm Sa.
  pose proof (performs_recv_regs ca Hta u r (apprentice_at r u wa) Hr Hop) as P.
  set (m := received r (apprentice_at r u wa)) in P.
  assert (same_info m r) as Hm by (by apply received_same).
  set (w2 := set_ri_master m (set_header h (apprentice_at r u wa))).
  assert (compare_op ca (get_risuop r) si w2 = (inl res, w2)) as Q.
  { rewrite Eres. destruct (apprentice_at_fields r u wa) as (F1 & F2 & _).
    apply (compare_reginfo_same ca si w2 r u); try done.
    simpl. rewrite Hoa. eapply same_info_update; [exact (sy_wf _ _ Sm) | exact C | done]. }
  destruct (captures_both si w r u wm wa C Sm Sa) as (Cm & Ca & Ym & Ya).
  exists (set_header h (set_ri_master (reginfo_host_to_arch r) (master_at r u wm))), w2.
  split_and!.
  - replace res with (if bool_decide (RisuResult_of_Z b = RES_OK)
     then if bool_decide (get_risuop r = OP_TESTEND) then RES_END else RES_OK
     else RisuResult_of_Z b) by (rewrite Eres; unfold b; by destruct (bool_decide (get_risuop r = OP_TESTEND))).
    apply performs_send_regs; [done | done | done | by rewrite (synced_skipped _ _ _ Sm) | done].
  - assert (skipped r wa = false) as Ka by by rewrite (synced_skipped _ _ _ Sa).
    pose proof (performs_compare ca Hta si wa r u _ w2 res w2 Ca Ka P Q) as F.
    replace (if bool_decide (res = RES_OK) then 0 else 1) with b in F
      by (rewrite Eres; unfold b; by destruct (bool_decide (get_risuop r = OP_TESTEND))). exact F.
  - rewrite E3. destruct Ym. by split.
  - unfold w2. rewrite E3. destruct Ya. by split.
Qed.

#[local] Opaque MEMBLOCKLEN.

Lemma converse_memblock si w r u p bs res w' :
  writable ct w -> captures ct si w r u ->
  get_risuop r = OP_COMPAREMEM -> memblock w = Some p ->
  mem_at u p MEMBLOCKLEN = Some bs -> send_register_info ct si w = (inl res, w') ->
  converses si w res w'.
Proof.
  intros W C Hop Hmb Hmem E.
  assert (get_risuop r <> OP_SIGILL) as Hns by by rewrite Hop.
  pose proof (mem_at_length _ _ _ _ (proj1 MEMBLOCKLEN_small) Hmem) as Hl.
  assert (0 <= MEMBLOCKLEN < 2 ^ 30) as Hlt by done.
  set (h := message_header u r MEMBLOCKLEN).
  assert (good_header h) as Hh by (apply message_header_good; intros z; by rewrite Hop).
  assert (forall v, memblock v = Some p -> uc v = u ->
    prepare_payload (get_risuop r) v = (inl (MEMBLOCKLEN, Some bs), v)) as Pp.
  { intros v V1 V2. rewrite Hop. unfold prepare_payload, mbind, M_bind, gets.
    by rewrite V1, V2, Hmem. }
  destruct (master_sends ct si w r u MEMBLOCKLEN (Some bs) (master_at r u w))
    as (w3 & R3 & D3 & W3 & (i3 & g3 & E3)); try done;
    [unfold master_at; by rewrite counted_other | by apply skipped_other | | |].
  { unfold master_at. rewrite counted_other by done. by apply Pp. }
  { unfold payload_ok. cbn [size message_header]. rewrite Hl, MEMBLOCKLEN_u32. lia. }
  fold h in E3. rewrite R3, Hop in E. injection E as <- <-.
  exists (talk h (Some bs) 0).
  split; [apply talk_exchanges; unfold payload; rewrite length_take; lia |]. intros wm wa Sm Sa.
  destruct (captures_both si w r u wm wa C Sm Sa) as (Cm & Ca & Ym & Ya).
  exists (set_header h (master_at r u wm)),
    (set_other_memblock bs (set_header h (apprentice_at r u wa))).
  unfold master_at, apprentice_at in *. rewrite !counted_other in * by done. split_and!.
  - apply (performs_send cm Htm si wm r u MEMBLOCKLEN (Some bs)
      (set_ri_master r (set_uc u wm))); try done.
    + by apply skipped_other.
    + intros s. unfold master_at. rewrite counted_other by done. apply Pp; [| done].
      by rewrite <-Hmb, <-(sy_memblock _ _ Sm).
    + unfold payload_fits. cbn [size message_header]. rewrite Hl, MEMBLOCKLEN_u32. lia.
    + intros s. by rewrite Hop.
  - eapply (performs_compare ca Hta si wa r u
      [Get (packet (header_enc h)); Put [0]; Get (packet (payload h (Some bs)))]);
      [done | by apply skipped_other | |].
    + unfold apprentice_at. rewrite counted_other by done. apply performs_recv; [done | done |].
      unfold recv_payload. eapply (performs_step _ _ _ h); [done |].
      change (risu_op h) with (RisuOp_to_Z (get_risuop r)). rewrite Hop.
      apply performs_recv_memblock; [done | exact MEMBLOCKLEN_u32 | done | exact (sy_other _ _ Sa)].
    + rewrite Hop. apply (compare_memblock_same _ _ _ p bs); try done.
      * cbn. by rewrite Hop.
      * rewrite <-Hmb. exact (sy_memblock _ _ Sa).
  - rewrite E3. destruct Ym. by split.
  - rewrite E3. destruct Ya. by split.
Qed.

Lemma converse_plain si w r u res w' :
  writable ct w -> captures ct si w r u ->
  get_risuop r = OP_SETMEMBLOCK \/ get_risuop r = OP_GETMEMBLOCK \/
  get_risuop r = OP_SETUPBEGIN \/ get_risuop r = OP_SETUPEND ->
  send_register_info ct si w = (inl res, w') -> converses si w res w'.
Proof.
  intros W C Hop E.
  assert (get_risuop r <> OP_SIGILL) as Hns by (by destruct Hop as [->|[->|[->| ->]]]).
  set (h := message_header u r 0).
  assert (good_header h) as Hh.
  { apply message_header_good. intros z. by destruct Hop as [->|[->|[->| ->]]]. }
  assert (forall v, prepare_payload (get_risuop r) v = (inl (0, None), v)) as Pp
    by (intros v; by destruct Hop as [->|[->|[->| ->]]]).
  destruct (master_sends ct si w r u 0 None (master_at r u w))
    as (w3 & R3 & D3 & W3 & (i3 & g3 & E3)); try done;
    [unfold master_at; by rewrite counted_other | by apply skipped_other |].
  fold h in E3. unfold master_at in E3. rewrite counted_other in E3 by done.
  destruct (plain_steps ca si r u Hop) as (f & Fm & Fa & Fio & Fs).
  rewrite R3, Fm in E by (by rewrite E3). injection E as <- <-.
  exists (talk h None 0). split; [apply talk_exchanges; simpl; lia |]. intros wm wa Sm Sa.
  destruct (captures_both si w r u wm wa C Sm Sa) as (Cm & Ca & Ym & Ya).
  unfold master_at, apprentice_at in Ym, Ya. rewrite !counted_other in Ym, Ya by done.
  set (vm := set_header h (set_ri_master r (set_uc u wm))).
  set (va := set_header h (set_ri_apprentice r (set_uc u wa))).
  exists (f vm), (f va). split_and!.
  - apply (performs_send cm Htm si wm r u 0 None (set_ri_master r (set_uc u wm))); try done.
    + by apply skipped_other.
    + intros s. unfold master_at. rewrite counted_other by done. apply Pp.
    + intros s. rewrite io_free_after_send. fold h vm. by rewrite Fm.
  - eapply (performs_compare ca Hta si wa r u [Get (packet (header_enc h))] va RES_OK (f va));
      [done | by apply skipped_other | | by apply Fa].
    unfold apprentice_at. rewrite counted_other by done. apply performs_recv; [done | done |].
    unfold recv_payload. eapply (performs_step _ _ _ h); [done |].
    change (risu_op h) with (RisuOp_to_Z (get_risuop r)). change (size h) with 0.
    destruct Hop as [->|[->|[->| ->]]]; apply performs_ret.
  - apply Fs; [| done]. rewrite E3. destruct Ym. by split.
  - apply Fs; [| done]. rewrite E3. destruct Ya. by split.
Qed.

Lemma converse_any si w res w' :
  writable ct w -> null_compare ct si w = false ->
  send_register_info ct si w = (inl res, w') -> converses si w res w'.
Proof.
  intros W N E. pose proof E as E0. apply send_inv in E0 as (r & u & C & [K|[K (x & P & Hx)]]).
  { assert (res = RES_OK /\ w' = master_at r u w) as [-> ->]; [| by apply converse_skip].
    unfold send_register_info in E. rewrite (bind_done _ _ _ _ _ (on_uc_init _ _ _ _ _ C)) in E.
    rewrite (bind_done (modify _) _ _ () (set_ri_master r (set_uc u w))) in E by done.
    rewrite (bind_done _ _ _ _ _ (count_illegal_eq r _)) in E.
    change (skipped r (set_ri_master r (set_uc u w))) with (skipped r w) in E.
    rewrite K in E. by injection E as <- <-. }
  destruct (get_risuop r) eqn:Hop;
    try (by apply (converse_reginfo si w r u); [.. | by rewrite Hop |]);
    try (by eapply converse_plain; eauto).
  - unfold null_compare in N. unfold captures in C. rewrite C, Hop in N.
    rewrite bool_decide_true in N by done. simpl in N. apply bool_decide_eq_false in N.
    destruct (memblock w) as [p|] eqn:Hp; [| done].
    destruct (mem_at u p MEMBLOCKLEN) as [bs|] eqn:Hm; [by eapply converse_memblock |].
    subst x. unfold prepare_payload, master_at in Hx. rewrite counted_other in Hx by (by rewrite Hop).
    rewrite (bind_done (gets memblock) _ _ (Some p) (set_ri_master r (set_uc u w))) in Hx
      by (by rewrite <-Hp).
    rewrite (bind_done (gets uc) _ _ u (set_ri_master r (set_uc u w))) in Hx by done.
    by rewrite Hm in Hx.
  - by subst x.
Qed.

(** Both handlers, whole. *)

Definition tick (w : risu) : risu := set_signal_count (u64 (signal_count w + 1)) w.

Lemma synced_tick w v : synced w v -> synced (tick w) (tick v).
Proof. intros []. split; simpl; congruence. Qed.

Lemma io_free_finish si res : io_free (finish_signal si res).
Proof. unfold finish_signal, on_uc. io_free_steps. Qed.

Lemma finish_synced si res w v o w' :
  synced w v -> finish_signal si res w = (inl o, w') ->
  exists v', finish_signal si res v = (inl o, v') /\ synced w' v'.
Proof.
  intros S E. assert (uctx_wf (advance_pc (uc w))) by (apply advance_pc_wf, S).
  unfold finish_signal, on_uc in *. munfold.
  destruct res; injection E as <- <-; (eexists; split; [reflexivity |]); destruct S;
    split; simpl; congruence || done.
Qed.

Lemma converse_signal sig si w o w' :
  writable ct w -> null_compare ct si w = false ->
  master_sigill ct sig si w = (inl o, w') ->
  exists l, exchanges packet_limit l /\ forall wm wa, synced w wm -> synced w wa ->
    exists wm' wa', performs (master_sigill cm sig si) wm l o wm' /\
      performs (apprentice_sigill ca sig si) wa (dual l) o wa' /\
      synced w' wm' /\ synced w' wa'.
Proof.
  intros W N E. unfold master_sigill in E.
  rewrite (bind_done (modify _) _ _ () (tick w)) in E by done.
  apply bind_inv in E as (res & w1 & E1 & E2).
  assert (exists l, exchanges packet_limit l /\ forall wm wa, synced (tick w) wm -> synced (tick w) wa ->
    exists wm1 wa1,
      performs (match sig with SIGILL => send_register_info cm si | SIGBUS => mret RES_SIGBUS end)
        wm l res wm1 /\
      performs (match sig with
                | SIGILL => recv_and_compare_register_info ca si
                | SIGBUS => mret RES_SIGBUS end) wa (dual l) res wa1 /\
      synced w1 wm1 /\ synced w1 wa1) as (l & X & A).
  { destruct sig.
    - by apply (converse_any si (tick w)).
    - injection E1 as <- <-. exists []. split; [constructor |]. intros wm wa Sm Sa. exists wm, wa.
      split_and!; try done; apply performs_ret. }
  exists l. split; [exact X |]. intros wm wa Sm Sa.
  destruct (A _ _ (synced_tick _ _ Sm) (synced_tick _ _ Sa)) as (wm1 & wa1 & Pm & Pa & S1 & S2).
  destruct (finish_synced si res w1 wm1 o w' S1 E2) as (wm2 & Fm & Y1).
  destruct (finish_synced si res w1 wa1 o w' S2 E2) as (wa2 & Fa & Y2).
  exists wm2, wa2. split_and!; try done; unfold master_sigill, apprentice_sigill.
  - apply (performs_step _ _ _ () (tick wm)); [done |]. rewrite <-(app_nil_r l).
    eapply performs_bind; [destruct sig; exact Pm |]. by apply performs_free, Fm; apply io_free_finish.
  - apply (performs_step _ _ _ () (tick wa)); [done |]. rewrite <-(app_nil_r (dual l)).
    eapply performs_bind; [destruct sig; exact Pa |]. by apply performs_free, Fa; apply io_free_finish.
Qed.

(** ** The whole run *)

Variable cpu : uctx -> option (signal * Z * uctx).
Hypothesis cpu_wf : forall u sig si u',
  uctx_wf u -> cpu u = Some (sig, si, u') -> uctx_wf u'.

Lemma synced_resume w v sig si u :
  synced w v -> cpu (uc w) = Some (sig, si, u) -> synced (set_uc u w) (set_uc u v).
Proof. intros S C. destruct S. split; simpl; try done. by eapply cpu_wf. Qed.

Lemma performs_resume handler fuel w sig si u o w1 l1 res w2 l2 :
  cpu (uc w) = Some (sig, si, u) ->
  performs (handler sig si) (set_uc u w) l1 o w1 ->
  performs (match o with
            | Some r => mret (Some r)
            | None => run_image cpu handler fuel
            end) w1 l2 res w2 ->
  performs (run_image cpu handler (S fuel)) w (l1 ++ l2) res w2.
Proof.
  intros C P1 P2. cbn [run_image]. apply (performs_step _ _ _ (uc w) w); [done |].
  rewrite C. apply (performs_step _ _ _ () (set_uc u w)); [done |].
  by eapply performs_bind.
Qed.

Lemma converse_run fuel w o w' :
  writable ct w -> memblock_set ct cpu fuel w = true ->
  run_image cpu (master_sigill ct) fuel w = (inl o, w') ->
  exists l, exchanges packet_limit l /\ forall wm wa, synced w wm -> synced w wa ->
    exists wm' wa', performs (run_image cpu (master_sigill cm) fuel) wm l o wm' /\
      performs (run_image cpu (apprentice_sigill ca) fuel) wa (dual l) o wa' /\
      synced w' wm' /\ synced w' wa'.
Proof.
  revert w. induction fuel as [|fuel IH]; intros w W N E; [done |].
  cbn [memblock_set] in N. cbn [run_image] in E.
  rewrite (bind_done (gets uc) _ _ (uc w) w) in E by done.
  destruct (cpu (uc w)) as [[[sig si] u]|] eqn:C.
  2: { injection E as <- <-. exists []. split; [constructor |]. intros wm wa Sm Sa. exists wm, wa.
       assert (forall h v, uc v = uc w -> performs (run_image cpu h (S fuel)) v [] None v) as F.
       { intros h v Hv. apply performs_pure. intros s. cbn [run_image].
         rewrite (bind_done (gets uc) _ _ (uc w) (set_io s v)) by (by rewrite <-Hv).
         by rewrite C. }
       split_and!; try done; apply F; [apply (sy_uc _ _ Sm) | apply (sy_uc _ _ Sa)]. }
  apply andb_prop in N as [N1 N2]. apply negb_true_iff in N1.
  rewrite (bind_done (modify _) _ _ () (set_uc u w)) in E by done.
  apply bind_inv in E as (o1 & w1 & E1 & E2). rewrite E1 in N2.
  destruct (replay_signal ct ct Htt Htt eq_refl eq_refl Hswap sig si (set_uc u w) o1 w1 W N1 E1)
    as (_ & _ & W1 & _).
  destruct (converse_signal sig si (set_uc u w) o1 w1 W N1 E1) as (l1 & X1 & A1).
  assert (exists l2, exchanges packet_limit l2 /\ forall wm wa, synced w1 wm -> synced w1 wa ->
    exists wm' wa',
      performs (match o1 with Some r => mret (Some r)
                | None => run_image cpu (master_sigill cm) fuel end) wm l2 o wm' /\
      performs (match o1 with Some r => mret (Some r)
                | None => run_image cpu (apprentice_sigill ca) fuel end) wa (dual l2) o wa' /\
      synced w' wm' /\ synced w' wa') as (l2 & X2 & A2).
  { destruct o1 as [r|]; [| by apply IH]. injection E2 as <- <-. exists []. split; [constructor |].
    intros wm wa Sm Sa. exists wm, wa. split_and!; try done; apply performs_ret. }
  exists (l1 ++ l2). split; [by apply exchanges_app |]. intros wm wa Sm Sa.
  destruct (A1 _ _ (synced_resume _ _ _ _ _ Sm C) (synced_resume _ _ _ _ _ Sa C))
    as (wm1 & wa1 & Pm1 & Pa1 & S1 & S2).
  destruct (A2 _ _ S1 S2) as (wm2 & wa2 & Pm2 & Pa2 & Y1 & Y2).
  exists wm2, wa2. rewrite dual_app. split_and!; try done.
  - eapply performs_resume; [by rewrite (sy_uc _ _ Sm) | exact Pm1 | exact Pm2].
  - eapply performs_resume; [by rewrite (sy_uc _ _ Sa) | exact Pa1 | exact Pa2].
Qed.

(** What both sides print and report at the end. *)
Definition success_text (w : risu) : text :=
  [("done", []); (" after %zd checkpoints and %zd illegal instructions\n",
    [AInt (u64 (signal_count w - illegal_instructions w)); AInt (illegal_instructions w)])].

Lemma performs_master fuel w l w1 :
  performs (run_image cpu (master_sigill cm) fuel) (announced cm w) l (Some RES_END) w1 ->
  performs (master cm cpu fuel) w l EXIT_SUCCESS
    (set_comm_open false (set_err (err w1 ++ success_text w1) w1)).
Proof.
  intros P. unfold master. apply (performs_step _ _ _ () (announced cm w)); [done |].
  rewrite <-(app_nil_r l). eapply performs_bind; [exact P |]. apply performs_pure. intros s.
  unfold master_result, fprintf, print_stats, close_comm. rewrite Htm.
  destruct (have_zlib cm); munfold; cbn; by rewrite <-app_assoc.
Qed.

Lemma performs_apprentice fuel w l w1 :
  performs (run_image cpu (apprentice_sigill ca) fuel) (announced ca w) l (Some RES_END) w1 ->
  performs (apprentice ca cpu fuel) w l EXIT_SUCCESS
    (set_err (err w1 ++ success_text w1) w1).
Proof.
  intros P. unfold apprentice. apply (performs_step _ _ _ () (announced ca w)); [done |].
  rewrite <-(app_nil_r l). eapply performs_bind; [exact P |]. apply performs_pure. intros s.
  unfold apprentice_result, fprintf, print_stats. munfold. cbn. by rewrite <-app_assoc.
Qed.

(** Both programs, from the start. *)
Lemma converse_programs fuel u st gt gm ga wt :
  uctx_wf u -> writable ct (risu_start u st gt) ->
  memblock_set ct cpu fuel (announced ct (risu_start u st gt)) = true ->
  master ct cpu fuel (risu_start u st gt) = (inl EXIT_SUCCESS, wt) ->
  exists l wm wa, exchanges packet_limit l /\ forall s s',
    performs (master cm cpu fuel) (risu_start u s gm) l EXIT_SUCCESS wm /\
    performs (apprentice ca cpu fuel) (risu_start u s' ga) (dual l) EXIT_SUCCESS wa /\
    signal_count wm = signal_count wt /\ signal_count wa = signal_count wt /\
    illegal_instructions wm = illegal_instructions wt /\
    illegal_instructions wa = illegal_instructions wt /\
    err wm = err wt /\ err wa = err wt.
Proof.
  intros Hu W N E. destruct (master_success ct Htt cpu fuel _ _ E) as (w1 & E1 & _ & Q1 & Q2 & Q3).
  destruct (converse_run fuel (announced ct (risu_start u st gt)) _ _ W N E1) as (l & X & A).
  destruct (A (announced cm (risu_start u st gm)) (announced ca (risu_start u st ga)))
    as (wm & wa & Pm & Pa & Sm & Sa); [by apply synced_start | by apply synced_start |].
  exists l. eexists _, _. split; [exact X |]. intros s s'. split_and!.
  - exact (performs_master fuel (risu_start u s gm) l wm Pm).
  - exact (performs_apprentice fuel (risu_start u s' ga) (dual l) wa Pa).
  - rewrite Q1. apply (sy_count _ _ Sm).
  - rewrite Q1. apply (sy_count _ _ Sa).
  - rewrite Q2. apply (sy_illegal _ _ Sm).
  - rewrite Q2. apply (sy_illegal _ _ Sa).
  - rewrite Q3. simpl. unfold success_text.
    by rewrite (sy_err _ _ Sm), (sy_count _ _ Sm), (sy_illegal _ _ Sm).
  - rewrite Q3. simpl. unfold success_text.
    by rewrite (sy_err _ _ Sa), (sy_count _ _ Sa), (sy_illegal _ _ Sa).
Qed.
End run.
End session.

(** ** The network

    A configuration of a session is what has been delivered so far: bytes of
    the master to the apprentice, and bytes of the apprentice to the master.
    Each side has sent what it sends when it has received that much; a step of
    the network delivers one byte that has been sent, in order. *)

Section network.
Variables (m a : bytes -> bytes).   (* what each side has sent, by what it has received *)

Inductive net_step : relation (bytes * bytes) :=
| ToApprentice p q b : p ++ [b] `prefix_of` m q -> net_step (p, q) (p ++ [b], q)
| ToMaster p q b : q ++ [b] `prefix_of` a p -> net_step (p, q) (p, q ++ [b]).

Variable l : conversation.
Hypothesis m_sends : forall q, q `prefix_of` gets_of l -> m q = puts_before l (length q).
Hypothesis a_sends : forall p, p `prefix_of` puts l -> a p = puts_before (dual l) (length p).

Lemma puts_before_mono k n n' : (n <= n')%nat -> puts_before k n `prefix_of` puts_before k n'.
Proof.
  revert n n'. induction k as [|[o|i] k IH]; intros n n' L; simpl; [done | by apply prefix_app, IH |].
  destruct (Nat.leb_spec (length i) n), (Nat.leb_spec (length i) n');
    [apply IH; lia | lia | apply prefix_nil | done].
Qed.

(** Only what has been sent has been delivered. *)
Definition net_ok (n : nat) (c : bytes * bytes) : Prop :=
  n = (length (fst c) + length (snd c))%nat /\
  fst c `prefix_of` puts_before l (length (snd c)) /\
  snd c `prefix_of` puts_before (dual l) (length (fst c)).

Lemma net_ok_bounds n c :
  net_ok n c -> fst c `prefix_of` puts l /\ snd c `prefix_of` gets_of l /\
    (n <= length (puts l) + length (gets_of l))%nat.
Proof.
  intros (-> & P & Q).
  assert (fst c `prefix_of` puts l) as P' by (etrans; [exact P | apply puts_before_prefix]).
  assert (snd c `prefix_of` gets_of l) as Q'.
  { etrans; [exact Q |]. rewrite <-puts_dual. apply puts_before_prefix. }
  split; [done |]. split; [done |].
  apply prefix_length in P'. apply prefix_length in Q'. lia.
Qed.

Lemma net_ok_step n c c' : net_ok n c -> net_step c c' -> net_ok (S n) c'.
Proof.
  intros Hc S. destruct (net_ok_bounds _ _ Hc) as (P & Q & _). destruct Hc as (-> & Hp & Hq).
  destruct S as [p q b E|p q b E]; cbn [fst snd] in *.
  - rewrite m_sends in E by done. split; [simpl; rewrite length_app; simpl; lia |].
    split; [done |]. etrans; [exact Hq |]. apply puts_before_mono. simpl. rewrite length_app. lia.
  - rewrite a_sends in E by done. split; [simpl; rewrite length_app; simpl; lia |].
    split; [| done]. etrans; [exact Hp |]. apply puts_before_mono. simpl. rewrite length_app. lia.
Qed.

Lemma net_ok_reachable n c : nsteps net_step n ([], []) c -> net_ok n c.
Proof.
  assert (forall k c0, net_ok k c0 -> forall j c1, nsteps net_step j c0 c1 -> net_ok (k + j) c1) as G.
  { intros k c0 Hk j c1 T. revert k Hk. induction T as [|j x y z Sx T IH]; intros k Hk.
    - by rewrite Nat.add_0_r.
    - rewrite Nat.add_succ_r. by apply (IH (S k)), (net_ok_step k x). }
  intros S. apply (G 0%nat ([], [])); [| done].
  split; [done |]. split; apply prefix_nil.
Qed.

Lemma prefix_grows (x y : bytes) : x `prefix_of` y -> x <> y -> exists b, x ++ [b] `prefix_of` y.
Proof.
  intros [[|b k] ->] Hn; [by rewrite app_nil_r in Hn |].
  exists b, k. by rewrite <-app_assoc.
Qed.

(** A session that cannot go on is complete. *)
Lemma net_progress n p q :
  nsteps net_step n ([], []) (p, q) ->
  (exists c, net_step (p, q) c) \/ p = puts l /\ q = gets_of l.
Proof.
  intros S. apply net_ok_reachable in S. destruct (net_ok_bounds _ _ S) as (P & Q & _).
  destruct S as (_ & Hp & Hq). cbn [fst snd] in *.
  rewrite <-m_sends in Hp by done. rewrite <-a_sends in Hq by done.
  destruct (decide (p = m q)) as [Ep|Np].
  2: { left. destruct (prefix_grows _ _ Hp Np) as [b Hb]. eexists. by apply ToApprentice. }
  destruct (decide (q = a p)) as [Eq|Nq].
  2: { left. destruct (prefix_grows _ _ Hq Nq) as [b Hb]. eexists. by apply ToMaster. }
  right. rewrite m_sends in Ep by done. rewrite a_sends in Eq by done. by apply dual_progress.
Qed.
End network.

Lemma net_step_ext m m' a a' n c c' :
  (forall q, m q = m' q) -> (forall p, a p = a' p) ->
  nsteps (net_step m a) n c c' -> nsteps (net_step m' a') n c c'.
Proof.
  intros Em Ea. apply (nsteps_congruence id). intros x y [p q b S|p q b S]; constructor;
    by rewrite <-?Em, <-?Ea.
Qed.

(** Bytes that have arrived on a fresh connection, in chunks as [deliver] has
    it. *)
Definition socket (deliver : bytes -> list rd_event) (bs : bytes) : os :=
  Os (deliver bs) [] 0 [].

Definition delivers (deliver : bytes -> list rd_event) : Prop :=
  forall bs, Forall is_chunk (deliver bs) /\ rx_bytes (deliver bs) = bs.

Section programs.
Context `{Build} `{ArchLaws} `{ZlibLaws}.

Definition sent (r : (Z + halt) * risu) : bytes := tx (io (snd r)).

(** What a program that holds a conversation has sent. *)
Lemma performs_sent (m : M risu Z) u g l r w1 deliver bs :
  performs m (risu_start u (socket deliver []) g) l r w1 -> delivers deliver ->
  bs `prefix_of` gets_of l ->
  sent (m (risu_start u (socket deliver bs) g)) = puts_before l (length bs) /\
  (bs = gets_of l -> exists s, m (risu_start u (socket deliver bs) g) = (inl r, set_io s w1)).
Proof.
  intros P D [more E]. destruct (D bs) as [D1 D2].
  destruct (P (socket deliver bs)) as [P1 P2]; [done |].
  change (set_io (socket deliver bs) (risu_start u (socket deliver []) g))
    with (risu_start u (socket deliver bs) g) in P1, P2.
  destruct (decide (more = [])) as [->|Hm].
  - rewrite app_nil_r in E. destruct (P1 []) as (s & R & _ & _ & T); [simpl; by rewrite D2, app_nil_r |].
    split; [| intros _; by exists s]. rewrite R. unfold sent. simpl. rewrite T. simpl.
    rewrite puts_before_all; [done | by rewrite E].
  - destruct (P2 bs more E Hm D2) as (w' & R & T). split.
    + unfold sent. by rewrite R.
    + intros Eb. rewrite <-Eb in E. destruct Hm. apply (app_inv_head bs). by rewrite app_nil_r.
Qed.

(** What [l] lets a program send and return, by what it has received. *)
Definition speaks (m : bytes -> (Z + halt) * risu) (l : conversation) (w : risu) : Prop :=
  forall bs, bs `prefix_of` gets_of l ->
    sent (m bs) = puts_before l (length bs) /\
    (bs = gets_of l -> exists s, m bs = (inl EXIT_SUCCESS, set_io s w)).

Lemma speaks_sends m a l wm wa :
  speaks m l wm -> speaks a (dual l) wa ->
  (forall q, q `prefix_of` gets_of l -> sent (m q) = puts_before l (length q)) /\
  (forall p, p `prefix_of` puts l -> sent (a p) = puts_before (dual l) (length p)).
Proof.
  intros Sm Sa. split; intros bs Hb; [by apply Sm |]. apply Sa. by rewrite gets_dual.
Qed.

(** A session of two such programs. *)
Lemma speaks_complete m a l wm wa :
  speaks m l wm -> speaks a (dual l) wa ->
  forall n p q, nsteps (net_step (sent ∘ m) (sent ∘ a)) n ([], []) (p, q) ->
    (n <= length (puts l) + length (gets_of l))%nat /\
    ((exists c, net_step (sent ∘ m) (sent ∘ a) (p, q) c) \/
     exists sm sa, m q = (inl EXIT_SUCCESS, set_io sm wm) /\ a p = (inl EXIT_SUCCESS, set_io sa wa) /\
       p = tx sm /\ q = tx sa).
Proof.
  intros Sm Sa n p q S. destruct (speaks_sends _ _ _ _ _ Sm Sa) as [Hm Ha].
  pose proof (net_ok_reachable (sent ∘ m) (sent ∘ a) l Hm Ha n (p, q) S) as Ok.
  split; [by apply (net_ok_bounds l _ _ Ok) |].
  destruct (net_progress (sent ∘ m) (sent ∘ a) l Hm Ha n p q S) as [Hstep|[Ep Eq]]; [by left | right].
  destruct (Sm q) as [Tm Rm]; [by rewrite Eq |]. destruct (Sa p) as [Ta Ra]; [by rewrite gets_dual, Ep |].
  destruct (Rm Eq) as [sm Em]. destruct (Ra (eq_trans Ep (eq_sym (gets_dual l)))) as [sa Ea].
  exists sm, sa. split; [exact Em |]. split; [exact Ea |].
  rewrite Em in Tm. rewrite Ea in Ta. unfold sent in Tm, Ta. cbn in Tm, Ta.
  rewrite Tm, Ta, !puts_before_all, puts_dual by (by rewrite ?gets_dual, ?Ep, ?Eq). done.
Qed.

(** Both programs by what they receive, on fresh connections. *)
Lemma session_speaks (ct cm ca : settings) cpu fuel u st gt gm ga wt dm da :
  trace ct = true -> trace cm = false -> trace ca = false ->
  opts cm = opts ct -> opts ca = opts ct -> img cm = img ct -> img ca = img ct ->
  header_swaps = false -> uctx_wf u ->
  (forall v sig si v', uctx_wf v -> cpu v = Some (sig, si, v') -> uctx_wf v') ->
  writable ct (risu_start u st gt) ->
  memblock_set ct cpu fuel (announced ct (risu_start u st gt)) = true ->
  master ct cpu fuel (risu_start u st gt) = (inl EXIT_SUCCESS, wt) ->
  delivers dm -> delivers da ->
  exists l wm wa, exchanges packet_limit l /\
    speaks (fun q => master cm cpu fuel (risu_start u (socket dm q) gm)) l wm /\
    speaks (fun p => apprentice ca cpu fuel (risu_start u (socket da p) ga)) (dual l) wa /\
    signal_count wm = signal_count wt /\ signal_count wa = signal_count wt /\
    illegal_instructions wm = illegal_instructions wt /\
    illegal_instructions wa = illegal_instructions wt /\
    err wm = err wt /\ err wa = err wt.
Proof.
  intros Htt Htm Hta Hom Hoa Him Hia Hs Hu Hc W N E Dm Da.
  destruct (converse_programs ct cm ca Htt Htm Hta Hom Hoa Him Hia Hs cpu Hc fuel u st gt gm ga wt
    Hu W N E) as (l & wm & wa & X & P).
  destruct (P (socket dm []) (socket da [])) as (Pm & Pa & C). exists l, wm, wa.
  split; [exact X |]. split; [| split; [| exact C]]; intros bs Hb;
    [by apply (performs_sent _ u gm l _ wm dm bs Pm Dm) | by apply (performs_sent _ u ga (dual l) _ wa da bs Pa Da)].
Qed.
End programs.

(** ** Properties *)

(** C2: over a socket a test completes.  Take an image that a recording master
    runs to its end.  Then a master and an apprentice that run it over a socket,
    with the same options, complete the test under every schedule of the
    network, whatever the sizes of the chunks in which bytes arrive: as long as
    one of them waits some byte is still on its way, after a bounded number of
    deliveries nothing is, and then both have exited with EXIT_SUCCESS, printed
    the text and counted the checkpoints and illegal instructions that the
    recording master did, and received all that the other side sent. *)
Theorem session_completes `{Build} `{ArchLaws} `{ZlibLaws} (ct cm ca : settings)
    (cpu : uctx -> option (signal * Z * uctx)) fuel u st gt gm ga wt dm da :
  trace ct = true -> trace cm = false -> trace ca = false ->
  opts cm = opts ct -> opts ca = opts ct -> img cm = img ct -> img ca = img ct ->
  header_swaps = false -> uctx_wf u ->
  (forall v sig si v', uctx_wf v -> cpu v = Some (sig, si, v') -> uctx_wf v') ->
  writable ct (risu_start u st gt) ->
  memblock_set ct cpu fuel (announced ct (risu_start u st gt)) = true ->
  master ct cpu fuel (risu_start u st gt) = (inl EXIT_SUCCESS, wt) ->
  delivers dm -> delivers da ->
  let m q := master cm cpu fuel (risu_start u (socket dm q) gm) in
  let a p := apprentice ca cpu fuel (risu_start u (socket da p) ga) in
  exists bound, forall n p q, nsteps (net_step (sent ∘ m) (sent ∘ a)) n ([], []) (p, q) ->
    (n <= bound)%nat /\
    ((exists c, net_step (sent ∘ m) (sent ∘ a) (p, q) c) \/
     exists wm wa, m q = (inl EXIT_SUCCESS, wm) /\ a p = (inl EXIT_SUCCESS, wa) /\
       p = tx (io wm) /\ q = tx (io wa) /\
       signal_count wm = signal_count wt /\ signal_count wa = signal_count wt /\
       illegal_instructions wm = illegal_instructions wt /\
       illegal_instructions wa = illegal_instructions wt /\
       err wm = err wt /\ err wa = err wt).
Proof.
  intros Htt Htm Hta Hom Hoa Him Hia Hs Hu Hc W N E Dm Da m a.
  destruct (session_speaks ct cm ca cpu fuel u st gt gm ga wt dm da)
    as (l & wm & wa & _ & Sm & Sa & C); try done.
  fold m in Sm. fold a in Sa. exists (length (puts l) + length (gets_of l))%nat. intros n p q S.
  destruct (speaks_complete m a l wm wa Sm Sa n p q S) as [B [F|(sm & sa & Em & Ea & Tm & Ta)]];
    (split; [exact B |]); [by left | right].
  by exists (set_io sm wm), (set_io sa wa).
Qed.

(** C28: at any moment of a session at most one packet is under way.  The master
    waits for an answer after each packet, and the apprentice answers with one
    byte, so whatever the schedule, bytes are under way in one direction only:
    the rest of one packet to the apprentice, at most the length and the larger
    of a register structure and a block of memory, or one byte to the master.
    Sockets that hold one packet take every write whole. *)
Theorem one_packet_under_way `{Build} `{ArchLaws} `{ZlibLaws} (ct cm ca : settings)
    (cpu : uctx -> option (signal * Z * uctx)) fuel u st gt gm ga wt dm da :
  trace ct = true -> trace cm = false -> trace ca = false ->
  opts cm = opts ct -> opts ca = opts ct -> img cm = img ct -> img ca = img ct ->
  header_swaps = false -> uctx_wf u ->
  (forall v sig si v', uctx_wf v -> cpu v = Some (sig, si, v') -> uctx_wf v') ->
  writable ct (risu_start u st gt) ->
  memblock_set ct cpu fuel (announced ct (risu_start u st gt)) = true ->
  master ct cpu fuel (risu_start u st gt) = (inl EXIT_SUCCESS, wt) ->
  delivers dm -> delivers da ->
  let m q := master cm cpu fuel (risu_start u (socket dm q) gm) in
  let a p := apprentice ca cpu fuel (risu_start u (socket da p) ga) in
  forall n p q, nsteps (net_step (sent ∘ m) (sent ∘ a)) n ([], []) (p, q) ->
    p `prefix_of` sent (m q) /\ q `prefix_of` sent (a p) /\
    (q = sent (a p) /\ (length (sent (m q)) <= length p + packet_limit)%nat \/
     p = sent (m q) /\ (length (sent (a p)) <= length q + 1)%nat).
Proof.
  intros Htt Htm Hta Hom Hoa Him Hia Hs Hu Hc W N E Dm Da m a n p q S.
  destruct (session_speaks ct cm ca cpu fuel u st gt gm ga wt dm da)
    as (l & wm & wa & X & Sm & Sa & _); try done.
  fold m in Sm. fold a in Sa. destruct (speaks_sends _ _ _ _ _ Sm Sa) as [Hm Ha].
  pose proof (net_ok_reachable (sent ∘ m) (sent ∘ a) l Hm Ha n (p, q) S) as Ok.
  destruct (net_ok_bounds l _ _ Ok) as (P & Q & _). destruct Ok as (_ & Hp & Hq). cbn [fst snd] in *.
  rewrite (Hm q Q), (Ha p P). destruct (exchanges_bound _ l p q X Hp Hq) as [B1 B2].
  destruct (dual_one_way l p q Hp Hq) as [D|D]; auto.
Qed.

(** C32: over a socket the master does not learn what the apprentice found.
    Whatever message the master sends at a checkpoint (a register file, a memory
    block, or an operation without payload), if the comparison at the apprentice
    returns anything but RES_OK (a mismatch of registers or of memory, a different
    operation, the end of the test), the conversations fit together: the
    apprentice stops with its result, and the master stops with RES_END, for
    which it reports success.  If the apprentice refuses a header it does so
    without reading on, and whoever has sent it gets the same answer. *)
Theorem mismatch_ends_master `{Build} `{ArchLaws} `{ZlibLaws} (cm ca : settings) sia ra ua wa :
  trace cm = false -> trace ca = false -> header_swaps = false ->
  captures ca sia (tick wa) ra ua -> skipped ra wa = false ->
  Z.of_nat (length (other_memblock wa)) = MEMBLOCKLEN ->
  (forall si r u wm sz extra w2 res wa',
    captures cm si (tick wm) r u -> skipped r wm = false ->
    prepare_payload (get_risuop r) (master_at r u (tick wm)) = (inl (sz, extra), w2) ->
    (get_risuop r = OP_COMPAREMEM -> memblock wm <> None) ->
    compare_op ca (get_risuop ra) sia (arrived u r sz extra (apprentice_at ra ua (tick wa)))
      = (inl res, wa') ->
    res <> RES_OK ->
    exists l wm1 wa1,
      performs (master_sigill cm SIGILL si) wm l (Some RES_END) wm1 /\
      performs (apprentice_sigill ca SIGILL sia) wa (dual l) (Some res) wa1 /\
      fst (master_result cm RES_END wm1) = inl EXIT_SUCCESS) /\
  (forall h extra wm, let h' := header_arch_to_host (header_dec (header_enc h)) in
    header_check h' <> RES_OK ->
    let l := [Put (packet (header_enc h)); Get [1]] in
    performs (send_message cm h extra) wm l RES_END wm /\
    exists wa1, performs (apprentice_sigill ca SIGILL sia) wa (dual l) (Some (header_check h')) wa1).
Proof.
  intros Htm Hta Hs Ca Ka Lo.
  assert (forall l res w1, res <> RES_OK ->
    performs (recv_and_compare_register_info ca sia) (tick wa) l res w1 ->
    exists w2, performs (apprentice_sigill ca SIGILL sia) wa l (Some res) w2) as Fin.
  { intros l res w1 Hn P. exists (set_signal_pc (get_uc_pc (uc w1) sia) w1). unfold apprentice_sigill.
    apply (performs_step _ _ _ () (tick wa)); [done |]. rewrite <-(app_nil_r l).
    eapply performs_bind; [exact P |]. apply performs_free; [apply io_free_finish |].
    destruct res; try done; reflexivity. }
  assert (other_memblock (apprentice_at ra ua (tick wa)) = other_memblock wa) as Ea
    by (unfold apprentice_at, counted; by case_if).
  split.
  - intros si r u wm sz extra w2 res wa' Cm Km Ep Hx E Hne.
    assert (reginfo_wf r) as Hr by (by eapply reginfo_init_wf).
    assert (ri_master (master_at r u (tick wm)) = r /\ memblock (master_at r u (tick wm)) = memblock wm)
      as [Em Eb] by (unfold master_at, counted; by case_if).
    assert (get_risuop r = OP_COMPAREMEM -> extra <> None) as Hx'.
    { intros Op. specialize (Hx Op). rewrite <-Eb in Hx. rewrite Op in Ep. unfold prepare_payload in Ep.
      munfold. destruct (memblock (master_at r u (tick wm))); [| done]. destruct (mem_at _ _ _); congruence. }
    pose proof (performs_recv_message ca Hta u r _ sz extra w2 (apprentice_at ra ua (tick wa))
      Hr Em Ep Hx' ltac:(by rewrite Ea)) as P.
    pose proof (performs_compare ca Hta sia (tick wa) ra ua _ _ res wa' Ca Ka P E) as Pa.
    rewrite bool_decide_false, hears_talk in Pa by done. destruct (Fin _ _ _ Hne Pa) as (wa1 & Pf).
    pose proof (performs_send_refused cm Htm si (tick wm) r u sz extra w2 1 Hs Cm Km Ep Hx' ltac:(done)) as Pm.
    set (l := talk (message_header u r sz) extra 1) in *. exists l. eexists _, wa1. split_and!; [| exact Pf |].
    + unfold master_sigill. apply (performs_step _ _ _ () (tick wm)); [done |].
      rewrite <-(app_nil_r l). eapply performs_bind; [exact Pm |].
      apply performs_free; [apply io_free_finish | reflexivity].
    + unfold master_result, fprintf, print_stats, close_comm. rewrite Htm. by destruct (have_zlib cm).
  - intros h extra wm h' Hc l. pose proof header_sizeof_small. split.
    + pose proof (performs_write cm Htm (header_enc h) header_sizeof wm 1) as P.
      rewrite take_ge in P by (rewrite header_enc_length; lia).
      unfold send_message. rewrite <-(app_nil_r l).
      eapply performs_bind; [apply P; [rewrite header_enc_length |]; lia |].
      change (RisuResult_of_Z 1) with RES_END. rewrite bool_decide_false by congruence. apply performs_ret.
    + apply (Fin _ _ (set_header h' (apprentice_at ra ua (tick wa))) Hc).
      apply (performs_compare_refused ca Hta sia (tick wa) ra ua [Get (packet (header_enc h))]); try done.
      apply performs_recv_refused; [done | rewrite header_enc_length; lia | done].
Qed.
