(* ===== verification/Strtol.v ===== *)
(** * Numbers on the command line

    [strtol], [strtoul] and [strtoull] of the C library, with the bases the
    program asks for, and the other direction: writing a number in hexadecimal. *)

From Stdlib Require Import Ascii.
From S2P Require Import Prelude Getopt GetoptSpec.

(** ** Reading *)

(** [isspace] in the C locale. *)
Definition isspace (c : ascii) : bool :=
  let n := nat_of_ascii c in (n =? 32)%nat || ((9 <=? n)%nat && (n <=? 13)%nat).

Definition digit (base : Z) (c : ascii) : option Z :=
  let n := Z.of_nat (nat_of_ascii c) in
  let d := if (48 <=? n) && (n <=? 57) then n - 48
           else if (97 <=? n) && (n <=? 122) then n - 87
           else if (65 <=? n) && (n <=? 90) then n - 55 else 255 in
  if d <? base then Some d else None.

Fixpoint skip_space (s : string) : string :=
  match s with
  | EmptyString => EmptyString
  | String c t => if isspace c then skip_space t else s
  end.

Fixpoint digits (base acc : Z) (s : string) : Z :=
  match s with
  | EmptyString => acc
  | String c t =>
      match digit base c with
      | Some d => digits base (acc * base + d) t
      | None => acc
      end
  end.

Definition sign_of (s : string) : bool * string :=
  if char_is "-" s then (true, advance 1 s)
  else if char_is "+" s then (false, advance 1 s) else (false, s).

(** A digit comes first. *)
Definition has_digit (base : Z) (s : string) : bool :=
  match s with
  | EmptyString => false
  | String c _ => bool_decide (digit base c <> None)
  end.

(** [0x] before a hexadecimal digit. *)
Definition has_0x (s : string) : bool :=
  char_is "0" s && (char_is "x" (advance 1 s) || char_is "X" (advance 1 s)) &&
  has_digit 16 (advance 2 s).

Definition skip_0x (s : string) : string := if has_0x s then advance 2 s else s.

(** [strtol(s, 0, 10)] for a [long] of [w] bits: out of range saturates. *)
Definition strtol10 (w : Z) (s : string) : Z :=
  let '(neg, t) := sign_of (skip_space s) in
  let v := digits 10 0 t in
  Z.max (- 2 ^ (w - 1)) (Z.min (2 ^ (w - 1) - 1) (if neg then - v else v)).

(** [strtoul(s, 0, 16)] for an [unsigned long] of [w] bits: out of range
    saturates, and a minus sign negates the result. *)
Definition strtoul16 (w : Z) (s : string) : Z :=
  let '(neg, t) := sign_of (skip_space s) in
  let v := digits 16 0 (skip_0x t) in
  if 2 ^ w <=? v then 2 ^ w - 1 else wrap w (if neg then - v else v).

(** What follows the digits. *)
Fixpoint digits_end (base : Z) (s : string) : string :=
  match s with
  | EmptyString => EmptyString
  | String c t => if digit base c is Some _ then digits_end base t else s
  end.

(** Base 0: a prefix says which base it is. *)
Definition base_of (s : string) : Z :=
  if has_0x s then 16 else if char_is "0" s then 8 else 10.

(** [strtoull(s, &end, 0)] for 64 bits: the number, and what follows it.  Without
    a digit nothing is consumed. *)
Definition strtoull0 (s : string) : Z * string :=
  let '(neg, t) := sign_of (skip_space s) in
  let base := base_of t in
  let u := skip_0x t in
  let v := digits base 0 u in
  (if 2 ^ 64 <=? v then 2 ^ 64 - 1 else wrap 64 (if neg then - v else v),
   if has_digit base u then digits_end base u else s).

(** ** Writing a number *)

Definition hex_digit (d : Z) : ascii :=
  ascii_of_nat (Z.to_nat (if d <? 10 then 48 + d else 87 + d)).

(** [n] hexadecimal digits *)
Fixpoint hex (n : nat) (v : Z) (tail : string) : string :=
  match n with
  | O => tail
  | S k => hex k (v / 16) (String (hex_digit (v mod 16)) tail)
  end.

Lemma digit_hex_digit d : 0 <= d < 16 -> digit 16 (hex_digit d) = Some d.
Proof.
  intros Hd. assert (Forall (fun d => digit 16 (hex_digit d) = Some d) (seqZ 0 16)) as F.
  { vm_compute. repeat constructor. }
  rewrite Forall_forall in F. apply F. apply elem_of_seqZ. lia.
Qed.

Lemma digits_app_hex n v acc tail :
  0 <= v -> digits 16 acc (hex n v tail) = digits 16 (acc * 16 ^ Z.of_nat n + v mod 16 ^ Z.of_nat n) tail.
Proof.
  revert v tail. induction n as [|n IH]; intros v tail Hv; cbn [hex].
  - f_equal. rewrite Z.mod_1_r. lia.
  - rewrite IH by (apply Z.div_pos; lia). cbn [digits].
    rewrite digit_hex_digit by (apply Z.mod_pos_bound; lia).
    f_equal. rewrite Nat2Z.inj_succ, Z.pow_succ_r, (Z.rem_mul_r v 16) by lia. lia.
Qed.

(** A string of hexadecimal digits. *)
Fixpoint all_hex (s : string) : Prop :=
  match s with
  | EmptyString => True
  | String c t => (exists d, 0 <= d < 16 /\ c = hex_digit d) /\ all_hex t
  end.

Lemma hex_all n v tail : all_hex tail -> all_hex (hex n v tail).
Proof.
  revert v tail. induction n as [|n IH]; intros v tail Ht; [done |]. cbn [hex]. apply IH.
  split; [| done]. exists (v mod 16). split; [apply Z.mod_pos_bound; lia | done].
Qed.

(** A hexadecimal digit is no space, no sign and no [x]. *)
Lemma hex_digit_plain d : 0 <= d < 16 ->
  isspace (hex_digit d) = false /\ Ascii.eqb (hex_digit d) "-" = false /\
  Ascii.eqb (hex_digit d) "+" = false /\ Ascii.eqb (hex_digit d) "x" = false /\
  Ascii.eqb (hex_digit d) "X" = false.
Proof.
  intros Hd. assert (Forall (fun d => isspace (hex_digit d) = false /\
    Ascii.eqb (hex_digit d) "-" = false /\ Ascii.eqb (hex_digit d) "+" = false /\
    Ascii.eqb (hex_digit d) "x" = false /\ Ascii.eqb (hex_digit d) "X" = false) (seqZ 0 16)) as F.
  { vm_compute. repeat constructor. }
  rewrite Forall_forall in F. apply F. apply elem_of_seqZ. lia.
Qed.

Lemma strtoul16_plain w s :
  all_hex s -> strtoul16 w s =
  if 2 ^ w <=? digits 16 0 s then 2 ^ w - 1 else wrap w (digits 16 0 s).
Proof.
  intros Hs. unfold strtoul16. assert (skip_space s = s /\ sign_of s = (false, s)) as [-> ->].
  { destruct s as [|c t]; [done |]. destruct Hs as [(d & Hd & ->) _].
    destruct (hex_digit_plain d Hd) as (E1 & E2 & E3 & _).
    unfold sign_of. cbn [skip_space char_is]. by rewrite E1, E2, E3. }
  assert (skip_0x s = s) as ->; [| done].
  unfold skip_0x, has_0x. destruct s as [|c [|c' t]]; [done | |].
  - cbn. by rewrite andb_false_r.
  - destruct Hs as (_ & (d & Hd & ->) & _). destruct (hex_digit_plain d Hd) as (_ & _ & _ & E4 & E5).
    cbn [advance char_is]. by rewrite E4, E5, andb_false_r.
Qed.

Lemma no_nul_app s t : no_nul s -> no_nul t -> no_nul (s +:+ t).
Proof. induction s as [|c s IH]; [done |]. intros [Hc Hs] Ht. split; [done | by apply IH]. Qed.

Lemma all_hex_no_nul s : all_hex s -> no_nul s.
Proof.
  induction s as [|c s IH]; [done |]. intros [(d & Hd & ->) Hs]. split; [| by apply IH].
  assert (Forall (fun d => first_byte (String (hex_digit d) EmptyString) <> 0) (seqZ 0 16)) as F.
  { vm_compute. repeat constructor; congruence. }
  rewrite Forall_forall in F. apply (F d). apply elem_of_seqZ. lia.
Qed.

(** ** Reading it back *)

Lemma has_digit_false base s : has_digit base s = false -> digits_end base s = s /\ forall acc, digits base acc s = acc.
Proof.
  destruct s as [|c t]; [done |]. cbn [has_digit digits_end digits]. intros E.
  apply bool_decide_eq_false in E. destruct (digit base c); [by destruct E | done].
Qed.

Lemma digits_end_hex n v tail :
  0 <= v -> digits_end 16 (hex n v tail) = digits_end 16 tail.
Proof.
  revert v tail. induction n as [|n IH]; intros v tail Hv; cbn [hex]; [done |].
  rewrite IH by (apply Z.div_pos; lia). cbn [digits_end].
  by rewrite digit_hex_digit by (apply Z.mod_pos_bound; lia).
Qed.

Lemma hex_has_digit n v tail : 0 <= v -> has_digit 16 (hex (S n) v tail) = true.
Proof.
  revert v tail. induction n as [|n IH]; intros v tail Hv.
  - cbn [hex has_digit]. rewrite digit_hex_digit by (apply Z.mod_pos_bound; lia). done.
  - change (hex (S (S n)) v tail) with (hex (S n) (v / 16) (String (hex_digit (v mod 16)) tail)).
    apply IH, Z.div_pos; lia.
Qed.

(** A number written in hexadecimal, and what follows it. *)
Lemma strtoull0_hex v tail :
  in_width 64 v -> has_digit 16 tail = false -> strtoull0 ("0x" +:+ hex 16 v tail) = (v, tail).
Proof.
  intros Hv Ht. unfold in_width in Hv. unfold strtoull0.
  change (skip_space ("0x" +:+ hex 16 v tail)) with ("0x" +:+ hex 16 v tail).
  change (sign_of ("0x" +:+ hex 16 v tail)) with (false, "0x" +:+ hex 16 v tail).
  assert (has_0x ("0x" +:+ hex 16 v tail) = true) as Hx.
  { unfold has_0x. change (advance 2 ("0x" +:+ hex 16 v tail)) with (hex 16 v tail).
    rewrite hex_has_digit by lia. reflexivity. }
  unfold base_of, skip_0x. rewrite Hx. change (advance 2 ("0x" +:+ hex 16 v tail)) with (hex 16 v tail).
  rewrite hex_has_digit, digits_end_hex, digits_app_hex by lia.
  destruct (has_digit_false 16 tail Ht) as [-> ->].
  change (16 ^ Z.of_nat 16) with (2 ^ 64). rewrite Z.mod_small, Z.mul_0_l, Z.add_0_l by done.
  destruct (Z.leb_spec (2 ^ 64) v); [lia |]. by rewrite wrap_small.
Qed.
