(* ===== verification/RisuMain.v ===== *)
(** * The program (risu_main in risu.c, connecting in comms.c)

    [risu_main] reads the options, opens the trace file or connects, maps the
    image and runs the master or the apprentice.  What the system calls that it
    makes for this purpose return is the record [host].  The option scanner is
    [getopt_long] of [Getopt]; master and apprentice are those of [Risu].  The
    architecture's part of the command line is the class [ArchMain].

    The theorems: the loop over the options does what the options say in the
    order in which they are given ([configure]), and its assertion cannot fail;
    elements that are no options are ignored; a recording that one command makes
    another command accepts. *)

From Stdlib Require Import Ascii.
From stdpp Require Import gmap.
From S2P Require Import Prelude Endian Comms Arch Header Risu Verdict Trace Getopt GetoptSpec Strtol.

(** ** The architecture's part *)

(** The functions see the architecture's options and stderr.  An option of the
    table may set a flag instead of being processed; [arch_flags] takes over the
    flags that were set. *)
Class ArchMain `{Arch} := {
  arch_long_opts : option (list option_t);    (* None: a null pointer *)
  arch_extra_help : option string;
  arch_process_opt : Z -> option string -> M (aopts * text) ();   (* process_arch_opt *)
  arch_flags : gmap string Z -> aopts -> aopts;
  arch_init : M (aopts * text) ()
}.

(** [fprintf(stderr, ...); exit(EXIT_FAILURE)] in these functions. *)
Definition arch_fail {O A} (fmt : string) (args : list arg) : M (O * text) A :=
  _ ← modify (fun p : O * text => (fst p, snd p ++ [(fmt, args)])); stop (HExit EXIT_FAILURE).

(** One that writes nothing. *)
Definition quiet_opts {O A} (m : M O A) : M (O * text) A := zoom fst (fun o p => (o, snd p)) m.

(** ** The system *)

(** What its calls return, and the two macros that say which system it is. *)
Record host `{Zlib} : Type := Host {
  h_socket : bool;                              (* socket succeeds *)
  h_setsockopt : bool;
  h_bind : Z -> bool;
  h_listen : bool;
  h_accept : Z -> option os;                    (* the connection *)
  h_gethostbyname : string -> option Z;
  h_connect : Z -> Z -> option os;              (* address, port *)
  h_open_trace : bool -> string -> option os;   (* for writing?, name *)
  h_stdio : bool -> os;                         (* stdout?, else stdin *)
  h_gzdopen : bool -> string -> gzfile;
  h_open_image : string -> bool;
  h_fstat : string -> option Z;                 (* the size *)
  h_mmap : string -> Z;                         (* the address, or MAP_FAILED *)
  h_malloc : bool;
  h_sigaltstack : bool;
  h_sigaction : signal -> bool;
  h_macos9 : bool;                              (* RISU_MACOS9 *)
  h_no_signal : bool                            (* NO_SIGNAL *)
}.

Section main.
Context `{Build} `{ArchMain} `{Zlib} `{CharSign}.

(** The variables of [risu_main], what was written to stderr, and the static
    variables that outlive a call: the image (at address 0 if there is none), and
    those of the protocol, as an earlier call has left them. *)
Record config : Type := Config {
  cf_trace : bool;
  cf_port : Z;
  cf_hostname : option string;
  cf_trace_fn : option string;
  cf_opts : aopts;
  cf_err : text;
  cf_image : image;
  cf_statics : option risu
}.

Definition set_cf_trace v c := Config v (cf_port c) (cf_hostname c) (cf_trace_fn c) (cf_opts c) (cf_err c) (cf_image c) (cf_statics c).
Definition set_cf_port v c := Config (cf_trace c) v (cf_hostname c) (cf_trace_fn c) (cf_opts c) (cf_err c) (cf_image c) (cf_statics c).
Definition set_cf_hostname v c := Config (cf_trace c) (cf_port c) v (cf_trace_fn c) (cf_opts c) (cf_err c) (cf_image c) (cf_statics c).
Definition set_cf_trace_fn v c := Config (cf_trace c) (cf_port c) (cf_hostname c) v (cf_opts c) (cf_err c) (cf_image c) (cf_statics c).
Definition set_cf_opts v c := Config (cf_trace c) (cf_port c) (cf_hostname c) (cf_trace_fn c) v (cf_err c) (cf_image c) (cf_statics c).
Definition set_cf_err v c := Config (cf_trace c) (cf_port c) (cf_hostname c) (cf_trace_fn c) (cf_opts c) v (cf_image c) (cf_statics c).
Definition set_cf_image v c := Config (cf_trace c) (cf_port c) (cf_hostname c) (cf_trace_fn c) (cf_opts c) (cf_err c) v (cf_statics c).
Definition set_cf_statics v c := Config (cf_trace c) (cf_port c) (cf_hostname c) (cf_trace_fn c) (cf_opts c) (cf_err c) (cf_image c) v.

Definition print (fmt : string) (args : list arg) : M config () :=
  modify (fun c => set_cf_err (cf_err c ++ [(fmt, args)]) c).

Definition perror (s : string) : M config () := print "%s: %m\n" [AStr s].

(** [exit(EXIT_FAILURE)] *)
Definition fail {A} : M config A := stop (HExit EXIT_FAILURE).

(** A function of the architecture. *)
Definition on_arch {A} (m : M (aopts * text) A) : M config A :=
  zoom (fun c => (cf_opts c, cf_err c)) (fun p c => set_cf_err (snd p) (set_cf_opts (fst p) c)) m.

(** The architecture's flags, which the scanner has set. *)
Definition take_flags (vs : gmap string Z) : M config () :=
  modify (fun c => set_cf_opts (arch_flags vs (cf_opts c)) c).

(** [if (!ok) { perror(s); exit(EXIT_FAILURE); }] *)
Definition need (ok : bool) (s : string) : M config () :=
  if ok then mret () else _ ← perror s; fail.

Section run.
Variable h : host.
Variable zlib : bool.   (* HAVE_ZLIB *)
Variable long_bits : Z. (* the width of long *)

(** ** Connecting (comms.c) *)

(** [htons(port)] keeps 16 bits. *)
Definition apprentice_connect (hostname : string) (port : Z) : M config os :=
  _ ← need (h_socket h) "socket";
  match h_gethostbyname h hostname with
  | None => _ ← print "Unknown host %s\n" [AStr hostname]; fail
  | Some addr =>
      match h_connect h addr (u16 port) with
      | None => _ ← perror "connect"; fail
      | Some s => mret s
      end
  end.

Definition master_connect (port : Z) : M config os :=
  _ ← need (h_socket h) "socket";
  _ ← need (h_setsockopt h) "setsockopt(SO_REUSEADDR)";
  _ ← need (h_bind h (u16 port)) "bind";
  _ ← need (h_listen h) "listen";
  _ ← print "master: waiting for connection on port %d...\n" [AInt port];
  match h_accept h (u16 port) with
  | None => _ ← perror "accept"; fail
  | Some s => mret s
  end.

(** ** The image *)

(** [load_image]: the address that [mmap] returns is tested against null only.
    [h_mmap] is also what [malloc] returns where the image is read instead. *)
Definition load_image (imgfile : string) : M config image :=
  _ ← print "loading test image %s...\n" [AStr imgfile];
  if negb (h_open_image h imgfile) then
    _ ← print "failed to open image file %s\n" [AStr imgfile]; fail
  else
    match h_fstat h imgfile with
    | None => _ ← perror "fstat"; fail
    | Some size =>
        _ ← need (negb (h_mmap h imgfile =? 0)) (if h_macos9 h then "malloc" else "mmap");
        let im := Image (h_mmap h imgfile) size in
        _ ← modify (set_cf_image im);
        mret im
    end.

(** [image_size] is left as it is. *)
Definition unload_image : M config () :=
  modify (fun c => set_cf_image (Image 0 (image_size (cf_image c))) c).

(** ** Signals *)

(** Where there are no signals the handler is stored in a variable. *)
Definition set_sigill_handler : M config () :=
  if h_no_signal h then mret ()
  else _ ← need (h_sigaction h SIGILL) "sigaction"; need (h_sigaction h SIGBUS) "sigaction".

(** ** Options *)

Definition usage : M config () :=
  _ ← print "Usage: risu [--master] [--host <ip>] [--port <port>] <image file>\n\n" [];
  _ ← print "Run through the pattern file verifying each instruction\n" [];
  _ ← print "between master and apprentice risu processes.\n\n" [];
  _ ← print "Options:\n" [];
  _ ← print "  --master          Be the master (server)\n" [];
  _ ← print (if zlib then "  -t, --trace=FILE  Record/playback compressed trace file\n"
             else "  -t, --trace=FILE  Record/playback uncompressed trace file\n") [];
  _ ← print "  -h, --host=HOST   Specify master host machine (apprentice only)\n" [];
  _ ← print "  -p, --port=PORT   Specify the port to connect to/listen on (default 9191)\n" [];
  match arch_extra_help with
  | Some t => print "%s" [AStr t]
  | None => mret ()
  end.

Definition default_longopts : list option_t :=
  [ Option "help" no_argument None (Z.of_nat (nat_of_ascii "?"));
    Option "master" no_argument (Some "ismaster"%string) 1;
    Option "host" required_argument None (Z.of_nat (nat_of_ascii "h"));
    Option "port" required_argument None (Z.of_nat (nat_of_ascii "p"));
    Option "trace" required_argument None (Z.of_nat (nat_of_ascii "t")) ].

Definition short_opts : string := "h:p:t:".

(** The array ends at the entry without a name; the list has no such entry. *)
Definition setup_options : list option_t :=
  match arch_long_opts with
  | Some l => default_longopts ++ l
  | None => default_longopts
  end.

(** The [switch] in the loop over the options; [Some r]: [risu_main] returns
    [r]. *)
Definition option_step (c : Z) (optarg : option string) : M config (option Z) :=
  if c =? 0 then mret None
  else if c =? char_int "t" then
    _ ← modify (fun s => set_cf_trace true (set_cf_trace_fn optarg s)); mret None
  else if c =? char_int "h" then _ ← modify (set_cf_hostname optarg); mret None
  else if c =? char_int "p" then
    match optarg with
    | None => stop HUB
    | Some a => _ ← modify (set_cf_port (u16 (strtol10 long_bits a))); mret None
    end
  else if c =? char_int "?" then _ ← usage; mret (Some EXIT_FAILURE)
  else if c <? FIRST_ARCH_OPT then stop HAbort
  else _ ← on_arch (arch_process_opt c optarg); mret None.

(** The option variables of getopt, and those of [risu_main]. *)
Record main_state : Type := MainState { scan_st : getopt_state; conf : config }.

Definition on_scan {A} (m : M getopt_state A) : M main_state A :=
  zoom scan_st (fun g s => MainState g (conf s)) m.
Definition on_conf {A} (m : M config A) : M main_state A :=
  zoom conf (fun c s => MainState (scan_st s) c) m.

Variable posixly_correct : bool.

(** [for (;;)]; [fuel] bounds the number of calls of [getopt_long]. *)
Fixpoint options_loop (argc : nat) (fuel : nat) : M main_state (option Z) :=
  match fuel with
  | O => stop HFuel
  | S fuel' =>
      c ← on_scan (getopt_long posixly_correct argc short_opts setup_options);
      if c =? -1 then mret None
      else
        a ← gets (fun s => optarg (scan_st s));
        r ← on_conf (option_step c a);
        match r with
        | Some z => mret (Some z)
        | None => options_loop argc fuel'
        end
  end.

(** There are at most as many options as characters. *)
Definition opt_fuel (args : list string) : nat := S (sum_list_with my_strlen args).

(** ** risu_main *)

Definition ismaster (g : getopt_state) : bool :=
  truth (default 0 (variables g !! "ismaster"%string)).

(** [%s] in double quotes *)
Definition quoted_arg : string :=
  String (ascii_of_nat 34) ("%s" +:+ String (ascii_of_nat 34) EmptyString).

(** Open the trace file or connect: the descriptor, the compressed file and
    whether the descriptor is standard input or output. *)
Definition open_comm (master : bool) : M config (os * gzfile * bool) :=
  c ← gets id;
  let no_gz := h_gzdopen h master EmptyString in
  if cf_trace c then
    match cf_trace_fn c with
    | None => stop HUB
    | Some fn =>
        if my_strcmp fn "-" =? 0 then
          if h_macos9 h then
            _ ← print "trace file cannot be %s.\n" [AStr (if master then "stdout" else "stdin")];
            _ ← perror "trace"; fail
          else mret (h_stdio h master, no_gz, true)
        else
          match h_open_trace h master fn with
          | None =>
              _ ← print ("trace file " +:+ quoted_arg +:+ " cannot be opened\n") [AStr fn];
              _ ← perror "open"; fail
          | Some s => mret (s, if zlib then h_gzdopen h master fn else no_gz, false)
          end
    end
  else if h_macos9 h then
    _ ← print "trace file must be specified.\n" []; _ ← perror "trace"; fail
  else
    s ← (if master then
           _ ← print "master port %d\n" [AInt (cf_port c)]; master_connect (cf_port c)
         else
           match cf_hostname c with
           | None => stop HUB
           | Some hostname =>
               _ ← print "apprentice host %s port %d\n" [AStr hostname; AInt (cf_port c)];
               apprentice_connect hostname (cf_port c)
           end);
    mret (s, no_gz, false).

Variable cpu : uctx -> option (signal * Z * uctx).
Variable start : image -> uctx.      (* the context in which the image starts *)
Variable null_terminated : bool.     (* argv[argc] is a null pointer *)
Variable fuel : nat.                 (* the number of signals *)

(** The static variables of the protocol at the start of a test: a call of
    [risu_main] resets the counters and the phase, and nothing else. *)
Definition first_statics (o : option risu) (u : uctx) (s : os) (g : gzfile) : risu :=
  match o with
  | None => risu_start u s g
  | Some w =>
      Risu (ri_master w) (ri_apprentice w) (other_memblock w) (header w) (memblock w)
        (arch_memblock w) 0 0 (signal_pc w) false u s g true []
  end.

(** What is left after the program has run: the state of the process under test
    too, if the image was started. *)
Definition run_test (master_mode : bool) (comm : os * gzfile * bool) (im : image)
    : M config (Z * option risu) :=
  _ ← (if h_no_signal h then mret ()
       else _ ← need (h_malloc h) "malloc"; need (h_sigaltstack h) "sigaltstac");
  _ ← on_arch arch_init;
  c ← gets id;
  let '(s, g, std) := comm in
  let cfg := Settings _ (cf_trace c) std zlib (cf_opts c) im in
  let st := first_statics (cf_statics c) (start im) s g in
  _ ← print (if master_mode then "starting master\n" else "starting apprentice\n") [];
  _ ← set_sigill_handler;
  let '(r, w) := if master_mode then master cfg cpu fuel st else apprentice cfg cpu fuel st in
  _ ← modify (set_cf_statics (Some w));
  match r with
  | inl z => mret (z, Some w)
  | inr halt => stop halt
  end.

(** [load_image], the test, [unload_image] *)
Definition test_image (master_mode : bool) (comm : os * gzfile * bool) (imgfile : string)
    : M config (Z * option risu) :=
  im ← load_image imgfile;
  r ← run_test master_mode comm im;
  _ ← unload_image;
  mret r.

Definition risu_main : M main_state (Z * option risu) :=
  argv0 ← gets (fun s => argv (scan_st s));
  let argc := length argv0 in
  _ ← on_conf (modify (set_cf_trace false));
  _ ← on_scan (modify (set_variable "ismaster" 0));
  r ← options_loop argc (opt_fuel (tail argv0));
  match (r : option Z) with
  | Some z => mret (z, None)
  | None =>
      m ← gets (fun s => ismaster (scan_st s));
      vs ← gets (fun s => variables (scan_st s));
      _ ← on_conf (take_flags vs);
      comm ← on_conf (open_comm m);
      g ← gets scan_st;
      match argv g !! optind g with
      | Some imgfile => on_conf (test_image m comm imgfile)
      | None =>
          if null_terminated then
            _ ← on_conf (print "Error: must specify image file name\n\n" []);
            _ ← on_conf usage;
            mret (EXIT_FAILURE, None)
          else stop HUB
      end
  end.
End run.

(** The variables before the program runs. *)
Definition main_start (argv : list string) (o : aopts) : main_state :=
  MainState (GetoptState argv None 0 None 1 BAD_OPTION REQUIRE_ORDER 0 0 0 ∅ [])
    (Config false 9191 (Some "localhost"%string) None o [] (Image 0 0) None).

(** ** The reference *)

Section reference.
Variables (h : host) (zlib : bool) (long_bits : Z).

(** Do what the options say, in their order. *)
Fixpoint configure (es : list opt_event) : M config (option Z) :=
  match es with
  | [] => mret None
  | ev :: es' =>
      r ← option_step zlib long_bits (ev_ret ev) (ev_arg ev);
      match r with
      | Some z => mret (Some z)
      | None => configure es'
      end
  end.

(** The flags that the options leave, if [vs] are those before. *)
Definition flags_after (es : list opt_event) (vs : gmap string Z) : gmap string Z :=
  apply_sets es (<["ismaster"%string := 0]> vs).

Definition master_wanted (es : list opt_event) (vs : gmap string Z) : bool :=
  truth (default 0 (flags_after es vs !! "ismaster"%string)).

(** The program, given the options and the first operand. *)
Definition main_ref cpu start null_terminated fuel (vs : gmap string Z) (es : list opt_event)
    (img : option string) : M config (Z * option risu) :=
  r ← configure es;
  match (r : option Z) with
  | Some z => mret (z, None)
  | None =>
      _ ← take_flags (flags_after es vs);
      comm ← open_comm h zlib (master_wanted es vs);
      match img with
      | Some imgfile => test_image h zlib cpu start fuel (master_wanted es vs) comm imgfile
      | None =>
          if (null_terminated : bool) then
            _ ← print "Error: must specify image file name\n\n" [];
            _ ← usage zlib;
            mret (EXIT_FAILURE, None)
          else stop HUB
      end
  end.
End reference.

(** ** Which events there are *)

(** What the architecture's table must look like: an option sets a flag, or its
    value is not one that risu uses; and its flags are not [ismaster]. *)
Definition arch_opts_ok : Prop :=
  Forall (fun p => flag p = None -> FIRST_ARCH_OPT <= val p) (default [] arch_long_opts) /\
  forall z o, arch_flags {["ismaster"%string := z]} o = o.

Lemma char_int_small c : char_int c < 256.
Proof.
  unfold char_int. pose proof (nat_ascii_bounded c).
  destruct char_signed; [| lia]. pose proof (swrap_range 8 (Z.of_nat (nat_of_ascii c))). lia.
Qed.

(** The architecture's options are passed on to it. *)
Lemma option_step_arch zlib long_bits v a c :
  FIRST_ARCH_OPT <= v ->
  option_step zlib long_bits v a c = (_ ← on_arch (arch_process_opt v a); mret None) c.
Proof.
  intros Hv. unfold option_step, FIRST_ARCH_OPT in *. destruct (Z.eqb_spec v 0); [lia |].
  pose proof (char_int_small "t"). pose proof (char_int_small "h").
  pose proof (char_int_small "p"). pose proof (char_int_small "?").
  rewrite !(proj2 (Z.eqb_neq v (char_int _))) by lia. by destruct (Z.ltb_spec v 256); [lia |].
Qed.

Lemma configure_arch zlib long_bits v a c :
  FIRST_ARCH_OPT <= v ->
  configure zlib long_bits [OptEvent v (Some a) None] c =
  (_ ← on_arch (arch_process_opt v (Some a)); mret None) c.
Proof.
  intros Hv. cbn [configure ev_ret ev_arg]. unfold mbind at 1, M_bind at 1.
  rewrite option_step_arch by done. unfold mbind, M_bind.
  by destruct (on_arch _ c) as [[[]|halt] c'].
Qed.

(** An event that the [switch] of [risu_main] expects. *)
Definition expected (ev : opt_event) : Prop :=
  ev_ret ev = 0 \/ ev_ret ev = char_int "?" \/ FIRST_ARCH_OPT <= ev_ret ev \/
  (ev_ret ev = char_int "t" \/ ev_ret ev = char_int "h" \/ ev_ret ev = char_int "p") /\
    ev_arg ev <> None.

Lemma expected_not_eof ev : expected ev -> ev_ret ev <> EOF.
Proof.
  unfold expected, EOF, char_int, FIRST_ARCH_OPT.
  destruct char_signed; intros [->|[->|[E|[[->|[->| ->]] _]]]]; first [lia | vm_compute; congruence].
Qed.

Lemma match_long_in longopts i s len pf b p j :
  match_long longopts i s len pf b = Found p j ->
  p ∈ longopts \/ exists k, pf = Some (p, k).
Proof.
  revert i pf b. induction longopts as [|q l IH]; intros i pf b E; cbn [match_long] in E.
  - destruct b; [done |]. destruct pf as [[q k]|]; [| done]. injection E as -> _. eauto.
  - destruct (_ =? 0).
    + destruct (_ =? _)%nat; [injection E as -> _; left; constructor |].
      destruct pf as [[q' k]|].
      * destruct (IH _ _ _ E) as [K|K]; [left; by constructor | by right].
      * destruct (IH _ _ _ E) as [K|[k K]]; [left; by constructor |].
        injection K as -> _. left. constructor.
    + destruct (IH _ _ _ E) as [K|K]; [left; by constructor | by right].
Qed.

Lemma setup_options_cases p :
  arch_opts_ok -> p ∈ setup_options ->
  val p = char_int "?" /\ flag p = None \/
  (exists x, flag p = Some x) \/
  (val p = char_int "t" \/ val p = char_int "h" \/ val p = char_int "p") /\ has_arg p = 1 /\
    flag p = None \/
  FIRST_ARCH_OPT <= val p /\ flag p = None.
Proof.
  intros Ha Hp.
  assert (p ∈ default_longopts \/ p ∈ default [] arch_long_opts) as [Hd|Hr].
  { unfold setup_options in Hp. destruct arch_long_opts; [by apply elem_of_app in Hp | by left]. }
  - unfold default_longopts in Hd. set_unfold in Hd. unfold char_int.
    destruct Hd as [->|[->|[->|[->|[->|[]]]]]]; cbn [val flag has_arg]; destruct char_signed;
      vm_compute; try tauto; eauto 10.
  - destruct Ha as [Ha _]. rewrite Forall_forall in Ha. specialize (Ha p Hr).
    destruct (flag p) as [x|]; [right; left; by exists x |]. do 3 right. auto.
Qed.

Lemma found_expected p arg :
  arch_opts_ok -> p ∈ setup_options -> (has_arg p = 1 -> arg <> None) ->
  expected (found_event p arg).
Proof.
  intros Ha Hp Harg. unfold found_event, expected.
  destruct (setup_options_cases p Ha Hp) as [[E ->]|[[x ->]|[(E & E1 & ->)|[E ->]]]]; simpl; tauto.
Qed.

Lemma long_expected body next ev b :
  arch_opts_ok -> long_event short_opts setup_options body next = (ev, b) -> expected ev.
Proof.
  intros Ha E. unfold long_event in E.
  destruct (match_long _ _ _ _ _ _) as [p i| |] eqn:Em; [| by injection E as <- <-; left ..].
  destruct (match_long_in _ _ _ _ _ _ _ _ Em) as [Hp|[k Hk]]; [| done].
  destruct (find_equals body) as [|c arg].
  - destruct (Z.eqb_spec (has_arg p) 1) as [Hreq|Hreq].
    + destruct next as [y|]; injection E as <- <-; [by apply found_expected | by left].
    + injection E as <- <-. by apply found_expected.
  - destruct (truth (has_arg p)); injection E as <- <-; [by apply found_expected | by left].
Qed.

Lemma short_kind c :
  kind_of short_opts c = Unknown \/
  kind_of short_opts c = Required /\
    (char_int c = char_int "t" \/ char_int c = char_int "h" \/ char_int c = char_int "p").
Proof.
  unfold kind_of, short_opts, my_index.
  repeat match goal with
  | |- context [Ascii.eqb ?a c] => destruct (Ascii.eqb_spec a c) as [<-|]; [vm_compute; tauto |]
  end. by left.
Qed.

Lemma cluster_expected body next l b :
  cluster short_opts body next = (l, b) -> Forall expected l.
Proof.
  revert l b. induction body as [|c rest IH]; intros l b E; cbn [cluster] in E.
  - injection E as <- <-. constructor.
  - destruct (short_kind c) as [K|[K Hc]]; rewrite K in E.
    + destruct (cluster short_opts rest next) as [l' b']. injection E as <- <-.
      constructor; [by left | by eapply IH].
    + destruct (at_end rest); cbn [negb] in E; [destruct next |]; injection E as <- <-;
        (constructor; [| constructor]).
      * right. right. right. split; [exact Hc | done].
      * by left.
      * right. right. right. split; [exact Hc | done].
Qed.

Lemma parse_expected args es o n :
  arch_opts_ok -> parse short_opts setup_options args = (es, (o, n)) -> Forall expected es.
Proof.
  intros Ha. remember (length args) as k eqn:Hk. revert args Hk es o n.
  induction k as [k IH] using lt_wf_ind; intros args -> es o n E.
  destruct args as [|x t]; [injection E as <- <- <-; constructor |]. cbn [parse] in E.
  destruct (String.eqb x "--"); [injection E as <- <- <-; constructor |].
  destruct (nonoption x).
  { destruct (parse _ _ t) as [e' [o' n']] eqn:P. injection E as <- <- <-.
    by eapply (IH (length t)); [simpl; lia | | exact P]. }
  assert (forall l b, element short_opts setup_options x (head t) = (l, b) -> Forall expected l) as El.
  { intros l b K. unfold element in K. destruct (second_dash x).
    - destruct (long_event _ _ _ _) as [ev b'] eqn:Ev. injection K as <- <-.
      constructor; [by eapply long_expected | constructor].
    - by eapply cluster_expected. }
  destruct (element short_opts setup_options x (head t)) as [l b]. specialize (El l b eq_refl).
  destruct t as [|y t]; [by injection E as <- <- <- |].
  destruct b; (destruct (parse _ _ _) as [e' [o' n']] eqn:P); injection E as <- <- <-;
    (apply Forall_app; split; [done |]).
  - by eapply (IH (length t)); [simpl; lia | | exact P].
  - by eapply (IH (length (y :: t))); [simpl; lia | | exact P].
Qed.

(** ** How many events there are *)

Lemma cluster_length optstring body next :
  (length (cluster optstring body next).1 <= my_strlen body)%nat.
Proof.
  induction body as [|c rest IH]; [done |]. cbn [cluster my_strlen].
  destruct (kind_of optstring c); try (destruct (cluster optstring rest next); simpl in *; lia).
  destruct (negb (at_end rest)); [simpl; lia |]. destruct next; simpl; lia.
Qed.

Lemma advance_length k s : (my_strlen (advance k s) <= my_strlen s)%nat.
Proof.
  revert s. induction k as [|k IH]; intros [|c s]; simpl; try lia. specialize (IH s). lia.
Qed.

Lemma element_length optstring opts x next :
  nonoption x = false -> (length (element optstring opts x next).1 <= my_strlen x)%nat.
Proof.
  intros Hx. unfold element. destruct (second_dash x).
  - destruct (long_event _ _ _ _). simpl. destruct x; [done | simpl; lia].
  - pose proof (cluster_length optstring (advance 1 x) next). pose proof (advance_length 1 x). lia.
Qed.

Lemma parse_length optstring opts args :
  (length (parse optstring opts args).1 <= sum_list_with my_strlen args)%nat.
Proof.
  remember (length args) as k eqn:Hk. revert args Hk.
  induction k as [k IH] using lt_wf_ind; intros args ->.
  destruct args as [|x t]; [done |]. cbn [parse].
  destruct (String.eqb x "--"); [simpl; lia |]. destruct (nonoption x) eqn:Hx.
  { specialize (IH (length t) ltac:(simpl; lia) t eq_refl).
    destruct (parse _ _ t) as [e' [o' n']]. simpl in *. lia. }
  pose proof (element_length optstring opts x (head t) Hx) as El.
  destruct (element optstring opts x (head t)) as [l b]. simpl in El.
  destruct t as [|y t]; [simpl; lia |].
  destruct b.
  - specialize (IH (length t) ltac:(simpl; lia) t eq_refl).
    destruct (parse _ _ t) as [e' [o' n']]. simpl in *. rewrite length_app. lia.
  - specialize (IH (length (y :: t)) ltac:(simpl; lia) (y :: t) eq_refl).
    destruct (parse _ _ (y :: t)) as [e' [o' n']]. simpl in *. rewrite length_app. lia.
Qed.

(** ** The loop over the options *)

Section loop.
Variables (zlib : bool) (long_bits : Z) (prog : string) (argc : nat).

Definition loop_ok (es : list opt_event) (O Nn : list string) (st : main_state)
    (res : (option Z + halt) * main_state) : Prop :=
  exists g', res = (fst (configure zlib long_bits es (conf st)),
                    MainState g' (snd (configure zlib long_bits es (conf st)))) /\
    (fst (configure zlib long_bits es (conf st)) = inl None ->
       finished prog O Nn g' /\ variables g' = apply_sets es (variables (scan_st st))).

Lemma options_loop_step fuel es O Nn st :
  Forall expected es ->
  wp (getopt_long false argc short_opts setup_options) (scan_st st)
    (call_ok short_opts setup_options prog argc es O Nn (scan_st st)) ->
  (forall es' st', Forall expected es' -> (length es' < length es)%nat ->
     pending short_opts setup_options prog argc es' O Nn (scan_st st') ->
     loop_ok es' O Nn st' (options_loop zlib long_bits false argc fuel st')) ->
  loop_ok es O Nn st (options_loop zlib long_bits false argc (S fuel) st).
Proof.
  intros Hes Hcall IH. destruct (wp_inv _ _ _ Hcall) as (c & g' & E & K). cbn [options_loop].
  unfold on_scan at 1. unfold mbind at 1, M_bind at 1. unfold zoom at 1. rewrite E.
  destruct es as [|ev es]; simpl in K.
  - destruct K as (-> & F & V). change (EOF =? -1) with true. cbn [configure].
    exists g'. split; [done |]. done.
  - destruct K as [(-> & Ea & Ev) Hp]. inversion Hes as [|? ? Hev Hes']; subst.
    destruct (Z.eqb_spec (ev_ret ev) (-1)) as [Ee|_]; [by apply expected_not_eof in Ee |].
    unfold on_conf, zoom, gets, mbind, M_bind. cbn [scan_st conf]. rewrite Ea.
    unfold loop_ok. cbn [configure]. unfold mbind, M_bind.
    destruct (option_step zlib long_bits (ev_ret ev) (ev_arg ev) (conf st)) as [[[z|]|halt] c'].
    + exists g'. done.
    + destruct (IH es (MainState g' c') Hes' ltac:(simpl; lia) Hp) as (g2 & E2 & F2). simpl in E2, F2.
      exists g2. split; [exact E2 |]. intros K. destruct (F2 K) as [K1 K2]. split; [done |].
      by rewrite K2, Ev.
    + exists g'. done.
Qed.

Lemma options_loop_pending fuel es O Nn st :
  Forall expected es -> (length es < fuel)%nat ->
  pending short_opts setup_options prog argc es O Nn (scan_st st) ->
  loop_ok es O Nn st (options_loop zlib long_bits false argc fuel st).
Proof.
  revert es st. induction fuel as [|fuel IH]; intros es st Hes Hf Hp; [lia |].
  apply options_loop_step; [done | by apply getopt_long_ok |].
  intros es' st' Hes' Hl Hp'. apply IH; [done | lia | done].
Qed.
End loop.

(** ** The program and its reference *)

Lemma options_loop_start zlib long_bits prog args st es o n :
  arch_opts_ok -> argv (scan_st st) = prog :: args -> optind (scan_st st) = 0%nat ->
  Forall no_nul args -> parse short_opts setup_options args = (es, (o, n)) ->
  loop_ok zlib long_bits prog es o n st
    (options_loop zlib long_bits false (S (length args)) (opt_fuel args) st).
Proof.
  intros Ha Hv Hi Hn P. pose proof (parse_expected _ _ _ _ Ha P) as Hes.
  pose proof (parse_length short_opts setup_options args) as Hl. rewrite P in Hl. simpl in Hl.
  unfold opt_fuel. eapply options_loop_step; [done | |].
  - by eapply getopt_long_start.
  - intros es' st' Hes' Hl' Hp. apply (options_loop_pending _ _ _ (S (length args))); [done | lia | done].
Qed.

Lemma on_conf_eq {A} (m : M config A) g c :
  on_conf m (MainState g c) = (fst (m c), MainState g (snd (m c))).
Proof. unfold on_conf, zoom. simpl. by destruct (m c). Qed.

(** Two computations agree: same result, same variables. *)
Definition agree {A} (res : (A + halt) * main_state) (ref : (A + halt) * config) : Prop :=
  fst res = fst ref /\ conf (snd res) = snd ref.

Lemma agree_bind {A B} (m : M config A) (k : A -> M main_state B) (k' : A -> M config B) g c :
  (forall a c', agree (k a (MainState g c')) (k' a c')) ->
  agree ((on_conf m ≫= k) (MainState g c)) ((m ≫= k') c).
Proof.
  intros K. unfold mbind, M_bind. rewrite on_conf_eq. destruct (m c) as [[a|halt] c']; simpl; [apply K | done].
Qed.

Lemma agree_on_conf {A} (m : M config A) g c : agree (on_conf m (MainState g c)) (m c).
Proof. by rewrite on_conf_eq. Qed.

Section whole.
Variables (h : host) (zlib : bool) (long_bits : Z) (cpu : uctx -> option (signal * Z * uctx)).
Variables (start : image -> uctx) (null_terminated : bool) (fuel : nat).

Definition run_command (prog : string) (args : list string) (o : aopts)
    : (Z * option risu + halt) * main_state :=
  risu_main h zlib long_bits false cpu start null_terminated fuel (main_start (prog :: args) o).

(** From any state in which the scanner starts afresh. *)
Lemma main_ok prog args st0 es oo n :
  arch_opts_ok -> argv (scan_st st0) = prog :: args -> optind (scan_st st0) = 0%nat ->
  Forall no_nul args -> parse short_opts setup_options args = (es, (oo, n)) ->
  agree (risu_main h zlib long_bits false cpu start null_terminated fuel st0)
    (main_ref h zlib long_bits cpu start null_terminated fuel (variables (scan_st st0)) es (head n)
       (set_cf_trace false (conf st0))).
Proof.
  intros Ha Hv Hi Hn P. unfold risu_main. destruct st0 as [g c]. cbn [scan_st conf] in *.
  rewrite (bind_done (gets (fun s : main_state => argv (scan_st s))) _ _ (prog :: args) (MainState g c))
    by (by rewrite <-Hv).
  rewrite (bind_done (on_conf (modify (set_cf_trace false))) _ _ () (MainState g (set_cf_trace false c))) by done.
  set (st := MainState (set_variable "ismaster" 0 g) (set_cf_trace false c)).
  rewrite (bind_done (on_scan (modify (set_variable "ismaster" 0))) _ _ () st) by done.
  cbn [length tail].
  destruct (options_loop_start zlib long_bits prog args st es oo n Ha Hv Hi Hn P) as (g' & E & F).
  change (set_cf_trace false c) with (conf st). unfold main_ref.
  destruct (configure zlib long_bits es (conf st)) as [[[z|]|halt] c'] eqn:Ec; cbn [fst snd] in E, F.
  - rewrite (bind_done _ _ _ _ _ E), (bind_done _ _ _ _ _ Ec). done.
  - rewrite (bind_done _ _ _ _ _ E), (bind_done _ _ _ _ _ Ec). destruct (F eq_refl) as [[Fv Fi] V].
    change (variables (scan_st st)) with (<["ismaster"%string := 0]> (variables g)) in V.
    fold (flags_after es (variables g)) in V.
    rewrite (bind_done (gets _) _ _ (master_wanted es (variables g)) (MainState g' c')).
    2: { unfold gets. cbn [scan_st]. unfold ismaster, master_wanted. by rewrite V. }
    rewrite (bind_done (gets _) _ _ (flags_after es (variables g)) (MainState g' c'))
      by (unfold gets; cbn [scan_st]; by rewrite V).
    apply agree_bind. intros _ c1. apply agree_bind. intros comm c2.
    rewrite (bind_done (gets scan_st) _ (MainState g' c2) g' (MainState g' c2)) by done.
    assert (argv g' !! optind g' = head n) as ->.
    { rewrite Fv, Fi. change ((oo ++ n) !! length oo = head n). rewrite lookup_app_r, Nat.sub_diag by done. by destruct n. }
    destruct (head n) as [imgfile|]; [apply agree_on_conf |].
    destruct null_terminated; [| done]. apply agree_bind. intros _ c3. apply agree_bind. done.
  - rewrite (bind_stop _ _ _ _ _ E), (bind_stop _ _ _ _ _ Ec). done.
Qed.

Lemma command_ok prog args o es oo n :
  arch_opts_ok -> Forall no_nul args -> parse short_opts setup_options args = (es, (oo, n)) ->
  agree (run_command prog args o)
    (main_ref h zlib long_bits cpu start null_terminated fuel ∅ es (head n)
       (conf (main_start (prog :: args) o))).
Proof. intros Ha Hn P. by eapply (main_ok prog args). Qed.
End whole.

(** ** Commands *)

(** An element that looks like a long option and names none. *)
Definition misspelt (x : string) : Prop :=
  nonoption x = false /\ x <> "--"%string /\ second_dash x = true /\
  forall p i, match_long setup_options 0 (advance 2 x)
    (my_strlen (before_equals (advance 2 x))) None false <> Found p i.

Lemma parse_misspelt x args es o n :
  misspelt x -> parse short_opts setup_options args = (es, (o, n)) ->
  parse short_opts setup_options (x :: args) = (bad_event :: es, (x :: o, n)).
Proof.
  intros (Hx & Hd & Hs & Hm) P. cbn [parse]. destruct (String.eqb_spec x "--"); [done |].
  rewrite Hx. unfold element. rewrite Hs. unfold long_event.
  destruct (match_long _ _ _ _ _ _) as [p i| |]; [by destruct (Hm p i) | |];
    (destruct args; [by injection P as <- <- <- |]); by rewrite P.
Qed.

(** The image can be mapped and signals can be handled. *)
Record ready (h : host) (imgfile : string) (im : image) : Prop := {
  rdy_open : h_open_image h imgfile = true;
  rdy_size : h_fstat h imgfile = Some (image_size im);
  rdy_map : h_mmap h imgfile = image_start_address im /\ image_start_address im <> 0;
  rdy_stack : h_malloc h = true /\ h_sigaltstack h = true;
  rdy_handlers sig : h_sigaction h sig = true
}.

(** What a test needs of the command line. *)
Definition trace_file (h : host) (zlib master : bool) (fn : string) : gzfile :=
  h_gzdopen h master (if zlib then fn else EmptyString).

Lemma my_strcmp_dash fn : no_nul fn -> fn <> "-"%string -> (my_strcmp fn "-" =? 0) = false.
Proof.
  intros Hn Hf. rewrite my_strcmp_eqb; [by apply String.eqb_neq | done |].
  repeat split; vm_compute; congruence.
Qed.

(** [risu --master -t fn img] and [risu -t fn img] *)
Definition trace_args (master : bool) (fn imgfile : string) : list string :=
  (if master then ["--master"%string] else []) ++ ["-t"%string; fn; imgfile].

Definition trace_events (master : bool) (fn : string) : list opt_event :=
  (if master then [OptEvent 0 None (Some ("ismaster"%string, 1))] else []) ++
  [OptEvent (char_int "t") (Some fn) None].

(** The first operand ends the options; an option with its argument, and
    [--master], before the others. *)
Lemma parse_operand imgfile :
  nonoption imgfile = true -> parse short_opts setup_options [imgfile] = ([], ([], [imgfile])).
Proof.
  intros Hi. cbn [parse]. destruct (String.eqb_spec imgfile "--") as [->|_]; [done |]. by rewrite Hi.
Qed.

Lemma parse_short c a args es oo n :
  c ∈ ["h"; "p"; "t"]%char ->
  parse short_opts setup_options args = (es, (oo, n)) ->
  exists o, parse short_opts setup_options (String "-" (String c EmptyString) :: a :: args) =
    (OptEvent (char_int c) (Some a) None :: es, (o, n)).
Proof.
  intros Hc P. exists (String "-" (String c EmptyString) :: a :: oo).
  rewrite !elem_of_cons, elem_of_nil in Hc. destruct Hc as [->|[->|[->|[]]]];
    (rewrite (parse_option _ _ (String "-" _)) by done; cbn; unfold after; by rewrite P).
Qed.

Lemma parse_master args es oo n :
  parse short_opts setup_options args = (es, (oo, n)) ->
  exists o, parse short_opts setup_options ("--master"%string :: args) =
    (OptEvent 0 None (Some ("ismaster"%string, 1)) :: es, (o, n)).
Proof.
  intros P. exists ("--master"%string :: oo).
  assert (exists i, match_long setup_options 0 "master" 6 None false =
    Found (Option "master" no_argument (Some "ismaster"%string) 1) i) as [i Em].
  { unfold setup_options. destruct arch_long_opts; by eexists. }
  rewrite (parse_option _ _ "--master") by done.
  change (second_dash "--master") with true. unfold body_events.
  change (second_dash "--master") with true. cbn [advance head]. unfold long_event.
  change (my_strlen (before_equals "master")) with 6%nat. rewrite Em.
  cbn [find_equals has_arg]. unfold after.
  destruct args; [by injection P as <- <- <- | by rewrite P].
Qed.

Lemma parse_trace_args master fn imgfile :
  nonoption imgfile = true ->
  exists o, parse short_opts setup_options (trace_args master fn imgfile) =
    (trace_events master fn, (o, [imgfile])).
Proof.
  intros Hi. destruct (parse_short "t" fn _ _ _ _ ltac:(set_solver) (parse_operand _ Hi)) as [o P].
  destruct master; [| by exists o]. exact (parse_master _ _ _ _ P).
Qed.

Lemma configure_trace zlib long_bits master fn c :
  configure zlib long_bits (trace_events master fn) c =
  (inl None, set_cf_trace true (set_cf_trace_fn (Some fn) c)).
Proof.
  assert (forall c, option_step zlib long_bits (char_int "t") (Some fn) c =
    (inl None, set_cf_trace true (set_cf_trace_fn (Some fn) c))) as St.
  { intros c0. unfold option_step, char_int. by destruct char_signed. }
  unfold trace_events. destruct master; cbn [app configure ev_ret ev_arg].
  - rewrite (bind_done _ _ c None c) by done. by rewrite (bind_done _ _ _ _ _ (St c)).
  - by rewrite (bind_done _ _ _ _ _ (St c)).
Qed.

Lemma master_wanted_trace master fn : master_wanted (trace_events master fn) ∅ = master.
Proof. by destruct master. Qed.

Lemma flags_after_trace master fn :
  flags_after (trace_events master fn) ∅ = {["ismaster"%string := if master then 1 else 0]}.
Proof. by destruct master. Qed.

(** The test, once there is a descriptor. *)
Lemma test_image_ok h zlib cpu start fuel (mode : bool) imgfile im o o' s g std c :
  ready h imgfile im -> (forall t, arch_init (o, t) = (inl (), (o', t))) ->
  cf_opts c = o -> cf_statics c = None ->
  let cfg := Settings _ (cf_trace c) std zlib o' im in
  let st := risu_start (start im) s g in
  let r := if mode then master cfg cpu fuel st else apprentice cfg cpu fuel st in
  let t := test_image h zlib cpu start fuel mode (s, g, std) imgfile c in
  fst t = match fst r with inl z => inl (z, Some (snd r)) | inr halt => inr halt end /\
  cf_statics (snd t) = Some (snd r).
Proof.
  intros [Ro Rs [Rm1 Rm2] [Rk1 Rk2] Rh] Ho Hc Hn cfg st. cbn zeta.
  unfold test_image, load_image. rewrite Ro, Rs, Rm1. unfold need.
  destruct (Z.eqb_spec (image_start_address im) 0); [done |]. cbn [negb].
  unfold run_test, set_sigill_handler, need. rewrite Rk1, Rk2, !Rh. destruct im as [addr size].
  cbn [image_start_address image_size].
  unfold on_arch, mbind, M_bind, print, modify, mret, M_ret, gets, id, zoom. cbn.
  destruct (h_no_signal h); cbn; rewrite Hc, Ho; cbn; rewrite Hn; cbn; fold cfg; fold st;
    (destruct mode; [by destruct (master cfg cpu fuel st) as [[z|halt] w]
                    | by destruct (apprentice cfg cpu fuel st) as [[z|halt] w]]).
Qed.

(** What the command comes down to. *)
Lemma traced_command h zlib long_bits cpu start nt fuel prog (mode : bool) fn imgfile im o o' s :
  arch_opts_ok -> no_nul fn -> no_nul imgfile -> nonoption imgfile = true -> fn <> "-"%string ->
  ready h imgfile im -> (forall t, arch_init (o, t) = (inl (), (o', t))) ->
  h_open_trace h mode fn = Some s ->
  let cfg := Settings _ true false zlib o' im in
  let st := risu_start (start im) s (trace_file h zlib mode fn) in
  fst (run_command h zlib long_bits cpu start nt fuel prog (trace_args mode fn imgfile) o) =
  match (if mode then master cfg cpu fuel st else apprentice cfg cpu fuel st) with
  | (inl z, w) => inl (z, Some w)
  | (inr halt, _) => inr halt
  end.
Proof.
  intros Ha Hf Hi Hn Hd R Ho Hs cfg st.
  destruct (parse_trace_args mode fn imgfile Hn) as [oo P].
  assert (Forall no_nul (trace_args mode fn imgfile)) as Hnn.
  { destruct mode; repeat constructor; try done; vm_compute; congruence. }
  destruct (command_ok h zlib long_bits cpu start nt fuel prog _ o _ _ _ Ha Hnn P) as [-> _].
  unfold main_ref. rewrite (bind_done _ _ _ _ _ (configure_trace _ _ _ _ _)).
  rewrite master_wanted_trace, flags_after_trace. set (c1 := set_cf_trace _ _).
  rewrite (bind_done (take_flags _) _ c1 () c1) by (unfold take_flags, modify; by rewrite (proj2 Ha)).
  rewrite (bind_done _ _ c1 (s, trace_file h zlib mode fn, false) c1).
  2: { unfold open_comm. rewrite (bind_done (gets id) _ c1 c1 c1) by done. unfold id.
       cbn [c1 cf_trace cf_trace_fn set_cf_trace set_cf_trace_fn].
       rewrite my_strcmp_dash, Hs by done. by destruct zlib. }
  cbn [head]. destruct (test_image_ok h zlib cpu start fuel mode imgfile im o o' s
    (trace_file h zlib mode fn) false c1 R Ho eq_refl eq_refl) as [-> _].
  change (cf_trace c1) with true. fold cfg st.
  by destruct (if mode then master _ _ _ _ else apprentice _ _ _ _) as [[z|halt] w].
Qed.
End main.

(** ** Properties *)

Section properties.
Context `{Build} `{ArchLaws} `{!ArchMain} `{ZlibLaws} `{CharSign}.

(** C11: the program does what its command line says: running [risu_main] gives
    the result, the messages and the options that one gets by reading the
    command line once from left to right ([parse]), obeying the options in their
    order ([configure]) and running the test on the first operand; the loop over
    the options ends, and the assertion in it cannot fail. *)
Theorem risu_main_obeys h zlib long_bits cpu start nt fuel prog args o es oo n :
  arch_opts_ok -> Forall no_nul args -> parse short_opts setup_options args = (es, (oo, n)) ->
  agree (run_command h zlib long_bits cpu start nt fuel prog args o)
    (main_ref h zlib long_bits cpu start nt fuel ∅ es (head n)
       (conf (main_start (prog :: args) o))) /\
  Forall expected es.
Proof.
  intros Ha Hn P. split; [by eapply command_ok | by eapply parse_expected].
Qed.

(** C21: a misspelt long option is ignored.  The scanner complains and returns
    0, the value it also returns when it has set a flag, so the program goes on
    as if the element were not there. *)
Theorem misspelt_ignored h zlib long_bits cpu start nt fuel prog x args o :
  arch_opts_ok -> Forall no_nul (x :: args) -> misspelt x ->
  let r1 := run_command h zlib long_bits cpu start nt fuel prog (x :: args) o in
  let r2 := run_command h zlib long_bits cpu start nt fuel prog args o in
  fst r1 = fst r2 /\ conf (snd r1) = conf (snd r2).
Proof.
  intros Ha Hn Hx. cbn zeta. inversion Hn as [|? ? _ Hn']; subst.
  destruct (parse short_opts setup_options args) as [es [oo n]] eqn:P.
  pose proof (parse_misspelt _ _ _ _ _ Hx P) as P1.
  destruct (command_ok h zlib long_bits cpu start nt fuel prog _ o _ _ _ Ha Hn P1) as [-> ->].
  by destruct (command_ok h zlib long_bits cpu start nt fuel prog _ o _ _ _ Ha Hn' P) as [-> ->].
Qed.

(** C12: what the command [risu --master -t file image] records, the command
    [risu -t file image] accepts: if the first exits successfully, and the
    second finds the file it has written, and the same image at the same
    address, then the second exits successfully too, with as many checkpoints. *)
Theorem commands_record_replay hm ha zlib long_bits cpu start nt fuel fn imgfile im o o' sm sa wm :
  arch_opts_ok -> no_nul fn -> no_nul imgfile -> nonoption imgfile = true -> fn <> "-"%string ->
  ready hm imgfile im -> ready ha imgfile im ->
  (forall t, arch_init (o, t) = (inl (), (o', t))) ->
  h_open_trace hm true fn = Some sm -> h_open_trace ha false fn = Some sa ->
  header_swaps = false -> uctx_wf (start im) ->
  (forall v sig si v', uctx_wf v -> cpu v = Some (sig, si, v') -> uctx_wf v') ->
  let cfg := Settings _ true false zlib o' im in
  let st := risu_start (start im) sm (trace_file hm zlib true fn) in
  writable cfg st -> recorded cfg st = [] -> memblock_set cfg cpu fuel (announced cfg st) = true ->
  fst (run_command hm zlib long_bits cpu start nt fuel "risu" (trace_args true fn imgfile) o) =
    inl (EXIT_SUCCESS, Some wm) ->
  playback cfg (recorded cfg wm) (risu_start (start im) sa (trace_file ha zlib false fn)) ->
  exists wa,
    fst (run_command ha zlib long_bits cpu start nt fuel "risu" (trace_args false fn imgfile) o) =
      inl (EXIT_SUCCESS, Some wa) /\
    signal_count wa = signal_count wm /\ illegal_instructions wa = illegal_instructions wm.
Proof.
  intros Ha Hf Hi Hn Hd Rm Ra Ho Hsm Hsa Hsw Hu Hc cfg st Hw Hr Hb E P.
  rewrite (traced_command hm zlib long_bits cpu start nt fuel "risu" true fn imgfile im o o' sm) in E by done.
  destruct (master _ cpu fuel _) as [[z|halt] w] eqn:Em; [| done]. injection E as -> ->.
  destruct (replay_accepts cfg cfg cpu fuel (start im) sm _ sa _ wm eq_refl eq_refl eq_refl eq_refl
    Hsw Hu Hc Hw Hr Hb Em P) as (wa & Ea & Ec & Ei & _).
  exists wa. split; [| done].
  rewrite (traced_command ha zlib long_bits cpu start nt fuel "risu" false fn imgfile im o o' sa) by done.
  unfold cfg in Ea. by rewrite Ea.
Qed.
End properties.
