(* ===== verification/RisuNet.v ===== *)
(** * Two commands that test over the network

    [RisuMain] says what a command does up to the point where the connection is
    there, [Session] how master and apprentice get on with each other from then
    on.  Here the two are put together: the commands

      risu --master -p PORT IMAGE        risu -h HOST -p PORT IMAGE

    on two machines find each other and complete the test.  The second machine
    calls the first one by a name, and both convert PORT in the same way. *)

From Stdlib Require Import Ascii.
From stdpp Require Import gmap relations.
From S2P Require Import Prelude Endian Comms Arch Header Risu Verdict Trace Session Getopt GetoptSpec Strtol RisuMain.

Section net.
Context `{Build} `{ArchMain} `{Zlib} `{CharSign}.

(** [h] when the connection [s] with the peer at [addr] and [port] is made. *)
Definition online (h : host) (addr port : Z) (s : os) : host :=
  Host _ (h_socket h) (h_setsockopt h) (h_bind h) (h_listen h)
    (fun p => if p =? port then Some s else None)
    (h_gethostbyname h)
    (fun a p => if (a =? addr) && (p =? port) then Some s else None)
    (h_open_trace h) (h_stdio h) (h_gzdopen h) (h_open_image h) (h_fstat h) (h_mmap h)
    (h_malloc h) (h_sigaltstack h) (h_sigaction h) (h_macos9 h) (h_no_signal h).

(** It has sockets, and can listen, or find the other machine. *)
Definition reaches (mode : bool) (h : host) (hostname : string) (addr port : Z) : Prop :=
  h_macos9 h = false /\ h_socket h = true /\
  if mode then h_setsockopt h = true /\ h_bind h port = true /\ h_listen h = true
  else h_gethostbyname h hostname = Some addr.

Lemma ready_online h imgfile im addr port s : ready h imgfile im -> ready (online h addr port s) imgfile im.
Proof. by intros []. Qed.

(** ** The command line *)

Definition net_args (mode : bool) (hostname port imgfile : string) : list string :=
  (if mode then ["--master"%string] else ["-h"%string; hostname]) ++ ["-p"%string; port; imgfile].

Definition net_events (mode : bool) (hostname port : string) : list opt_event :=
  (if mode then OptEvent 0 None (Some ("ismaster"%string, 1))
   else OptEvent (char_int "h") (Some hostname) None) :: [OptEvent (char_int "p") (Some port) None].

Lemma parse_net_args mode hostname port imgfile :
  nonoption imgfile = true ->
  exists o, parse short_opts setup_options (net_args mode hostname port imgfile) =
    (net_events mode hostname port, (o, [imgfile])).
Proof.
  intros Hi. destruct (parse_short "p" port _ _ _ _ ltac:(set_solver) (parse_operand _ Hi)) as [o P].
  destruct mode; [exact (parse_master _ _ _ _ P) |].
  exact (parse_short "h" hostname _ _ _ _ ltac:(set_solver) P).
Qed.

Definition port_of (long_bits : Z) (port : string) : Z := u16 (strtol10 long_bits port).

Lemma configure_net zlib long_bits (mode : bool) hostname port c :
  configure zlib long_bits (net_events mode hostname port) c =
  (inl None, set_cf_port (port_of long_bits port)
    (if mode then c else set_cf_hostname (Some hostname) c)).
Proof.
  assert (forall c, option_step zlib long_bits (char_int "p") (Some port) c =
    (inl None, set_cf_port (port_of long_bits port) c)) as Sp
    by (intros c0; unfold option_step, char_int; by destruct char_signed).
  assert (forall c, option_step zlib long_bits (char_int "h") (Some hostname) c =
    (inl None, set_cf_hostname (Some hostname) c)) as Sh
    by (intros c0; unfold option_step, char_int; by destruct char_signed).
  unfold net_events. destruct mode; cbn [configure ev_ret ev_arg].
  - rewrite (bind_done _ _ c None c) by done. by rewrite (bind_done _ _ _ _ _ (Sp c)).
  - rewrite (bind_done _ _ _ _ _ (Sh c)). by rewrite (bind_done _ _ _ _ _ (Sp _)).
Qed.

Lemma net_flags (mode : bool) hostname port :
  master_wanted (net_events mode hostname port) ∅ = mode /\
  flags_after (net_events mode hostname port) ∅ = {["ismaster"%string := if mode then 1 else 0]}.
Proof. by destruct mode. Qed.

(** ** One command *)

(** What a command has put on the connection: the statics of the protocol are
    there whether it has ended or waits. *)
Definition transmitted (r : (Z * option risu + halt) * main_state) : bytes :=
  match cf_statics (conf (snd r)) with Some w => tx (io w) | None => [] end.

Lemma open_comm_online h zlib mode hostname addr port s c :
  reaches mode h hostname addr port -> u16 port = port ->
  cf_trace c = false -> cf_port c = port -> (mode = false -> cf_hostname c = Some hostname) ->
  exists t, open_comm (online h addr port s) zlib mode c =
    (inl (s, h_gzdopen h mode EmptyString, false), set_cf_err t c).
Proof.
  intros (R0 & R1 & R) Hp Ht Ep Eh. unfold open_comm.
  rewrite (bind_done (gets id) _ c c c) by done. unfold id. rewrite Ht. cbn [online h_macos9]. rewrite R0, Ep.
  unfold master_connect, apprentice_connect, need.
  cbn [online h_socket h_setsockopt h_bind h_listen h_accept h_gethostbyname h_connect h_gzdopen].
  destruct mode; [destruct R as (R2 & R3 & R4) | rewrite Eh, R by done];
    unfold mbind, M_bind, print, modify, mret, M_ret, stop; cbn; rewrite ?Hp, R1, ?R2, ?R3, ?R4; cbn;
    rewrite ?Hp, !Z.eqb_refl; cbn; by eexists.
Qed.

(** What a command returns, by what master or apprentice return. *)
Definition command_result (r : (Z + halt) * risu) : Z * option risu + halt :=
  match fst r with inl z => inl (z, Some (snd r)) | inr halt => inr halt end.

Lemma net_command h zlib long_bits cpu start nt fuel prog (mode : bool) hostname addr port imgfile im o o' s :
  arch_opts_ok -> no_nul hostname -> no_nul port -> no_nul imgfile -> nonoption imgfile = true ->
  ready h imgfile im -> reaches mode h hostname addr (port_of long_bits port) ->
  (forall t, arch_init (o, t) = (inl (), (o', t))) ->
  let cfg := Settings _ false false zlib o' im in
  let st := risu_start (start im) s (h_gzdopen h mode EmptyString) in
  let r := if mode then master cfg cpu fuel st else apprentice cfg cpu fuel st in
  let t := run_command (online h addr (port_of long_bits port) s) zlib long_bits cpu start nt fuel prog
    (net_args mode hostname port imgfile) o in
  fst t = command_result r /\ transmitted t = sent r.
Proof.
  intros Ha Hh Hp Hi Hn R Re Ho cfg st. cbn zeta. set (pn := port_of long_bits port) in *.
  destruct (parse_net_args mode hostname port imgfile Hn) as [oo P].
  assert (Forall no_nul (net_args mode hostname port imgfile)) as Hnn.
  { destruct mode; repeat constructor; try done; vm_compute; congruence. }
  unfold transmitted.
  destruct (command_ok (online h addr pn s) zlib long_bits cpu start nt fuel prog _ o _ _ _ Ha Hnn P)
    as [-> ->].
  unfold main_ref. rewrite (bind_done _ _ _ _ _ (configure_net _ _ _ _ _ _)).
  destruct (net_flags mode hostname port) as [-> ->]. set (c1 := set_cf_port _ _).
  rewrite (bind_done (take_flags _) _ c1 () c1) by (unfold take_flags, modify; by rewrite (proj2 Ha)).
  assert (cf_trace c1 = false /\ cf_opts c1 = o /\ cf_statics c1 = None /\ cf_port c1 = pn /\
    (mode = false -> cf_hostname c1 = Some hostname)) as (Q1 & Q2 & Q3 & Q4 & Q5) by (by destruct mode).
  destruct (open_comm_online h zlib mode hostname addr pn s c1 Re) as [t Eo]; try done.
  { unfold pn, port_of. apply wrap_wrap. lia. }
  rewrite (bind_done _ _ _ _ _ Eo). cbn [head].
  destruct (test_image_ok (online h addr pn s) zlib cpu start fuel mode imgfile im o o' s
    (h_gzdopen h mode EmptyString) false (set_cf_err t c1)) as [E1 E2]; try done; [by apply ready_online |].
  change (cf_trace (set_cf_err t c1)) with (cf_trace c1) in E1, E2. rewrite Q1 in E1, E2.
  by rewrite E1, E2.
Qed.
End net.

(** ** Properties *)

(** C3: two commands complete a test over the network.  Take an image that a
    recording master runs to its end.  Then the commands [risu --master -p port
    image] and [risu -h host -p port image], on machines with this image at the
    same address and connected at this port, do so too, under every schedule of
    the network: as long as one of them waits some byte is still on its way,
    after a bounded number of deliveries nothing is, and then both have returned
    EXIT_SUCCESS with the counts of the recording master. *)
Theorem commands_session `{Build} `{ArchLaws} `{!ArchMain} `{ZlibLaws} `{CharSign}
    hm ha zlib long_bits cpu start nt fuel hostname addr port imgfile im o o' st gt wt dm da :
  arch_opts_ok -> no_nul hostname -> no_nul port -> no_nul imgfile -> nonoption imgfile = true ->
  ready hm imgfile im -> ready ha imgfile im ->
  reaches true hm hostname addr (port_of long_bits port) ->
  reaches false ha hostname addr (port_of long_bits port) ->
  (forall t, arch_init (o, t) = (inl (), (o', t))) ->
  header_swaps = false -> uctx_wf (start im) ->
  (forall v sig si v', uctx_wf v -> cpu v = Some (sig, si, v') -> uctx_wf v') ->
  let cfg := Settings _ true false zlib o' im in
  let w0 := risu_start (start im) st gt in
  writable cfg w0 -> memblock_set cfg cpu fuel (announced cfg w0) = true ->
  master cfg cpu fuel w0 = (inl EXIT_SUCCESS, wt) ->
  delivers dm -> delivers da ->
  let m q := run_command (online hm addr (port_of long_bits port) (socket dm q)) zlib long_bits cpu start
    nt fuel "risu" (net_args true hostname port imgfile) o in
  let a p := run_command (online ha addr (port_of long_bits port) (socket da p)) zlib long_bits cpu start
    nt fuel "risu" (net_args false hostname port imgfile) o in
  exists bound, forall n p q, nsteps (net_step (transmitted ∘ m) (transmitted ∘ a)) n ([], []) (p, q) ->
    (n <= bound)%nat /\
    ((exists c, net_step (transmitted ∘ m) (transmitted ∘ a) (p, q) c) \/
     exists wm wa,
       fst (m q) = inl (EXIT_SUCCESS, Some wm) /\ fst (a p) = inl (EXIT_SUCCESS, Some wa) /\
       p = tx (io wm) /\ q = tx (io wa) /\
       signal_count wm = signal_count wt /\ signal_count wa = signal_count wt /\
       illegal_instructions wm = illegal_instructions wt /\
       illegal_instructions wa = illegal_instructions wt).
Proof.
  intros Ha Hh Hp Hi Hn Rm Ra Tm Ta Ho Hs Hu Hc cfg w0 W N E Dm Da m a.
  set (sock := Settings _ false false zlib o' im).
  destruct (session_speaks cfg sock sock cpu fuel (start im) st gt (h_gzdopen hm true EmptyString)
    (h_gzdopen ha false EmptyString) wt dm da) as (l & wm & wa & _ & Sm & Sa & C1 & C2 & C3 & C4 & _); try done.
  set (m' := fun q => master _ _ _ _) in Sm. set (a' := fun p => apprentice _ _ _ _) in Sa.
  assert (forall q, fst (m q) = command_result (m' q) /\ transmitted (m q) = sent (m' q)) as Em
    by (intros q; exact (net_command hm zlib long_bits cpu start nt fuel "risu" true hostname addr port
      imgfile im o o' (socket dm q) Ha Hh Hp Hi Hn Rm Tm Ho)).
  assert (forall p, fst (a p) = command_result (a' p) /\ transmitted (a p) = sent (a' p)) as Ea
    by (intros p; exact (net_command ha zlib long_bits cpu start nt fuel "risu" false hostname addr port
      imgfile im o o' (socket da p) Ha Hh Hp Hi Hn Ra Ta Ho)).
  exists (length (puts l) + length (gets_of l))%nat. clearbody m a m' a'. intros n p q S.
  apply (net_step_ext _ (sent ∘ m') _ (sent ∘ a')) in S; [| apply Em | apply Ea].
  destruct (speaks_complete m' a' l wm wa Sm Sa n p q S) as [B F]. split; [exact B |].
  destruct F as [[c F]|(sm & sa & Fm & Fa & Bm & Ba)]; [left | right].
  - exists c. by destruct F; constructor; cbn; rewrite ?(proj2 (Em _)), ?(proj2 (Ea _)).
  - exists (set_io sm wm), (set_io sa wa). rewrite (proj1 (Em q)), (proj1 (Ea p)), Fm, Fa. done.
Qed.
