(* ===== verification/Shell.v ===== *)
(** * The Mac OS 9 shell (eval and main in risu_main.c)

    On Mac OS 9 there is no command line: [main] prompts for lines and [eval]
    obeys them.  A line is split by [argcargv]; the commands are exit, source,
    which evaluates a file, and risu, which calls [risu_main].

    The static variables outlive a command: the scanner's, the architecture's
    options, the protocol's.  The buffer a line is in is split in place.

    The theorems: evaluating a text obeys its lines one after the other, as
    reading them without a buffer gives them, and each risu command does what
    its options say; the prompt loop obeys what is typed, line by line, until
    the input ends, and then obeys the remains of the last line again. *)

From Stdlib Require Import Ascii.
From stdpp Require Import gmap.
From S2P Require Import Prelude Endian Comms Arch Header Risu Getopt GetoptSpec RisuMain Argv.

(** ** State *)

(** What open, fstat, malloc and read do for a file that is sourced; the size is
    that of the contents. *)
Record script_file : Type := ScriptFile {
  sf_open : bool;
  sf_fstat : bool;
  sf_malloc : bool;
  sf_contents : list ascii
}.

Section shell.
Context `{Build} `{ArchMain} `{Zlib} `{CharSign}.

(** What the commands of a session see and leave, apart from the scanner;
    [ss_calls] counts the commands, as the system changes in between. *)
Record session : Type := Session {
  ss_opts : aopts;
  ss_image : image;
  ss_statics : option risu;
  ss_calls : nat;
  ss_out : text
}.

Record shell : Type := ShellState { sh_scan : getopt_state; sh_session : session }.

Definition on_session {A} (m : M session A) : M shell A :=
  zoom sh_session (fun s sh => ShellState (sh_scan sh) s) m.

Definition type (t : text) : M session () :=
  modify (fun s => Session (ss_opts s) (ss_image s) (ss_statics s) (ss_calls s) (ss_out s ++ t)).

Definition next_call : M session nat := fun s =>
  (inl (ss_calls s), Session (ss_opts s) (ss_image s) (ss_statics s) (S (ss_calls s)) (ss_out s)).

(** ** Commands *)

(** [printf] of the arguments. *)
Definition show_args (args : list string) : text :=
  [("\n%d args: "%string, [AInt (Z.of_nat (length args))])] ++
  imap (fun i a => ("%s%s"%string,
    [AStr a; AStr (if (i <? length args - 1)%nat then " " else EmptyString)])) args ++
  [("\n"%string, [])].

Section session.
Variable world : nat -> host.                        (* the system, for each command *)
Variable files : nat -> string -> script_file.
Variable zlib : bool.
Variable long_bits : Z.
Variable cpu : uctx -> option (signal * Z * uctx).
Variable start : image -> uctx.
Variable fuel : nat.

(** The variables of [risu_main] when it is called. *)
Definition call_config (s : session) : config :=
  Config false 9191 (Some "localhost"%string) None (ss_opts s) [] (ss_image s) (ss_statics s).

(** What a call leaves. *)
Definition after_call (s : session) (r : Z * option risu + halt) (c : config) : session :=
  Session (cf_opts c) (cf_image c) (cf_statics c) (S (ss_calls s))
    (ss_out s ++ cf_err c ++ match r with inl (_, Some w) => err w | _ => [] end).

(** [risu_main(argc, argv); optind = 0;].  There is no null pointer behind the
    arguments. *)
Definition risu_command (args : list string) : M shell () := fun sh =>
  let s := sh_session sh in
  let '(r, st) := risu_main (world (ss_calls s)) zlib long_bits false cpu start false fuel
                    (MainState (set_argv args (sh_scan sh)) (call_config s)) in
  let sh' := ShellState (set_optind 0 (scan_st st)) (after_call s r (conf st)) in
  match r with
  | inl _ => (inl (), sh')
  | inr halt => (inr halt, sh')
  end.

Section commands.
Variable run : list string -> M shell ().            (* the command risu *)
Variable evaluate : list ascii -> M shell ().        (* eval of a file *)

(** The command source.  The [continue] of the source skips the comparison of
    the name with risu, which it is not. *)
Definition source_command (args : list string) : M shell () :=
  match args with
  | [_; filename] =>
      n ← on_session next_call;
      let f := files n filename in
      if negb (sf_open f) then on_session (type [("failed to open file %s\n"%string, [AStr filename])])
      else if negb (sf_fstat f) then on_session (type [("%s: %m\n"%string, [AStr "fstat"])])
      else if negb (sf_malloc f) then on_session (type [("%s: %m\n"%string, [AStr "malloc"])])
      else evaluate (sf_contents f ++ [NUL])
  | _ => on_session (type [("Expected filename."%string, [])])
  end.

(** What is done with the words of a line; [true]: [eval] ends. *)
Definition command (args : list string) : M shell bool :=
  match args with
  | [] => mret false
  | name :: _ =>
      _ ← on_session (type (show_args args));
      if my_strcmp name "exit" =? 0 then
        _ ← on_session (type [("[Process completed]\n"%string, [])]); mret true
      else
        _ ← (if my_strcmp name "source" =? 0 then source_command args else mret ());
        _ ← (if my_strcmp name "risu" =? 0 then run args else mret ());
        mret false
  end.
End commands.

(** ** eval *)

(** The word a pointer leads to. *)
Definition word_at (buf : list ascii) (off : nat) : string :=
  String.string_of_list_ascii (before_nul (drop off buf)).

(** A call of [argcargv]: the words, the buffer it leaves, and where the next
    line starts. *)
Definition split_line (buf : list ascii) (b : nat) : M shell (list string * list ascii * option nat) :=
  fun sh =>
  let '(r, st) := argcargv true (Some b) (SplitState buf 0 0 0 [] []) in
  let '(_, sh') := on_session (type (printed st)) sh in
  match r with
  | inl (ptrs, _, next) => (inl (word_at (line_buf st) <$> ptrs, line_buf st, next), sh')
  | inr halt => (inr halt, sh')
  end.

(** [while (buf && *buf)]; the result is the buffer at the end.  A line has at
    least one character. *)
Fixpoint eval_loop (evaluate : list ascii -> M shell ()) (n : nat) (buf : list ascii) (pos : option nat)
    : M shell (list ascii) :=
  match n with
  | O => stop HFuel
  | S n' =>
      match pos with
      | None => mret buf
      | Some b =>
          match buf !! b with
          | None => stop HUB
          | Some c =>
              if Ascii.eqb c NUL then mret buf
              else
                l ← split_line buf b;
                let '(args, buf', next) := l in
                fin ← command risu_command evaluate args;
                if (fin : bool) then mret buf' else eval_loop evaluate n' buf' next
          end
      end
  end.

(** [depth] bounds how deep files source each other. *)
Fixpoint eval (depth : nat) (buf : list ascii) : M shell (list ascii) :=
  match depth with
  | O => stop HFuel
  | S d => eval_loop (fun t => _ ← eval d t; mret ()) (S (length buf)) buf (Some 0%nat)
  end.

(** ** main *)

Definition gbuf_size : nat := Z.to_nat 30000.

(** The characters up to the end of a line, at most [k]. *)
Fixpoint take_line (k : nat) (cs : list ascii) : list ascii * list ascii :=
  match k, cs with
  | S k', c :: t =>
      if Ascii.eqb c LF then ([c], t) else let '(l, r) := take_line k' t in (c :: l, r)
  | _, _ => ([], cs)
  end.

(** [fgets(gbuf, sizeof(gbuf), stdin)]: at the end of the input the buffer is
    left as it is. *)
Definition fgets (input gbuf : list ascii) : list ascii * list ascii :=
  match input with
  | [] => (gbuf, [])
  | _ => let '(l, r) := take_line (gbuf_size - 1) input in (l ++ NUL :: drop (S (length l)) gbuf, r)
  end.

(** [while (1)], for a number of prompts: the rest of the input, and the buffer. *)
Fixpoint shell_main (depth prompts : nat) (input gbuf : list ascii) : M shell (list ascii * list ascii) :=
  match prompts with
  | O => mret (input, gbuf)
  | S k =>
      _ ← on_session (type [("# "%string, [])]);
      let '(gbuf, input) := fgets input gbuf in
      gbuf ← eval depth gbuf;
      shell_main depth k input gbuf
  end.

(** ** The reference *)

(** The command risu: read the options once, and obey them. *)
Definition risu_ref (args : list string) : M shell () := fun sh =>
  let s := sh_session sh in
  let '(es, (_, n)) := parse short_opts setup_options (tail args) in
  let '(r, c) := main_ref (world (ss_calls s)) zlib long_bits cpu start false fuel ∅ es (head n)
                   (call_config s) in
  let sh' := ShellState (sh_scan sh) (after_call s r c) in
  match r with
  | inl _ => (inl (), sh')
  | inr halt => (inr halt, sh')
  end.

(** The lines of a text: their words, and how they end. *)
Fixpoint read_lines (k : nat) (cs : list ascii) : list (list string * mode) :=
  match k, cs with
  | S k', _ :: _ =>
      let '(ws, r, m) := lex Between [] cs in (String.string_of_list_ascii <$> ws, m) :: read_lines k' r
  | _, _ => []
  end.

Definition lines (cs : list ascii) : list (list string * mode) := read_lines (length cs) cs.

Fixpoint obey (evaluate : list ascii -> M shell ()) (ls : list (list string * mode)) : M shell () :=
  match ls with
  | [] => mret ()
  | (args, m) :: ls' =>
      _ ← on_session (type (complaint m ++ complaint m));
      fin ← command risu_ref evaluate args;
      if (fin : bool) then mret () else obey evaluate ls'
  end.

Fixpoint script (depth : nat) (cs : list ascii) : M shell () :=
  match depth with
  | O => stop HFuel
  | S d => obey (fun t => script d (before_nul t)) (lines cs)
  end.

(** ** Following the reference *)

(** The same session; the scanner will start afresh. *)
Definition sim (sh ref : shell) : Prop :=
  sh_session sh = sh_session ref /\ optind (sh_scan sh) = 0%nat.

Definition follows {A B} (P : A -> B -> Prop) (m : M shell A) (m' : M shell B) : Prop :=
  forall sh ref, sim sh ref ->
  match m sh, m' ref with
  | (inl a, sh'), (inl b, ref') => P a b /\ sim sh' ref'
  | (inr h, sh'), (inr h', ref') => h = h' /\ sim sh' ref'
  | _, _ => False
  end.

Lemma follows_ret {A B} (P : A -> B -> Prop) a b : P a b -> follows P (mret a) (mret b).
Proof. by intros HP sh ref S. Qed.

Lemma follows_stop {A B} (P : A -> B -> Prop) h : follows P (stop h) (stop h).
Proof. by intros sh ref S. Qed.

Lemma follows_bind {A B A' B'} (P : A -> B -> Prop) (Q : A' -> B' -> Prop) m m' k k' :
  follows P m m' -> (forall a b, P a b -> follows Q (k a) (k' b)) -> follows Q (m ≫= k) (m' ≫= k').
Proof.
  intros Hm Hk sh ref S. specialize (Hm sh ref S). unfold mbind, M_bind.
  destruct (m sh) as [[a|h] sh'], (m' ref) as [[b|h'] ref']; try done.
  destruct Hm as [HP S']. by apply Hk.
Qed.

Lemma follows_weaken {A B} (P Q : A -> B -> Prop) m m' :
  (forall a b, P a b -> Q a b) -> follows P m m' -> follows Q m m'.
Proof.
  intros HP Hm sh ref S. specialize (Hm sh ref S).
  destruct (m sh) as [[a|h] sh'], (m' ref) as [[b|h'] ref']; try done. destruct Hm. split; auto.
Qed.

Lemma follows_session {A} (m : M session A) : follows eq (on_session m) (on_session m).
Proof.
  intros [g s] [g' s'] [E Ei]. cbn in E. subst s'. unfold on_session, zoom. cbn.
  by destruct (m s) as [[a|h] s'].
Qed.

(** The architecture has no flags of its own, as on the PowerPC. *)
Hypothesis Hopts : arch_opts_ok.
Hypothesis Hflags : forall vs o, arch_flags vs o = o.

(** Then the flags of an earlier command do not matter. *)
Lemma apply_sets_lookup es (v w : gmap string Z) k :
  v !! k = w !! k -> apply_sets es v !! k = apply_sets es w !! k.
Proof.
  unfold apply_sets. revert v w. induction es as [|ev es IH]; intros v w E; [done |].
  cbn [foldl]. apply IH. unfold apply_set. destruct (ev_set ev) as [[x z]|]; [| done].
  destruct (decide (k = x)) as [->|N]; [by rewrite !lookup_insert_eq | by rewrite !lookup_insert_ne].
Qed.

Lemma master_wanted_reset es vs : master_wanted es vs = master_wanted es ∅.
Proof.
  unfold master_wanted, flags_after. f_equal. f_equal. apply apply_sets_lookup. by rewrite !lookup_insert_eq.
Qed.

Lemma main_ref_reset h es img vs c :
  main_ref h zlib long_bits cpu start false fuel vs es img c =
  main_ref h zlib long_bits cpu start false fuel ∅ es img c.
Proof.
  unfold main_ref. rewrite master_wanted_reset. unfold mbind, M_bind.
  destruct (configure zlib long_bits es c) as [[[z|]|halt] c']; [done | | done].
  unfold take_flags, modify. by rewrite !Hflags.
Qed.

Lemma risu_follows prog args :
  Forall no_nul args -> follows eq (risu_command (prog :: args)) (risu_ref (prog :: args)).
Proof.
  intros Hn [g s] [g' s'] [E Ei]. cbn in E, Ei. subst s'. unfold risu_command, risu_ref. cbn [sh_session sh_scan tail].
  destruct (parse short_opts setup_options args) as [es [oo n]] eqn:P.
  destruct (main_ok (world (ss_calls s)) zlib long_bits cpu start false fuel prog args
    (MainState (set_argv (prog :: args) g) (call_config s)) es oo n Hopts eq_refl Ei Hn P) as [K1 K2].
  cbn [scan_st conf] in K1, K2. rewrite main_ref_reset in K1, K2.
  change (set_cf_trace false (call_config s)) with (call_config s) in K1, K2.
  destruct (risu_main _ _ _ _ _ _ _ _ _) as [r st].
  destruct (main_ref _ _ _ _ _ _ _ _ _ _ _) as [r' c]. cbn in K1, K2. subst r' c.
  by destruct r as [[z w]|h].
Qed.

(** ** Words *)

Lemma no_nul_string w : plain w -> no_nul (String.string_of_list_ascii w).
Proof.
  induction 1 as [|c w Hc _ IH]; [done |]. cbn. split; [| done].
  intros E. apply Hc. destruct c as [[] [] [] [] [] [] [] []]; vm_compute in E; try done;
    by destruct char_signed.
Qed.

Lemma lex_shorter m w cs ws r m' :
  lex m w cs = (ws, r, m') -> (length r <= length cs - 1)%nat.
Proof.
  revert m w ws. induction cs as [|c cs IH]; intros m w ws E; cbn [lex] in E.
  - by injection E as <- <- <-.
  - cbn [length]. repeat case_match; simplify_eq; try (apply IH in E; lia); try lia;
      try (match goal with K : lex _ _ _ = _ |- _ => apply IH in K; lia end).
Qed.

Lemma lex_rest_plain m w cs ws r m' : plain cs -> lex m w cs = (ws, r, m') -> plain r.
Proof.
  intros Hc. revert m w ws. induction Hc as [|c cs Hc0 Hc IH]; intros m w ws E; cbn [lex] in E.
  - injection E as <- <- <-. constructor.
  - repeat case_match; simplify_eq; try done; try (by eapply IH);
      try (match goal with K : lex _ _ _ = _ |- _ => by eapply IH in K end).
Qed.

(** ** Lines *)

(** A line in a buffer is split into the words that reading it gives, and what
    follows it is left alone. *)
Lemma split_line_ok pre cs post ws r m sh :
  plain cs -> lex Between [] cs = (ws, r, m) ->
  exists buf' s,
    split_line (pre ++ cs ++ NUL :: post) (length pre) sh =
      (inl (String.string_of_list_ascii <$> ws, buf', Some s),
       snd (on_session (type (complaint m ++ complaint m)) sh)) /\
    drop s buf' = r ++ NUL :: post /\ length buf' = length (pre ++ cs ++ NUL :: post) /\
    (forall w, head ws = Some w -> before_nul (drop (length pre) buf') = w).
Proof.
  intros Hc E. set (st0 := SplitState (pre ++ cs ++ NUL :: post) 0 0 0 [] []).
  destruct (argcargv_ok pre cs post st0 ws r m eq_refl Hc E) as (s & st & Ea & Hw & _ & Hd & Hl & Hp).
  exists (line_buf st), s.
  assert (forall w, head ws = Some w -> before_nul (drop (length pre) (line_buf st)) = w) as Hf.
  { intros w Ew. destruct ws as [|w' ws]; [done |]. injection Ew as ->. by apply (Hw 0%nat). }
  split_and!; [| done | done | exact Hf]. unfold split_line. fold st0. rewrite Ea, Hp.
  cbn [printed st0 app]. destruct sh as [g ss]. unfold on_session, zoom. cbn. repeat f_equal.
  apply list_eq. intros k. rewrite !list_lookup_fmap.
  destruct (ws !! k) as [w|] eqn:Ew.
  - destruct (lookup_lt_is_Some_2 (offsets (length pre) ws) k) as [off Eo];
      [rewrite offsets_length; by eapply lookup_lt_Some |].
    rewrite Eo. cbn. unfold word_at. by rewrite (Hw k w off).
  - rewrite (proj2 (lookup_ge_None (offsets (length pre) ws) k)); [done |].
    rewrite offsets_length. by apply lookup_ge_None.
Qed.

Section evaluating.
Variables evaluate evaluate' : list ascii -> M shell ().
Hypothesis Hev : forall bs, follows eq (evaluate (bs ++ [NUL])) (evaluate' (bs ++ [NUL])).

Lemma source_follows args : follows eq (source_command evaluate args) (source_command evaluate' args).
Proof.
  unfold source_command. destruct args as [|a [|fn [|b args]]]; try apply follows_session.
  apply (follows_bind eq); [apply follows_session |]. intros n ? <-.
  repeat (case_match; [apply follows_session |]). apply Hev.
Qed.

Lemma command_follows args :
  Forall no_nul args ->
  follows eq (command risu_command evaluate args) (command risu_ref evaluate' args).
Proof.
  intros Hn. unfold command. destruct args as [|name args]; [by apply follows_ret |].
  apply (follows_bind eq); [apply follows_session |]. intros _ _ _.
  destruct (my_strcmp name "exit" =? 0).
  - apply (follows_bind eq); [apply follows_session |]. intros _ _ _. by apply follows_ret.
  - apply (follows_bind eq); [case_match; [apply source_follows | by apply follows_ret] |]. intros _ _ _.
    apply (follows_bind eq); [| intros _ _ _; by apply follows_ret].
    case_match; [| by apply follows_ret]. inversion Hn; subst. by apply risu_follows.
Qed.

(** The buffer at the end: if the text was one line, it starts with its first
    word. *)
Definition remains (pre cs post buf : list ascii) : Prop :=
  length buf = length (pre ++ cs ++ NUL :: post) /\ NUL ∈ buf /\
  forall w ws m, lex Between [] cs = (w :: ws, [], m) -> before_nul (drop (length pre) buf) = w.

Lemma eval_loop_follows n k pre cs post :
  plain cs -> (length cs < n)%nat -> (length cs <= k)%nat ->
  follows (fun buf _ => remains pre cs post buf)
    (eval_loop evaluate n (pre ++ cs ++ NUL :: post) (Some (length pre)))
    (obey evaluate' (read_lines k cs)).
Proof.
  revert k pre cs. induction n as [|n IH]; intros k pre cs Hc Hn Hk; [lia |]. cbn [eval_loop].
  rewrite lookup_app_r, Nat.sub_diag by done. destruct cs as [|c cs].
  { cbn [app lookup]. destruct k; (apply follows_ret; split; [done |]; split; [set_solver | done]). }
  cbn [app lookup list_lookup]. rewrite eqb_nul by (by inversion Hc).
  destruct k as [|k]; [cbn [length] in Hk; lia |]. cbn [read_lines].
  destruct (lex Between [] (c :: cs)) as [[ws r] m] eqn:E. cbn [obey].
  intros sh ref S.
  destruct (split_line_ok pre (c :: cs) post ws r m sh Hc E) as (buf' & s & Es & Hd & Hl & Hf).
  change (c :: cs ++ NUL :: post) with ((c :: cs) ++ NUL :: post).
  rewrite (bind_done _ _ _ _ _ Es).
  rewrite (bind_done (on_session (type _)) _ ref () (snd (on_session (type (complaint m ++ complaint m)) ref)))
    by done.
  pose proof (follows_session (type (complaint m ++ complaint m)) sh ref S) as S'.
  cbn in S'. destruct S' as [_ S'].
  assert (remains pre (c :: cs) post buf') as Hr.
  { split; [done |]. split; [rewrite <-(take_drop s buf'), Hd; set_solver |]. intros w ws' m' E'. rewrite E in E'. injection E' as -> _ _. by apply Hf. }
  revert S'. apply (follows_bind eq (fun buf _ => remains pre (c :: cs) post buf)).
  - apply command_follows. apply Forall_fmap.
    apply (lex_plain Between []) in E; [| done | constructor].
    eapply Forall_impl; [exact E |]. exact no_nul_string.
  - intros fin ? <-. destruct fin; [by apply follows_ret |].
    pose proof (lex_shorter _ _ _ _ _ _ E) as Hs. cbn [length] in *.
    assert (exists pre', buf' = pre' ++ r ++ NUL :: post /\ length pre' = s) as (pre' & -> & <-).
    { exists (take s buf'). rewrite <-Hd. split; [by rewrite take_drop |]. apply length_take_le.
      apply (f_equal length) in Hd. rewrite length_drop, length_app in Hd. cbn [length] in Hd. lia. }
    destruct r as [|c' r].
    { destruct n as [|n]; [lia |]. cbn [eval_loop]. rewrite lookup_app_r, Nat.sub_diag by done.
      cbn [app lookup]. destruct k; by apply follows_ret. }
    eapply follows_weaken; [| apply IH; [by eapply lex_rest_plain | lia | lia]].
    intros buf _ (L & Hn0 & _). split; [by rewrite L, Hl |]. split; [done |]. intros w ws' m' E'. rewrite E in E'. by injection E'.
Qed.
End evaluating.

Lemma before_nul_split bs :
  exists post, bs ++ [NUL] = before_nul (bs ++ [NUL]) ++ NUL :: post /\ plain (before_nul (bs ++ [NUL])).
Proof.
  induction bs as [|c bs (post & E & Hp)]; [exists []; by split; [| constructor] |]. cbn [app before_nul].
  destruct (Ascii.eqb_spec c NUL) as [->|N]; [by eexists; split; [| constructor] |].
  exists post. split; [by rewrite E at 1 | by constructor].
Qed.

(** Evaluating a buffer. *)
Lemma eval_follows depth cs post :
  plain cs ->
  follows (fun buf _ => remains [] cs post buf) (eval depth (cs ++ NUL :: post)) (script depth cs).
Proof.
  revert cs post. induction depth as [|d IH]; intros cs post Hc; [apply follows_stop |]. cbn [eval script].
  assert (forall bs, follows eq (_ ← eval d (bs ++ [NUL]); mret ()) (script d (before_nul (bs ++ [NUL])))) as Hev.
  2: { exact (eval_loop_follows _ _ Hev (S (length (cs ++ NUL :: post))) (length cs) [] cs post Hc
         ltac:(rewrite length_app; lia) ltac:(done)). }
  intros bs. destruct (before_nul_split bs) as (post' & E & Hp).
  intros sh ref S. pose proof (IH _ post' Hp sh ref S) as K. rewrite <-E in K. unfold mbind, M_bind.
  destruct (eval d _ sh) as [[b|h] sh'], (script d _ ref) as [[[]|h'] ref']; try done.
  by destruct K as [_ K].
Qed.

(** ** What is typed *)

(** A line that fits into the buffer. *)
Definition typed (l : list ascii) : Prop :=
  exists b, l = b ++ [LF] /\ plain b /\ Forall (fun c => c <> LF) b /\ (length l < gbuf_size)%nat.

(** Prompting for lines and obeying them. *)
Fixpoint session_ref (depth : nat) (ls : list (list ascii)) : M shell () :=
  match ls with
  | [] => mret ()
  | l :: ls' =>
      _ ← on_session (type [("# "%string, [])]);
      _ ← script depth l;
      session_ref depth ls'
  end.

Lemma typed_plain l : typed l -> plain l.
Proof. intros (b & -> & Hp & _). apply Forall_app. split; [done |]. by repeat constructor. Qed.

Lemma take_line_typed l rest : typed l -> take_line (gbuf_size - 1) (l ++ rest) = (l, rest).
Proof.
  intros (b & -> & _ & Hb & Hl). rewrite length_app in Hl. cbn [length] in Hl.
  assert (length b < gbuf_size - 1)%nat as Hk by lia. revert Hk. clear Hl. generalize (gbuf_size - 1)%nat as k.
  induction Hb as [|c b Hc _ IH]; intros [|k] Hk; cbn [length app take_line] in *; try lia.
  - done.
  - destruct (Ascii.eqb_spec c LF); [done |]. by rewrite IH by lia.
Qed.

Lemma fgets_typed l rest gbuf :
  typed l -> fgets (l ++ rest) gbuf = (l ++ NUL :: drop (S (length l)) gbuf, rest).
Proof.
  intros Hl. pose proof (take_line_typed l rest Hl) as E. unfold fgets.
  destruct (l ++ rest) eqn:K; [| by rewrite E].
  destruct Hl as (b & -> & _). destruct b; done.
Qed.

(** One prompt. *)
Lemma prompt_follows {A} (Q : list ascii * list ascii -> A -> Prop) depth k l rest gbuf m :
  typed l -> length gbuf = gbuf_size ->
  (forall g, length g = gbuf_size -> NUL ∈ g ->
     (forall w ws m, lex Between [] l = (w :: ws, [], m) -> before_nul g = w) ->
     follows Q (shell_main depth k rest g) m) ->
  follows Q (shell_main depth (S k) (l ++ rest) gbuf)
    (_ ← on_session (type [("# "%string, [])]); _ ← script depth l; m).
Proof.
  intros Hl Hg Hk. cbn [shell_main].
  apply (follows_bind eq); [apply follows_session |]. intros _ _ _. rewrite fgets_typed by done.
  eapply follows_bind; [apply eval_follows; by apply typed_plain |].
  intros buf _ (L & N & W). apply Hk; [| done | intros w ws m' E; by eapply W].
  rewrite L. cbn [app]. rewrite length_app. cbn [length]. rewrite length_drop, Hg.
  destruct Hl as (b & _ & _ & _ & Hl). lia.
Qed.

Lemma session_follows depth ls rest gbuf :
  Forall typed ls -> length gbuf = gbuf_size ->
  follows (fun p _ => fst p = rest /\ length (snd p) = gbuf_size)
    (shell_main depth (length ls) (concat ls ++ rest) gbuf) (session_ref depth ls).
Proof.
  intros Hls. revert gbuf. induction Hls as [|l ls Hl _ IH]; intros gbuf Hg; [by apply follows_ret |].
  cbn [length concat session_ref]. rewrite <-app_assoc. apply prompt_follows; [done | done |].
  intros g Hg' _ _. by apply IH.
Qed.

Lemma before_nul_elem l :
  NUL ∈ l -> exists post, l = before_nul l ++ NUL :: post /\ plain (before_nul l).
Proof.
  intros E. apply list_elem_of_split in E as (l1 & l2 & ->).
  destruct (before_nul_split l1) as (post & E & Hp).
  assert (before_nul (l1 ++ NUL :: l2) = before_nul (l1 ++ [NUL])) as ->.
  { clear. induction l1 as [|c l1 IH]; [done |]. cbn [app before_nul]. by rewrite IH. }
  exists (post ++ l2). split; [| done].
  change (NUL :: post ++ l2) with ((NUL :: post) ++ l2). by rewrite app_assoc, <-E, <-app_assoc.
Qed.

(** The end of the input. *)
Lemma end_follows depth l w ws m gbuf :
  typed l -> length gbuf = gbuf_size -> lex Between [] l = (w :: ws, [], m) ->
  follows (fun p _ => fst p = [] /\ length (snd p) = gbuf_size)
    (shell_main depth 2 l gbuf) (session_ref depth [l; w]).
Proof.
  intros Hl Hg E. rewrite <-(app_nil_r l) at 1. cbn [session_ref]. apply prompt_follows; [done | done |].
  intros g Hg' N W. specialize (W w ws m E). cbn [shell_main fgets].
  apply (follows_bind eq); [apply follows_session |]. intros _ _ _.
  destruct (before_nul_elem g N) as (post & Eg & Hp). rewrite W in Eg, Hp. rewrite Eg.
  eapply follows_bind; [by apply eval_follows |]. intros buf _ (L & _).
  apply follows_ret. cbn [fst snd]. split; [done |]. rewrite L. cbn [app]. by rewrite <-Eg.
Qed.
End session.
End shell.

(** ** Properties *)

Section properties.
Context `{Build} `{ArchMain} `{Zlib} `{CharSign}.
Variables (world : nat -> host) (files : nat -> string -> script_file).
Variables (zlib : bool) (long_bits : Z) (cpu : uctx -> option (signal * Z * uctx)).
Variables (start : image -> uctx) (fuel : nat).

(** C13: evaluating a text obeys its lines, one after the other, up to the first
    exit: splitting a line in place does not disturb the lines behind it, the
    loop ends, a file that is sourced is obeyed in its place, and each command
    risu does what its options say, with the architecture's options and the
    static variables that the commands before it have left. *)
Theorem eval_obeys depth cs post :
  arch_opts_ok -> (forall vs o, arch_flags vs o = o) -> plain cs ->
  follows (fun buf _ => length buf = length (cs ++ NUL :: post))
    (eval world files zlib long_bits cpu start fuel depth (cs ++ NUL :: post))
    (script world files zlib long_bits cpu start fuel depth cs).
Proof.
  intros Ho Hf Hc. eapply follows_weaken; [| by apply eval_follows]. by intros buf _ [L _].
Qed.

(** C14: the prompt loop obeys the lines that are typed, in their order, and its
    buffer is never overrun.  It does not notice the end of the input: then it
    obeys what splitting the last line has left in the buffer, its first word
    without the arguments. *)
Theorem shell_session depth gbuf :
  arch_opts_ok -> (forall vs o, arch_flags vs o = o) -> length gbuf = gbuf_size ->
  (forall ls rest, Forall typed ls ->
     follows (fun p _ => fst p = rest /\ length (snd p) = gbuf_size)
       (shell_main world files zlib long_bits cpu start fuel depth (length ls) (concat ls ++ rest) gbuf)
       (session_ref world files zlib long_bits cpu start fuel depth ls)) /\
  (forall l w ws m, typed l -> lex Between [] l = (w :: ws, [], m) ->
     follows (fun p _ => fst p = [] /\ length (snd p) = gbuf_size)
       (shell_main world files zlib long_bits cpu start fuel depth 2 l gbuf)
       (session_ref world files zlib long_bits cpu start fuel depth [l; w])).
Proof.
  intros Ho Hf Hg. split.
  - intros ls rest Hls. by apply session_follows.
  - intros l w ws m Hl E. by eapply end_follows.
Qed.
End properties.
