(* ===== verification/PpcFloat.v ===== *)
(** * Floating-point values as bit patterns (risu_reginfo_ppc64.c)

    The comparison of PowerPC register files classifies double-precision values
    by their 64-bit pattern.  This file holds the classification functions of
    the source, relates them to the IEEE 754 fields of a pattern (sign, biased
    exponent, fraction), and says what [exponent] and [normalize] compute. *)

From S2P Require Import Prelude.

(** [1LL << 63], the sign bit. *)
Definition sign_bit : Z := 0x8000000000000000.

Definition denormalized (n : Z) : bool :=
  (Z.land (Z.shiftr n 52) 0x7ff =? 0) && negb (andnot n sign_bit =? 0).

Definition zero (n : Z) : bool := andnot n sign_bit =? 0.

Definition signz (n : Z) : Z := Z.land n sign_bit.

Definition signinf (n : Z) : Z := Z.lor (Z.land n sign_bit) 0x7ff0000000000000.

Definition negative (n : Z) : bool := truth (Z.shiftr n 63).

Definition infinite (n : Z) : bool := andnot n sign_bit =? 0x7ff0000000000000.

Definition is_nan (n : Z) : bool := 0x7ff0000000000000 <? andnot n sign_bit.

Definition isqnan (n : Z) : bool := andnot n sign_bit =? 0x7ff8000000000000.

Definition anyqnan (n : Z) : bool := 0x7ff8000000000000 <=? andnot n sign_bit.

Definition neganyqnan (n : Z) : bool := 0xfff8000000000000 <=? n.

Definition snan (n : Z) : bool := is_nan n && negb (anyqnan n).

Definition qsnan (n : Z) : bool := 0x7ff8000000000000 <? andnot n sign_bit.

(** [ABS] of an [int64_t].  Negating INT64_MIN overflows, which C leaves
    undefined: [abs_int64_min] stands for what the compiled code returns. *)
Class AbsOverflow := abs_int64_min : Z.

Definition ABS `{AbsOverflow} (x : Z) : Z :=
  if x =? - 2 ^ 63 then abs_int64_min
  else if x <? 0 then - x else x.

(** The loops of [exponent] and [normalize]:
    [for (...; x < (1LL << 52); x <<= 1, exp--) {}]. *)
Fixpoint shift_up (fuel : nat) (x exp : Z) : Z * Z :=
  if x <? 2 ^ 52 then
    match fuel with
    | O => (x, exp)
    | S fuel' => shift_up fuel' (Z.shiftl x 1) (exp - 1)
    end
  else (x, exp).

#[global] Arguments shift_up : simpl never.

(** The fraction has 52 bits, so 52 shifts are enough for any but zero
    ([shift_up_spec]). *)
Definition FRACTION_BITS : nat := 52.

Definition exponent (n : Z) : Z :=
  if zero n then -4096
  else
    let exp := Z.land (Z.shiftr n 52) 0x7ff in
    if exp =? 0x7ff then 4096
    else
      let exp :=
        if exp =? 0
        then snd (shift_up FRACTION_BITS (Z.land n (2 ^ 52 - 1)) exp)
        else exp in
      exp - 1023.

Definition mantissa (n : Z) : Z :=
  Z.land n (2 ^ 52 - 1) +
  (if Z.land (Z.shiftr n 52) 0x7ff =? 0 then 2 ^ 52 else 0).

Definition normalize (n : Z) : Z :=
  if negb (denormalized n) then n
  else
    let '(x, exp) := shift_up FRACTION_BITS (Z.land n (2 ^ 52 - 1)) (1536 + 1) in
    Z.lor (Z.lor (Z.land n sign_bit) (Z.shiftl exp 52)) (Z.land x (2 ^ 52 - 1)).

(** [fabs(x) < FLT_MIN] and [fabs(x) >= FLT_MAX] on the pattern of [x]: the
    patterns of positive numbers are ordered like the numbers, and a comparison
    with a NaN is false. *)
Definition FLT_MIN : Z := 0x3810000000000000.
Definition FLT_MAX : Z := 0x47efffffe0000000.

Definition fabs_lt (n lim : Z) : bool := negb (is_nan n) && (andnot n sign_bit <? lim).
Definition fabs_ge (n lim : Z) : bool := negb (is_nan n) && (lim <=? andnot n sign_bit).

(** ** The fields of a pattern *)

Definition sign (n : Z) : Z := n / 2 ^ 63.
Definition biased (n : Z) : Z := (n / 2 ^ 52) mod 2 ^ 11.
Definition fraction (n : Z) : Z := n mod 2 ^ 52.

(** A finite pattern stands for [significand * 2 ^ (unit_exp - 1075)]. *)
Definition significand (n : Z) : Z :=
  if biased n =? 0 then fraction n else 2 ^ 52 + fraction n.
Definition unit_exp (n : Z) : Z := Z.max 1 (biased n).

Lemma magnitude_mod n : in_width 64 n -> andnot n sign_bit = n mod 2 ^ 63.
Proof.
  intros Hn. apply Z.bits_inj'. intros i Hi. unfold andnot.
  rewrite Z.ldiff_spec, Z.testbit_mod_pow2 by lia.
  change sign_bit with (2 ^ 63). rewrite Z.pow2_bits_eqb by lia.
  destruct (Z.ltb_spec i 63), (Z.eqb_spec 63 i); simpl; try lia.
  all: rewrite ?andb_true_r, ?andb_false_r; try done.
  by rewrite (testbit_in_width 64) by (done || lia).
Qed.

Lemma lor_add a b k : 0 <= k -> in_width k b -> Z.lor (a * 2 ^ k) b = a * 2 ^ k + b.
Proof.
  intros Hk Hb. symmetry. apply Z.add_nocarry_lor. apply Z.bits_inj'. intros i Hi.
  rewrite Z.land_spec, Z.bits_0. destruct (Z.ltb_spec i k).
  - by rewrite Z.mul_pow2_bits_low.
  - by rewrite (testbit_in_width k b), andb_false_r by (done || lia).
Qed.

Lemma sign_land n : in_width 64 n -> Z.land n sign_bit = sign n * 2 ^ 63.
Proof.
  intros Hn. apply Z.bits_inj'. intros i Hi. rewrite Z.land_spec.
  change sign_bit with (2 ^ 63). rewrite Z.pow2_bits_eqb by lia.
  destruct (Z.ltb_spec i 63).
  - rewrite Z.mul_pow2_bits_low by lia. destruct (Z.eqb_spec 63 i); [lia |]. apply andb_false_r.
  - rewrite Z.mul_pow2_bits by lia. unfold sign. rewrite Z.div_pow2_bits by lia.
    replace (i - 63 + 63) with i by lia. destruct (Z.eqb_spec 63 i) as [<-|]; simpl.
    + apply andb_true_r.
    + by rewrite (testbit_in_width 64) by (done || lia).
Qed.

Lemma biased_land n : Z.land (Z.shiftr n 52) 0x7ff = biased n.
Proof. change 0x7ff with (Z.ones 11). by rewrite Z.land_ones, Z.shiftr_div_pow2. Qed.

Lemma fraction_land n : Z.land n (2 ^ 52 - 1) = fraction n.
Proof. change (2 ^ 52 - 1) with (Z.ones 52). by rewrite Z.land_ones. Qed.

(** A pattern is its fields. *)
Lemma pattern_fields n : in_width 64 n ->
  n = sign n * 2 ^ 63 + biased n * 2 ^ 52 + fraction n /\
  0 <= sign n <= 1 /\ 0 <= biased n < 2048 /\ 0 <= fraction n < 2 ^ 52.
Proof.
  intros Hn. unfold in_width in Hn. unfold sign, biased, fraction.
  pose proof (Z.mod_pos_bound n (2 ^ 52)). pose proof (Z.mod_pos_bound (n / 2 ^ 52) (2 ^ 11)).
  pose proof (Z.div_mod n (2 ^ 52)). pose proof (Z.div_mod (n / 2 ^ 52) (2 ^ 11)).
  rewrite Z.div_div in * by lia. change (2 ^ 52 * 2 ^ 11) with (2 ^ 63) in *.
  assert (0 <= n / 2 ^ 63 <= 1).
  { split; [apply Z.div_pos; lia |].
    enough (n / 2 ^ 63 < 2) by lia. apply Z.div_lt_upper_bound; lia. }
  lia.
Qed.

Lemma fields_pattern s e f :
  0 <= s <= 1 -> 0 <= e < 2048 -> 0 <= f < 2 ^ 52 ->
  let n := s * 2 ^ 63 + e * 2 ^ 52 + f in
  in_width 64 n /\ sign n = s /\ biased n = e /\ fraction n = f.
Proof.
  intros Hs He Hf n. unfold in_width, sign, biased, fraction.
  assert (n / 2 ^ 52 = s * 2 ^ 11 + e) as E1.
  { symmetry. apply (Z.div_unique _ _ _ f); lia. }
  split; [lia |]. split; [| split].
  - symmetry. apply (Z.div_unique _ _ _ (e * 2 ^ 52 + f)); lia.
  - rewrite E1. symmetry. apply (Z.mod_unique _ _ s); lia.
  - symmetry. apply (Z.mod_unique _ _ (s * 2 ^ 11 + e)); lia.
Qed.

Lemma magnitude_fields n :
  in_width 64 n -> andnot n sign_bit = biased n * 2 ^ 52 + fraction n.
Proof.
  intros Hn. rewrite magnitude_mod by done.
  destruct (pattern_fields n Hn) as (E & Hs & He & Hf). symmetry.
  apply (Z.mod_unique _ _ (sign n)); lia.
Qed.

Lemma shift_up_spec fuel x exp :
  0 < x < 2 ^ 53 -> 52 - Z.log2 x <= Z.of_nat fuel ->
  shift_up fuel x exp = (x * 2 ^ (52 - Z.log2 x), exp - (52 - Z.log2 x)).
Proof.
  revert x exp. induction fuel as [|fuel IH]; intros x exp Hx Hf;
    pose proof (Z.log2_spec x) as L; pose proof (Z.log2_nonneg x);
    assert (Z.log2 x <= 52) by (enough (Z.log2 x < 53) by lia; apply Z.log2_lt_pow2; lia);
    unfold shift_up; fold shift_up; destruct (Z.ltb_spec x (2 ^ 52)) as [Hlt|Hge].
  - apply Z.log2_lt_pow2 in Hlt; lia.
  - assert (Z.log2 x = 52) as -> by (apply Z.log2_unique; lia). f_equal; lia.
  - apply Z.log2_lt_pow2 in Hlt as Hl; [| lia].
    rewrite Z.shiftl_mul_pow2 by lia. change (2 ^ 1) with 2.
    assert (Z.log2 (x * 2) = Z.log2 x + 1) as E
      by (rewrite Z.mul_comm, Z.log2_double by lia; lia).
    rewrite IH by lia. rewrite E. f_equal; [| lia].
    replace (52 - Z.log2 x) with (Z.succ (52 - (Z.log2 x + 1))) by lia.
    rewrite Z.pow_succ_r by lia. lia.
  - assert (Z.log2 x = 52) as -> by (apply Z.log2_unique; lia). f_equal; lia.
Qed.

(** The binary logarithm of the magnitude of a finite nonzero pattern, rounded
    down. *)
Definition floor_log2 (n : Z) : Z := Z.log2 (significand n) + unit_exp n - 1075.

Lemma zero_fields n : in_width 64 n -> zero n = (biased n =? 0) && (fraction n =? 0).
Proof.
  intros Hn. destruct (pattern_fields n Hn) as (E & Hs & He & Hf).
  unfold zero. rewrite magnitude_fields by done. apply Bool.eq_iff_eq_true. bool_simpl. lia.
Qed.

Lemma denormalized_fields n :
  in_width 64 n -> denormalized n = (biased n =? 0) && negb (fraction n =? 0).
Proof.
  intros Hn. destruct (pattern_fields n Hn) as (E & Hs & He & Hf).
  unfold denormalized. rewrite biased_land, magnitude_fields by done.
  apply Bool.eq_iff_eq_true. bool_simpl. lia.
Qed.

(** ** Properties *)

(** The classification functions say what their names say: of the fields of
    a pattern, they recognise the IEEE 754 encodings of zero, subnormal numbers,
    infinities and the two kinds of NaN. *)
Lemma float_classes n : in_width 64 n ->
  zero n = (biased n =? 0) && (fraction n =? 0) /\
  denormalized n = (biased n =? 0) && negb (fraction n =? 0) /\
  infinite n = (biased n =? 2047) && (fraction n =? 0) /\
  is_nan n = (biased n =? 2047) && negb (fraction n =? 0) /\
  anyqnan n = (biased n =? 2047) && (2 ^ 51 <=? fraction n) /\
  snan n = (biased n =? 2047) && negb (fraction n =? 0) && (fraction n <? 2 ^ 51) /\
  negative n = (sign n =? 1) /\
  neganyqnan n = (sign n =? 1) && anyqnan n.
Proof.
  intros Hn. destruct (pattern_fields n Hn) as (E & Hs & He & Hf).
  split; [by apply zero_fields |]. split; [by apply denormalized_fields |].
  unfold infinite, snan, is_nan, anyqnan, neganyqnan, negative, truth.
  rewrite magnitude_fields by done. rewrite Z.shiftr_div_pow2 by lia. fold (sign n).
  repeat split; apply Bool.eq_iff_eq_true; bool_simpl; lia.
Qed.

(** C40: for a normal number [exponent] is the binary logarithm of its magnitude,
    rounded down; for a subnormal number it is one less than that. *)
Theorem exponent_floor_log2 n :
  in_width 64 n -> zero n = false -> biased n <> 2047 ->
  exponent n = floor_log2 n - (if denormalized n then 1 else 0).
Proof.
  intros Hn Hz Hb. destruct (pattern_fields n Hn) as (E & Hs & He & Hf).
  unfold exponent. rewrite Hz, !biased_land, fraction_land.
  rewrite zero_fields in Hz by done. rewrite denormalized_fields by done.
  unfold floor_log2, significand, unit_exp.
  destruct (Z.eqb_spec (biased n) 0x7ff); [lia |].
  destruct (Z.eqb_spec (biased n) 0) as [B|B]; simpl in *.
  - rewrite Hz. simpl. apply Z.eqb_neq in Hz. rewrite B.
    rewrite shift_up_spec by (pose proof (Z.log2_nonneg (fraction n)); unfold FRACTION_BITS; lia). simpl. lia.
  - assert (Z.log2 (2 ^ 52 + fraction n) = 52) as -> by (apply Z.log2_unique; lia). lia.
Qed.

Lemma exponent_floor_log2_witness :
  exponent 0x0008000000000000 = -1024 /\ floor_log2 0x0008000000000000 = -1023 /\
  exponent 0x0008000000000000 = floor_log2 0x0008000000000000 - 1.
Proof.
  split; [reflexivity |]. split; [reflexivity |].
  apply (exponent_floor_log2 0x0008000000000000);
    [split; vm_compute; congruence | reflexivity | vm_compute; congruence].
Defined.

(** [normalize] turns a subnormal number into a normal one of the same sign
    and scales it by exactly [2 ^ 1536], the adjustment that the PowerPC makes
    for an enabled underflow exception; other patterns are left alone. *)
Lemma normalize_scales n : in_width 64 n ->
  (denormalized n = false -> normalize n = n) /\
  (denormalized n = true ->
    in_width 64 (normalize n) /\ sign (normalize n) = sign n /\
    1 <= biased (normalize n) <= 2046 /\
    significand (normalize n) * 2 ^ unit_exp (normalize n) =
      significand n * 2 ^ (unit_exp n + 1536)).
Proof.
  intros Hn. unfold normalize. split; [by intros -> |]. intros Hd. rewrite Hd. cbn [negb].
  destruct (pattern_fields n Hn) as (E & Hs & He & Hf).
  rewrite denormalized_fields in Hd by done. bool_simpl. destruct Hd as [B F].
  set (f := fraction n) in *. rewrite fraction_land. fold f.
  pose proof (Z.log2_nonneg f). pose proof (Z.log2_spec f) as L.
  assert (Z.log2 f < 52) by (apply Z.log2_lt_pow2; lia).
  rewrite shift_up_spec by (unfold FRACTION_BITS; lia).
  set (k := 52 - Z.log2 f) in *. rewrite fraction_land, sign_land, Z.shiftl_mul_pow2 by (done || lia).
  assert (2 ^ 52 <= f * 2 ^ k < 2 ^ 53) as Hx.
  { unfold k. assert (2 ^ 52 = 2 ^ Z.log2 f * 2 ^ (52 - Z.log2 f)) as P
      by (rewrite <-Z.pow_add_r by lia; f_equal; lia).
    assert (0 < 2 ^ (52 - Z.log2 f)) by (apply Z.pow_pos_nonneg; lia).
    rewrite Z.pow_succ_r in L by lia. change (2 ^ 53) with (2 * 2 ^ 52). nia. }
  assert (fraction (f * 2 ^ k) = f * 2 ^ k - 2 ^ 52) as ->.
  { unfold fraction. symmetry. apply (Z.mod_unique _ _ 1); lia. }
  set (e := 1536 + 1 - k). assert (1485 <= e <= 1536) as Hk by lia.
  replace (sign n * 2 ^ 63) with (sign n * 2 ^ 11 * 2 ^ 52) by lia.
  assert (forall a b, Z.lor (a * 2 ^ 52) (b * 2 ^ 52) = Z.lor a b * 2 ^ 52) as D.
  { intros a b. rewrite <-!Z.shiftl_mul_pow2 by lia. by rewrite Z.shiftl_lor. }
  rewrite D, (lor_add (sign n) e 11), lor_add by (unfold in_width; lia).
  replace ((sign n * 2 ^ 11 + e) * 2 ^ 52) with (sign n * 2 ^ 63 + e * 2 ^ 52) by lia.
  destruct (fields_pattern (sign n) e (f * 2 ^ k - 2 ^ 52)) as (W & S1 & B1 & F1); [lia.. |].
  split; [exact W |]. split; [exact S1 |]. rewrite B1. split; [lia |].
  unfold significand, unit_exp. rewrite B1, F1, B. fold f.
  destruct (Z.eqb_spec e 0); [lia |]. cbn [Z.eqb Z.max Z.compare].
  replace (2 ^ 52 + (f * 2 ^ k - 2 ^ 52)) with (f * 2 ^ k) by lia.
  rewrite <-Z.mul_assoc, <-Z.pow_add_r by lia. f_equal. f_equal. lia.
Qed.
