(* ===== verification/PpcTolerance.v ===== *)
(** * Register files of the PowerPC and tolerated differences (risu_reginfo_ppc64.c)

    [struct reginfo] as the source has it (without VRREGS and SAVESTACK, which
    no build of the repository defines), the option variables, and the condition
    under which the comparison accepts a difference in a floating-point
    register: the disjunction of the source, one definition per option. *)

From S2P Require Import Prelude PpcFloat.

Record ppc_reginfo : Type := PpcReginfo {
  second_prev_insn : Z;   (* uint32_t *)
  prev_insn : Z;
  faulting_insn : Z;
  next_insn : Z;
  nip : Z;
  gregs : list Z;         (* reg_t gregs[risu_NGREG] *)
  fpregs : list Z;        (* uint64_t fpregs[32] *)
  fpscr : Z               (* reg_t *)
}.

(** Indices of [gregs]. *)
Definition risu_NIP : Z := 32.
Definition risu_MSR : Z := 33.
Definition risu_CTR : Z := 34.
Definition risu_LNK : Z := 35.
Definition risu_XER : Z := 36.
Definition risu_CCR : Z := 37.
Definition risu_MQ : Z := 38.
Definition risu_DAR : Z := 39.
Definition risu_DSISR : Z := 40.
Definition risu_NGREG : Z := 41.

Definition gpr (r : ppc_reginfo) (i : Z) : Z := nth (Z.to_nat i) (gregs r) 0.
Definition fpr (r : ppc_reginfo) (i : Z) : Z := nth (Z.to_nat i) (fpregs r) 0.

Definition set_gpr (i v : Z) (r : ppc_reginfo) : ppc_reginfo :=
  PpcReginfo (second_prev_insn r) (prev_insn r) (faulting_insn r) (next_insn r) (nip r)
    (<[Z.to_nat i := v]> (gregs r)) (fpregs r) (fpscr r).
Definition set_fpr (i v : Z) (r : ppc_reginfo) : ppc_reginfo :=
  PpcReginfo (second_prev_insn r) (prev_insn r) (faulting_insn r) (next_insn r) (nip r)
    (gregs r) (<[Z.to_nat i := v]> (fpregs r)) (fpscr r).
Definition set_fpscr (v : Z) (r : ppc_reginfo) : ppc_reginfo :=
  PpcReginfo (second_prev_insn r) (prev_insn r) (faulting_insn r) (next_insn r) (nip r)
    (gregs r) (fpregs r) v.

(** The option variables. *)
Record ppc_opts : Type := PpcOpts {
  gregs_mask : Z;
  ccr_mask : Z;
  xer_mask : Z;
  mq_mask : Z;
  fpscr_mask : Z;
  fpregs_mask : Z;
  vrregs_mask : Z;
  fp_opts : Z;
  cpu_opts : Z
}.

Definition fp_opt_ignore_QNaN_signs : Z := 1.
Definition fp_opt_ignore_QNaN_values : Z := 2.
Definition fp_opt_ignore_QNaN_diffs : Z := 4.
Definition fp_opt_ignore_QNaN_load_float : Z := 8.
Definition fp_opt_ignore_NaN_operand : Z := 0x10.
Definition fp_opt_ignore_opposite_inf_operands : Z := 0x20.
Definition fp_opt_ignore_inf_x_0_operands : Z := 0x40.
Definition fp_opt_ignore_div_zero : Z := 0x80.
Definition fp_opt_ignore_underflow : Z := 0x100.
Definition fp_opt_ignore_overflow : Z := 0x200.
Definition fp_opt_ignore_round : Z := 0x400.
Definition fp_opt_ignore_round_s : Z := 0x800.
Definition fp_opt_ignore_rsqrt_negative : Z := 0x1000.
Definition fp_opt_ignore_rsqrt_negative_zero : Z := 0x2000.
Definition fp_opt_ignore_rsqrt_zero : Z := 0x4000.
Definition fp_opt_ignore_qnan_from_inf : Z := 0x8000.
Definition fp_opt_ignore_qnan_from_unknown : Z := 0x10000.
Definition fp_opt_ignore_inf_from_unknown : Z := 0x20000.
Definition fp_opt_ignore_zero_signs : Z := 0x40000.
Definition fp_opt_ignore_inf_div_inf : Z := 0x80000.
Definition fp_opt_ignore_QNaN_SNaN : Z := 0x100000.
Definition fp_opt_ignore_NaN_unknown_operands : Z := 0x200000.

Definition cpu_opt_include_601 : Z := 1.
Definition cpu_opt_use_601 : Z := 2.

(** [(1 << (31 - i)) & ~mask]: register [i] is excluded by a mask. *)
Definition masked (mask i : Z) : bool := negb (Z.testbit mask (31 - i)).

(** [(insn & mask) == opcode] for one of the opcodes of a list. *)
Definition insn_in (insn : Z) (l : list (Z * Z)) : bool :=
  existsb (fun '(mask, opcode) => Z.land insn mask =? opcode) l.

(** The register fields of the instruction before the faulting one. *)
Definition rt_of (m : ppc_reginfo) : Z := Z.land (Z.shiftr (prev_insn m) 21) 31.
Definition ra_of (m : ppc_reginfo) : Z := Z.land (Z.shiftr (prev_insn m) 16) 31.
Definition rb_of (m : ppc_reginfo) : Z := Z.land (Z.shiftr (prev_insn m) 11) 31.
Definition rc_of (m : ppc_reginfo) : Z := Z.land (Z.shiftr (prev_insn m) 6) 31.

(** ** Tolerated differences in floating-point registers *)

Section tolerance.
Context `{AbsOverflow}.
Variables (o : ppc_opts) (m a : ppc_reginfo) (i : Z).

Let rt := rt_of m.
Let ra := ra_of m.
Let rb := rb_of m.
Let rc := rc_of m.
Let prev_is := insn_in (prev_insn m).
Let second_prev_is := insn_in (second_prev_insn m).

(** [fp_opts & option] *)
Definition fp_opt (opt : Z) : bool := truth (Z.land (fp_opts o) opt).

Definition tolerates_QNaN_signs : bool :=
  (fp_opt fp_opt_ignore_QNaN_signs &&
   anyqnan (fpr a i) &&
   anyqnan (fpr m i) &&
   (andnot (fpr a i) (Z.shiftl 1 63) =? andnot (fpr m i) (Z.shiftl 1 63))).

Definition tolerates_QNaN_values : bool :=
  (fp_opt fp_opt_ignore_QNaN_values &&
   neganyqnan (fpr a i) &&
   neganyqnan (fpr m i)).

Definition tolerates_QNaN_diffs : bool :=
  (fp_opt fp_opt_ignore_QNaN_diffs &&
   anyqnan (fpr a i) &&
   anyqnan (fpr m i)).

Definition tolerates_QNaN_load_float : bool :=
  (fp_opt fp_opt_ignore_QNaN_load_float &&
   second_prev_is [
        (0xfc0007fe, 0x7c00046e); (* lfsux *)
        (0xfc000000, 0xc4000000); (* lfsu *)
        (0xfc0007ff, 0x7c00042e); (* lfsx *)
        (0xfc000000, 0xc0000000) (* lfs *)] &&
   ((Z.land (Z.shiftr (second_prev_insn m) 21) 31) =? i) &&
   (Z.land (fpr m i) 0xfff7ffffffffffff =? Z.land (fpr a i) 0xfff7ffffffffffff) &&
   (Z.land (fpr m i) 0x0008000000000000 =? 0)).

Definition tolerates_NaN_operand : bool :=
  (fp_opt fp_opt_ignore_NaN_operand &&
   prev_is [
        (0xfc0007fe, 0xfc00002a); (* fadd *)
        (0xfc0007fe, 0xec00002a); (* fadds *)
        (0xfc0007fe, 0xfc000024); (* fdiv *)
        (0xfc0007fe, 0xec000024); (* fdivs *)
        (0xfc0007fe, 0xfc000028); (* fsub *)
        (0xfc0007fe, 0xec000028) (* fsubs *)] &&
   (rt =? i) &&
   negb (ra =? i) &&
   negb (rb =? i) &&
   (is_nan (fpr m ra) ||
     is_nan (fpr m rb))) ||
  (fp_opt fp_opt_ignore_NaN_operand &&
   prev_is [
        (0xfc1f07fe, 0xfc000034); (* frsqrte *)
        (0xfc1f07fe, 0xfc000018) (* frsp *)] &&
   (rt =? i) &&
   negb (rb =? i) &&
   is_nan (fpr m rb)) ||
  (fp_opt fp_opt_ignore_NaN_operand &&
   prev_is [
        (0xfc00f83e, 0xfc000032); (* fmul *)
        (0xfc00f83e, 0xec000032) (* fmuls *)] &&
   (rt =? i) &&
   negb (ra =? i) &&
   negb (rc =? i) &&
   (is_nan (fpr m ra) ||
     is_nan (fpr m rc))) ||
  (fp_opt fp_opt_ignore_NaN_operand &&
   prev_is [
        (0xfc00003e, 0xfc00003a); (* fmadd *)
        (0xfc00003e, 0xfc000038); (* fmsub *)
        (0xfc00003e, 0xfc00003e); (* fnmadd *)
        (0xfc00003e, 0xfc00003c); (* fnmsub *)
        (0xfc00003e, 0xec00003a); (* fmadds *)
        (0xfc00003e, 0xec000038); (* fmsubs *)
        (0xfc00003e, 0xec00003e); (* fnmadds *)
        (0xfc00003e, 0xec00003c) (* fnmsubs *)] &&
   (rt =? i) &&
   negb (ra =? i) &&
   negb (rb =? i) &&
   negb (rc =? i) &&
   (is_nan (fpr m ra) ||
     is_nan (fpr m rb) ||
     is_nan (fpr m rc))).

Definition tolerates_opposite_inf_operands : bool :=
  (fp_opt fp_opt_ignore_opposite_inf_operands &&
   prev_is [
        (0xfc0007fe, 0xfc00002a); (* fadd *)
        (0xfc0007fe, 0xec00002a) (* fadds *)] &&
   (rt =? i) &&
   negb (ra =? i) &&
   negb (rb =? i) &&
   infinite (fpr m ra) &&
   infinite (fpr m rb) &&
   negb (eqb (negative (fpr m ra)) (negative (fpr m rb)))) ||
  (fp_opt fp_opt_ignore_opposite_inf_operands &&
   prev_is [
        (0xfc0007fe, 0xfc000028); (* fsub *)
        (0xfc0007fe, 0xec000028) (* fsubs *)] &&
   (rt =? i) &&
   negb (ra =? i) &&
   negb (rb =? i) &&
   infinite (fpr m ra) &&
   infinite (fpr m rb) &&
   eqb (negative (fpr m ra)) (negative (fpr m rb))) ||
  (fp_opt fp_opt_ignore_opposite_inf_operands &&
   (rt =? i) &&
   negb (ra =? i) &&
   negb (rb =? i) &&
   negb (rc =? i) &&
   (2048 <=? exponent (fpr m ra) + exponent (fpr m rc)) &&
   infinite (fpr m rb) &&
   ((prev_is [
            (0xfc00003e, 0xfc000038); (* fmsub *)
            (0xfc00003e, 0xec000038); (* fmsubs *)
            (0xfc00003e, 0xfc00003c); (* fnmsub *)
            (0xfc00003e, 0xec00003c) (* fnmsubs *)] &&
       eqb (negb (eqb (negative (fpr m ra)) (negative (fpr m rc)))) (negative (fpr m rb))) ||
     (prev_is [
            (0xfc00003e, 0xfc00003a); (* fmadd *)
            (0xfc00003e, 0xfc00003e); (* fnmadd *)
            (0xfc00003e, 0xec00003a); (* fmadds *)
            (0xfc00003e, 0xec00003e) (* fnmadds *)] &&
       negb (eqb (negb (eqb (negative (fpr m ra)) (negative (fpr m rc)))) (negative (fpr m rb)))))).

Definition tolerates_inf_x_0_operands : bool :=
  (fp_opt fp_opt_ignore_inf_x_0_operands &&
   prev_is [
        (0xfc00f83e, 0xfc000032); (* fmul *)
        (0xfc00003e, 0xfc00003a); (* fmadd *)
        (0xfc00003e, 0xfc000038); (* fmsub *)
        (0xfc00003e, 0xfc00003e); (* fnmadd *)
        (0xfc00003e, 0xfc00003c); (* fnmsub *)
        (0xfc00f83e, 0xec000032); (* fmuls *)
        (0xfc00003e, 0xec00003a); (* fmadds *)
        (0xfc00003e, 0xec000038); (* fmsubs *)
        (0xfc00003e, 0xec00003e); (* fnmadds *)
        (0xfc00003e, 0xec00003c) (* fnmsubs *)] &&
   (rt =? i) &&
   negb (ra =? i) &&
   negb (rc =? i) &&
   ((infinite (fpr m ra) &&
       zero (fpr m rc)) ||
     (zero (fpr m ra) &&
       infinite (fpr m rc)))).

Definition tolerates_div_zero : bool :=
  (fp_opt fp_opt_ignore_div_zero &&
   prev_is [
        (0xfc0007fe, 0xec000024); (* fdivs *)
        (0xfc0007fe, 0xfc000024); (* fdiv *)
        (0xfc1f07fe, 0xec000030) (* fres *)] &&
   (rt =? i) &&
   negb (rb =? i) &&
   zero (fpr m rb)).

(** Underflow, first part: results in single precision, and sums and differences that vanish. *)
Definition underflow_single : bool :=
  (prev_is [
        (0xfc1f07fe, 0xfc000018); (* frsp *)
        (0xfc00f83e, 0xec000032); (* fmuls *)
        (0xfc00003e, 0xec00003c); (* fnmsubs *)
        (0xfc00003e, 0xec00003a); (* fmadds *)
        (0xfc0007fe, 0xec000024); (* fdivs *)
        (0xfc00003e, 0xec000038); (* fmsubs *)
        (0xfc00003e, 0xec00003e); (* fnmadds *)
        (0xfc0007fe, 0xec00002a); (* fadds *)
        (0xfc0007fe, 0xec000028); (* fsubs *)
        (0xfc1f07fe, 0xec000030) (* fres *)] &&
   (rt =? i) &&
   fabs_lt (fpr m i) FLT_MIN &&
   eqb (negative (fpr a i)) (negative (fpr m i)) &&
   (exponent (fpr a i) <? (- 126))) ||
  (prev_is [
        (0xfc00003e, 0xec000038); (* fmsubs *)
        (0xfc00003e, 0xec00003e); (* fnmadds *)
        (0xfc00003e, 0xec00003c); (* fnmsubs *)
        (0xfc00f83e, 0xec000032); (* fmuls *)
        (0xfc00003e, 0xec00003a) (* fmadds *)] &&
   (rt =? i) &&
   eqb (negative (fpr a i)) (negative (fpr m i)) &&
   (exponent (fpr a i) <? (- 126)) &&
   ((negb (ra =? i) &&
       negb (rc =? i) &&
       (exponent (fpr m ra) + exponent (fpr m rc) <? (- 126))) ||
     (ra =? i) ||
     (rc =? i))) ||
  (prev_is [(0xfc0007fe, 0xec000024) (* fdivs *)] &&
   (rt =? i) &&
   eqb (negative (fpr a i)) (negative (fpr m i)) &&
   (exponent (fpr a i) <? (- 126)) &&
   ((negb (ra =? i) &&
       negb (rb =? i) &&
       (exponent (fpr m ra) - exponent (fpr m rb) <=? (- 126))) ||
     (ra =? i) ||
     (rb =? i))) ||
  (prev_is [(0xfc1f07fe, 0xfc000018) (* frsp *)] &&
   (rt =? i) &&
   negb (rb =? i) &&
   eqb (negative (fpr a i)) (negative (fpr m i)) &&
   (exponent (fpr a i) <? (- 126)) &&
   (exponent (fpr m rb) <? (- 126))) ||
  (prev_is [(0xfc1f07fe, 0xfc000018) (* frsp *)] &&
   (rt =? i) &&
   (rb =? i) &&
   eqb (negative (fpr a i)) (negative (fpr m i)) &&
   (exponent (fpr a i) <? (- 126)) &&
   (exponent (fpr m i) <? ((- 126) + 192))) ||
  (prev_is [
        (0xfc00003e, 0xfc00003a); (* fmadd *)
        (0xfc00003e, 0xfc00003e); (* fnmadd *)
        (0xfc00003e, 0xfc00003c); (* fnmsub *)
        (0xfc0007fe, 0xfc000028); (* fsub *)
        (0xfc0007fe, 0xfc00002a) (* fadd *)] &&
   (rt =? i) &&
   (fpr m i =? signz (fpr a i)) &&
   (exponent (fpr a i) <? (- 1022))) ||
  (prev_is [
        (0xfc0007fe, 0xec00002a); (* fadds *)
        (0xfc0007fe, 0xec000028) (* fsubs *)] &&
   (rt =? i) &&
   (fpr m i =? signz (fpr a i)) &&
   (exponent (fpr a i) <? (- 126))) ||
  (prev_is [
        (0xfc0007fe, 0xec00002a); (* fadds *)
        (0xfc0007fe, 0xec000028) (* fsubs *)] &&
   (rt =? i) &&
   eqb (negative (fpr a i)) (negative (fpr m i)) &&
   (exponent (fpr a i) <? (- 126)) &&
   ((ra =? i) ||
     (exponent (fpr m ra) <? (- 126))) &&
   ((rb =? i) ||
     (exponent (fpr m rb) <? (- 126)))) ||
  (prev_is [
        (0xfc0007fe, 0xec00002a); (* fadds *)
        (0xfc0007fe, 0xec000028) (* fsubs *)] &&
   (rt =? i) &&
   eqb (negative (fpr a i)) (negative (fpr m i)) &&
   (exponent (fpr a i) <? (- 126)) &&
   ((ABS (exponent (fpr m i) - exponent (fpr a i) - 192)) <=? 1)).

(** Underflow, second part: products and quotients whose operands say that the result is tiny. *)
Definition underflow_operands : bool :=
  (prev_is [
        (0xfc00f83e, 0xfc000032); (* fmul *)
        (0xfc00003e, 0xfc00003a); (* fmadd *)
        (0xfc00003e, 0xfc000038); (* fmsub *)
        (0xfc00003e, 0xfc00003e); (* fnmadd *)
        (0xfc00003e, 0xfc00003c) (* fnmsub *)] &&
   (rt =? i) &&
   negb (ra =? i) &&
   negb (rc =? i) &&
   (exponent (fpr a i) <? (- 126)) &&
   (exponent (fpr m ra) + exponent (fpr m rc) <? (- 1022))) ||
  (prev_is [
        (0xfc00f83e, 0xfc000032); (* fmul *)
        (0xfc00003e, 0xfc00003a); (* fmadd *)
        (0xfc00003e, 0xfc000038); (* fmsub *)
        (0xfc00003e, 0xfc00003e); (* fnmadd *)
        (0xfc00003e, 0xfc00003c) (* fnmsub *)] &&
   (rt =? i) &&
   negb (ra =? i) &&
   negb (rc =? i) &&
   (fpr m i =? signz (fpr a i)) &&
   denormalized (fpr a i) &&
   (exponent (fpr m ra) + exponent (fpr m rc) <? (- 1022))) ||
  (prev_is [(0xfc00f83e, 0xfc000032) (* fmul *)] &&
   (rt =? i) &&
   ((ra =? i) ||
     (rc =? i)) &&
   (exponent (fpr a i) <? (- 126)) &&
   (exponent (fpr m ra) <? 0x200)) ||
  (prev_is [(0xfc0007fe, 0xfc000024) (* fdiv *)] &&
   (rt =? i) &&
   negb (ra =? i) &&
   negb (rb =? i) &&
   eqb (negative (fpr a i)) (negative (fpr m i)) &&
   denormalized (fpr a i) &&
   (exponent (fpr m ra) - exponent (fpr m rb) <? (- 1022))) ||
  (prev_is [(0xfc0007fe, 0xfc000024) (* fdiv *)] &&
   (rt =? i) &&
   negb (ra =? i) &&
   negb (rb =? i) &&
   (fpr a i =? signz (fpr m i)) &&
   (exponent (fpr m ra) - exponent (fpr m rb) <? (- 1022))) ||
  (prev_is [(0xfc0007fe, 0xfc000024) (* fdiv *)] &&
   (rt =? i) &&
   negb (ra =? i) &&
   (rb =? i) &&
   (fpr a i =? signz (fpr m i)) &&
   (exponent (fpr a ra) <? (- 126))) ||
  (prev_is [(0xfc0007fe, 0xfc000024) (* fdiv *)] &&
   (rt =? i) &&
   (ra =? i) &&
   negb (rb =? i) &&
   (fpr a i =? signz (fpr m i))) ||
  (prev_is [(0xfc0007fe, 0xfc000024) (* fdiv *)] &&
   (rt =? i) &&
   ((ra =? i) ||
     (rb =? i)) &&
   (exponent (fpr a i) <? (- 1022)) &&
   (exponent (fpr m i) <? ((- 1022) + 1536))) ||
  (prev_is [(0xfc0007fe, 0xec000024) (* fdivs *)] &&
   (rt =? i) &&
   negb (ra =? i) &&
   negb (rb =? i) &&
   (fpr a i =? signz (fpr m i)) &&
   (exponent (fpr m ra) - exponent (fpr m rb) <? (- 126))) ||
  (prev_is [(0xfc0007fe, 0xec000024) (* fdivs *)] &&
   (rt =? i) &&
   negb (ra =? i) &&
   negb (rb =? i) &&
   (fpr m i =? signz (fpr a i)) &&
   (exponent (fpr m ra) - exponent (fpr m rb) <? (- 126))) ||
  (prev_is [(0xfc0007fe, 0xec000024) (* fdivs *)] &&
   (rt =? i) &&
   negb (ra =? i) &&
   (rb =? i) &&
   (fpr a i =? signz (fpr m i)) &&
   denormalized (fpr a ra)) ||
  (prev_is [(0xfc0007fe, 0xec000024) (* fdivs *)] &&
   (rt =? i) &&
   negb (rb =? i) &&
   (ra =? i) &&
   (fpr a i =? signz (fpr m i))) ||
  (prev_is [(0xfc1f07fe, 0xec000030) (* fres *)] &&
   (rt =? i) &&
   (exponent (fpr a i) <? (- 126)) &&
   ((rb =? i) ||
     (126 <=? exponent (fpr m rb)))) ||
  (prev_is [(0xfc1f07fe, 0xec000030) (* fres *)] &&
   (rt =? i) &&
   (rb =? i) &&
   (exponent (fpr a i) <? (- 126)) &&
   (exponent (fpr m i) =? exponent (fpr a i) + 192)).

(** Underflow, third part: the two results are the same up to the adjustment of the exponent that the PowerPC makes, or one of them vanishes. *)
Definition underflow_result : bool :=
  (prev_is [
        (0xfc0007fe, 0xfc000028); (* fsub *)
        (0xfc00003e, 0xfc000038); (* fmsub *)
        (0xfc00003e, 0xfc00003e); (* fnmadd *)
        (0xfc00003e, 0xfc00003c); (* fnmsub *)
        (0xfc00003e, 0xfc00003a); (* fmadd *)
        (0xfc00f83e, 0xfc000032); (* fmul *)
        (0xfc0007fe, 0xfc00002a); (* fadd *)
        (0xfc0007fe, 0xfc000024) (* fdiv *)] &&
   (rt =? i) &&
   eqb (negative (fpr a i)) (negative (fpr m i)) &&
   denormalized (fpr a i) &&
   ((ABS (s64 (normalize (fpr a i) - fpr m i))) <=? 0x20000)) ||
  (prev_is [(0xfc00003e, 0xfc000038) (* fmsub *)] &&
   (rt =? i) &&
   (fpr m i =? signz (fpr a i)) &&
   denormalized (fpr a i)) ||
  (prev_is [(0xfc0007fe, 0xfc00002a) (* fadd *)] &&
   (rt =? i) &&
   ((ra =? i) ||
     (rb =? i)) &&
   (fpr m i =? signz (fpr a i)) &&
   denormalized (fpr a i)) ||
  (prev_is [
        (0xfc00003e, 0xec00003c); (* fnmsubs *)
        (0xfc0007fe, 0xec000028); (* fsubs *)
        (0xfc0007fe, 0xec00002a) (* fadds *)] &&
   (rt =? i) &&
   (exponent (fpr a i) <? (- 126)) &&
   (exponent (fpr m i) =? exponent (fpr a i) + 192) &&
   ((ABS (s64 (mantissa (fpr a i) - mantissa (fpr m i)))) <=? 0x20000000)) ||
  (prev_is [(0xfc00003e, 0xec00003a) (* fmadds *)] &&
   (rt =? i) &&
   negb (ra =? i) &&
   negb (rc =? i) &&
   negb (rb =? i) &&
   ((zero (fpr m ra) &&
       denormalized (fpr m rc)) ||
     (zero (fpr m rc) &&
       denormalized (fpr m ra))) &&
   zero (fpr m i) &&
   (fpr a i =? fpr m rb)) ||
  (prev_is [
        (0xfc00003e, 0xec00003c); (* fnmsubs *)
        (0xfc00003e, 0xec00003a); (* fmadds *)
        (0xfc00003e, 0xec000038); (* fmsubs *)
        (0xfc00003e, 0xec00003e) (* fnmadds *)] &&
   (rt =? i) &&
   ((ra =? i) ||
     (exponent (fpr a ra) <? (- 126))) &&
   ((rb =? i) ||
     (exponent (fpr a rb) <? (- 126))) &&
   ((rc =? i) ||
     (exponent (fpr a rc) <? (- 126)))).

Definition tolerates_underflow : bool :=
  fp_opt fp_opt_ignore_underflow && (underflow_single || underflow_operands || underflow_result).

(** Overflow, first part: mostly single precision. *)
Definition overflow_single : bool :=
  (prev_is [
        (0xfc00003e, 0xec00003a); (* fmadds *)
        (0xfc00003e, 0xec000038); (* fmsubs *)
        (0xfc00003e, 0xec00003e); (* fnmadds *)
        (0xfc00003e, 0xec00003c); (* fnmsubs *)
        (0xfc00003e, 0xfc00003a); (* fmadd *)
        (0xfc00003e, 0xfc000038); (* fmsub *)
        (0xfc00003e, 0xfc00003e); (* fnmadd *)
        (0xfc00003e, 0xfc00003c) (* fnmsub *)] &&
   (rt =? i) &&
   infinite (fpr m i) &&
   isqnan (fpr a i) &&
   ((ra =? i) ||
     (rb =? i) ||
     (rc =? i))) ||
  (prev_is [
        (0xfc00003e, 0xec00003e); (* fnmadds *)
        (0xfc00003e, 0xec00003c); (* fnmsubs *)
        (0xfc00003e, 0xec000038); (* fmsubs *)
        (0xfc00003e, 0xec00003a); (* fmadds *)
        (0xfc0007fe, 0xec000024); (* fdivs *)
        (0xfc0007fe, 0xec00002a); (* fadds *)
        (0xfc00f83e, 0xec000032); (* fmuls *)
        (0xfc1f07fe, 0xec000030); (* fres *)
        (0xfc0007fe, 0xec000028) (* fsubs *)] &&
   (rt =? i) &&
   (infinite (fpr m i) ||
     fabs_ge (fpr m i) FLT_MAX) &&
   (126 <? exponent (fpr a i))) ||
  (prev_is [
        (0xfc0007fe, 0xec000028); (* fsubs *)
        (0xfc0007fe, 0xec00002a); (* fadds *)
        (0xfc00f83e, 0xec000032); (* fmuls *)
        (0xfc00003e, 0xec00003a); (* fmadds *)
        (0xfc00003e, 0xec000038); (* fmsubs *)
        (0xfc00003e, 0xec00003e); (* fnmadds *)
        (0xfc00003e, 0xec00003c) (* fnmsubs *)] &&
   (rt =? i) &&
   (fpr a i =? signinf (fpr m i)) &&
   ((negb (ra =? i) &&
       negb (rb =? i) &&
       denormalized (fpr a rb) &&
       (126 <? exponent (fpr m ra)) &&
       (exponent (fpr m i) =? exponent (fpr a ra) - 192) &&
       ((ABS (s64 (mantissa (fpr a ra) - mantissa (fpr m i)))) <=? 0x20000000)) ||
     (negb (ra =? i) &&
       (126 <? exponent (fpr m ra))) ||
     (negb (rb =? i) &&
       (126 <? exponent (fpr m rb))) ||
     (infinite (fpr a i) &&
       ((ra =? i) ||
         (rb =? i))))) ||
  (prev_is [
        (0xfc00f83e, 0xec000032); (* fmuls *)
        (0xfc00003e, 0xec00003a); (* fmadds *)
        (0xfc00003e, 0xec000038); (* fmsubs *)
        (0xfc00003e, 0xec00003e); (* fnmadds *)
        (0xfc00003e, 0xec00003c) (* fnmsubs *)] &&
   (rt =? i) &&
   negb (ra =? i) &&
   negb (rc =? i) &&
   (fpr a i =? signinf (fpr m i)) &&
   (126 <=? exponent (fpr m ra) + exponent (fpr m rc))) ||
  (prev_is [
        (0xfc00003e, 0xec00003a); (* fmadds *)
        (0xfc00003e, 0xec000038); (* fmsubs *)
        (0xfc00003e, 0xec00003e); (* fnmadds *)
        (0xfc00003e, 0xec00003c) (* fnmsubs *)] &&
   (rt =? i) &&
   negb (rb =? i) &&
   eqb (negative (fpr a i)) (negative (fpr m i)) &&
   (126 <=? exponent (fpr a i)) &&
   (126 <=? exponent (fpr m rb))).

(** Overflow, second part: mostly double precision, and reciprocals. *)
Definition overflow_double : bool :=
  (prev_is [
        (0xfc00f83e, 0xfc000032); (* fmul *)
        (0xfc00003e, 0xfc00003a); (* fmadd *)
        (0xfc00003e, 0xfc000038); (* fmsub *)
        (0xfc00003e, 0xfc00003e); (* fnmadd *)
        (0xfc00003e, 0xfc00003c) (* fnmsub *)] &&
   (rt =? i) &&
   negb (ra =? i) &&
   negb (rc =? i) &&
   (fpr a i =? signinf (fpr m i)) &&
   (1023 <=? exponent (fpr m ra) + exponent (fpr m rc))) ||
  (prev_is [
        (0xfc00003e, 0xfc00003a); (* fmadd *)
        (0xfc00003e, 0xfc000038); (* fmsub *)
        (0xfc00003e, 0xfc00003e); (* fnmadd *)
        (0xfc00003e, 0xfc00003c) (* fnmsub *)] &&
   (fpr a i =? signinf (fpr m i)) &&
   (rt =? i) &&
   ((rb =? i) ||
     (ra =? i))) ||
  (prev_is [(0xfc00003e, 0xfc00003e) (* fnmadd *)] &&
   (rt =? i) &&
   negb (ra =? i) &&
   (rc =? i) &&
   (fpr a i =? signinf (fpr m i)) &&
   (0 <? exponent (fpr m ra))) ||
  (prev_is [(0xfc0007fe, 0xfc000024) (* fdiv *)] &&
   (rt =? i) &&
   negb (ra =? i) &&
   negb (rb =? i) &&
   (fpr a i =? signinf (fpr m i)) &&
   (1023 <=? exponent (fpr m ra) - exponent (fpr m rb))) ||
  (prev_is [(0xfc0007fe, 0xfc000024) (* fdiv *)] &&
   (rt =? i) &&
   ((rb =? i) ||
     (ra =? i)) &&
   (fpr a i =? signinf (fpr m i))) ||
  (prev_is [(0xfc0007fe, 0xec000024) (* fdivs *)] &&
   (rt =? i) &&
   negb (ra =? i) &&
   negb (rb =? i) &&
   (fpr a i =? signinf (fpr m i)) &&
   (126 <=? exponent (fpr m ra) - exponent (fpr m rb))) ||
  (prev_is [(0xfc1f07fe, 0xec000030) (* fres *)] &&
   (rt =? i) &&
   (fpr a i =? signinf (fpr m i)) &&
   ((rb =? i) ||
     (126 <=? (- exponent (fpr m rb))))) ||
  (prev_is [(0xfc1f07fe, 0xfc000018) (* frsp *)] &&
   (rt =? i) &&
   negb (rb =? i) &&
   (fpr a i =? signinf (fpr m i)) &&
   (126 <=? exponent (fpr m rb))) ||
  (prev_is [(0xfc1f07fe, 0xfc000018) (* frsp *)] &&
   (rt =? i) &&
   (rb =? i) &&
   (fpr a i =? signinf (fpr m i)) &&
   infinite (fpr a i)).

Definition tolerates_overflow : bool :=
  fp_opt fp_opt_ignore_overflow && (overflow_single || overflow_double).

Definition tolerates_round : bool :=
  (fp_opt fp_opt_ignore_round &&
   prev_is [
        (0xfc00003e, 0xfc00003e); (* fnmadd *)
        (0xfc00003e, 0xfc00003a); (* fmadd *)
        (0xfc0007fe, 0xfc000028); (* fsub *)
        (0xfc00f83e, 0xfc000032); (* fmul *)
        (0xfc00003e, 0xfc00003c); (* fnmsub *)
        (0xfc00003e, 0xfc000038); (* fmsub *)
        (0xfc0007fe, 0xfc000024); (* fdiv *)
        (0xfc0007fe, 0xfc00002a) (* fadd *)] &&
   (rt =? i) &&
   negb (anyqnan (fpr a i)) &&
   negb (anyqnan (fpr m i)) &&
   ((ABS (s64 (fpr a i - fpr m i))) <=? 1)) ||
  (fp_opt fp_opt_ignore_round &&
   prev_is [
        (0xfc1f07fe, 0xfc000034); (* frsqrte *)
        (0xfc1f07fe, 0xec000030) (* fres *)] &&
   (rt =? i) &&
   negb (anyqnan (fpr a i)) &&
   negb (anyqnan (fpr m i)) &&
   ((ABS (s64 (fpr a i - fpr m i))) <=? (Z.shiftl 1 47))).

Definition tolerates_round_s : bool :=
  (fp_opt fp_opt_ignore_round_s &&
   prev_is [
        (0xfc00f83e, 0xec000032); (* fmuls *)
        (0xfc00003e, 0xec00003c); (* fnmsubs *)
        (0xfc0007fe, 0xec000024); (* fdivs *)
        (0xfc00003e, 0xec00003a); (* fmadds *)
        (0xfc0007fe, 0xec00002a); (* fadds *)
        (0xfc00003e, 0xec00003e); (* fnmadds *)
        (0xfc1f07fe, 0xfc000018); (* frsp *)
        (0xfc00003e, 0xec000038); (* fmsubs *)
        (0xfc0007fe, 0xec000028) (* fsubs *)] &&
   (rt =? i) &&
   negb (anyqnan (fpr a i)) &&
   negb (anyqnan (fpr m i)) &&
   (u64 (ABS (s64 (fpr a i - fpr m i))) <=? 0x800000000)) ||
  (fp_opt fp_opt_ignore_round_s &&
   prev_is [
        (0xfc00f83e, 0xec000032); (* fmuls *)
        (0xfc00003e, 0xec00003c); (* fnmsubs *)
        (0xfc0007fe, 0xec000024); (* fdivs *)
        (0xfc00003e, 0xec00003a); (* fmadds *)
        (0xfc0007fe, 0xec00002a); (* fadds *)
        (0xfc00003e, 0xec00003e); (* fnmadds *)
        (0xfc1f07fe, 0xfc000018); (* frsp *)
        (0xfc00003e, 0xec000038); (* fmsubs *)
        (0xfc0007fe, 0xec000028) (* fsubs *)] &&
   (rt =? i) &&
   negb (anyqnan (fpr a i)) &&
   negb (anyqnan (fpr m i)) &&
   (exponent (fpr a i) <? (- 126)) &&
   (exponent (fpr m i) <? (- 126)) &&
   (u64 (ABS (s64 (fpr a i - fpr m i))) <=? 0x800000000000)) ||
  (fp_opt fp_opt_ignore_round_s &&
   prev_is [
        (0xfc0007fe, 0xec00002a); (* fadds *)
        (0xfc0007fe, 0xec000028) (* fsubs *)] &&
   (rt =? i) &&
   negb (ra =? i) &&
   negb (rb =? i) &&
   negb (anyqnan (fpr a i)) &&
   negb (anyqnan (fpr m i)) &&
   (exponent (fpr m i) <? (- 126)) &&
   (exponent (fpr a i) <? (- 126)) &&
   (exponent (fpr a ra) <? (- 126)) &&
   (exponent (fpr m rb) <? (- 126))).

Definition tolerates_rsqrt_negative : bool :=
  (fp_opt fp_opt_ignore_rsqrt_negative &&
   prev_is [(0xfc1f07fe, 0xfc000034) (* frsqrte *)] &&
   (rt =? i) &&
   isqnan (fpr a i) &&
   ((rb =? i) ||
     negative (fpr m rb))).

Definition tolerates_rsqrt_negative_zero : bool :=
  (fp_opt fp_opt_ignore_rsqrt_negative_zero &&
   prev_is [(0xfc1f07fe, 0xfc000034) (* frsqrte *)] &&
   (rt =? i) &&
   negb (rb =? i) &&
   (fpr m rb =? 0x8000000000000000) &&
   (fpr a i =? 0xfff0000000000000)).

Definition tolerates_rsqrt_zero : bool :=
  (fp_opt fp_opt_ignore_rsqrt_zero &&
   prev_is [(0xfc1f07fe, 0xfc000034) (* frsqrte *)] &&
   (rt =? i) &&
   negb (rb =? i) &&
   (fpr m rb =? 0) &&
   (fpr a i =? 0x7ff0000000000000)).

Definition tolerates_qnan_from_inf : bool :=
  (fp_opt fp_opt_ignore_qnan_from_inf &&
   prev_is [
        (0xfc00f83e, 0xfc000032); (* fmul *)
        (0xfc00003e, 0xfc00003a); (* fmadd *)
        (0xfc00003e, 0xfc000038); (* fmsub *)
        (0xfc00003e, 0xfc00003e); (* fnmadd *)
        (0xfc00003e, 0xfc00003c); (* fnmsub *)
        (0xfc00003e, 0xec00003e) (* fnmadds *)] &&
   (rt =? i) &&
   isqnan (fpr a i) &&
   ((negb (ra =? i) &&
       infinite (fpr a ra)) ||
     (negb (rc =? i) &&
       infinite (fpr a rc)))).

Definition tolerates_qnan_from_unknown : bool :=
  (fp_opt fp_opt_ignore_qnan_from_unknown &&
   prev_is [(0xfc0007fe, 0xfc000024) (* fdiv *)] &&
   (rt =? i) &&
   isqnan (fpr a i) &&
   ((ra =? i) ||
     (rb =? i))).

Definition tolerates_inf_from_unknown : bool :=
  (fp_opt fp_opt_ignore_inf_from_unknown &&
   prev_is [
        (0xfc1f07fe, 0xfc000034); (* frsqrte *)
        (0xfc1f07fe, 0xec000030) (* fres *)] &&
   (rt =? i) &&
   infinite (fpr a i) &&
   (rb =? i)) ||
  (fp_opt fp_opt_ignore_inf_from_unknown &&
   prev_is [(0xfc0007fe, 0xec000024) (* fdivs *)] &&
   (rt =? i) &&
   infinite (fpr a i) &&
   ((ra =? i) ||
     (rb =? i))) ||
  (fp_opt fp_opt_ignore_inf_from_unknown &&
   prev_is [
        (0xfc00f83e, 0xfc000032); (* fmul *)
        (0xfc00003e, 0xfc00003a); (* fmadd *)
        (0xfc00003e, 0xfc000038); (* fmsub *)
        (0xfc00003e, 0xfc00003e); (* fnmadd *)
        (0xfc00003e, 0xfc00003c); (* fnmsub *)
        (0xfc00f83e, 0xec000032); (* fmuls *)
        (0xfc00003e, 0xec00003a); (* fmadds *)
        (0xfc00003e, 0xec000038); (* fmsubs *)
        (0xfc00003e, 0xec00003e); (* fnmadds *)
        (0xfc00003e, 0xec00003c) (* fnmsubs *)] &&
   (rt =? i) &&
   infinite (fpr a i) &&
   ((ra =? i) ||
     (rc =? i))).

Definition tolerates_zero_signs : bool :=
  (fp_opt fp_opt_ignore_zero_signs &&
   zero (fpr a i) &&
   zero (fpr m i) &&
   (andnot (fpr a i) (Z.shiftl 1 63) =? andnot (fpr m i) (Z.shiftl 1 63))).

Definition tolerates_inf_div_inf : bool :=
  (fp_opt fp_opt_ignore_inf_div_inf &&
   prev_is [
        (0xfc0007fe, 0xfc000024); (* fdiv *)
        (0xfc0007fe, 0xec000024) (* fdivs *)] &&
   (rt =? i) &&
   infinite (fpr a ra) &&
   infinite (fpr a rb)).

Definition tolerates_QNaN_SNaN : bool :=
  (fp_opt fp_opt_ignore_QNaN_SNaN &&
   prev_is [(0xfc0007fe, 0xfc000024) (* fdiv *)] &&
   (rt =? i) &&
   is_nan (fpr a i) &&
   is_nan (fpr m i)).

Definition tolerates_NaN_unknown_operands : bool :=
  (fp_opt fp_opt_ignore_NaN_unknown_operands &&
   prev_is [
        (0xfc00003e, 0xfc00003a); (* fmadd *)
        (0xfc00003e, 0xfc000038); (* fmsub *)
        (0xfc00003e, 0xfc00003e); (* fnmadd *)
        (0xfc00003e, 0xfc00003c); (* fnmsub *)
        (0xfc00003e, 0xec00003a); (* fmadds *)
        (0xfc00003e, 0xec000038); (* fmsubs *)
        (0xfc00003e, 0xec00003e); (* fnmadds *)
        (0xfc00003e, 0xec00003c) (* fnmsubs *)] &&
   (rt =? i) &&
   is_nan (fpr a i) &&
   ((ra =? i) ||
     (rb =? i) ||
     (rc =? i))).

(** Whether a difference in floating-point register [i] is accepted. *)
Definition fp_tolerated : bool :=
  masked (fpregs_mask o) i ||
  tolerates_QNaN_signs ||
  tolerates_QNaN_values ||
  tolerates_QNaN_diffs ||
  tolerates_QNaN_load_float ||
  tolerates_NaN_operand ||
  tolerates_opposite_inf_operands ||
  tolerates_inf_x_0_operands ||
  tolerates_div_zero ||
  tolerates_underflow ||
  tolerates_overflow ||
  tolerates_round ||
  tolerates_round_s ||
  tolerates_rsqrt_negative ||
  tolerates_rsqrt_negative_zero ||
  tolerates_rsqrt_zero ||
  tolerates_qnan_from_inf ||
  tolerates_qnan_from_unknown ||
  tolerates_inf_from_unknown ||
  tolerates_zero_signs ||
  tolerates_inf_div_inf ||
  tolerates_QNaN_SNaN ||
  tolerates_NaN_unknown_operands.
End tolerance.

#[global] Arguments fp_tolerated : simpl never.

(** ** Options only add tolerance *)

(** Every bit of [x] is set in [y]. *)
Definition bits_in (x y : Z) : Prop := Z.ldiff x y = 0.

Lemma bits_in_land x y : bits_in x y -> Z.land x y = x.
Proof. intros E. rewrite <-(Z.lor_ldiff_and x y) at 2. by rewrite E. Qed.

Lemma bits_in_testbit x y k : bits_in x y -> Z.testbit x k = true -> Z.testbit y k = true.
Proof.
  intros E Hx. rewrite <-(bits_in_land _ _ E), Z.land_spec in Hx.
  by apply andb_prop in Hx as [_ Hy].
Qed.

Lemma bits_in_refl x : bits_in x x.
Proof. apply Z.ldiff_diag. Qed.

(** [o'] accepts at least what [o] accepts: more options, fewer bits compared. *)
Record more_tolerant (o o' : ppc_opts) : Prop := {
  mt_fp_opts : bits_in (fp_opts o) (fp_opts o');
  mt_cpu_opts : bits_in (cpu_opts o) (cpu_opts o');
  mt_gregs : bits_in (gregs_mask o') (gregs_mask o);
  mt_ccr : bits_in (ccr_mask o') (ccr_mask o);
  mt_xer : bits_in (xer_mask o') (xer_mask o);
  mt_mq : bits_in (mq_mask o') (mq_mask o);
  mt_fpscr : bits_in (fpscr_mask o') (fpscr_mask o);
  mt_fpregs : bits_in (fpregs_mask o') (fpregs_mask o)
}.

Lemma truth_land_mono x y k :
  bits_in x y -> truth (Z.land x k) = true -> truth (Z.land y k) = true.
Proof.
  unfold truth. intros E. bool_simpl. intros Hx Hy. destruct Hx.
  by rewrite <-(bits_in_land _ _ E), <-Z.land_assoc, Hy, Z.land_0_r.
Qed.

Lemma fp_opt_mono o o' k :
  more_tolerant o o' -> fp_opt o k = true -> fp_opt o' k = true.
Proof. intros [E]. by apply truth_land_mono. Qed.

Lemma masked_mono x y i : bits_in y x -> masked x i = true -> masked y i = true.
Proof.
  unfold masked. intros E. bool_simpl. intros Hx. destruct (Z.testbit y (31 - i)) eqn:Hy; [| done].
  apply (bits_in_testbit _ _ _ E) in Hy. congruence.
Qed.

Lemma orb_mono a b c d :
  (a = true -> c = true) -> (b = true -> d = true) -> a || b = true -> c || d = true.
Proof. intros Hac Hbd. rewrite !orb_true_iff. tauto. Qed.

Create HintDb tolerance.
#[local] Hint Unfold tolerates_QNaN_signs tolerates_QNaN_values tolerates_QNaN_diffs
  tolerates_QNaN_load_float tolerates_NaN_operand tolerates_opposite_inf_operands
  tolerates_inf_x_0_operands tolerates_div_zero tolerates_underflow tolerates_overflow
  tolerates_round tolerates_round_s tolerates_rsqrt_negative tolerates_rsqrt_negative_zero
  tolerates_rsqrt_zero tolerates_qnan_from_inf tolerates_qnan_from_unknown
  tolerates_inf_from_unknown tolerates_zero_signs tolerates_inf_div_inf
  tolerates_QNaN_SNaN tolerates_NaN_unknown_operands : tolerance.

(** One tolerance: its option is the only thing it reads from the options. *)
Ltac tolerance_mono :=
  intros;
  autounfold with tolerance in *;
  match goal with
  | M : more_tolerant ?o ?o', T : context [fp_opt ?o ?k] |- _ =>
      let E := fresh "E" in
      destruct (fp_opt o k) eqn:E; [rewrite (fp_opt_mono o o' k M E); exact T | done]
  end.

Section monotone.
Context `{AbsOverflow}.

Lemma fp_tolerated_mono o o' m a i :
  more_tolerant o o' -> fp_tolerated o m a i = true -> fp_tolerated o' m a i = true.
Proof.
  intros M. unfold fp_tolerated.
  repeat (apply orb_mono; [| tolerance_mono]).
  apply masked_mono, (mt_fpregs _ _ M).
Qed.

(** Without options nothing is tolerated but what the mask excludes. *)
Lemma fp_tolerated_none o m a i :
  fp_opts o = 0 -> fp_tolerated o m a i = masked (fpregs_mask o) i.
Proof.
  intros E. assert (forall k, fp_opt o k = false) as K by (intros k; unfold fp_opt; by rewrite E).
  unfold fp_tolerated.
  autounfold with tolerance.
  rewrite !K. cbn [andb orb]. by rewrite !orb_false_r.
Qed.
End monotone.
