(* ===== verification/Ppc64.v ===== *)
(** * PowerPC (risu_ppc64.c, risu_reginfo_ppc64.c)

    The operations [risu.h] asks of an architecture, for the PowerPC.  The
    source has one branch per system; the branches for the DPPC emulator
    ([dppc]), Mac OS X ([apple]) and Linux capture the same registers from
    differently named places, which are the fields of [ppc_ctx] here.  The
    class [PpcBuild] holds the macros the branches test. *)

From stdpp Require Import gmap.
From S2P Require Import Prelude Endian Arch PpcFloat PpcTolerance.

Class PpcBuild := {
  dppc : bool;          (* RISU_DPPC *)
  apple : bool;         (* __APPLE__ *)
  lp64 : bool;          (* __LP64__ *)
  big_endian : bool     (* __BIG_ENDIAN__ *)
}.

(** The context of a signal: [ucontext_t], or the emulator's [ppc_state], and
    the memory. *)
Record ppc_ctx : Type := PpcCtx {
  c_pc : Z;
  c_gpr : list Z;
  c_msr : Z;
  c_ctr : Z;
  c_lr : Z;
  c_xer : Z;
  c_cr : Z;
  c_mq : Z;
  c_dar : Z;
  c_dsisr : Z;
  c_fpr : list Z;
  c_fpscr : Z;
  c_mem : gmap Z Z      (* the mapped bytes *)
}.

Definition DPPC_RISU_ROM_START : Z := 0xf0000000.

Section ppc64.
Context `{Build} `{PpcBuild} `{AbsOverflow}.

(** [sizeof(reg_t)], which is [sizeof(arch_ptr_t)]. *)
Definition reg_bytes : nat := if lp64 && negb dppc then 8 else 4.
Definition reg_t (z : Z) : Z := wrap (8 * Z.of_nat reg_bytes) z.

(** ** risu_ppc64.c *)

Definition ppc_advance_pc (u : ppc_ctx) : ppc_ctx :=
  if dppc then u
  else PpcCtx (reg_t (c_pc u + 4)) (c_gpr u) (c_msr u) (c_ctr u) (c_lr u) (c_xer u) (c_cr u)
         (c_mq u) (c_dar u) (c_dsisr u) (c_fpr u) (c_fpscr u) (c_mem u).

Definition ppc_get_uc_pc (u : ppc_ctx) (siaddr : Z) : Z := reg_t (c_pc u).

Definition ppc_set_ucontext_paramreg (value : Z) (u : ppc_ctx) : ppc_ctx :=
  PpcCtx (c_pc u) (<[0%nat := reg_t value]> (c_gpr u)) (c_msr u) (c_ctr u) (c_lr u) (c_xer u)
    (c_cr u) (c_mq u) (c_dar u) (c_dsisr u) (c_fpr u) (c_fpscr u) (c_mem u).

Definition ppc_get_reginfo_paramreg (ri : ppc_reginfo) : Z := gpr ri 0.

Definition ppc_get_risuop (ri : ppc_reginfo) : RisuOp :=
  let insn := faulting_insn ri in
  let op := Z.land insn 0xf in
  let key := andnot insn 0xf in
  let risukey := 0x00005af0 in
  if negb (key =? risukey) then OP_SIGILL else RisuOp_of_Z op.

Definition ppc_get_pc (u : ppc_ctx) (ri : ppc_reginfo) : Z :=
  if dppc then c_pc u else nip ri.

Definition ppc_get_arch_big_endian : bool := dppc || big_endian.

Definition arch_to_host_32 (val : Z) : Z :=
  if eqb (dppc || big_endian) big_endian then val else BYTESWAP_32 val.

(** ** Options *)

(** The initial values of the option variables. *)
Definition ppc_default_opts : ppc_opts :=
  PpcOpts (if negb dppc && negb apple
           then andnot 0xffffffff (Z.lor (Z.shiftl 1 (31 - 1)) (Z.shiftl 1 (31 - 13)))
           else andnot 0xffffffff (Z.shiftl 1 (31 - 1)))
    0xffffffff 0xffffffff 0xffffffff 0xffffffff 0xffffffff 0xffffffff 0 0.

(** [process_arch_opt], after [strtoul] has converted the argument; [None] if
    the assertion fails. *)
Definition process_arch_opt (opt val : Z) (o : ppc_opts) : option ppc_opts :=
  let '(PpcOpts gm cm xm qm sm fm vm fo co) := o in
  let val := u32 val in
  match opt - FIRST_ARCH_OPT with
  | 0 => Some (PpcOpts gm val xm qm sm fm vm fo co)
  | 1 => Some (PpcOpts gm cm xm qm val fm vm fo co)
  | 2 => Some (PpcOpts gm cm xm qm sm val vm fo co)
  | 3 => Some (PpcOpts gm cm xm qm sm fm val fo co)
  | 4 => Some (PpcOpts gm cm xm qm sm fm vm val co)
  | 5 => Some (PpcOpts val cm xm qm sm fm vm fo co)
  | 6 => Some (PpcOpts gm cm val qm sm fm vm fo co)
  | 7 => Some (PpcOpts gm cm xm val sm fm vm fo co)
  | 8 => Some (PpcOpts gm cm xm qm sm fm vm fo val)
  | _ => None
  end.

(** ** Memory *)

Definition ppc_get_arch_start_address (im : image) : Z :=
  if dppc then DPPC_RISU_ROM_START else reg_t (image_start_address im).

(** A pointer to memory of the machine is the address there.  The emulator
    returns no pointer for an address that is not mapped. *)
Definition ppc_get_arch_memory (u : ppc_ctx) (p : Z) : option Z :=
  if dppc then (match c_mem u !! p with Some _ => Some p | None => None end)
  else if p =? 0 then None else Some p.

Definition ppc_mem_at (u : ppc_ctx) (p n : Z) : option bytes :=
  mapM (fun k => c_mem u !! (p + k)) (seqZ 0 (Z.max 0 n)).

(** ** reginfo_init *)

(** The instruction at [pc + off], if it is inside the image. *)
Definition insn_at (im : image) (siaddr off : Z) : M ppc_ctx Z :=
  u ← gets id;
  let pc := ppc_get_uc_pc u siaddr in
  let ibegin := ppc_get_arch_start_address im in
  let iend := reg_t (ppc_get_arch_start_address im + image_size im) in
  if (ibegin <=? reg_t (pc + off)) && (reg_t (pc + off) <? iend) then
    match ppc_get_arch_memory u pc with
    | None => stop HUB
    | Some pc_ptr =>
        match ppc_mem_at u (pc_ptr + off) 4 with
        | None => stop HUB
        | Some bs => mret (arch_to_host_32 (u32 (int_val host_le bs)))
        end
    end
  else mret (arch_to_host_32 0).

Definition ppc_reginfo_init (o : ppc_opts) (im : image) (siaddr : Z) : M ppc_ctx ppc_reginfo :=
  i2 ← insn_at im siaddr (-8);
  i1 ← insn_at im siaddr (-4);
  i0 ← insn_at im siaddr 0;
  n1 ← insn_at im siaddr 4;
  u ← gets id;
  let pc := ppc_get_uc_pc u siaddr in
  mret (PpcReginfo i2 i1 i0 n1 (u32 (pc - ppc_get_arch_start_address im))
    (map (fun i => reg_t (nth i (c_gpr u) 0)) (seq 0 32) ++
     map reg_t [pc; c_msr u; c_ctr u; c_lr u; c_xer u; c_cr u; c_mq u; c_dar u; c_dsisr u])
    (map (fun i => u64 (nth i (c_fpr u) 0)) (seq 0 32))
    (reg_t (c_fpscr u))).

Definition ppc_reginfo_update (o : ppc_opts) (ri : ppc_reginfo) (siaddr : Z) (u : ppc_ctx)
    : ppc_ctx :=
  PpcCtx (c_pc u)
    (imap (fun i old => if masked (gregs_mask o) (Z.of_nat i) then old
                        else gpr ri (Z.of_nat i)) (c_gpr u))
    (c_msr u) (c_ctr u) (c_lr u) (gpr ri risu_XER) (gpr ri risu_CCR) (gpr ri risu_MQ)
    (c_dar u) (c_dsisr u) (fpregs ri) (fpscr ri) (c_mem u).

(** ** reginfo_is_eq

    The comparison changes the apprentice's register file ([a] in the source):
    it is the state of the computation. *)

(** [local_gregs_mask] *)
Definition local_gregs_mask (o : ppc_opts) (a : ppc_reginfo) : Z :=
  if bool_decide (ppc_get_risuop a = OP_SIGILL) &&
     insn_in (next_insn a) [
       (0xfc000000, 0x38000000); (* addi or li *)
       (0xfc0007ff, 0x7c000050)  (* subf *)]
  then andnot (gregs_mask o) (Z.shiftl 1 (31 - Z.land (Z.shiftr (next_insn a) 21) 31))
  else gregs_mask o.

(** [int64_t / int32_t]: dividing by zero, and the one quotient that does not
    fit, are undefined. *)
Definition c_quot {W} (n d : Z) : M W Z :=
  if (d =? 0) || ((n =? - 2 ^ 63) && (d =? -1)) then stop HUB else mret (Z.quot n d).

(** The quotient [n / rb] is not determined or does not fit 32 bits: the
    condition the source repeats for div and divs. *)
Definition quotient_unfit (m : ppc_reginfo) (n : Z) : M ppc_reginfo bool :=
  let rt := rt_of m in let ra := ra_of m in let rb := rb_of m in
  if (ra =? rt) || (rb =? rt) || (gpr m rb =? 0) then mret true
  else
    q ← c_quot n (s32 (gpr m rb));
    mret (truth (Z.land (Z.shiftr q 31 + 1) (Z.lnot 1))).

(** The dividends of div and divs. *)
Definition div_dividend (m : ppc_reginfo) : Z :=
  s64 (Z.lor (u64 (Z.shiftl (gpr m (ra_of m)) 32)) (gpr m risu_MQ)).
Definition divs_dividend (m : ppc_reginfo) : Z := s32 (gpr m (ra_of m)).

(** Whether a difference in general register [i] is accepted. *)
Definition greg_tolerated (m a : ppc_reginfo) (i : Z) : M ppc_reginfo bool :=
  let rt := rt_of m in
  if insn_in (prev_insn m) [(0xfc1fffff, 0x7c0802a6)] (* mflr *) && (rt =? i) &&
     (reg_t (gpr m i - gpr m risu_NIP) =? reg_t (gpr a i - gpr a risu_NIP))
  then mret true
  else
    d ← (if insn_in (prev_insn m) [(0xfc0003fe, 0x7c000296)] (* div[o][.] *) && (rt =? i)
         then quotient_unfit m (div_dividend m) else mret false);
    if (d : bool) then mret true
    else
      d ← (if insn_in (prev_insn m) [(0xfc0003fe, 0x7c0002d6)] (* divs[o][.] *) && (rt =? i)
           then quotient_unfit m (divs_dividend m) else mret false);
      if (d : bool) then mret true
      else
        mret (insn_in (second_prev_insn m) [(0xfc0007fe, 0x7c00022a)] (* lscbx[.] *) &&
              truth (Z.land (gpr m risu_XER) 3) &&
              (i =? Z.land (Z.shiftr (second_prev_insn m) 21 +
                            (Z.land (gpr m risu_XER) 0x7f - 1) / 4) 31) &&
              (Z.shiftr (u32 (Z.lxor (gpr m i) (gpr a i)))
                 (32 - 8 * Z.land (gpr m risu_XER) 3) =? 0)).

(** The common shape of a loop over registers that returns 0 at the first
    difference that is not accepted. *)
Fixpoint cmp_loop {R} (step : Z -> M R bool) (l : list Z) : M R bool :=
  match l with
  | [] => mret true
  | i :: t =>
      ok ← step i;
      if (ok : bool) then cmp_loop step t else mret false
  end.

Definition cmp_greg (mask : Z) (m : ppc_reginfo) (i : Z) : M ppc_reginfo bool :=
  a ← gets id;
  if gpr m i =? gpr a i then mret true
  else if masked mask i then mret true
  else
    ok ← greg_tolerated m a i;
    if (ok : bool) then _ ← modify (set_gpr i (gpr m i)); mret true else mret false.

Definition cmp_xer (o : ppc_opts) (m : ppc_reginfo) : M ppc_reginfo bool :=
  a ← gets id;
  if gpr m risu_XER =? gpr a risu_XER then mret true
  else if Z.land (gpr m risu_XER) (xer_mask o) =? Z.land (gpr a risu_XER) (xer_mask o)
  then _ ← modify (set_gpr risu_XER (gpr m risu_XER)); mret true
  else mret false.

Definition cmp_lnk (m : ppc_reginfo) : M ppc_reginfo bool :=
  a ← gets id;
  mret (reg_t (gpr m risu_LNK - gpr m risu_NIP) =? reg_t (gpr a risu_LNK - gpr a risu_NIP)).

Definition cmp_ctr (m : ppc_reginfo) : M ppc_reginfo bool :=
  a ← gets id; mret (gpr m risu_CTR =? gpr a risu_CTR).

(** The bits of CCR to compare, by the previous instruction. *)
Definition copy_mask (mask field from_mask from_field : Z) : Z :=
  Z.lor (andnot mask (Z.shiftl 15 (28 - field)))
        (Z.shiftl (Z.land (Z.shiftr from_mask (28 - from_field)) 15) (28 - field)).

Definition ccr_compare_mask (o : ppc_opts) (m : ppc_reginfo) : M ppc_reginfo Z :=
  let mask := ccr_mask o in
  if insn_in (prev_insn m) [(0xfc6007bf, 0xfc000000)] (* fcmpo or fcmpu *) then
    let crf := Z.land (Z.shiftr (prev_insn m) 21) 0x1c in
    let cr1 := 4 in
    mret (Z.land (copy_mask mask crf mask cr1) (ccr_mask o))
  else if insn_in (prev_insn m) [(0xfc63ffff, 0xfc000080)] (* mcrfs *) then
    let bf := Z.land (Z.shiftr (prev_insn m) 21) 0x1c in
    let bfa := Z.land (Z.shiftr (prev_insn m) 16) 0x1c in
    mret (Z.land (copy_mask mask bf (fpscr_mask o) bfa) (ccr_mask o))
  else
    d ← (if insn_in (prev_insn m) [(0xfc0003ff, 0x7c000297)] (* div[o]. *)
         then quotient_unfit m (div_dividend m) else mret false);
    mret (if (d : bool) then Z.land 0x1fffffff (ccr_mask o) else mask).

Definition cmp_ccr (o : ppc_opts) (m : ppc_reginfo) : M ppc_reginfo bool :=
  a ← gets id;
  if gpr m risu_CCR =? gpr a risu_CCR then mret true
  else
    mask ← ccr_compare_mask o m;
    if Z.land (gpr m risu_CCR) mask =? Z.land (gpr a risu_CCR) mask
    then _ ← modify (set_gpr risu_CCR (gpr m risu_CCR)); mret true
    else mret false.

(** Whether a difference in MQ is accepted; [n] is [signal_count]. *)
Definition mq_tolerated (o : ppc_opts) (n : Z) (m a : ppc_reginfo) : M ppc_reginfo bool :=
  if Z.land (gpr m risu_MQ) (mq_mask o) =? Z.land (gpr a risu_MQ) (mq_mask o) then mret true
  else
    d ← (if insn_in (prev_insn m) [(0xfc0003fe, 0x7c000296)] (* div[o][.] *)
         then quotient_unfit m (div_dividend m) else mret false);
    if (d : bool) then mret true
    else
      mret ((truth (Z.land (cpu_opts o) cpu_opt_use_601) &&
             insn_in (prev_insn m) [
               (0xfc000000, 0x1c000000); (* mulli *)
               (0xfc0003fe, 0x7c0001d6); (* mullw[o][.] *)
               (0xfc0007fe, 0x7c000096); (* mulhw[.] *)
               (0xfc0007fe, 0x7c000016); (* mulhwu[.] *)
               (0xfc0003fe, 0x7c0003d6); (* divw[o][.] *)
               (0xfc0003fe, 0x7c000396)  (* divwu[o][.] *)]) ||
            (n <=? 1)).

Definition cmp_mq (o : ppc_opts) (n : Z) (m : ppc_reginfo) : M ppc_reginfo bool :=
  a ← gets id;
  if gpr m risu_MQ =? gpr a risu_MQ then mret true
  else
    ok ← mq_tolerated o n m a;
    if (ok : bool) then _ ← modify (set_gpr risu_MQ (gpr m risu_MQ)); mret true
    else mret false.

Definition cmp_fpscr (o : ppc_opts) (m : ppc_reginfo) : M ppc_reginfo bool :=
  a ← gets id;
  if fpscr m =? fpscr a then mret true
  else if Z.land (fpscr m) (fpscr_mask o) =? Z.land (fpscr a) (fpscr_mask o)
  then _ ← modify (set_fpscr (fpscr m)); mret true
  else mret false.

Definition cmp_fpreg (o : ppc_opts) (m : ppc_reginfo) (i : Z) : M ppc_reginfo bool :=
  a ← gets id;
  if fpr m i =? fpr a i then mret true
  else if fp_tolerated o m a i then _ ← modify (set_fpr i (fpr m i)); mret true
  else mret false.

(** The tests of [reginfo_is_eq], each of which may return 0. *)
Fixpoint all_of {R} (l : list (M R bool)) : M R bool :=
  match l with
  | [] => mret true
  | c :: t => ok ← c; if (ok : bool) then all_of t else mret false
  end.

Definition ppc_reginfo_is_eq (o : ppc_opts) (n : Z) (m : ppc_reginfo) : M ppc_reginfo bool :=
  a ← gets id;
  let mask := local_gregs_mask o a in
  all_of [ cmp_loop (cmp_greg mask m) (seqZ 0 32); cmp_xer o m; cmp_lnk m; cmp_ctr m;
           cmp_ccr o m; cmp_mq o n m; cmp_fpscr o m;
           cmp_loop (cmp_fpreg o m) (seqZ 0 32) ].

(** ** Dumps *)

(** [PRIx], in which the width of a register is part of the format, and
    [PRIx64]. *)
Definition PRIx : string := if lp64 && negb dppc then "16lx" else "8x".
Definition PRIx64 : string := "lx".

(** [i < 10 ? " " : ""] *)
Definition pad (i : Z) : string := if i <? 10 then " " else EmptyString.

Definition ppc_reginfo_dump (ri : ppc_reginfo) : text :=
  [("2nd prev insn @ %0" +:+ PRIx +:+ " : %08x\n", [AInt (u32 (nip ri - 8)); AInt (second_prev_insn ri)]);
   ("previous insn @ %0" +:+ PRIx +:+ " : %08x\n", [AInt (u32 (nip ri - 4)); AInt (prev_insn ri)]);
   ("faulting insn @ %0" +:+ PRIx +:+ " : %08x\n", [AInt (nip ri); AInt (faulting_insn ri)]);
   ("    next insn @ %0" +:+ PRIx +:+ " : %08x\n", [AInt (u32 (nip ri + 4)); AInt (next_insn ri)]);
   ("\n", [])]%string ++
  map (fun i => ("\tr%d%s : %0" +:+ PRIx +:+ "\tr%d : %0" +:+ PRIx +:+ "\n",
         [AInt i; AStr (pad i); AInt (gpr ri i); AInt (i + 16); AInt (gpr ri (i + 16))])%string)
    (seqZ 0 16) ++
  [("\n", [])]%string ++
  map (fun '(name, i) => ("\t" +:+ name +:+ " : %0" +:+ PRIx +:+ "\n", [AInt (gpr ri i)])%string)
    ([("nip   ", risu_NIP); ("msr   ", risu_MSR); ("ctr   ", risu_CTR); ("lnk   ", risu_LNK);
      ("xer   ", risu_XER); ("ccr   ", risu_CCR); ("mq    ", risu_MQ)]%string ++
     if negb apple && negb dppc
     then [("dar   ", risu_DAR); ("dsisr ", risu_DSISR)]%string else []) ++
  map (fun i => ("\tf%d%s : %016" +:+ PRIx64 +:+ "\tf%d : %016" +:+ PRIx64 +:+ "\n",
         [AInt i; AStr (pad i); AInt (fpr ri i); AInt (i + 16); AInt (fpr ri (i + 16))])%string)
    (seqZ 0 16) ++
  [("\tfpscr : %0" +:+ PRIx +:+ "\n\n", [AInt (fpscr ri)])%string].

(** One line of the mismatch report, if the two values differ. *)
Definition mismatch (name : string) (args : list arg) (fmt : string) (x y : Z) : text :=
  if x =? y then []
  else [("Mismatch: " +:+ name +:+ " ", args);
        ("m: [%0" +:+ fmt +:+ "] != a: [%0" +:+ fmt +:+ "]\n", [AInt x; AInt y])]%string.

Definition ppc_reginfo_dump_mismatch (o : ppc_opts) (m a : ppc_reginfo) : text :=
  concat (map (fun i => if masked (gregs_mask o) i then []
                        else mismatch "r%d" [AInt i] PRIx (gpr m i) (gpr a i)) (seqZ 0 32)) ++
  mismatch "ctr" [] PRIx (gpr m risu_CTR) (gpr a risu_CTR) ++
  mismatch "lr (relative to pc)" [] PRIx
    (reg_t (gpr m risu_LNK - gpr m risu_NIP)) (reg_t (gpr a risu_LNK - gpr a risu_NIP)) ++
  mismatch "xer" [] PRIx (gpr m risu_XER) (gpr a risu_XER) ++
  mismatch "ccr" [] PRIx (gpr m risu_CCR) (gpr a risu_CCR) ++
  mismatch "mq" [] PRIx (gpr m risu_MQ) (gpr a risu_MQ) ++
  concat (map (fun i => mismatch "f%d" [AInt i] ("16" +:+ PRIx64)%string (fpr m i) (fpr a i))
    (seqZ 0 32)) ++
  mismatch "fpscr" [] PRIx (fpscr m) (fpscr a).

(** ** Byte order *)

(** [sizeof(reg) == 8 ? BYTESWAP_64 : BYTESWAP_32] *)
Definition swap_reg (v : Z) : Z := if (reg_bytes =? 8)%nat then BYTESWAP_64 v else BYTESWAP_32 v.

Definition reginfo_swap (ri : ppc_reginfo) : ppc_reginfo :=
  PpcReginfo (BYTESWAP_32 (second_prev_insn ri)) (BYTESWAP_32 (prev_insn ri))
    (BYTESWAP_32 (faulting_insn ri)) (BYTESWAP_32 (next_insn ri)) (BYTESWAP_32 (nip ri))
    (map swap_reg (gregs ri)) (map BYTESWAP_64 (fpregs ri)) (swap_reg (fpscr ri)).

Definition ppc_reginfo_host_to_arch (ri : ppc_reginfo) : ppc_reginfo :=
  if dppc then reginfo_swap ri else ri.

Definition ppc_reginfo_arch_to_host (ri : ppc_reginfo) : ppc_reginfo :=
  if dppc then reginfo_swap ri else ri.

(** ** The structure in memory *)

Definition NGREG : nat := Z.to_nat risu_NGREG.

(** 8-byte registers are aligned; [fpregs] is packed. *)
Definition reg_padding : list nat := if (reg_bytes =? 8)%nat then [4%nat] else [].

Definition ppc_layout : list nat :=
  ([4; 4; 4; 4; 4]%nat ++ reg_padding ++ replicate NGREG reg_bytes ++ replicate 32 8%nat ++
   [reg_bytes])%nat.

Definition ppc_reginfo_sizeof : nat := layout_size ppc_layout.

Definition ppc_reginfo_enc (le : bool) (r : ppc_reginfo) : bytes :=
  encode_fields le ppc_layout
    ([second_prev_insn r; prev_insn r; faulting_insn r; next_insn r; nip r] ++
     replicate (length reg_padding) 0 ++ resize NGREG 0 (gregs r) ++ resize 32 0 (fpregs r) ++
     [fpscr r]).

Definition ppc_reginfo_dec (le : bool) (bs : bytes) : ppc_reginfo :=
  let vs := decode_fields le ppc_layout bs in
  let regs := drop (5 + length reg_padding) vs in
  PpcReginfo (nth 0 vs 0) (nth 1 vs 0) (nth 2 vs 0) (nth 3 vs 0) (nth 4 vs 0)
    (take NGREG regs) (take 32 (drop NGREG regs)) (nth 0 (drop 32 (drop NGREG regs)) 0).

Definition ppc_reginfo_size (ri : ppc_reginfo) : Z := Z.of_nat ppc_reginfo_sizeof.

#[export] Instance ppc64_arch : Arch := {|
  reginfo := ppc_reginfo;
  uctx := ppc_ctx;
  aopts := ppc_opts;
  arch_ptr_bytes := reg_bytes;
  reginfo_sizeof := ppc_reginfo_sizeof;
  reginfo_enc := ppc_reginfo_enc;
  reginfo_dec := ppc_reginfo_dec;
  advance_pc := ppc_advance_pc;
  get_uc_pc := ppc_get_uc_pc;
  set_ucontext_paramreg := ppc_set_ucontext_paramreg;
  get_reginfo_paramreg := ppc_get_reginfo_paramreg;
  get_risuop := ppc_get_risuop;
  get_pc := ppc_get_pc;
  reginfo_init := ppc_reginfo_init;
  reginfo_update := ppc_reginfo_update;
  reginfo_is_eq := ppc_reginfo_is_eq;
  reginfo_dump := ppc_reginfo_dump;
  reginfo_dump_mismatch := ppc_reginfo_dump_mismatch;
  reginfo_size := ppc_reginfo_size;
  get_arch_big_endian := ppc_get_arch_big_endian;
  get_arch_start_address := ppc_get_arch_start_address;
  get_arch_memory := ppc_get_arch_memory;
  mem_at := ppc_mem_at;
  reginfo_host_to_arch := ppc_reginfo_host_to_arch;
  reginfo_arch_to_host := ppc_reginfo_arch_to_host
|}.

(** ** The laws of the interface *)

Record ppc_wf (r : ppc_reginfo) : Prop := {
  wf_i2 : in_width 32 (second_prev_insn r);
  wf_i1 : in_width 32 (prev_insn r);
  wf_i0 : in_width 32 (faulting_insn r);
  wf_n1 : in_width 32 (next_insn r);
  wf_nip : in_width 32 (nip r);
  wf_gregs_length : length (gregs r) = NGREG;
  wf_gregs : Forall (in_width (8 * Z.of_nat reg_bytes)) (gregs r);
  wf_fpregs_length : length (fpregs r) = 32%nat;
  wf_fpregs : Forall (in_width 64) (fpregs r);
  wf_fpscr : in_width (8 * Z.of_nat reg_bytes) (fpscr r)
}.

Record ppc_ctx_wf (u : ppc_ctx) : Prop := {
  cwf_gpr_length : length (c_gpr u) = 32%nat;
  cwf_gpr : Forall (in_width (8 * Z.of_nat reg_bytes)) (c_gpr u);
  cwf_fpr_length : length (c_fpr u) = 32%nat;
  cwf_fpr : Forall (in_width 64) (c_fpr u);
  cwf_xer : in_width (8 * Z.of_nat reg_bytes) (c_xer u);
  cwf_cr : in_width (8 * Z.of_nat reg_bytes) (c_cr u);
  cwf_mq : in_width (8 * Z.of_nat reg_bytes) (c_mq u);
  cwf_fpscr : in_width (8 * Z.of_nat reg_bytes) (c_fpscr u)
}.

Lemma reg_bytes_cases : reg_bytes = 4%nat \/ reg_bytes = 8%nat.
Proof. unfold reg_bytes. case_if; auto. Qed.

Lemma reg_t_range z : in_width (8 * Z.of_nat reg_bytes) (reg_t z).
Proof. apply wrap_range. lia. Qed.

Lemma reg_t_small z : in_width (8 * Z.of_nat reg_bytes) z -> reg_t z = z.
Proof. apply wrap_small. Qed.

Lemma ppc_enc_length le r : length (ppc_reginfo_enc le r) = ppc_reginfo_sizeof.
Proof.
  unfold ppc_reginfo_enc, ppc_reginfo_sizeof. apply encode_fields_length.
  unfold ppc_layout. rewrite !length_app, !length_resize, !length_replicate. done.
Qed.

Lemma Forall2_replicate_l {A B} (P : A -> B -> Prop) n x l :
  length l = n -> Forall (P x) l -> Forall2 P (replicate n x) l.
Proof. intros <- F. induction F; simpl; constructor; auto. Qed.

Lemma ppc_fits r : ppc_wf r ->
  fits ppc_layout
    ([second_prev_insn r; prev_insn r; faulting_insn r; next_insn r; nip r] ++
     replicate (length reg_padding) 0 ++ resize NGREG 0 (gregs r) ++ resize 32 0 (fpregs r) ++
     [fpscr r]).
Proof.
  intros []. unfold fits, ppc_layout. rewrite !resize_all_alt by done.
  apply Forall2_app; [repeat (apply Forall2_cons_2; [done |]); apply Forall2_nil_2 |].
  apply Forall2_app; [unfold reg_padding; case_if; [by apply Forall2_cons_2 | done] |].
  apply Forall2_app; [by apply Forall2_replicate_l |].
  apply Forall2_app; [by apply Forall2_replicate_l | by apply Forall2_cons_2].
Qed.

Lemma ppc_dec_enc le r : ppc_wf r -> ppc_reginfo_dec le (ppc_reginfo_enc le r) = r.
Proof.
  intros W. unfold ppc_reginfo_dec, ppc_reginfo_enc.
  rewrite <-(app_nil_r (encode_fields _ _ _)), decode_encode_fields by by apply ppc_fits.
  destruct W. rewrite !resize_all_alt by done.
  set (ins := [_; _; _; _; _]).
  assert (drop (5 + length reg_padding) (ins ++ replicate (length reg_padding) 0 ++
    gregs r ++ fpregs r ++ [fpscr r]) = gregs r ++ fpregs r ++ [fpscr r]) as E.
  { rewrite app_assoc, drop_app_length'; [done |]. by rewrite length_app, length_replicate. }
  rewrite E, take_app_length', drop_app_length' by done.
  rewrite take_app_length', drop_app_length' by done. by destruct r.
Qed.

(** The emulator swaps floating-point registers with [BYTESWAP_64], whose
    portable form is not a byte swap. *)
Class PpcSwapOk := ppc_swap_ok : dppc = true -> bswap_builtins = true.

Lemma swap_reg_range v :
  bswap_builtins = true -> in_width (8 * Z.of_nat reg_bytes) v ->
  in_width (8 * Z.of_nat reg_bytes) (swap_reg v).
Proof.
  intros B. unfold swap_reg. destruct reg_bytes_cases as [-> | ->]; simpl; intros Hv.
  - by apply BYTESWAP_32_range.
  - rewrite BYTESWAP_64_spec by done. apply (builtin_bswap_range 8).
Qed.

Lemma BYTESWAP_64_twice v :
  bswap_builtins = true -> in_width 64 v -> BYTESWAP_64 (BYTESWAP_64 v) = v.
Proof. intros B Hv. rewrite !BYTESWAP_64_spec by done. by apply builtin_bswap_involutive. Qed.

Lemma swap_reg_twice v :
  bswap_builtins = true -> in_width (8 * Z.of_nat reg_bytes) v -> swap_reg (swap_reg v) = v.
Proof.
  intros B. unfold swap_reg. destruct reg_bytes_cases as [-> | ->]; simpl; intros Hv.
  - by apply BYTESWAP_32_twice.
  - by apply BYTESWAP_64_twice.
Qed.

Lemma map_id_on {A} (f : A -> A) l : Forall (fun x => f x = x) l -> map f l = l.
Proof. induction 1; simpl; congruence. Qed.

Lemma reginfo_swap_wf r : bswap_builtins = true -> ppc_wf r -> ppc_wf (reginfo_swap r).
Proof.
  intros B []. split; simpl; rewrite ?length_map; try done; try (by apply BYTESWAP_32_range).
  - apply Forall_map. eapply Forall_impl; [done |]. intros. by apply swap_reg_range.
  - apply Forall_map. eapply Forall_impl; [done |]. intros x Hx.
    simpl. rewrite BYTESWAP_64_spec by done. apply (builtin_bswap_range 8).
  - by apply swap_reg_range.
Qed.

Lemma reginfo_swap_twice r :
  bswap_builtins = true -> ppc_wf r -> reginfo_swap (reginfo_swap r) = r.
Proof.
  intros B W. destruct r as [i2 i1 i0 n1 np gs fs sc], W; cbn in *. unfold reginfo_swap; cbn.
  rewrite !BYTESWAP_32_twice, swap_reg_twice, !map_map by done. f_equal; apply map_id_on;
    (eapply Forall_impl; [done |]); intros x Hx; [by apply swap_reg_twice | by apply BYTESWAP_64_twice].
Qed.

Lemma keeps_insn_at im si off : keeps id (insn_at im si off).
Proof.
  unfold insn_at. apply keeps_bind; [apply keeps_gets |]. intros u. case_if; [| apply keeps_ret].
  destruct (ppc_get_arch_memory _ _); [| apply keeps_stop].
  destruct (ppc_mem_at _ _ _); [apply keeps_ret | apply keeps_stop].
Qed.

Lemma keeps_reginfo_init o im si : keeps id (ppc_reginfo_init o im si).
Proof. repeat (apply keeps_bind; [apply keeps_insn_at | intros ?]). auto with keeps. Qed.

Lemma arch_to_host_32_range v : in_width 32 v -> in_width 32 (arch_to_host_32 v).
Proof. intros Hv. unfold arch_to_host_32. case_if; [done | by apply BYTESWAP_32_range]. Qed.

Lemma insn_at_range im si off u v u' :
  insn_at im si off u = (inl v, u') -> in_width 32 v /\ u' = u.
Proof.
  intros E. split; [| by eapply (keeps_insn_at im si off) in E].
  unfold insn_at in E. apply bind_inv in E as (u1 & u2 & _ & E). revert E. case_if; intros E1.
  - destruct (ppc_get_arch_memory _ _); [| done]. destruct (ppc_mem_at _ _ _); [| done].
    injection E1 as <- _. by apply arch_to_host_32_range, wrap_range.
  - injection E1 as <- _. apply arch_to_host_32_range. vm_compute. split; congruence.
Qed.

(** What is captured, and that capturing changes nothing. *)
Lemma reginfo_init_inv o im si u r u' :
  ppc_reginfo_init o im si u = (inl r, u') ->
  u' = u /\ ppc_wf r /\
  gregs r = map (fun i => reg_t (nth i (c_gpr u) 0)) (seq 0 32) ++
    map reg_t [reg_t (c_pc u); c_msr u; c_ctr u; c_lr u; c_xer u; c_cr u; c_mq u; c_dar u; c_dsisr u] /\
  fpregs r = map (fun i => u64 (nth i (c_fpr u) 0)) (seq 0 32) /\
  fpscr r = reg_t (c_fpscr u).
Proof.
  unfold ppc_reginfo_init. intros E.
  apply bind_inv in E as (i2 & u2 & E2 & E). apply insn_at_range in E2 as [W2 ->].
  apply bind_inv in E as (i1 & u1 & E1 & E). apply insn_at_range in E1 as [W1 ->].
  apply bind_inv in E as (i0 & u0 & E0 & E). apply insn_at_range in E0 as [W0 ->].
  apply bind_inv in E as (n1 & un & En & E). apply insn_at_range in En as [Wn ->].
  apply bind_inv in E as (v & uv & Ev & E). injection Ev as <- <-. apply ret_inv in E as [<- <-].
  split; [done |]. split; [| done].
  split; cbn [second_prev_insn prev_insn faulting_insn next_insn nip gregs fpregs fpscr]; try done.
  - by apply wrap_range.
  - apply Forall_app; split; apply Forall_map, Forall_true; intros x; apply reg_t_range.
  - apply Forall_map, Forall_true. intros x. by apply (wrap_range 64).
  - apply reg_t_range.
Qed.

Lemma nth_map_seq {A} (f : nat -> A) n i d : (i < n)%nat -> nth i (map f (seq 0 n)) d = f i.
Proof.
  intros Hi. rewrite (nth_indep _ d (f 0%nat)) by (rewrite length_map, length_seq; done).
  rewrite map_nth, seq_nth by done. done.
Qed.

Lemma map_nth_seq (f : Z -> Z) l :
  Forall (fun x => f x = x) l -> map (fun i => f (nth i l 0)) (seq 0 (length l)) = l.
Proof.
  intros F. rewrite <-(map_map (fun i => nth i l 0) f).
  assert (map (fun i => nth i l 0) (seq 0 (length l)) = l) as ->; [| by apply map_id_on].
  clear F. induction l as [|x l IH]; [done |]. simpl. by rewrite <-seq_shift, map_map, IH.
Qed.

(** Writing back what was captured changes nothing. *)
Lemma reginfo_update_same o im si u r u' :
  ppc_ctx_wf u -> ppc_reginfo_init o im si u = (inl r, u') -> ppc_reginfo_update o r si u' = u'.
Proof.
  intros W E. apply reginfo_init_inv in E as (-> & _ & Eg & Ef & Es).
  unfold ppc_reginfo_update. destruct u as [pc gs ms ct lr xe cr mq da ds fs sc me], W.
  cbn [c_pc c_gpr c_msr c_ctr c_lr c_xer c_cr c_mq c_dar c_dsisr c_fpr c_fpscr c_mem] in *.
  f_equal; try (unfold gpr; rewrite Eg; by apply reg_t_small).
  - apply list_eq. intros i. rewrite list_lookup_imap.
    destruct (gs !! i) as [x|] eqn:Hi; simpl; [| done]. f_equal. case_if; [done |].
    assert (i < 32)%nat as Hl by (rewrite <-cwf_gpr_length0; by eapply lookup_lt_Some).
    unfold gpr. rewrite Eg, Nat2Z.id, app_nth1 by (by rewrite length_map, length_seq).
    rewrite nth_map_seq by done. erewrite nth_lookup_Some by done.
    apply reg_t_small. rewrite Forall_forall in cwf_gpr0. apply cwf_gpr0.
    by eapply list_elem_of_lookup_2.
  - rewrite Ef, <-cwf_fpr_length0. apply (map_nth_seq u64).
    eapply Forall_impl; [done |]. intros. by apply wrap_small.
  - rewrite Es. by apply reg_t_small.
Qed.

Lemma cmp_loop_refl {R} (step : Z -> M R bool) l s :
  (forall i, step i s = (inl true, s)) -> cmp_loop step l s = (inl true, s).
Proof.
  intros K. induction l as [|i l IH]; [done |]. simpl. by rewrite (bind_done _ _ _ _ _ (K i)).
Qed.

Lemma is_eq_refl o n r : ppc_reginfo_is_eq o n r r = (inl true, r).
Proof.
  unfold ppc_reginfo_is_eq. rewrite (bind_done (gets id) _ _ r r) by done. cbn [all_of].
  rewrite (bind_done _ _ _ true r).
  2: { apply cmp_loop_refl. intros i. unfold cmp_greg. munfold. unfold id. by rewrite Z.eqb_refl. }
  repeat (rewrite (bind_done _ _ _ true r);
    [| unfold cmp_xer, cmp_lnk, cmp_ctr, cmp_ccr, cmp_mq, cmp_fpscr; munfold; unfold id;
       by rewrite Z.eqb_refl]).
  rewrite (bind_done _ _ _ true r); [done |].
  apply cmp_loop_refl. intros i. unfold cmp_fpreg. munfold. unfold id. by rewrite Z.eqb_refl.
Qed.

Lemma ppc_mem_at_length u p n bs :
  ppc_mem_at u p n = Some bs -> Z.of_nat (length bs) = Z.max 0 n.
Proof.
  intros E. unfold ppc_mem_at in E. apply length_mapM in E. rewrite length_seqZ in E. lia.
Qed.

Lemma ppc_sizeof : ppc_reginfo_sizeof = 444%nat \/ ppc_reginfo_sizeof = 616%nat.
Proof.
  unfold ppc_reginfo_sizeof, ppc_layout, reg_padding.
  destruct reg_bytes_cases as [-> | ->]; [left | right]; reflexivity.
Qed.

Lemma set_paramreg_wf v u : ppc_ctx_wf u -> ppc_ctx_wf (ppc_set_ucontext_paramreg v u).
Proof.
  intros []. split; simpl; try done.
  - by rewrite length_insert.
  - apply Forall_insert; [done | apply reg_t_range].
Qed.

Lemma advance_pc_keeps_wf u : ppc_ctx_wf u -> ppc_ctx_wf (ppc_advance_pc u).
Proof. intros []. unfold ppc_advance_pc. by destruct dppc. Qed.

Lemma ppc_transfer `{PpcSwapOk} le r old : ppc_wf r ->
  ppc_reginfo_arch_to_host (ppc_reginfo_dec le
    (splice (ppc_reginfo_enc le old)
       (take (Z.to_nat (ppc_reginfo_size r))
          (ppc_reginfo_enc le (ppc_reginfo_host_to_arch r))))) = r.
Proof.
  intros W. unfold ppc_reginfo_size. rewrite Nat2Z.id, take_ge by by rewrite ppc_enc_length.
  rewrite splice_full by by rewrite !ppc_enc_length.
  unfold ppc_reginfo_arch_to_host, ppc_reginfo_host_to_arch.
  destruct dppc eqn:D; [| by apply ppc_dec_enc].
  pose proof (ppc_swap_ok D) as B. rewrite ppc_dec_enc by by apply reginfo_swap_wf.
  by apply reginfo_swap_twice.
Qed.

#[export] Instance ppc64_laws `{PpcSwapOk} : @ArchLaws ppc64_arch.
Proof.
  refine {| reginfo_wf := ppc_wf; uctx_wf := ppc_ctx_wf; same_info := eq |}.
  - exact reg_bytes_cases.
  - change (Z.of_nat ppc_reginfo_sizeof < 2 ^ 30). destruct ppc_sizeof as [-> | ->]; lia.
  - exact ppc_enc_length.
  - intros. apply encode_fields_all.
  - intros r _. change (0 <= Z.of_nat ppc_reginfo_sizeof <= Z.of_nat ppc_reginfo_sizeof). lia.
  - intros le r old W. split; [reflexivity |]. exact (ppc_transfer le r old W).
  - intros o im si u r u' E. by apply reginfo_init_inv in E as (_ & W & _).
  - intros o n m a ->. exact (is_eq_refl o n a).
  - intros o im si u r u' m W E ->. by eapply reginfo_update_same.
  - intros o im si u r u' W E. assert (u' = u) as ->; [| done].
    revert E. apply (keeps_reginfo_init o im si).
  - exact advance_pc_keeps_wf.
  - exact set_paramreg_wf.
  - intros u p n bs Hn E. apply ppc_mem_at_length in E. lia.
Defined.
End ppc64.
