(* ===== verification/PpcCompare.v ===== *)
(** * The comparison of PowerPC register files

    Properties of [reginfo_is_eq] and of the reports for the PowerPC: what it
    means that two register files are accepted, that options only make the
    comparison more tolerant, that the default comparison of ordinary
    instructions is exact, and that every rejection is explained. *)

From stdpp Require Import gmap.
From S2P Require Import Prelude Endian Arch PpcFloat PpcTolerance Ppc64.

Section compare.
Context `{Build} `{PpcBuild} `{AbsOverflow}.

(** ** Loops *)

Lemma all_of_true {R} (c : M R bool) t s s' :
  all_of (c :: t) s = (inl true, s') ->
  exists s1, c s = (inl true, s1) /\ all_of t s1 = (inl true, s').
Proof.
  simpl. intros E. apply bind_inv in E as ([] & s1 & E1 & E2); [eauto | done].
Qed.

Lemma all_of_false {R} (l : list (M R bool)) s s' :
  all_of l s = (inl false, s') -> exists c s1, c ∈ l /\ c s1 = (inl false, s').
Proof.
  revert s. induction l as [|c l IH]; intros s; simpl; [done |]. intros E.
  apply bind_inv in E as ([] & s1 & E1 & E2).
  - destruct (IH _ E2) as (c' & s2 & Hc & K). exists c', s2. split; [by right | done].
  - injection E2 as <-. exists c, s. split; [by left | done].
Qed.

Lemma cmp_loop_true {R} (step : Z -> M R bool) i l s s' :
  cmp_loop step (i :: l) s = (inl true, s') ->
  exists s1, step i s = (inl true, s1) /\ cmp_loop step l s1 = (inl true, s').
Proof.
  simpl. intros E. apply bind_inv in E as ([] & s1 & E1 & E2); [eauto | done].
Qed.

Lemma cmp_loop_false {R} (step : Z -> M R bool) l s s' :
  cmp_loop step l s = (inl false, s') -> exists i s1, i ∈ l /\ step i s1 = (inl false, s').
Proof.
  revert s. induction l as [|i l IH]; intros s; simpl; [done |]. intros E.
  apply bind_inv in E as ([] & s1 & E1 & E2).
  - destruct (IH _ E2) as (j & s2 & Hj & K). exists j, s2. split; [by right | done].
  - injection E2 as <-. exists i, s. split; [by left | done].
Qed.

(** If every step establishes [Q] at its index and keeps it elsewhere, the loop
    establishes it everywhere. *)
Lemma cmp_loop_all {R} (step : Z -> M R bool) (Q : Z -> R -> Prop) l s s' :
  cmp_loop step l s = (inl true, s') ->
  (forall i s1 s2, i ∈ l -> step i s1 = (inl true, s2) ->
    Q i s2 /\ forall j, Q j s1 -> Q j s2) ->
  (forall i, i ∈ l -> Q i s') /\ (forall j, Q j s -> Q j s').
Proof.
  revert s. induction l as [|i l IH]; intros s E K.
  { injection E as <-. split; [| done]. intros i Hi. by apply not_elem_of_nil in Hi. }
  apply cmp_loop_true in E as (s1 & E1 & E2).
  destruct (K i s s1) as [K1 K2]; [by left | done |].
  destruct (IH s1 E2) as [I1 I2]; [intros; apply K; [by right | done] |].
  split; [| auto]. intros j Hj. apply elem_of_cons in Hj as [->|Hj]; auto.
Qed.

(** ** Steps *)

(** A computation that does not touch the state. *)
Definition pure {W A} (c : M W A) : Prop := exists r, forall s, c s = (r, s).

Lemma pure_ret {W A} (x : A) : pure (mret (M := M W) x).
Proof. by exists (inl x). Qed.

Lemma pure_stop {W A} h : pure (stop (W := W) (A := A) h).
Proof. by exists (inr h). Qed.

Lemma pure_bind {W A B} (c : M W A) (k : A -> M W B) :
  pure c -> (forall x, pure (k x)) -> pure (c ≫= k).
Proof.
  intros [[x|h] Hc] Hk.
  - destruct (Hk x) as [r Hr]. exists r. intros s. by rewrite (bind_done _ _ _ _ _ (Hc s)).
  - exists (inr h). intros s. by rewrite (bind_stop _ _ _ _ _ (Hc s)).
Qed.

Lemma pure_quotient_unfit m n : pure (quotient_unfit m n).
Proof.
  unfold quotient_unfit. case_if; [apply pure_ret |]. apply pure_bind; [| intros; apply pure_ret].
  unfold c_quot. case_if; [apply pure_stop | apply pure_ret].
Qed.

Lemma pure_if_quotient (b : bool) m n : pure (if b then quotient_unfit m n else mret false).
Proof. destruct b; [apply pure_quotient_unfit | apply pure_ret]. Qed.

Lemma pure_greg_tolerated m a i : pure (greg_tolerated m a i).
Proof.
  unfold greg_tolerated. case_if; [apply pure_ret |].
  apply pure_bind; [apply pure_if_quotient |]. intros []; [apply pure_ret |].
  apply pure_bind; [apply pure_if_quotient |]. intros []; apply pure_ret.
Qed.

Lemma pure_mq_tolerated o n m a : pure (mq_tolerated o n m a).
Proof.
  unfold mq_tolerated. case_if; [apply pure_ret |].
  apply pure_bind; [apply pure_if_quotient |]. intros []; apply pure_ret.
Qed.

Lemma pure_ccr_mask o m : pure (ccr_compare_mask o m).
Proof.
  unfold ccr_compare_mask. case_if; [apply pure_ret |]. case_if; [apply pure_ret |].
  apply pure_bind; [apply pure_if_quotient |]. intros d; apply pure_ret.
Qed.

(** A step on a general register: it fails only on a difference and then
    changes nothing; if it succeeds, the register has the master's value or is
    excluded by the mask. *)
Lemma cmp_greg_spec mask m i s b s' :
  cmp_greg mask m i s = (inl b, s') ->
  if b then s' = s /\ (gpr s i = gpr m i \/ masked mask i = true) \/
            s' = set_gpr i (gpr m i) s /\ masked mask i = false /\ gpr m i <> gpr s i /\
            greg_tolerated m s i s = (inl true, s)
  else s' = s /\ gpr m i <> gpr s i /\ masked mask i = false.
Proof.
  unfold cmp_greg. intros E. rewrite (bind_done (gets id) _ _ s s) in E by done.
  destruct (Z.eqb_spec (gpr m i) (gpr s i)) as [Eq|Ne].
  { apply ret_inv in E as [<- <-]. auto. }
  destruct (masked mask i) eqn:Hm. { apply ret_inv in E as [<- <-]. auto. }
  destruct (pure_greg_tolerated m s i) as [[ok|h] Hp].
  - rewrite (bind_done _ _ _ _ _ (Hp s)) in E. destruct ok.
    + rewrite (bind_done (modify _) _ _ () _ eq_refl) in E. apply ret_inv in E as [<- <-]. auto.
    + apply ret_inv in E as [<- <-]. auto.
  - by rewrite (bind_stop _ _ _ _ _ (Hp s)) in E.
Qed.

(** A step on one of the other registers: [f] is its value, [put] copies the
    master's. *)
Definition syncs (f : ppc_reginfo -> Z) (put : Z -> ppc_reginfo -> ppc_reginfo)
    (m : ppc_reginfo) (c : M ppc_reginfo bool) : Prop :=
  forall s b s', c s = (inl b, s') ->
    if b then s' = s /\ f s = f m \/ s' = put (f m) s
    else s' = s /\ f m <> f s.

(** All these steps have the same shape: equal, or accepted by a test and then
    copied. *)
Definition test_step (f : ppc_reginfo -> Z) (put : Z -> ppc_reginfo -> ppc_reginfo)
    (m : ppc_reginfo) (c : ppc_reginfo -> M ppc_reginfo bool) : M ppc_reginfo bool :=
  a ← gets id;
  if f m =? f a then mret true
  else ok ← c a; if (ok : bool) then _ ← modify (put (f m)); mret true else mret false.

Lemma test_step_cases f put m c s b s' :
  pure (c s) -> test_step f put m c s = (inl b, s') ->
  f m = f s /\ b = true /\ s' = s \/
  f m <> f s /\ c s s = (inl b, s) /\ s' = (if b then put (f m) s else s).
Proof.
  intros [r Hp] E. unfold test_step in E. rewrite (bind_done (gets id) _ _ s s) in E by done.
  destruct (Z.eqb_spec (f m) (f s)). { apply ret_inv in E as [<- <-]. auto. }
  right. split; [done |]. destruct r as [ok|h].
  - rewrite (bind_done _ _ _ _ _ (Hp s)) in E. destruct ok.
    + rewrite (bind_done (modify _) _ _ () _ eq_refl) in E. apply ret_inv in E as [<- <-]. auto.
    + apply ret_inv in E as [<- <-]. auto.
  - by rewrite (bind_stop _ _ _ _ _ (Hp s)) in E.
Qed.

Lemma syncs_test f put m c : (forall s, pure (c s)) -> syncs f put m (test_step f put m c).
Proof.
  intros Hc s b s' E. apply test_step_cases in E as [(E & -> & ->)|(E & _ & ->)]; [auto | |done].
  destruct b; auto.
Qed.

Definition xer_test (o : ppc_opts) (m a : ppc_reginfo) : M ppc_reginfo bool :=
  mret (Z.land (gpr m risu_XER) (xer_mask o) =? Z.land (gpr a risu_XER) (xer_mask o)).
Definition ccr_test (o : ppc_opts) (m a : ppc_reginfo) : M ppc_reginfo bool :=
  mask ← ccr_compare_mask o m;
  mret (Z.land (gpr m risu_CCR) mask =? Z.land (gpr a risu_CCR) mask).
Definition fpscr_test (o : ppc_opts) (m a : ppc_reginfo) : M ppc_reginfo bool :=
  mret (Z.land (fpscr m) (fpscr_mask o) =? Z.land (fpscr a) (fpscr_mask o)).
Definition fpreg_test (o : ppc_opts) (i : Z) (m a : ppc_reginfo) : M ppc_reginfo bool :=
  mret (fp_tolerated o m a i).

Lemma pure_ccr_test o m a : pure (ccr_test o m a).
Proof. apply pure_bind; [apply pure_ccr_mask | intros; apply pure_ret]. Qed.

Lemma cmp_xer_step o m :
  cmp_xer o m = test_step (fun r => gpr r risu_XER) (set_gpr risu_XER) m (xer_test o m).
Proof. reflexivity. Qed.

Lemma cmp_ccr_step o m s :
  cmp_ccr o m s = test_step (fun r => gpr r risu_CCR) (set_gpr risu_CCR) m (ccr_test o m) s.
Proof.
  unfold cmp_ccr, test_step, ccr_test. munfold. unfold id. case_if; [done |].
  by destruct (ccr_compare_mask o m s) as [[]].
Qed.

Lemma cmp_mq_step o n m :
  cmp_mq o n m = test_step (fun r => gpr r risu_MQ) (set_gpr risu_MQ) m (mq_tolerated o n m).
Proof. reflexivity. Qed.

Lemma cmp_fpscr_step o m : cmp_fpscr o m = test_step fpscr set_fpscr m (fpscr_test o m).
Proof. reflexivity. Qed.

Lemma cmp_fpreg_step o m i :
  cmp_fpreg o m i = test_step (fun r => fpr r i) (set_fpr i) m (fpreg_test o i m).
Proof. reflexivity. Qed.

Lemma cmp_xer_syncs o m : syncs (fun r => gpr r risu_XER) (set_gpr risu_XER) m (cmp_xer o m).
Proof. rewrite cmp_xer_step. apply syncs_test. intros. apply pure_ret. Qed.

Lemma cmp_ccr_syncs o m : syncs (fun r => gpr r risu_CCR) (set_gpr risu_CCR) m (cmp_ccr o m).
Proof.
  intros s b s' E. rewrite cmp_ccr_step in E. revert E. apply syncs_test.
  intros. apply pure_ccr_test.
Qed.

Lemma cmp_mq_syncs o n m : syncs (fun r => gpr r risu_MQ) (set_gpr risu_MQ) m (cmp_mq o n m).
Proof. rewrite cmp_mq_step. apply syncs_test. intros. apply pure_mq_tolerated. Qed.

Lemma cmp_fpscr_syncs o m : syncs fpscr set_fpscr m (cmp_fpscr o m).
Proof. rewrite cmp_fpscr_step. apply syncs_test. intros. apply pure_ret. Qed.

Lemma cmp_fpreg_syncs o m i : syncs (fun r => fpr r i) (set_fpr i) m (cmp_fpreg o m i).
Proof. rewrite cmp_fpreg_step. apply syncs_test. intros. apply pure_ret. Qed.

(** ** What acceptance means *)

Lemma gpr_set i j v s :
  0 <= i -> 0 <= j -> (Z.to_nat i < length (gregs s))%nat ->
  gpr (set_gpr i v s) j = if j =? i then v else gpr s j.
Proof.
  intros Hi Hj Hl. unfold gpr. cbn [gregs set_gpr]. rewrite !nth_lookup.
  destruct (Z.eqb_spec j i) as [->|Hne].
  - by rewrite list_lookup_insert_eq.
  - rewrite list_lookup_insert_ne by lia. done.
Qed.

Lemma fpr_set i j v s :
  0 <= i -> 0 <= j -> (Z.to_nat i < length (fpregs s))%nat ->
  fpr (set_fpr i v s) j = if j =? i then v else fpr s j.
Proof.
  intros Hi Hj Hl. unfold fpr. cbn [fpregs set_fpr]. rewrite !nth_lookup.
  destruct (Z.eqb_spec j i) as [->|Hne].
  - by rewrite list_lookup_insert_eq.
  - rewrite list_lookup_insert_ne by lia. done.
Qed.

(** [s'] differs from [s] only in general registers of [I], in the FPSCR and in
    floating-point registers, as [J] allows. *)
Record frame (I : Z -> Prop) (scr fps : bool) (s s' : ppc_reginfo) : Prop := {
  fr_gregs_length : length (gregs s') = length (gregs s);
  fr_fpregs_length : length (fpregs s') = length (fpregs s);
  fr_gpr : forall j, 0 <= j -> ~ I j -> gpr s' j = gpr s j;
  fr_fpscr : scr = false -> fpscr s' = fpscr s;
  fr_fpregs : fps = false -> fpregs s' = fpregs s
}.

Lemma frame_refl I b c s : frame I b c s s.
Proof. by split. Qed.

Lemma frame_trans I b c s1 s2 s3 : frame I b c s1 s2 -> frame I b c s2 s3 -> frame I b c s1 s3.
Proof.
  intros [L1 F1 G1 S1 P1] [L2 F2 G2 S2 P2].
  split; [congruence | congruence | | |]; intros.
  - by rewrite G2, G1.
  - by rewrite S2, S1.
  - by rewrite P2, P1.
Qed.

Lemma frame_set_gpr (I : Z -> Prop) i v s :
  I i -> 0 <= i -> frame I false false s (set_gpr i v s).
Proof.
  intros Hi Hpos. split; try done; [by cbn; rewrite length_insert |].
  intros j Hj Hn. unfold gpr. cbn [gregs set_gpr]. rewrite !nth_lookup.
  rewrite list_lookup_insert_ne; [done |]. intros E. apply Hn.
  by replace j with i by (apply Z2Nat.inj; done).
Qed.

Lemma frame_set_fpr (I : Z -> Prop) i v s : frame I false true s (set_fpr i v s).
Proof. split; try done. by cbn; rewrite length_insert. Qed.

Lemma syncs_frame I b c f put m t s s' :
  syncs f put m t -> (forall v r, frame I b c r (put v r)) ->
  t s = (inl true, s') -> frame I b c s s'.
Proof.
  intros S P E. apply S in E as [[-> _]| ->]; [apply frame_refl | apply P].
Qed.

Lemma cmp_loop_frame I b c (step : Z -> M ppc_reginfo bool) l s s' :
  cmp_loop step l s = (inl true, s') ->
  (forall i s1 s2, i ∈ l -> step i s1 = (inl true, s2) -> frame I b c s1 s2) ->
  frame I b c s s'.
Proof.
  revert s. induction l as [|i l IH]; intros s E K; [injection E as <-; apply frame_refl |].
  apply cmp_loop_true in E as (s1 & E1 & E2). eapply frame_trans.
  - eapply K; [by left | done].
  - apply IH; [done |]. intros. eapply K; [by right | done].
Qed.

Lemma greg_loop_frame mask m s s' :
  cmp_loop (cmp_greg mask m) (seqZ 0 32) s = (inl true, s') ->
  frame (fun j => j < 32) false false s s'.
Proof.
  intros E. eapply cmp_loop_frame; [exact E |]. intros i s1 s2 Hi Es.
  apply elem_of_seqZ in Hi. apply cmp_greg_spec in Es as [[-> _]|(-> & _)];
    [apply frame_refl | apply frame_set_gpr; lia].
Qed.

Lemma fpreg_loop_frame o m s s' :
  cmp_loop (cmp_fpreg o m) (seqZ 0 32) s = (inl true, s') ->
  frame (fun _ => False) false true s s'.
Proof.
  intros E. eapply cmp_loop_frame; [exact E |]. intros i s1 s2 Hi Es.
  eapply syncs_frame; [apply cmp_fpreg_syncs | intros; apply frame_set_fpr | exact Es].
Qed.

Lemma greg_loop_sync mask m s s' :
  length (gregs s) = NGREG ->
  cmp_loop (cmp_greg mask m) (seqZ 0 32) s = (inl true, s') ->
  forall i, 0 <= i < 32 -> gpr s' i = gpr m i \/ masked mask i = true.
Proof.
  intros L E i Hi. pose proof (fr_gregs_length _ _ _ _ _ (greg_loop_frame _ _ _ _ E)) as L'.
  destruct (cmp_loop_all (cmp_greg mask m)
    (fun i s => 0 <= i -> length (gregs s) = NGREG -> gpr s i = gpr m i \/ masked mask i = true)
    (seqZ 0 32) s s' E) as [K _].
  { clear. intros i s1 s2 Hi Es. apply elem_of_seqZ in Hi.
    apply cmp_greg_spec in Es as [[-> Hs]|(-> & Hm & _)]; [auto |].
    change NGREG with 41%nat. cbn [gregs set_gpr]. rewrite length_insert. split.
    - intros _ L. left. by rewrite gpr_set, Z.eqb_refl by lia.
    - intros j Q Hj L. rewrite gpr_set by lia. destruct (Z.eqb_spec j i) as [->|]; auto. }
  apply K; [by apply elem_of_seqZ | lia | congruence].
Qed.

Lemma fpreg_loop_sync o m s s' :
  length (fpregs s) = 32%nat ->
  cmp_loop (cmp_fpreg o m) (seqZ 0 32) s = (inl true, s') ->
  forall i, 0 <= i < 32 -> fpr s' i = fpr m i.
Proof.
  intros L E i Hi. pose proof (fr_fpregs_length _ _ _ _ _ (fpreg_loop_frame _ _ _ _ E)) as L'.
  destruct (cmp_loop_all (cmp_fpreg o m)
    (fun i s => 0 <= i -> length (fpregs s) = 32%nat -> fpr s i = fpr m i)
    (seqZ 0 32) s s' E) as [K _].
  { clear. intros i s1 s2 Hi Es. apply elem_of_seqZ in Hi.
    apply cmp_fpreg_syncs in Es as [[-> Hs]| ->]; [auto |].
    cbn [fpregs set_fpr]. rewrite length_insert. split.
    - intros _ L. by rewrite fpr_set, Z.eqb_refl by lia.
    - intros j Q Hj L. rewrite fpr_set by lia. destruct (Z.eqb_spec j i) as [->|]; auto. }
  apply K; [by apply elem_of_seqZ | lia | congruence].
Qed.

(** The states between the tests of an accepted comparison. *)
Lemma is_eq_true_inv o n m a a' :
  ppc_reginfo_is_eq o n m a = (inl true, a') ->
  exists s1 s2 s3 s4 s5,
    cmp_loop (cmp_greg (local_gregs_mask o a) m) (seqZ 0 32) a = (inl true, s1) /\
    cmp_xer o m s1 = (inl true, s2) /\ cmp_lnk m s2 = (inl true, s2) /\
    cmp_ctr m s2 = (inl true, s2) /\ cmp_ccr o m s2 = (inl true, s3) /\
    cmp_mq o n m s3 = (inl true, s4) /\ cmp_fpscr o m s4 = (inl true, s5) /\
    cmp_loop (cmp_fpreg o m) (seqZ 0 32) s5 = (inl true, a').
Proof.
  unfold ppc_reginfo_is_eq. rewrite (bind_done (gets id) _ _ a a) by done. intros E.
  apply all_of_true in E as (s1 & E1 & E). apply all_of_true in E as (s2 & E2 & E).
  apply all_of_true in E as (t3 & E3 & E). assert (t3 = s2) as -> by (by injection E3).
  apply all_of_true in E as (t4 & E4 & E). assert (t4 = s2) as -> by (by injection E4).
  apply all_of_true in E as (s3 & E5 & E). apply all_of_true in E as (s4 & E6 & E).
  apply all_of_true in E as (s5 & E7 & E). apply all_of_true in E as (s6 & E8 & E).
  injection E as <-. by exists s1, s2, s3, s4, s5.
Qed.

Lemma syncs_gpr_value i m c s s' :
  0 <= i -> (Z.to_nat i < length (gregs s))%nat ->
  syncs (fun r => gpr r i) (set_gpr i) m c -> c s = (inl true, s') -> gpr s' i = gpr m i.
Proof.
  intros Hi Hl S E. apply S in E as [[-> E]| ->]; [done |]. by rewrite gpr_set, Z.eqb_refl by lia.
Qed.

Lemma syncs_gpr_frame i m c s s' :
  0 <= i -> syncs (fun r => gpr r i) (set_gpr i) m c -> c s = (inl true, s') ->
  frame (fun j => j = i) false false s s'.
Proof.
  intros Hi S E. eapply syncs_frame; [exact S | | exact E]. intros. by apply frame_set_gpr.
Qed.

Lemma fpscr_frame o m s s' :
  cmp_fpscr o m s = (inl true, s') -> frame (fun _ => False) true false s s'.
Proof.
  intros E. eapply syncs_frame; [apply cmp_fpscr_syncs | | exact E]. intros. by split.
Qed.

(** Every register an accepted comparison looks at ends up with the master's
    value, the excluded ones apart. *)
(** A step on one special register: it gets the master's value, the others
    keep theirs. *)
Lemma special_step i m c s s' :
  0 <= i < 41 -> length (gregs s) = 41%nat ->
  syncs (fun r => gpr r i) (set_gpr i) m c -> c s = (inl true, s') ->
  gpr s' i = gpr m i /\ (forall j, 0 <= j -> j <> i -> gpr s' j = gpr s j) /\
  length (gregs s') = 41%nat /\ length (fpregs s') = length (fpregs s).
Proof.
  intros Hi L S E. pose proof (syncs_gpr_frame i m c s s' (proj1 Hi) S E) as F.
  split; [eapply syncs_gpr_value; [lia | rewrite L; lia | exact S | exact E] |].
  split; [apply (fr_gpr _ _ _ _ _ F) |]. rewrite (fr_gregs_length _ _ _ _ _ F).
  by rewrite (fr_fpregs_length _ _ _ _ _ F).
Qed.

Lemma fpregs_synced o m s s' :
  length (fpregs s) = 32%nat -> length (fpregs m) = 32%nat ->
  cmp_loop (cmp_fpreg o m) (seqZ 0 32) s = (inl true, s') -> fpregs s' = fpregs m.
Proof.
  intros L Lm E. pose proof (fpreg_loop_frame _ _ _ _ E) as F.
  apply (list_eq_same_length _ _ 32); [done | by rewrite (fr_fpregs_length _ _ _ _ _ F) |].
  intros i x y Hi Hx Hy.
  pose proof (fpreg_loop_sync _ _ _ _ L E (Z.of_nat i)) as Q. unfold fpr in Q.
  rewrite Nat2Z.id, (nth_lookup_Some _ _ _ _ Hx), (nth_lookup_Some _ _ _ _ Hy) in Q.
  apply Q. lia.
Qed.

Lemma is_eq_sync o n m a a' :
  length (gregs a) = NGREG -> length (fpregs a) = 32%nat -> length (fpregs m) = 32%nat ->
  ppc_reginfo_is_eq o n m a = (inl true, a') ->
  (forall i, 0 <= i < 32 ->
    gpr a' i = gpr m i \/ masked (local_gregs_mask o a) i = true) /\
  gpr a' risu_XER = gpr m risu_XER /\ gpr a' risu_CCR = gpr m risu_CCR /\
  gpr a' risu_MQ = gpr m risu_MQ /\ gpr a' risu_CTR = gpr m risu_CTR /\
  gpr a' risu_NIP = gpr a risu_NIP /\ gpr a' risu_LNK = gpr a risu_LNK /\
  reg_t (gpr m risu_LNK - gpr m risu_NIP) = reg_t (gpr a risu_LNK - gpr a risu_NIP) /\
  fpscr a' = fpscr m /\ fpregs a' = fpregs m.
Proof.
  intros Lg Lf Lm E.
  apply is_eq_true_inv in E as (s1 & s2 & s3 & s4 & s5 & E1 & E2 & E3 & E4 & E5 & E6 & E7 & E8).
  pose proof (greg_loop_frame _ _ _ _ E1) as F1. pose proof (fpreg_loop_frame _ _ _ _ E8) as F6.
  pose proof (fpscr_frame _ _ _ _ E7) as F5.
  assert (length (gregs s1) = 41%nat) as L1 by (rewrite (fr_gregs_length _ _ _ _ _ F1); done).
  destruct (special_step risu_XER m (cmp_xer o m) s1 s2) as (VX & G1 & L2 & P2);
    [done | done | apply cmp_xer_syncs | exact E2 |].
  destruct (special_step risu_CCR m (cmp_ccr o m) s2 s3) as (VC & G2 & L3 & P3);
    [done | done | apply cmp_ccr_syncs | exact E5 |].
  destruct (special_step risu_MQ m (cmp_mq o n m) s3 s4) as (VM & G3 & L4 & P4);
    [done | done | apply cmp_mq_syncs | exact E6 |].
  assert (length (fpregs s5) = 32%nat) as L5
    by (rewrite (fr_fpregs_length _ _ _ _ _ F5), P4, P3, P2, (fr_fpregs_length _ _ _ _ _ F1); done).
  assert (forall j, 0 <= j -> gpr a' j = gpr s4 j) as G4.
  { intros j Hj. by rewrite (fr_gpr _ _ _ _ _ F6), (fr_gpr _ _ _ _ _ F5) by tauto. }
  assert (forall j, 0 <= j -> j <> risu_MQ -> j <> risu_CCR -> gpr a' j = gpr s2 j) as G5
    by (intros; by rewrite G4, G3, G2).
  assert (forall j, 0 <= j -> j <> risu_MQ -> j <> risu_CCR -> j <> risu_XER ->
    gpr a' j = gpr s1 j) as G6 by (intros; by rewrite G5, G1).
  assert (gpr a' risu_NIP = gpr a risu_NIP /\ gpr a' risu_LNK = gpr a risu_LNK) as [VN VL].
  { rewrite !G6 by done. split; apply (fr_gpr _ _ _ _ _ F1); vm_compute; congruence. }
  split_and!; try done.
  - intros i Hi. rewrite G6 by (unfold risu_MQ, risu_CCR, risu_XER; lia).
    eapply greg_loop_sync; [exact Lg | exact E1 | exact Hi].
  - by rewrite G5.
  - by rewrite G4, G3.
  - by rewrite G4.
  - rewrite G5 by done. unfold cmp_ctr in E4. munfold.
    injection E4 as E4. apply Z.eqb_eq in E4. done.
  - unfold cmp_lnk in E3. munfold. injection E3 as E3. apply Z.eqb_eq in E3. unfold id in E3.
    rewrite <-!G5 in E3 by done. congruence.
  - rewrite (fr_fpscr _ _ _ _ _ F6) by done. by apply cmp_fpscr_syncs in E7 as [[-> E]| ->].
  - by eapply fpregs_synced.
Qed.

(** ** Rejections are explained *)

Lemma local_gregs_mask_in o a : bits_in (local_gregs_mask o a) (gregs_mask o).
Proof.
  unfold local_gregs_mask. case_if; [| apply bits_in_refl].
  unfold bits_in, andnot. apply Z.bits_inj'. intros k Hk.
  rewrite !Z.ldiff_spec, Z.bits_0. by destruct (Z.testbit (gregs_mask o) k), (Z.testbit _ k).
Qed.

Lemma mismatch_nonempty name args fmt x y : x <> y -> mismatch name args fmt x y <> [].
Proof. intros Hn. unfold mismatch. by destruct (Z.eqb_spec x y). Qed.

Lemma concat_map_nonempty {A B} (f : A -> list B) l x :
  x ∈ l -> f x <> [] -> concat (map f l) <> [].
Proof.
  intros Hx Hf E. apply Hf. clear Hf. induction Hx as [x l|x y l Hx IH]; simpl in E;
    apply app_nil in E as [E1 E2]; auto.
Qed.

Lemma dump_mismatch_nonempty o m s :
  (exists i, 0 <= i < 32 /\ gpr m i <> gpr s i /\ masked (gregs_mask o) i = false) \/
  gpr m risu_XER <> gpr s risu_XER \/
  reg_t (gpr m risu_LNK - gpr m risu_NIP) <> reg_t (gpr s risu_LNK - gpr s risu_NIP) \/
  gpr m risu_CTR <> gpr s risu_CTR \/ gpr m risu_CCR <> gpr s risu_CCR \/
  gpr m risu_MQ <> gpr s risu_MQ \/ fpscr m <> fpscr s \/
  (exists i, 0 <= i < 32 /\ fpr m i <> fpr s i) ->
  ppc_reginfo_dump_mismatch o m s <> [].
Proof.
  intros D E. unfold ppc_reginfo_dump_mismatch in E.
  apply app_nil in E as [Eg E]. apply app_nil in E as [Ect E]. apply app_nil in E as [El E].
  apply app_nil in E as [Ex E]. apply app_nil in E as [Ec E]. apply app_nil in E as [Eq E].
  apply app_nil in E as [Ef Es].
  destruct D as [(i & Hi & Hn & Hm)|[Hn|[Hn|[Hn|[Hn|[Hn|[Hn|(i & Hi & Hn)]]]]]]];
    try (by eapply (mismatch_nonempty _ _ _ _ _ Hn); eauto).
  - revert Eg. apply (concat_map_nonempty _ _ i); [by apply elem_of_seqZ |].
    cbv beta. rewrite Hm. by apply mismatch_nonempty.
  - revert Ef. apply (concat_map_nonempty _ _ i); [by apply elem_of_seqZ |].
    by apply mismatch_nonempty.
Qed.

Lemma is_eq_false_differs o n m a a' :
  ppc_reginfo_is_eq o n m a = (inl false, a') -> ppc_reginfo_dump_mismatch o m a' <> [].
Proof.
  unfold ppc_reginfo_is_eq. rewrite (bind_done (gets id) _ _ a a) by done. intros E.
  apply dump_mismatch_nonempty. apply all_of_false in E as (c & s & Hc & E).
  repeat (apply elem_of_cons in Hc as [->|Hc]); [.. | by apply not_elem_of_nil in Hc].
  - apply cmp_loop_false in E as (i & s1 & Hi & E). apply elem_of_seqZ in Hi.
    apply cmp_greg_spec in E as (-> & Hn & Hm). left. exists i. split; [lia |]. split; [done |].
    destruct (masked (gregs_mask o) i) eqn:K; [| done].
    apply (masked_mono _ _ _ (local_gregs_mask_in o a)) in K. congruence.
  - apply cmp_xer_syncs in E as [-> E]. auto.
  - unfold cmp_lnk in E. munfold. injection E as E <-. apply Z.eqb_neq in E. auto.
  - unfold cmp_ctr in E. munfold. injection E as E <-. apply Z.eqb_neq in E. auto 10.
  - apply cmp_ccr_syncs in E as [-> E]. auto 10.
  - apply cmp_mq_syncs in E as [-> E]. auto 10.
  - apply cmp_fpscr_syncs in E as [-> E]. auto 10.
  - apply cmp_loop_false in E as (i & s1 & Hi & E). apply elem_of_seqZ in Hi.
    apply cmp_fpreg_syncs in E as [-> Hn]. do 7 right. exists i. split; [lia | done].
Qed.

(** ** More options, more tolerance *)

Lemma greg_tolerated_ext m a b i :
  gpr a i = gpr b i -> gpr a risu_NIP = gpr b risu_NIP ->
  greg_tolerated m a i = greg_tolerated m b i.
Proof. intros E1 E2. unfold greg_tolerated. by rewrite E1, E2. Qed.

Lemma fp_tolerated_ext o m a b i :
  fpregs a = fpregs b -> fp_tolerated o m a i = fp_tolerated o m b i.
Proof.
  destruct a as [a1 a2 a3 a4 a5 a6 fa a8], b as [b1 b2 b3 b4 b5 b6 fb b8].
  cbn [fpregs]. intros ->. reflexivity.
Qed.

(** The two comparisons, with [o] and with the more tolerant [o'], are in states
    that agree on everything but general registers already compared. *)
Record agree (todo : list Z) (s t : ppc_reginfo) : Prop := {
  ag_length : length (gregs s) = NGREG /\ length (gregs t) = NGREG;
  ag_todo : forall j, j ∈ todo -> gpr s j = gpr t j;
  ag_special : forall j, 32 <= j -> gpr s j = gpr t j;
  ag_fpregs : fpregs s = fpregs t;
  ag_fpscr : fpscr s = fpscr t
}.

Lemma land_eq_mono x y k k' :
  bits_in k' k -> Z.land x k = Z.land y k -> Z.land x k' = Z.land y k'.
Proof.
  intros I E. rewrite <-(bits_in_land _ _ I), (Z.land_comm k' k), !Z.land_assoc. by rewrite E.
Qed.

Lemma bits_in_spec x y :
  bits_in x y <-> forall k, 0 <= k -> Z.testbit x k = true -> Z.testbit y k = true.
Proof.
  split; [intros I k _; by apply bits_in_testbit |]. intros K. apply Z.bits_inj'. intros k Hk.
  rewrite Z.ldiff_spec, Z.bits_0. specialize (K k Hk).
  destruct (Z.testbit x k), (Z.testbit y k); try done. by discriminate K.
Qed.

Lemma copy_mask_mono mask mask' f from from' g :
  f <= 28 -> bits_in mask' mask -> bits_in from' from ->
  bits_in (copy_mask mask' f from' g) (copy_mask mask f from g).
Proof.
  intros Hf I J. apply bits_in_spec. intros k Hk. unfold copy_mask, andnot.
  rewrite !Z.lor_spec, !Z.ldiff_spec. rewrite !orb_true_iff, !andb_true_iff.
  intros [[K1 K2]|K]; [left; split; [by eapply bits_in_testbit | done] | right].
  rewrite Z.shiftl_spec in * by done.
  destruct (Z.ltb_spec (k - (28 - f)) 0); [by rewrite Z.testbit_neg_r in K |].
  rewrite Z.land_spec, Z.shiftr_spec in * by done. apply andb_prop in K as [K ->].
  by rewrite (bits_in_testbit _ _ _ J K).
Qed.

Lemma land_mono x y x' y' : bits_in x' x -> bits_in y' y -> bits_in (Z.land x' y') (Z.land x y).
Proof.
  intros I J. apply bits_in_spec. intros k Hk. rewrite !Z.land_spec, !andb_true_iff.
  intros [K L]. split; by eapply bits_in_testbit.
Qed.

Lemma land_1c_le x : Z.land x 0x1c <= 28.
Proof.
  replace (Z.land x 0x1c) with (Z.land (Z.land x 31) 0x1c) by (by rewrite <-Z.land_assoc).
  change 31 with (Z.ones 5) at 1. rewrite Z.land_ones by lia.
  pose proof (Z.mod_pos_bound x (2 ^ 5)). set (y := x mod 2 ^ 5) in *.
  assert (0 <= y < 32) as Hy by lia. clearbody y. clear - Hy.
  assert (forall n, (n < 32)%nat -> Z.land (Z.of_nat n) 0x1c <= 28) as K.
  { intros n Hn. do 32 (destruct n as [|n]; [vm_compute; congruence |]). lia. }
  rewrite <-(Z2Nat.id y) by lia. apply K. lia.
Qed.

Lemma ccr_mask_mono o o' m r : more_tolerant o o' ->
  (forall s, ccr_compare_mask o m s = (inl r, s)) ->
  exists r', (forall s, ccr_compare_mask o' m s = (inl r', s)) /\ bits_in r' r.
Proof.
  intros M. unfold ccr_compare_mask. pose proof (mt_ccr _ _ M) as I.
  pose proof (mt_fpscr _ _ M) as J. case_if.
  { intros E1. eexists. split; [reflexivity |]. specialize (E1 m). injection E1 as <-.
    apply land_mono; [apply copy_mask_mono; [apply land_1c_le | done | done] | done]. }
  case_if.
  { intros E1. eexists. split; [reflexivity |]. specialize (E1 m). injection E1 as <-.
    apply land_mono; [apply copy_mask_mono; [apply land_1c_le | done | done] | done]. }
  destruct (pure_if_quotient (insn_in (prev_insn m) [(0xfc0003ff, 0x7c000297)]) m
    (div_dividend m)) as [[d|h] Hd].
  - intros E1. specialize (E1 m). rewrite (bind_done _ _ _ _ _ (Hd m)) in E1.
    apply ret_inv in E1 as [<- _]. eexists. split.
    + intros s. by rewrite (bind_done _ _ _ _ _ (Hd s)).
    + destruct d; [apply land_mono; [apply bits_in_refl | done] | done].
  - intros E1. specialize (E1 m). by rewrite (bind_stop _ _ _ _ _ (Hd m)) in E1.
Qed.

Lemma test_step_done f put m c s :
  f m = f s \/ f m <> f s /\ c s s = (inl true, s) ->
  test_step f put m c s = (inl true, if f m =? f s then s else put (f m) s).
Proof.
  intros D. unfold test_step. rewrite (bind_done (gets id) _ _ s s) by done.
  destruct (Z.eqb_spec (f m) (f s)) as [E|E]; [done |]. destruct D as [|[_ D]]; [done |].
  by rewrite (bind_done _ _ _ _ _ D).
Qed.

(** One test in both comparisons. *)
Lemma test_step_mono f put m c c' s t s' :
  agree [] s t -> f s = f t -> (forall x, pure (c x)) ->
  (agree [] (put (f m) s) (put (f m) t)) ->
  (c s s = (inl true, s) -> c' t t = (inl true, t)) ->
  test_step f put m c s = (inl true, s') ->
  exists t', test_step f put m c' t = (inl true, t') /\ agree [] s' t'.
Proof.
  intros A Ef Hp P C E.
  apply test_step_cases in E as [(E & _ & ->)|(E & K & ->)]; [| | done].
  - exists t. rewrite test_step_done by (left; congruence). split; [| done].
    by rewrite <-Ef, E, Z.eqb_refl.
  - exists (put (f m) t). rewrite test_step_done by (right; split; [congruence | auto]).
    split; [| done]. rewrite <-Ef. by destruct (Z.eqb_spec (f m) (f s)).
Qed.

Lemma agree_set_gpr l i v s t :
  0 <= i < 41 -> agree l s t -> agree l (set_gpr i v s) (set_gpr i v t).
Proof.
  intros Hi [[L1 L2] T S F P]. change NGREG with 41%nat in *.
  assert (forall j, gpr s j = gpr t j -> gpr (set_gpr i v s) j = gpr (set_gpr i v t) j) as K.
  { intros j E. unfold gpr in *. cbn [gregs set_gpr]. rewrite !nth_lookup in *.
    destruct (decide (Z.to_nat i = Z.to_nat j)) as [<-|].
    - rewrite !list_lookup_insert_eq by lia. done.
    - by rewrite !list_lookup_insert_ne. }
  split; cbn [gregs set_gpr fpregs fpscr]; try done; [by rewrite !length_insert | |]; auto.
Qed.

Lemma agree_set_gpr_left l i v s t :
  0 <= i < 32 -> i ∉ l -> (forall j, j ∈ l -> 0 <= j) ->
  agree (i :: l) s t -> agree l (set_gpr i v s) t.
Proof.
  intros Hi Hl Hp [[L1 L2] T S F P]. change NGREG with 41%nat in *.
  assert (forall j, 0 <= j -> j <> i -> gpr (set_gpr i v s) j = gpr s j) as K.
  { intros j Hj Hn. rewrite gpr_set by lia. by destruct (Z.eqb_spec j i). }
  split; cbn [gregs set_gpr fpregs fpscr]; try done; [by rewrite length_insert | |]; intros j Hj.
  - rewrite K; [apply T; by right | by apply Hp |]. intros ->. done.
  - rewrite K by lia. by apply S.
Qed.

Lemma agree_weaken i l s t : agree (i :: l) s t -> agree l s t.
Proof. intros []. split; try done. intros. by apply ag_todo0; right. Qed.

Lemma cmp_greg_mono mask mask' m i l s t s' :
  0 <= i < 32 -> i ∉ l -> (forall j, j ∈ l -> 0 <= j) -> bits_in mask' mask ->
  agree (i :: l) s t -> cmp_greg mask m i s = (inl true, s') ->
  exists t', cmp_greg mask' m i t = (inl true, t') /\ agree l s' t'.
Proof.
  intros Hr Hi Hl I A E.
  assert (gpr s i = gpr t i) as Ei by (apply (ag_todo _ _ _ A); by left).
  assert (gpr s risu_NIP = gpr t risu_NIP) as En by (apply (ag_special _ _ _ A); done).
  unfold cmp_greg. setoid_rewrite (bind_done (gets id) _ _ t t); [| done].
  apply cmp_greg_spec in E as [[-> [E|E]]|(-> & Hm & Hn & G)].
  - rewrite <-Ei, E, Z.eqb_refl. exists t. split; [done | by eapply agree_weaken].
  - exists t. split; [| by eapply agree_weaken].
    by rewrite (masked_mono _ _ _ I E); destruct (_ =? _).
  - destruct (Z.eqb_spec (gpr m i) (gpr t i)); [congruence |].
    destruct (masked mask' i).
    + exists t. split; [done |]. by apply agree_set_gpr_left.
    + exists (set_gpr i (gpr m i) t). split.
      * destruct (pure_greg_tolerated m s i) as [r Hp]. rewrite Hp in G. injection G as ->.
        rewrite (bind_done _ _ _ true t); [done |].
        by rewrite <-(greg_tolerated_ext m s t i Ei En).
      * apply agree_set_gpr; [lia |]. by eapply agree_weaken.
Qed.

Lemma greg_loop_mono mask mask' m l s t s' :
  NoDup l -> (forall j, j ∈ l -> 0 <= j < 32) -> bits_in mask' mask -> agree l s t ->
  cmp_loop (cmp_greg mask m) l s = (inl true, s') ->
  exists t', cmp_loop (cmp_greg mask' m) l t = (inl true, t') /\ agree [] s' t'.
Proof.
  intros Nd Hl I. revert s t. induction l as [|i l IH]; intros s t A E.
  { injection E as <-. by exists t. }
  apply NoDup_cons in Nd as [Hi Nd]. apply cmp_loop_true in E as (s1 & E1 & E2).
  assert (forall j, j ∈ l -> 0 <= j < 32) as Hl' by (intros; apply Hl; by right).
  destruct (cmp_greg_mono mask mask' m i l s t s1) as (t1 & F1 & A1);
    [apply Hl; by left | done | apply Hl' | done | done | done |].
  destruct (IH Nd Hl' s1 t1 A1 E2) as (t' & F2 & A2).
  exists t'. split; [| done]. cbn [cmp_loop]. by rewrite (bind_done _ _ _ _ _ F1).
Qed.

Lemma local_mask_mono o o' a :
  more_tolerant o o' -> bits_in (local_gregs_mask o' a) (local_gregs_mask o a).
Proof.
  intros M. unfold local_gregs_mask. case_if; [| apply (mt_gregs _ _ M)].
  apply bits_in_spec. intros k Hk. unfold andnot. rewrite !Z.ldiff_spec, !andb_true_iff.
  intros [K ->]. split; [| done]. by eapply bits_in_testbit; [apply (mt_gregs _ _ M) |].
Qed.

Lemma fpreg_loop_mono o o' m l s t s' :
  more_tolerant o o' -> agree [] s t ->
  cmp_loop (cmp_fpreg o m) l s = (inl true, s') ->
  exists t', cmp_loop (cmp_fpreg o' m) l t = (inl true, t').
Proof.
  intros M. revert s t. induction l as [|i l IH]; intros s t A E; [by exists t |].
  apply cmp_loop_true in E as (s1 & E1 & E2). rewrite cmp_fpreg_step in E1.
  eapply (test_step_mono _ _ _ _ (fpreg_test o' i m) _ t) in E1 as (t1 & F1 & A1).
  - destruct (IH _ _ A1 E2) as (t' & F2). exists t'. cbn [cmp_loop].
    rewrite cmp_fpreg_step. by rewrite (bind_done _ _ _ _ _ F1).
  - done.
  - unfold fpr. by rewrite (ag_fpregs _ _ _ A).
  - intros. apply pure_ret.
  - destruct A. split; try done. cbn. by rewrite ag_fpregs0.
  - unfold fpreg_test. intros K. injection K as K.
    rewrite (fp_tolerated_ext o m s t i (ag_fpregs _ _ _ A)) in K.
    by rewrite (fp_tolerated_mono o o').
Qed.

Lemma mq_tolerated_mono o o' n m a b s t :
  more_tolerant o o' -> gpr a risu_MQ = gpr b risu_MQ ->
  mq_tolerated o n m a s = (inl true, s) -> mq_tolerated o' n m b t = (inl true, t).
Proof.
  intros M Ea E. unfold mq_tolerated in *. rewrite <-Ea.
  destruct (Z.eqb_spec (Z.land (gpr m risu_MQ) (mq_mask o)) (Z.land (gpr a risu_MQ) (mq_mask o)))
    as [K|K].
  { apply (land_eq_mono _ _ _ _ (mt_mq _ _ M)) in K. by rewrite K, Z.eqb_refl. }
  case_if; [done |]. destruct (pure_if_quotient
    (insn_in (prev_insn m) [(0xfc0003fe, 0x7c000296)]) m (div_dividend m)) as [[d|h] Hd].
  - rewrite (bind_done _ _ _ _ _ (Hd s)) in E. rewrite (bind_done _ _ _ _ _ (Hd t)).
    destruct d; [done |]. apply ret_inv in E as [E _].
    unfold mret, M_ret. f_equal. f_equal. apply orb_true_iff. apply orb_true_iff in E as [E|E].
    + left. apply andb_prop in E as [E1 ->].
      by rewrite (truth_land_mono _ _ _ (mt_cpu_opts _ _ M) E1).
    + by right.
  - by rewrite (bind_stop _ _ _ _ _ (Hd s)) in E.
Qed.

Lemma xer_test_mono o o' m a b s t :
  more_tolerant o o' -> gpr a risu_XER = gpr b risu_XER ->
  xer_test o m a s = (inl true, s) -> xer_test o' m b t = (inl true, t).
Proof.
  intros M Ea K. unfold xer_test in *. rewrite <-Ea. injection K as K.
  apply Z.eqb_eq, (land_eq_mono _ _ _ _ (mt_xer _ _ M)) in K. by rewrite K, Z.eqb_refl.
Qed.

Lemma ccr_test_mono o o' m a b s t :
  more_tolerant o o' -> gpr a risu_CCR = gpr b risu_CCR ->
  ccr_test o m a s = (inl true, s) -> ccr_test o' m b t = (inl true, t).
Proof.
  intros M Ea. unfold ccr_test. rewrite <-Ea.
  destruct (pure_ccr_mask o m) as [[r|h] Hr]; [| by rewrite (bind_stop _ _ _ _ _ (Hr s))].
  destruct (ccr_mask_mono o o' m r M Hr) as (r' & Hr' & I).
  rewrite (bind_done _ _ _ _ _ (Hr s)), (bind_done _ _ _ _ _ (Hr' t)).
  intros K. injection K as K. apply Z.eqb_eq, (land_eq_mono _ _ _ _ I) in K.
  by rewrite K, Z.eqb_refl.
Qed.

Lemma fpscr_test_mono o o' m a b s t :
  more_tolerant o o' -> fpscr a = fpscr b ->
  fpscr_test o m a s = (inl true, s) -> fpscr_test o' m b t = (inl true, t).
Proof.
  intros M Ea K. unfold fpscr_test in *. rewrite <-Ea. injection K as K.
  apply Z.eqb_eq, (land_eq_mono _ _ _ _ (mt_fpscr _ _ M)) in K. by rewrite K, Z.eqb_refl.
Qed.

Lemma is_eq_mono o o' n m a a1 :
  length (gregs a) = NGREG -> more_tolerant o o' ->
  ppc_reginfo_is_eq o n m a = (inl true, a1) ->
  exists a2, ppc_reginfo_is_eq o' n m a = (inl true, a2).
Proof.
  intros L M E.
  apply is_eq_true_inv in E as (s1 & s2 & s3 & s4 & s5 & E1 & E2 & E3 & E4 & E5 & E6 & E7 & E8).
  destruct (greg_loop_mono (local_gregs_mask o a) (local_gregs_mask o' a) m (seqZ 0 32) a a s1) as (t1 & F1 & A1);
    [apply NoDup_seqZ | intros j; rewrite elem_of_seqZ; lia | by apply local_mask_mono
    | by split | done |].
  rewrite cmp_xer_step in E2.
  eapply (test_step_mono _ _ _ _ (xer_test o' m) _ t1) in E2 as (t2 & F2 & A2);
    [| done | by apply (ag_special _ _ _ A1) | intros; apply pure_ret
    | by apply agree_set_gpr | ].
  2: { apply xer_test_mono; [done |]. by apply (ag_special _ _ _ A1). }
  assert (cmp_lnk m t2 = (inl true, t2)) as F3.
  { unfold cmp_lnk in *. munfold. unfold id in *.
    rewrite <-!(ag_special _ _ _ A2) by done. by injection E3 as ->. }
  assert (cmp_ctr m t2 = (inl true, t2)) as F4.
  { unfold cmp_ctr in *. munfold. unfold id in *.
    rewrite <-!(ag_special _ _ _ A2) by done. by injection E4 as ->. }
  rewrite cmp_ccr_step in E5.
  eapply (test_step_mono _ _ _ _ (ccr_test o' m) _ t2) in E5 as (t3 & F5 & A3);
    [| done | by apply (ag_special _ _ _ A2) | intros; apply pure_ccr_test
    | by apply agree_set_gpr | ].
  2: { apply ccr_test_mono; [done |]. by apply (ag_special _ _ _ A2). }
  rewrite cmp_mq_step in E6.
  eapply (test_step_mono _ _ _ _ (mq_tolerated o' n m) _ t3) in E6 as (t4 & F6 & A4);
    [| done | by apply (ag_special _ _ _ A3) | intros; apply pure_mq_tolerated
    | by apply agree_set_gpr | ].
  2: { apply mq_tolerated_mono; [done |]. by apply (ag_special _ _ _ A3). }
  rewrite cmp_fpscr_step in E7.
  eapply (test_step_mono _ _ _ _ (fpscr_test o' m) _ t4) in E7 as (t5 & F7 & A5);
    [| done | apply (ag_fpscr _ _ _ A4) | intros; apply pure_ret | by destruct A4; split |].
  2: { apply fpscr_test_mono; [done |]. apply (ag_fpscr _ _ _ A4). }
  destruct (fpreg_loop_mono o o' m _ _ _ _ M A5 E8) as (t6 & F8).
  exists t6. unfold ppc_reginfo_is_eq. rewrite (bind_done (gets id) _ _ a a) by done.
  cbn [all_of]. rewrite (bind_done _ _ _ _ _ F1). rewrite cmp_xer_step, (bind_done _ _ _ _ _ F2).
  rewrite (bind_done _ _ _ _ _ F3), (bind_done _ _ _ _ _ F4).
  rewrite <-cmp_ccr_step in F5. rewrite (bind_done _ _ _ _ _ F5).
  rewrite cmp_mq_step, (bind_done _ _ _ _ _ F6), cmp_fpscr_step, (bind_done _ _ _ _ _ F7).
  by rewrite (bind_done _ _ _ _ _ F8).
Qed.

(** ** The exact comparison *)

Definition ALL_BITS : Z := 0xffffffff.

(** Nothing is tolerated, though general registers may be excluded. *)
Record exact_opts (o : ppc_opts) : Prop := {
  ex_ccr : ccr_mask o = ALL_BITS;
  ex_xer : xer_mask o = ALL_BITS;
  ex_mq : mq_mask o = ALL_BITS;
  ex_fpscr : fpscr_mask o = ALL_BITS;
  ex_fpregs : fpregs_mask o = ALL_BITS;
  ex_fp_opts : fp_opts o = 0;
  ex_cpu_opts : Z.land (cpu_opts o) cpu_opt_use_601 = 0
}.

(** The instructions before the checkpoint are none of those whose results the
    comparison treats in a special way. *)
Definition ordinary (m : ppc_reginfo) : bool :=
  negb (insn_in (prev_insn m) [(0xfc1fffff, 0x7c0802a6); (0xfc0003fe, 0x7c000296);
                               (0xfc0003fe, 0x7c0002d6); (0xfc0003ff, 0x7c000297)]) &&
  negb (insn_in (second_prev_insn m) [(0xfc0007fe, 0x7c00022a)]).

Lemma ordinary_cases m : ordinary m = true ->
  insn_in (prev_insn m) [(0xfc1fffff, 0x7c0802a6)] = false /\
  insn_in (prev_insn m) [(0xfc0003fe, 0x7c000296)] = false /\
  insn_in (prev_insn m) [(0xfc0003fe, 0x7c0002d6)] = false /\
  insn_in (prev_insn m) [(0xfc0003ff, 0x7c000297)] = false /\
  insn_in (second_prev_insn m) [(0xfc0007fe, 0x7c00022a)] = false.
Proof. unfold ordinary, insn_in. cbn [existsb]. bool_simpl. naive_solver. Qed.

Lemma greg_tolerated_ordinary m a i s :
  ordinary m = true -> greg_tolerated m a i s = (inl false, s).
Proof.
  intros O. apply ordinary_cases in O as (O1 & O2 & O3 & _ & O5).
  unfold greg_tolerated. by rewrite O1, O2, O3, O5.
Qed.

Lemma land_all_bits x : Z.land x ALL_BITS = u32 x.
Proof. change ALL_BITS with (Z.ones 32). by rewrite Z.land_ones. Qed.

Lemma land_1c_mod x : Z.land x 0x1c = Z.land (x mod 32) 0x1c.
Proof.
  change 32 with (2 ^ 5). rewrite <-Z.land_ones by lia. change (Z.ones 5) with 31.
  by rewrite <-Z.land_assoc.
Qed.

Lemma copy_mask_all x y :
  copy_mask ALL_BITS (Z.land x 0x1c) ALL_BITS (Z.land y 0x1c) = ALL_BITS.
Proof.
  rewrite (land_1c_mod x), (land_1c_mod y).
  pose proof (Z.mod_pos_bound x 32 eq_refl) as Hx. pose proof (Z.mod_pos_bound y 32 eq_refl) as Hy.
  assert (forallb (fun f => forallb (fun g =>
    copy_mask ALL_BITS (Z.land (Z.of_nat f) 0x1c) ALL_BITS (Z.land (Z.of_nat g) 0x1c) =? ALL_BITS)
    (seq 0 32)) (seq 0 32) = true) as K by (vm_compute; reflexivity).
  rewrite forallb_forall in K. specialize (K (Z.to_nat (x mod 32)) ltac:(apply in_seq; lia)).
  cbv beta in K. rewrite forallb_forall in K.
  specialize (K (Z.to_nat (y mod 32)) ltac:(apply in_seq; lia)). cbv beta in K.
  rewrite !Z2Nat.id in K by lia. by apply Z.eqb_eq in K.
Qed.

Lemma ccr_mask_exact o m s : exact_opts o -> ordinary m = true ->
  ccr_compare_mask o m s = (inl ALL_BITS, s).
Proof.
  intros X O. apply ordinary_cases in O as (_ & _ & _ & O4 & _).
  unfold ccr_compare_mask. rewrite (ex_ccr _ X), (ex_fpscr _ X), O4.
  pose proof (copy_mask_all (Z.shiftr (prev_insn m) 21) 4) as C.
  change (Z.land 4 0x1c) with 4 in C. rewrite C, copy_mask_all.
  case_if; [done |]. case_if; done.
Qed.

Lemma greg_loop_exact mask m l s :
  ordinary m = true ->
  cmp_loop (cmp_greg mask m) l s =
  (inl (forallb (fun i => (gpr m i =? gpr s i) || masked mask i) l), s).
Proof.
  intros O. induction l as [|i l IH]; [done |]. cbn [cmp_loop forallb].
  rewrite (bind_done _ _ s ((gpr m i =? gpr s i) || masked mask i) s).
  { destruct (_ || _); [exact IH | done]. }
  unfold cmp_greg. rewrite (bind_done (gets id) _ s s s) by done. unfold id.
  destruct (gpr m i =? gpr s i); [done |]. destruct (masked mask i); [done |].
  by rewrite (bind_done _ _ _ _ _ (greg_tolerated_ordinary m s i s O)).
Qed.

Lemma masked_all_bits i : 0 <= i < 32 -> masked ALL_BITS i = false.
Proof.
  intros Hi. unfold masked. change ALL_BITS with (Z.ones 32).
  rewrite Z.ones_spec_low by lia. done.
Qed.

Lemma fpreg_loop_exact o m l s :
  exact_opts o -> Forall (fun i => 0 <= i < 32) l ->
  cmp_loop (cmp_fpreg o m) l s = (inl (forallb (fun i => fpr m i =? fpr s i) l), s).
Proof.
  intros X. induction 1 as [|i l Hi _ IH]; [done |]. cbn [cmp_loop forallb].
  rewrite (bind_done _ _ s (fpr m i =? fpr s i) s); [by destruct (_ =? _) |].
  unfold cmp_fpreg. rewrite (bind_done (gets id) _ s s s) by done. unfold id.
  destruct (fpr m i =? fpr s i); [done |].
  rewrite fp_tolerated_none, (ex_fpregs _ X), masked_all_bits; [done | exact Hi | apply (ex_fp_opts _ X)].
Qed.

(** A test of masked bits, when all are compared. *)
Lemma test_step_exact f put m c s :
  c s s = (inl (u32 (f m) =? u32 (f s)), s) ->
  exists s', test_step f put m c s = (inl (u32 (f m) =? u32 (f s)), s') /\ (s' = s \/ s' = put (f m) s).
Proof.
  intros C. unfold test_step. rewrite (bind_done (gets id) _ s s s) by done. unfold id.
  destruct (Z.eqb_spec (f m) (f s)) as [E|_]; [rewrite E, Z.eqb_refl; by eauto |].
  rewrite (bind_done _ _ _ _ _ C). destruct (_ =? _); eauto.
Qed.

Lemma gpr_other i j v s : Z.to_nat j <> Z.to_nat i -> gpr (set_gpr i v s) j = gpr s j.
Proof. intros N. unfold gpr. cbn. by rewrite !nth_lookup, list_lookup_insert_ne. Qed.

(** What two register files agree on that are equal for the exact comparison:
    the general registers that are compared at all, CTR, LNK relative to NIP, the
    32 bits of XER, CCR, MQ and FPSCR, the floating-point registers. *)
Definition ppc_agree (o : ppc_opts) (m a : ppc_reginfo) : bool :=
  forallb (fun i => (gpr m i =? gpr a i) || masked (local_gregs_mask o a) i) (seqZ 0 32) &&
  (u32 (gpr m risu_XER) =? u32 (gpr a risu_XER)) &&
  (reg_t (gpr m risu_LNK - gpr m risu_NIP) =? reg_t (gpr a risu_LNK - gpr a risu_NIP)) &&
  (gpr m risu_CTR =? gpr a risu_CTR) &&
  (u32 (gpr m risu_CCR) =? u32 (gpr a risu_CCR)) && (u32 (gpr m risu_MQ) =? u32 (gpr a risu_MQ)) &&
  (u32 (fpscr m) =? u32 (fpscr a)) && forallb (fun i => fpr m i =? fpr a i) (seqZ 0 32).

Lemma all_of_step {R} (c : M R bool) t s b s' :
  c s = (inl b, s') -> all_of (c :: t) s = if b then all_of t s' else (inl false, s').
Proof. intros E. simpl. rewrite (bind_done _ _ _ _ _ E). by destruct b. Qed.

Lemma mq_exact o n m a s :
  exact_opts o -> ordinary m = true -> 1 < n ->
  mq_tolerated o n m a s = (inl (u32 (gpr m risu_MQ) =? u32 (gpr a risu_MQ)), s).
Proof.
  intros X O Hn. apply ordinary_cases in O as (_ & O2 & _). unfold mq_tolerated, truth.
  rewrite (ex_mq _ X), !land_all_bits, (ex_cpu_opts _ X), O2. munfold.
  destruct (u32 (gpr m risu_MQ) =? u32 (gpr a risu_MQ)); [done |].
  by destruct (Z.leb_spec n 1); [lia |].
Qed.

Lemma is_eq_exact o n m a :
  exact_opts o -> ordinary m = true -> 1 < n ->
  fst (ppc_reginfo_is_eq o n m a) = inl (ppc_agree o m a).
Proof.
  intros X O Hn. unfold ppc_reginfo_is_eq. rewrite (bind_done (gets id) _ a a a) by done. unfold id, ppc_agree.
  rewrite (all_of_step _ _ _ _ _ (greg_loop_exact _ m (seqZ 0 32) a O)).
  destruct (forallb _ (seqZ 0 32)); [| done]. cbn [andb].
  destruct (test_step_exact (fun r => gpr r risu_XER) (set_gpr risu_XER) m (xer_test o m) a) as (s1 & E1 & D1).
  { unfold xer_test. by rewrite (ex_xer _ X), !land_all_bits. }
  rewrite (all_of_step _ _ _ _ _ E1). destruct (u32 (gpr m risu_XER) =? u32 (gpr a risu_XER)); [| done].
  assert (forall j, 0 <= j -> j <> risu_XER -> gpr s1 j = gpr a j) as F1
    by (intros j K1 K2; destruct D1 as [-> | ->]; [done | apply gpr_other; unfold risu_XER in *; lia]).
  assert (fpscr s1 = fpscr a /\ fpregs s1 = fpregs a) as [P1 Q1] by (by destruct D1 as [-> | ->]). clear D1 E1.
  rewrite (all_of_step (cmp_lnk m) _ s1 _ s1 eq_refl), !F1 by done.
  destruct (reg_t _ =? reg_t _); [| done]. cbn [andb].
  rewrite (all_of_step (cmp_ctr m) _ s1 _ s1 eq_refl), !F1 by done.
  destruct (gpr m risu_CTR =? gpr a risu_CTR); [| done]. cbn [andb].
  destruct (test_step_exact (fun r => gpr r risu_CCR) (set_gpr risu_CCR) m (ccr_test o m) s1) as (s2 & E2 & D2).
  { unfold ccr_test. rewrite (bind_done _ _ _ _ _ (ccr_mask_exact o m s1 X O)). by rewrite !land_all_bits. }
  rewrite <-cmp_ccr_step in E2. rewrite (all_of_step _ _ _ _ _ E2), !F1 by done.
  destruct (u32 (gpr m risu_CCR) =? u32 (gpr a risu_CCR)); [| done]. cbn [andb].
  assert (gpr s2 risu_MQ = gpr a risu_MQ) as F2
    by (destruct D2 as [-> | ->]; [by apply F1 | rewrite gpr_other by done; by apply F1]).
  assert (fpscr s2 = fpscr a /\ fpregs s2 = fpregs a) as [P2 Q2] by (by destruct D2 as [-> | ->]). clear D2 E2.
  destruct (test_step_exact (fun r => gpr r risu_MQ) (set_gpr risu_MQ) m (mq_tolerated o n m) s2) as (s3 & E3 & D3).
  { by apply mq_exact. }
  rewrite (all_of_step _ _ _ _ _ E3), F2. destruct (u32 (gpr m risu_MQ) =? u32 (gpr a risu_MQ)); [| done]. cbn [andb].
  assert (fpscr s3 = fpscr a /\ fpregs s3 = fpregs a) as [P3 Q3] by (by destruct D3 as [-> | ->]). clear D3 E3.
  destruct (test_step_exact fpscr set_fpscr m (fpscr_test o m) s3) as (s4 & E4 & D4).
  { unfold fpscr_test. by rewrite (ex_fpscr _ X), !land_all_bits. }
  rewrite (all_of_step _ _ _ _ _ E4), P3. destruct (u32 (fpscr m) =? u32 (fpscr a)); [| done]. cbn [andb].
  assert (fpregs s4 = fpregs a) as Q4 by (by destruct D4 as [-> | ->]).
  rewrite (all_of_step _ _ _ _ _ (fpreg_loop_exact o m (seqZ 0 32) s4 X
    ltac:(apply Forall_forall; intros i; rewrite elem_of_seqZ; lia))).
  unfold fpr. rewrite Q4. by destruct (forallb _ (seqZ 0 32)).
Qed.
End compare.

(** ** Patterns that differ in the sign *)

Lemma sign_flip n : in_width 64 n -> Z.lxor n sign_bit = n + 2 ^ 63 - sign n * 2 ^ 64.
Proof.
  intros Hn. pose proof (Z.add_lxor_2land n sign_bit) as E. rewrite sign_land in E by done.
  change sign_bit with (2 ^ 63) in *. lia.
Qed.

Lemma sign_flip_magnitude n :
  in_width 64 n -> andnot (Z.lxor n sign_bit) sign_bit = andnot n sign_bit.
Proof.
  intros Hn. apply Z.bits_inj'. intros k Hk. unfold andnot.
  rewrite !Z.ldiff_spec, Z.lxor_spec. by destruct (Z.testbit n k), (Z.testbit sign_bit k).
Qed.

(** The distance between the two patterns is the one value [ABS] cannot negate. *)
Lemma sign_flip_distance n : in_width 64 n -> s64 (Z.lxor n sign_bit - n) = - 2 ^ 63.
Proof.
  intros Hn. rewrite sign_flip by done. destruct (pattern_fields n Hn) as (_ & Hs & _ & _).
  assert (sign n = 0 \/ sign n = 1) as [-> | ->] by lia; unfold swrap.
  - replace (n + 2 ^ 63 - 0 * 2 ^ 64 - n + 2 ^ (64 - 1)) with (2 ^ 64) by lia. done.
  - replace (n + 2 ^ 63 - 1 * 2 ^ 64 - n + 2 ^ (64 - 1)) with 0 by lia. done.
Qed.

Lemma insn_other x :
  Z.land x 0xfc0007fe = 0xfc00002a ->
  insn_in x [(0xfc1f07fe, 0xfc000034); (0xfc1f07fe, 0xec000030)] = false.
Proof.
  intros E. assert (forall v, Z.land v 0xfc0007fe <> 0xfc00002a ->
    (Z.land x 0xfc1f07fe =? v) = false) as K.
  { intros v Hv. apply Z.eqb_neq. intros F. apply Hv. rewrite <-F, <-E, <-Z.land_assoc. done. }
  unfold insn_in. cbn [existsb]. by rewrite !K.
Qed.

(** ** A build and two register files to apply the theorems to *)

Section example.

(** The DPPC emulator on a little-endian host with the compiler's byte swaps. *)
#[local] Instance example_build : Build :=
  {| bswap_builtins := true; host_le := true; def_LITTLE_ENDIAN := true |}.
#[local] Instance example_ppc : PpcBuild :=
  {| dppc := true; apple := false; lp64 := true; big_endian := false |}.
#[local] Instance example_abs : AbsOverflow := - 2 ^ 63.

(** After [fadd f1,f2,f3] at a comparison point; [x] is in f1, [c] in CCR. *)
Definition example_regs (x c : Z) : ppc_reginfo :=
  PpcReginfo 0x60000000 0xfc22182a 0x5af0 0x60000000 8
    (map Z.of_nat (seq 0 32) ++ [0xf0000008; 0; 0; 0xf0000100; 0; c; 0; 0; 0])
    (0 :: x :: replicate 30 0x3ff0000000000000) 0.

Lemma example_wf x c : in_width 64 x -> in_width 32 c -> ppc_wf (example_regs x c).
Proof.
  intros Hx Hc. unfold in_width in *.
  split; cbn -[Z.pow]; repeat (apply Forall_cons; split); try apply Forall_nil_2; try done;
    unfold in_width; lia.
Qed.

(** Everything is compared. *)
Definition example_exact : ppc_opts :=
  PpcOpts ALL_BITS ALL_BITS ALL_BITS ALL_BITS ALL_BITS ALL_BITS ALL_BITS 0 0.

(** Rounding differences are ignored, and the first field of CCR. *)
Definition example_lax : ppc_opts :=
  PpcOpts ALL_BITS 0x0fffffff ALL_BITS ALL_BITS ALL_BITS ALL_BITS ALL_BITS
    fp_opt_ignore_round 0.
End example.

(** ** Properties *)

(** C6: an accepted comparison leaves the two register files synchronised: after
    [reginfo_is_eq] has returned 1, the apprentice's copy has the master's value
    in every general register that the mask does not exclude, in XER, CCR, MQ,
    CTR, FPSCR and in all floating-point registers, whatever differences were
    tolerated on the way; the link registers are at the same distance from the
    program counters.  So no tolerated difference is seen again at the next
    checkpoint. *)
Theorem ppc_accepted_synchronised `{Build} `{PpcBuild} `{AbsOverflow} o n m a a' :
  ppc_wf m -> ppc_wf a -> ppc_reginfo_is_eq o n m a = (inl true, a') ->
  (forall i, 0 <= i < 32 ->
    gpr a' i = gpr m i \/ masked (local_gregs_mask o a) i = true) /\
  gpr a' risu_XER = gpr m risu_XER /\ gpr a' risu_CCR = gpr m risu_CCR /\
  gpr a' risu_MQ = gpr m risu_MQ /\ gpr a' risu_CTR = gpr m risu_CTR /\
  gpr a' risu_NIP = gpr a risu_NIP /\ gpr a' risu_LNK = gpr a risu_LNK /\
  reg_t (gpr m risu_LNK - gpr m risu_NIP) = reg_t (gpr a risu_LNK - gpr a risu_NIP) /\
  fpscr a' = fpscr m /\ fpregs a' = fpregs m.
Proof. intros [] []. by apply is_eq_sync. Qed.

Lemma ppc_accepted_synchronised_witness :
  exists a', @ppc_reginfo_is_eq example_ppc example_abs example_lax 5
      (example_regs 0x3ff0000000000000 0x80000000) (example_regs 0x3ff0000000000001 0x40000000)
    = (inl true, a') /\ gpr a' risu_CCR = 0x80000000.
Proof.
  eexists. split; [vm_compute; reflexivity |].
  apply (@ppc_accepted_synchronised example_build example_ppc example_abs example_lax 5
    (example_regs 0x3ff0000000000000 0x80000000) (example_regs 0x3ff0000000000001 0x40000000));
    [apply example_wf; split; vm_compute; congruence
    |apply example_wf; split; vm_compute; congruence
    |vm_compute; reflexivity].
Defined.

(** C8: options only add tolerance: if a comparison is accepted with some
    options, it is accepted with any options that exclude no fewer bits and
    ignore no fewer kinds of floating-point differences. *)
Theorem ppc_options_monotone `{Build} `{PpcBuild} `{AbsOverflow} o o' n m a a1 :
  ppc_wf a -> more_tolerant o o' -> ppc_reginfo_is_eq o n m a = (inl true, a1) ->
  exists a2, ppc_reginfo_is_eq o' n m a = (inl true, a2).
Proof. intros W. apply is_eq_mono, (wf_gregs_length _ W). Qed.

Lemma ppc_options_monotone_witness :
  exists a2, @ppc_reginfo_is_eq example_ppc example_abs example_lax 5
    (example_regs 0 0) (example_regs 0 0) = (inl true, a2).
Proof.
  eapply (@ppc_options_monotone example_build example_ppc example_abs example_exact example_lax 5
    (example_regs 0 0) (example_regs 0 0));
    [apply example_wf; split; vm_compute; congruence
    |split; vm_compute; reflexivity
    |vm_compute; reflexivity].
Defined.

(** C7: the exact comparison is exact.  With all bits of XER, CCR, MQ, FPSCR and
    all floating-point registers compared, no floating-point options and no 601,
    after an instruction for which there is no special rule and not at the first
    signal, [reginfo_is_eq] returns, and it accepts exactly the register files
    that agree: on the general registers that the mask selects, on CTR, on LNK
    relative to NIP, on the lower 32 bits of XER, CCR, MQ and FPSCR, and on every
    floating-point register. *)
Theorem ppc_exact_comparison `{Build} `{PpcBuild} `{AbsOverflow} o n m a :
  exact_opts o -> ordinary m = true -> 1 < n ->
  fst (ppc_reginfo_is_eq o n m a) = inl (ppc_agree o m a).
Proof. apply is_eq_exact. Qed.

(** Equal register files are accepted; one that differs in the last bit of f1, or
    in CTR, is not. *)
Lemma ppc_exact_comparison_witness :
  let eq a := fst (@ppc_reginfo_is_eq example_ppc example_abs example_exact 5 (example_regs 7 0) a) in
  eq (example_regs 7 0) = inl true /\ eq (example_regs 6 0) = inl false /\
  eq (set_gpr risu_CTR 1 (example_regs 7 0)) = inl false.
Proof.
  cbn zeta. split_and!;
    (rewrite (@ppc_exact_comparison example_build example_ppc example_abs example_exact 5);
      [vm_compute; reflexivity | split; vm_compute; reflexivity | vm_compute; reflexivity | lia]).
Defined.

(** C9: every rejection is explained: when [reginfo_is_eq] returns 0,
    [reginfo_dump_mismatch] on the register files as they were left prints at
    least one mismatch. *)
Theorem ppc_rejection_explained `{Build} `{PpcBuild} `{AbsOverflow} o n m a a' :
  ppc_reginfo_is_eq o n m a = (inl false, a') -> ppc_reginfo_dump_mismatch o m a' <> [].
Proof. apply is_eq_false_differs. Qed.

Lemma ppc_rejection_explained_witness :
  @ppc_reginfo_dump_mismatch example_ppc example_exact (example_regs 7 0) (example_regs 8 0) <> [].
Proof.
  apply (@ppc_rejection_explained example_build example_ppc example_abs example_exact 5
    (example_regs 7 0) (example_regs 8 0)).
  vm_compute. reflexivity.
Defined.

(** Ignoring rounding can ignore the sign: two results of fadd that differ
    in nothing but the sign bit are accepted as a rounding difference exactly
    when the compiled [ABS] returns at most 1 for INT64_MIN.  With the wrap-around
    of two's complement it returns INT64_MIN, so +x is accepted for -x. *)
Lemma ppc_round_ignores_sign `{AbsOverflow} o m a i :
  fp_opt o fp_opt_ignore_round = true ->
  Z.land (prev_insn m) 0xfc0007fe = 0xfc00002a -> rt_of m = i ->
  in_width 64 (fpr m i) -> fpr a i = Z.lxor (fpr m i) sign_bit -> is_nan (fpr m i) = false ->
  tolerates_round o m a i = (abs_int64_min <=? 1).
Proof.
  intros Ho Hi Hr Hw Ha Hn. unfold tolerates_round. rewrite Ho, Hr, Z.eqb_refl.
  assert (insn_in (prev_insn m) [(0xfc1f07fe, 0xfc000034); (0xfc1f07fe, 0xec000030)] = false)
    as -> by (by apply insn_other).
  assert (anyqnan (fpr m i) = false /\ anyqnan (fpr a i) = false) as [Q1 Q2].
  { rewrite Ha. unfold is_nan, anyqnan in *. rewrite sign_flip_magnitude by done.
    apply Z.ltb_ge in Hn. destruct (Z.leb_spec 0x7ff8000000000000 (andnot (fpr m i) sign_bit)); [lia |].
    done. }
  rewrite Q1, Q2, Ha, sign_flip_distance by done.
  assert (insn_in (prev_insn m) [(0xfc00003e, 0xfc00003e); (0xfc00003e, 0xfc00003a);
    (0xfc0007fe, 0xfc000028); (0xfc00f83e, 0xfc000032); (0xfc00003e, 0xfc00003c);
    (0xfc00003e, 0xfc000038); (0xfc0007fe, 0xfc000024); (0xfc0007fe, 0xfc00002a)] = true) as ->.
  { apply existsb_exists. exists (0xfc0007fe, 0xfc00002a). split; [simpl; tauto |].
    by rewrite Hi. }
  change (ABS (- 2 ^ 63)) with abs_int64_min. cbn [andb negb orb]. by rewrite orb_false_r.
Qed.

(** An instruction word is a risu operation exactly if it is the key
    0x5af0 with the number of the operation in its low four bits; every other
    word counts as an illegal instruction. *)
Lemma ppc_risuop_encoding (r : ppc_reginfo) (op : Z) :
  0 <= op <= 6 ->
  (ppc_get_risuop r = RisuOp_of_Z op <-> faulting_insn r = 0x5af0 + op).
Proof.
  intros Hop. unfold ppc_get_risuop, andnot.
  pose proof (Z.lor_ldiff_and (faulting_insn r) 0xf) as S.
  destruct (Z.eqb_spec (Z.ldiff (faulting_insn r) 0xf) 0x5af0) as [K|K]; cbn [negb].
  - change 0xf with (Z.ones 4) at 1. rewrite Z.land_ones by lia.
    rewrite K in S. change 0xf with (Z.ones 4) in S. rewrite Z.land_ones in S by lia.
    pose proof (Z.mod_pos_bound (faulting_insn r) (2 ^ 4)) as Hb.
    change 0x5af0 with (0x5af * 2 ^ 4) in S. rewrite lor_add in S by (unfold in_width; lia).
    rewrite <-S at 2. split; [| intros E; f_equal; lia].
    intros E. apply (f_equal RisuOp_to_Z) in E. rewrite !RisuOp_to_of_Z in E. lia.
  - split.
    + intros E. assert (op = 0 \/ op = 1 \/ op = 2 \/ op = 3 \/ op = 4 \/ op = 5 \/ op = 6)
        as Ho by lia. by destruct Ho as [->|[->|[->|[->|[->|[->| ->]]]]]].
    + intros E. destruct K. rewrite E.
      assert (op = 0 \/ op = 1 \/ op = 2 \/ op = 3 \/ op = 4 \/ op = 5 \/ op = 6)
        as Ho by lia. by destruct Ho as [->|[->|[->|[->|[->|[->| ->]]]]]].
Qed.
