(* ===== verification/PpcExcept.v ===== *)
(** * Exceptions of the PowerPC (risu_ppc64.c)

    Where there are no signals, the emulator or Mac OS 9 report exceptions, and
    the handlers here pass them on as signals.  The theorems: running an image
    that raises exceptions is running one that raises the signals they stand for,
    as [Risu] has it. *)

From S2P Require Import Prelude Endian Comms Arch Header Risu.
From S2P Require Import PpcFloat PpcTolerance Ppc64.

(** [Except_Type] of the emulator: EXC_PROGRAM, or another. *)
Inductive Except_Type : Type := EXC_PROGRAM | EXC_other (n : Z).

(** [theKind] of an exception of Mac OS 9. *)
Inductive exception_kind : Type :=
  | kTrapException
  | kTraceException
  | kIllegalInstructionException
  | kOtherException (n : Z).

(** A handler returns a status, or has jumped back to [master] or
    [apprentice]. *)
Inductive handled : Type := Returned (status : Z) | Jumped (r : RisuResult).

Section exceptions.
Context `{Build} `{PpcBuild} `{AbsOverflow} `{Zlib}.

#[local] Existing Instance ppc64_arch.

Variable sig_handler : signal -> Z -> M risu (option RisuResult).

Definition pc_of (u : @uctx ppc64_arch) : Z := c_pc u.

(** The signal an exception of the emulator stands for. *)
Definition ppc_exception_handler_risu (exception_type : Except_Type) : M risu (option RisuResult) :=
  u ← gets uc;
  match exception_type with
  | EXC_PROGRAM => sig_handler SIGILL (pc_of u)
  | EXC_other _ => sig_handler SIGBUS (pc_of u)
  end.

(** What is printed goes to stdout, which is not part of the state. *)
Definition classic_exception_handler (theKind : exception_kind) : M risu handled :=
  u ← gets uc;
  let returned (o : option RisuResult) := match o with None => Returned 0 | Some r => Jumped r end in
  match theKind with
  | kTrapException => mret (Returned (-1))
  | kTraceException => mret (Returned (-1))
  | kIllegalInstructionException => o ← sig_handler SIGILL (pc_of u); mret (returned o)
  | kOtherException _ => o ← sig_handler SIGBUS (pc_of u); mret (returned o)
  end.

(** ** Running an image *)

Section emulated.
Variable ppc_exec : uctx -> option (Except_Type * uctx).   (* up to the next exception *)

Fixpoint run_emulated (fuel : nat) : M risu (option RisuResult) :=
  match fuel with
  | O => stop HFuel
  | S fuel' =>
      u ← gets uc;
      match ppc_exec u with
      | None => mret None
      | Some (e, u') =>
          _ ← modify (set_uc u');
          o ← ppc_exception_handler_risu e;
          match o with
          | Some r => mret (Some r)
          | None => run_emulated fuel'
          end
      end
  end.

(** The emulator as a program that raises signals. *)
Definition emulated_signals (u : uctx) : option (signal * Z * uctx) :=
  match ppc_exec u with
  | None => None
  | Some (EXC_PROGRAM, u') => Some (SIGILL, pc_of u', u')
  | Some (EXC_other _, u') => Some (SIGBUS, pc_of u', u')
  end.

Theorem emulated_runs fuel w :
  run_emulated fuel w = run_image emulated_signals sig_handler fuel w.
Proof.
  revert w. induction fuel as [|fuel IH]; intros w; [done |]. cbn [run_emulated run_image].
  unfold emulated_signals at 1, ppc_exception_handler_risu, mbind, M_bind, gets, modify.
  destruct (ppc_exec (uc w)) as [[[|n] u']|]; [| | done]; cbn [uc set_uc];
    destruct (sig_handler _ _ _) as [[[r|]|h] w']; try done; apply IH.
Qed.
End emulated.

Section classic.
Variable classic_exec : uctx -> option (exception_kind * uctx).

(** An exception that the handler does not take ends the run. *)
Fixpoint run_classic (fuel : nat) : M risu (option RisuResult) :=
  match fuel with
  | O => stop HFuel
  | S fuel' =>
      u ← gets uc;
      match classic_exec u with
      | None => mret None
      | Some (e, u') =>
          _ ← modify (set_uc u');
          o ← classic_exception_handler e;
          match o with
          | Jumped r => mret (Some r)
          | Returned s => if s =? 0 then run_classic fuel' else stop HAbort
          end
      end
  end.

Definition classic_signals (u : uctx) : option (signal * Z * uctx) :=
  match classic_exec u with
  | None => None
  | Some (kIllegalInstructionException, u') => Some (SIGILL, pc_of u', u')
  | Some (_, u') => Some (SIGBUS, pc_of u', u')
  end.

Theorem classic_runs fuel w :
  (forall u e u', classic_exec u = Some (e, u') -> e <> kTrapException /\ e <> kTraceException) ->
  run_classic fuel w = run_image classic_signals sig_handler fuel w.
Proof.
  intros He. revert w. induction fuel as [|fuel IH]; intros w; [done |]. cbn [run_classic run_image].
  unfold classic_signals at 1, classic_exception_handler, mbind, M_bind, gets, modify.
  destruct (classic_exec (uc w)) as [[e u']|] eqn:E; [| done]. destruct (He _ _ _ E) as [N1 N2].
  destruct e as [| | |n]; [done | done | |]; cbn [uc set_uc];
    destruct (sig_handler _ _ _) as [[[r|]|h] w']; try done; apply IH.
Qed.
End classic.
End exceptions.
