(* ===== verification/PpcStart.v ===== *)
(** * How a PowerPC image is started (arch_init and do_image in
    risu_reginfo_ppc64.c)

    In the emulator [arch_init] builds a machine: memory, the image in it, a
    program counter and a stack pointer.  [do_image] fills 32768 bytes of stack
    with a pattern and starts the image.  The image may load from the stack, so
    what it finds there, relative to r1, has to be the same on every system.

    The emulator's code is not in the repository: what is called of it is the
    class [Emulator], and what is relied on is the class [EmulatorLaws]: a new
    machine has no memory, a region that overlaps no other can be added, and data
    can be copied into a region.
    The theorem: the image is found where the program counter points to, and the
    pattern at the same distance from r1 in the emulator, on Mac OS 9, and where
    the compiler lays out the stack as the comment in [do_image] says. *)

From stdpp Require Import gmap.
From S2P Require Import Prelude Endian Arch PpcFloat PpcTolerance Ppc64.

Definition DPPC_RISU_RAM_START : Z := 0xb0000000.
Definition DPPC_RISU_STACK : Z := 0xbfff79b0.
Definition DPPC_RISU_RAM_SIZE : Z := 0x20000000.

(** [sizeof(stack_bytes)] *)
Definition stack_size : nat := Z.to_nat 32768.

Inductive PPC_VER : Type := MPC601 | MPC750.

(** The emulator: a new machine with its processor, and the operations of its
    memory controller. *)
Class Emulator := {
  ppc_cpu_init : PPC_VER -> bool -> Z -> ppc_ctx;     (* version, include_601, timebase *)
  add_ram_region : Z -> Z -> ppc_ctx -> ppc_ctx;      (* start, size *)
  add_rom_region : Z -> Z -> ppc_ctx -> ppc_ctx;
  set_data : Z -> bytes -> ppc_ctx -> ppc_ctx         (* copies into a region *)
}.

Definition set_c_mem (v : gmap Z Z) (u : ppc_ctx) : ppc_ctx :=
  PpcCtx (c_pc u) (c_gpr u) (c_msr u) (c_ctr u) (c_lr u) (c_xer u) (c_cr u) (c_mq u) (c_dar u)
    (c_dsisr u) (c_fpr u) (c_fpscr u) v.

(** The program counter, r1, CTR and LR. *)
Definition set_start (pc r1 ctr lr : Z) (u : ppc_ctx) : ppc_ctx :=
  PpcCtx pc (<[1%nat := r1]> (c_gpr u)) (c_msr u) ctr lr (c_xer u) (c_cr u) (c_mq u) (c_dar u)
    (c_dsisr u) (c_fpr u) (c_fpscr u) (c_mem u).

Section start.
Context `{Build} `{PpcBuild} `{Emulator}.

(** [image]: the bytes at [image_start_address]. *)
Definition ppc_arch_init (o : ppc_opts) (im : image) (contents : bytes) (u : ppc_ctx) : ppc_ctx :=
  if dppc then
    let bus_freq := 50000000 in
    let timebase_freq := bus_freq / 4 in
    let version := if truth (Z.land (cpu_opts o) cpu_opt_use_601) then MPC601 else MPC750 in
    let u := ppc_cpu_init version (truth (Z.land (cpu_opts o) cpu_opt_include_601)) timebase_freq in
    let u := add_ram_region DPPC_RISU_RAM_START DPPC_RISU_RAM_SIZE u in
    let u := add_rom_region DPPC_RISU_ROM_START (u32 (image_size im)) u in
    let u := set_data DPPC_RISU_ROM_START (take (Z.to_nat (u32 (image_size im))) contents) u in
    set_start DPPC_RISU_ROM_START DPPC_RISU_STACK (c_ctr u) (c_lr u) u
  else u.

(** [stack_bytes[i] = i], an 8-bit integer.  In the emulator the byte must be
    mapped; elsewhere the array is a variable of the function. *)
Definition put_stack (p i : Z) : M ppc_ctx () := fun u =>
  if dppc && negb (bool_decide (is_Some (c_mem u !! (p + i)))) then (inr HUB, u)
  else (inl (), set_c_mem (<[p + i := u8 i]> (c_mem u)) u).

(** The loop from [i], [n] times. *)
Fixpoint fill_stack (p i : Z) (n : nat) : M ppc_ctx () :=
  match n with
  | O => mret ()
  | S n' => _ ← put_stack p i; fill_stack p (i + 1) n'
  end.

(** What the image starts with.  [stack_bytes] is the address of the array; [r1],
    [ctr] and [lr] are what these registers hold after the call of [image_start],
    where the image is called. *)
Definition ppc_do_image (macos9 : bool) (stack_bytes r1 ctr lr : Z) (im : image) : M ppc_ctx () :=
  if dppc then
    u ← gets id;
    match ppc_get_arch_memory u (DPPC_RISU_STACK + 0x3C) with
    | None => stop HUB
    | Some p => fill_stack p 0 stack_size
    end
  else
    _ ← fill_stack stack_bytes 0 stack_size;
    let start := image_start_address im in
    if macos9 then
      modify (fun u => set_start start (stack_bytes - 0x3C) start (c_lr u) u)
    else modify (fun u => set_start start r1 ctr lr u).

(** ** What the emulator does *)

(** The memory of [u'] is that of [u] with [n] bytes at [s] mapped; the
    registers are the same. *)
Record adds_region (s n : Z) (u u' : ppc_ctx) : Prop := {
  ar_regs : u' = set_c_mem (c_mem u') u;
  ar_mapped a : s <= a < s + n -> is_Some (c_mem u' !! a);
  ar_other a : ~ (s <= a < s + n) -> c_mem u' !! a = c_mem u !! a
}.

(** [n] bytes at [s] are in the address space and belong to no region. *)
Definition region_free (s n : Z) (u : ppc_ctx) : Prop :=
  0 < n /\ 0 <= s /\ s + n <= 2 ^ 32 /\ forall a, s <= a < s + n -> c_mem u !! a = None.

Class EmulatorLaws := {
  cpu_init_regs v b f : ppc_ctx_wf (ppc_cpu_init v b f);
  cpu_init_mem v b f : c_mem (ppc_cpu_init v b f) = ∅;      (* a new MemCtrlBase *)
  add_ram_ok s n u : region_free s n u -> adds_region s n u (add_ram_region s n u);
  add_rom_ok s n u : region_free s n u -> adds_region s n u (add_rom_region s n u);
  set_data_regs s bs u : set_data s bs u = set_c_mem (c_mem (set_data s bs u)) u;
  set_data_in s bs u k b :
    (forall a, s <= a < s + Z.of_nat (length bs) -> is_Some (c_mem u !! a)) ->
    bs !! k = Some b -> c_mem (set_data s bs u) !! (s + Z.of_nat k) = Some b;
  set_data_out s bs u a :
    ~ (s <= a < s + Z.of_nat (length bs)) -> c_mem (set_data s bs u) !! a = c_mem u !! a
}.

(** ** The stack *)

(** [n] bytes of the pattern from [i] on are at [p + i]; the rest is as in [u]. *)
Record filled (p i : Z) (n : nat) (u u' : ppc_ctx) : Prop := {
  fl_regs : u' = set_c_mem (c_mem u') u;
  fl_in k : i <= k < i + Z.of_nat n -> c_mem u' !! (p + k) = Some (u8 k);
  fl_out a : ~ (p + i <= a < p + i + Z.of_nat n) -> c_mem u' !! a = c_mem u !! a
}.

Lemma fill_stack_ok p n : forall i u,
  (dppc = true -> forall k, i <= k < i + Z.of_nat n -> is_Some (c_mem u !! (p + k))) ->
  exists u', fill_stack p i n u = (inl (), u') /\ filled p i n u u'.
Proof.
  induction n as [|n IH]; intros i u Hm; cbn [fill_stack].
  - exists u. split; [done |]. split; [by destruct u | lia | done].
  - set (u1 := set_c_mem (<[p + i := u8 i]> (c_mem u)) u).
    assert (put_stack p i u = (inl (), u1)) as E.
    { unfold put_stack. destruct dppc eqn:D; [| done]. rewrite bool_decide_eq_true_2; [done |]. apply Hm; [done | lia]. }
    rewrite (bind_done _ _ _ _ _ E).
    destruct (IH (i + 1) u1) as (u' & E' & [R I O]).
    { intros D k Hk. cbn. rewrite lookup_insert_ne by lia. apply Hm; [done | lia]. }
    exists u'. split; [done |]. split.
    + by rewrite R at 1.
    + intros k Hk. destruct (decide (k = i)) as [->|N]; [| apply I; lia].
      rewrite O by lia. cbn. apply lookup_insert_eq.
    + intros a Ha. rewrite O by lia. cbn. apply lookup_insert_ne. lia.
Qed.

(** ** Properties *)

(** The bytes are in memory at [p]. *)
Definition mapped_at (contents : bytes) (p : Z) (u : ppc_ctx) : Prop :=
  forall k b, contents !! k = Some b -> c_mem u !! (p + Z.of_nat k) = Some b.

(** The image can be executed from [pc] on. *)
Definition runs_from (contents : bytes) (pc : Z) (u : ppc_ctx) : Prop :=
  c_pc u = pc /\ mapped_at contents pc u.

(** What the image finds on the stack. *)
Definition stack_pattern (u : ppc_ctx) : Prop :=
  exists r1, c_gpr u !! 1%nat = Some r1 /\
    forall i, 0 <= i < 32768 -> c_mem u !! (r1 + 0x3C + i) = Some (i mod 256).

Lemma set_start_wf pc r1 ctr lr u :
  in_width (8 * Z.of_nat reg_bytes) r1 -> ppc_ctx_wf u -> ppc_ctx_wf (set_start pc r1 ctr lr u).
Proof. intros Hr []. split; cbn; try done; [by rewrite length_insert | by apply Forall_insert]. Qed.

Lemma set_c_mem_wf v u : ppc_ctx_wf u -> ppc_ctx_wf (set_c_mem v u).
Proof. by intros []. Qed.

(** The machine that [arch_init] builds. *)
Lemma arch_init_ok `{!EmulatorLaws} o im contents u :
  dppc = true -> 0 < image_size im <= 2 ^ 32 - DPPC_RISU_ROM_START ->
  Z.of_nat (length contents) = image_size im ->
  let u' := ppc_arch_init o im contents u in
  ppc_ctx_wf u' /\ c_gpr u' !! 1%nat = Some DPPC_RISU_STACK /\
  runs_from contents DPPC_RISU_ROM_START u' /\
  forall a, DPPC_RISU_RAM_START <= a < DPPC_RISU_RAM_START + DPPC_RISU_RAM_SIZE -> is_Some (c_mem u' !! a).
Proof.
  intros D Hs Hl. unfold DPPC_RISU_ROM_START in Hs. cbn zeta. unfold ppc_arch_init. rewrite D.
  rewrite !(wrap_small 32 (image_size im)) by (unfold in_width; lia). rewrite take_ge by lia.
  set (u0 := ppc_cpu_init _ _ _). pose proof (cpu_init_regs _ _ _ : ppc_ctx_wf u0) as W0.
  set (u1 := add_ram_region _ _ u0). set (u2 := add_rom_region _ _ u1). set (u3 := set_data _ _ u2).
  destruct (add_ram_ok DPPC_RISU_RAM_START DPPC_RISU_RAM_SIZE u0) as [R1 M1 O1].
  { split_and!; try done. intros a _. unfold u0. by rewrite cpu_init_mem. }
  destruct (add_rom_ok DPPC_RISU_ROM_START (image_size im) u1) as [R2 M2 O2].
  { unfold region_free, DPPC_RISU_ROM_START. split_and!; try lia. intros a Ha. unfold u1.
    rewrite O1 by (unfold DPPC_RISU_RAM_START, DPPC_RISU_RAM_SIZE; lia). unfold u0. by rewrite cpu_init_mem. }
  fold u1 in R1, M1. fold u2 in R2, M2, O2. pose proof (set_data_regs DPPC_RISU_ROM_START contents u2) as R3. fold u3 in R3.
  assert (ppc_ctx_wf u3) as W3.
  { rewrite R3. apply set_c_mem_wf. rewrite R2. apply set_c_mem_wf. rewrite R1. by apply set_c_mem_wf. }
  split_and!.
  - apply set_start_wf; [| done]. destruct reg_bytes_cases as [-> | ->]; split; by vm_compute.
  - cbn. apply list_lookup_insert_eq. rewrite (cwf_gpr_length _ W3). lia.
  - split; [done |]. intros k b Hk. apply set_data_in; [| done]. intros a Ha. apply M2. lia.
  - intros a Ha. cbn. unfold DPPC_RISU_RAM_START, DPPC_RISU_RAM_SIZE in *.
    unfold u3. rewrite set_data_out by (unfold DPPC_RISU_ROM_START; lia).
    rewrite O2 by (unfold DPPC_RISU_ROM_START; lia). apply M1. lia.
Qed.

(** C29: an image starts in the same surroundings in the emulator and on Mac OS 9.
    In both, [do_image] after [arch_init] puts the program counter at the image's
    first instruction, all of the image is there, and the pattern with which
    [do_image] fills the stack is at the same distance from r1.  So it is on the
    other systems if, as a comment says of Mac OS X, the image is called with r1
    0x3C bytes below the array. *)
Theorem image_started `{!EmulatorLaws} o im contents macos9 stack_bytes r1 ctr lr u :
  0 < image_size im -> Z.of_nat (length contents) = image_size im ->
  (dppc = true -> image_size im <= 2 ^ 32 - DPPC_RISU_ROM_START ->
   exists u', ppc_do_image macos9 stack_bytes r1 ctr lr im (ppc_arch_init o im contents u) = (inl (), u') /\
     ppc_ctx_wf u' /\ runs_from contents (ppc_get_arch_start_address im) u' /\ stack_pattern u') /\
  (dppc = false -> ppc_ctx_wf u ->
   in_width (8 * Z.of_nat reg_bytes) (if macos9 then stack_bytes - 0x3C else r1) ->
   mapped_at contents (image_start_address im) u ->
   (forall k, (k < length contents)%nat ->
      ~ (stack_bytes <= image_start_address im + Z.of_nat k < stack_bytes + 32768)) ->
   exists u', ppc_do_image macos9 stack_bytes r1 ctr lr im (ppc_arch_init o im contents u) = (inl (), u') /\
     ppc_ctx_wf u' /\ runs_from contents (image_start_address im) u' /\
     (macos9 = true \/ r1 = stack_bytes - 0x3C -> stack_pattern u')).
Proof.
  intros H0' Hl. split.
  - intros D Hs. destruct (arch_init_ok o im contents u D ltac:(lia) Hl) as (W & G & [Hpc Hc] & Hr).
    set (u0 := ppc_arch_init o im contents u) in *. unfold ppc_do_image. rewrite D.
    rewrite (bind_done (gets id) _ u0 u0 u0) by done. unfold ppc_get_arch_memory, id. rewrite D.
    unfold DPPC_RISU_RAM_START, DPPC_RISU_RAM_SIZE in Hr.
    set (p := DPPC_RISU_STACK + 0x3C). assert (p = 0xbfff79ec) as Ep by done.
    destruct (Hr p ltac:(lia)) as [b ->].
    destruct (fill_stack_ok p stack_size 0 u0) as (u' & E & [R I O]).
    { intros _ k Hk. change (Z.of_nat stack_size) with 32768 in Hk. apply Hr. lia. }
    change (Z.of_nat stack_size) with 32768 in *. exists u'. split; [exact E |]. split; [rewrite R; by apply set_c_mem_wf |].
    split.
    + unfold ppc_get_arch_start_address. rewrite D. split; [by rewrite R |]. intros k b' Hk.
      rewrite O; [by apply Hc |]. unfold DPPC_RISU_ROM_START. lia.
    + exists DPPC_RISU_STACK. split; [by rewrite R |]. intros i Hi. by apply I.
  - intros D W Hw Hc Hd. unfold ppc_do_image, ppc_arch_init. rewrite D.
    destruct (fill_stack_ok stack_bytes stack_size 0 u) as (u' & E & [R I O]); [by rewrite D |].
    change (Z.of_nat stack_size) with 32768 in *. rewrite (bind_done _ _ _ _ _ E).
    assert (ppc_ctx_wf u') as W' by (rewrite R; by apply set_c_mem_wf).
    assert (mapped_at contents (image_start_address im) u') as Hi.
    { intros k b Hk. rewrite O; [by apply Hc |]. specialize (Hd k). apply lookup_lt_Some in Hk. lia. }
    assert (1 < length (c_gpr u'))%nat as L by (rewrite (cwf_gpr_length _ W'); lia).
    assert (forall i, 0 <= i < 32768 -> c_mem u' !! (stack_bytes - 0x3C + 0x3C + i) = Some (i mod 256)) as P.
    { intros i Hk. replace (stack_bytes - 0x3C + 0x3C + i) with (stack_bytes + i) by lia. by apply I. }
    destruct macos9; (eexists; split; [reflexivity |]);
      (split; [by apply set_start_wf | split; [by split |]]); intros Hr;
      (exists (stack_bytes - 0x3C); split; [| exact P]).
    + by apply list_lookup_insert_eq.
    + destruct Hr as [|Hr]; [done |]. subst r1. by apply list_lookup_insert_eq.
Qed.
End start.

(** ** An emulator *)

(** Bytes in memory. *)
Fixpoint write_bytes (s : Z) (bs : bytes) (m : gmap Z Z) : gmap Z Z :=
  match bs with
  | [] => m
  | b :: bs' => <[s := b]> (write_bytes (s + 1) bs' m)
  end.

Lemma write_bytes_in s bs m k b :
  bs !! k = Some b -> write_bytes s bs m !! (s + Z.of_nat k) = Some b.
Proof.
  revert s k. induction bs as [|c bs IH]; intros s [|k] E; try done; cbn [write_bytes].
  - injection E as ->. rewrite Z.add_0_r. apply lookup_insert_eq.
  - rewrite lookup_insert_ne by lia. replace (s + Z.of_nat (S k)) with (s + 1 + Z.of_nat k) by lia. by apply IH.
Qed.

Lemma write_bytes_out s bs m a :
  ~ (s <= a < s + Z.of_nat (length bs)) -> write_bytes s bs m !! a = m !! a.
Proof.
  revert s. induction bs as [|c bs IH]; intros s Ha; [done |]. cbn [write_bytes length] in *.
  rewrite lookup_insert_ne by lia. apply IH. lia.
Qed.

(** New memory is zero. *)
Definition map_region (s n : Z) (u : ppc_ctx) : ppc_ctx :=
  set_c_mem (gset_to_gmap 0 (list_to_set (seqZ s n) : gset Z) ∪ c_mem u) u.

Lemma map_region_ok s n u : region_free s n u -> adds_region s n u (map_region s n u).
Proof.
  intros [Hn _]. split; [done | |]; intros a Ha; cbn.
  - exists 0. apply lookup_union_Some_l, lookup_gset_to_gmap_Some. split; [| done].
    apply elem_of_list_to_set, elem_of_seqZ. lia.
  - apply lookup_union_r, lookup_gset_to_gmap_None. rewrite elem_of_list_to_set, elem_of_seqZ. lia.
Qed.

Definition plain_machine : ppc_ctx := PpcCtx 0 (replicate 32 0) 0 0 0 0 0 0 0 0 (replicate 32 0) 0 ∅.

Definition plain_emulator : Emulator := {|
  ppc_cpu_init _ _ _ := plain_machine;
  add_ram_region := map_region;
  add_rom_region := map_region;
  set_data s bs u := set_c_mem (write_bytes s bs (c_mem u)) u
|}.

Lemma plain_machine_wf `{PpcBuild} : ppc_ctx_wf plain_machine.
Proof.
  assert (in_width (8 * Z.of_nat reg_bytes) 0) as Z0 by (destruct reg_bytes_cases as [-> | ->]; by vm_compute).
  split; try done; apply Forall_replicate; [done | by vm_compute].
Qed.

Lemma plain_emulator_laws `{PpcBuild} : EmulatorLaws (H1 := plain_emulator).
Proof.
  split; cbn [ppc_cpu_init add_ram_region add_rom_region set_data plain_emulator].
  - intros _ _ _. apply plain_machine_wf.
  - done.
  - exact map_region_ok.
  - exact map_region_ok.
  - done.
  - intros s bs u k b _ E. by apply write_bytes_in.
  - intros s bs u a Ha. by apply write_bytes_out.
Qed.

(** One instruction, the end of a test: in the emulator, and on Mac OS 9 where it
    has been read to address 0x1000 and the processor is elsewhere. *)
Definition end_of_test : bytes := [0; 0; 0x5a; 0xf1].
Definition mac_machine : ppc_ctx := set_c_mem (write_bytes 0x1000 end_of_test ∅) plain_machine.

Lemma image_started_witness :
  let im := Image 0x1000 4 in
  (let _ : PpcBuild := {| dppc := true; apple := false; lp64 := true; big_endian := false |} in
   let _ : Emulator := plain_emulator in
   exists u', ppc_do_image false 0 0 0 0 im
       (ppc_arch_init ppc_default_opts im end_of_test plain_machine) = (inl (), u') /\
     c_pc u' = 0xf0000000 /\ c_mem u' !! 0xf0000003 = Some 0xf1 /\ stack_pattern u') /\
  (let _ : PpcBuild := {| dppc := false; apple := false; lp64 := false; big_endian := true |} in
   let _ : Emulator := plain_emulator in
   exists u', ppc_do_image true 0x20000 0 0 0 im
       (ppc_arch_init ppc_default_opts im end_of_test mac_machine) = (inl (), u') /\
     c_pc u' = 0x1000 /\ c_mem u' !! 0x1003 = Some 0xf1 /\ stack_pattern u').
Proof.
  intros im. split; intros HP HE.
  - destruct (image_started (H2 := plain_emulator_laws) ppc_default_opts im end_of_test false 0 0 0 0
      plain_machine eq_refl eq_refl) as [K _].
    destruct (K eq_refl ltac:(by vm_compute)) as (u' & E & _ & [Hpc Hc] & Hs).
    exists u'. split; [exact E |]. split; [exact Hpc |]. split; [| exact Hs].
    exact (Hc 3%nat 0xf1 eq_refl).
  - destruct (image_started (H2 := plain_emulator_laws) ppc_default_opts im end_of_test true 0x20000 0 0 0
      mac_machine eq_refl eq_refl) as [_ K].
    destruct (K eq_refl) as (u' & E & _ & [Hpc Hc] & Hs).
    + apply set_c_mem_wf, plain_machine_wf.
    + split; vm_compute; congruence.
    + intros k b Hk. apply write_bytes_in. exact Hk.
    + intros k Hk. cbn in Hk |- *. lia.
    + exists u'. split; [exact E |]. split; [exact Hpc |].
      split; [exact (Hc 3%nat 0xf1 eq_refl) | apply Hs; left; reflexivity].
Defined.
