(* ===== verification/PpcMain.v ===== *)
(** * The command line of the PowerPC (risu_reginfo_ppc64.c)

    The options that set the masks and the tolerances of the comparison: the
    table [extra_opts], its help text, and [process_arch_opt] with the
    conversion of its argument.  They are the instance of [ArchMain].  The
    theorem: writing a number in hexadecimal after an option sets the variable
    the option names to this number. *)

From Stdlib Require Import Ascii.
From stdpp Require Import gmap.
From S2P Require Import Prelude Endian Comms Arch Header Risu Verdict Trace Getopt GetoptSpec Strtol RisuMain.
From S2P Require Import PpcFloat PpcTolerance Ppc64.

Section ppc_main.
Context `{Build} `{PpcBuild} `{AbsOverflow} `{CharSign} `{Zlib}.

Definition extra_opts : list option_t :=
  [ Option "ccr_mask" required_argument None (FIRST_ARCH_OPT + 0);
    Option "fpscr_mask" required_argument None (FIRST_ARCH_OPT + 1);
    Option "fpregs_mask" required_argument None (FIRST_ARCH_OPT + 2);
    Option "vrregs_mask" required_argument None (FIRST_ARCH_OPT + 3);
    Option "fp_opts" required_argument None (FIRST_ARCH_OPT + 4);
    Option "gregs_mask" required_argument None (FIRST_ARCH_OPT + 5);
    Option "xer_mask" required_argument None (FIRST_ARCH_OPT + 6);
    Option "mq_mask" required_argument None (FIRST_ARCH_OPT + 7);
    Option "cpu_opts" required_argument None (FIRST_ARCH_OPT + 8) ].

Definition ppc_extra_help : string :=
  "  --gregs_mask=MASK  Mask of gregs to compare\n" +:+
  "  --fpregs_mask=MASK Mask of fpregs to compare\n" +:+
  "  --vrregs_mask=MASK Mask of vrregs to compare\n" +:+
  "  --ccr_mask=MASK    Mask of CCR bits to compare\n" +:+
  "  --xer_mask=MASK    Mask of XER bits to compare\n" +:+
  "  --mq_mask=MASK     Mask of MQ bits to compare\n" +:+
  "  --fpscr_mask=MASK  Mask of FPSCR bits to compare\n" +:+
  "  --fp_opts=OPTS     Options for comparing fpregs\n" +:+
  "  --cpu_opts=OPTS    CPU options\n".

(** The width of [unsigned long]. *)
Definition ulong_bits : Z := if lp64 then 64 else 32.

(** [process_arch_opt] from its assertion on. *)
Definition ppc_process_arch_opt (opt : Z) (arg : option string) : M ppc_opts () := fun o =>
  if (FIRST_ARCH_OPT <=? opt) && (opt <=? FIRST_ARCH_OPT + 8) then
    match arg with
    | None => (inr HUB, o)
    | Some s =>
        match process_arch_opt opt (strtoul16 ulong_bits s) o with
        | Some o' => (inl (), o')
        | None => (inr HAbort, o)
        end
    end
  else (inr HAbort, o).

(** Outside of the emulator [arch_init] is empty; in the emulator it sets up the
    machine under test, which is the context the image starts in (see
    [ppc_arch_init] in PpcStart.v). *)
#[export] Instance ppc_main : @ArchMain ppc64_arch := {|
  arch_long_opts := Some extra_opts;
  arch_extra_help := Some ppc_extra_help;
  arch_process_opt opt arg :=
    (quiet_opts (ppc_process_arch_opt opt arg) : M (@aopts ppc64_arch * text) ());
  arch_flags _ o := o;
  arch_init := mret ()
|}.

Lemma ppc_opts_ok : arch_opts_ok.
Proof. split; [| done]. repeat constructor; vm_compute; congruence. Qed.

(** ** Writing a number *)

Lemma strtoul16_hex v :
  in_width 32 v -> strtoul16 ulong_bits (hex 8 v EmptyString) = v.
Proof.
  intros Hv. assert (ulong_bits = 32 \/ ulong_bits = 64) as Hw by (unfold ulong_bits; destruct lp64; auto).
  rewrite strtoul16_plain by (by apply hex_all). unfold in_width in Hv.
  rewrite digits_app_hex by lia. cbn [digits].
  change (16 ^ Z.of_nat 8) with (2 ^ 32). rewrite Z.mod_small, Z.mul_0_l, Z.add_0_l by done.
  assert (v < 2 ^ ulong_bits) by (destruct Hw as [-> | ->]; lia).
  destruct (Z.leb_spec (2 ^ ulong_bits) v); [lia |]. apply wrap_small. unfold in_width. lia.
Qed.

(** ** An option and its value *)

(** The variable an option names. *)
Definition mask_of (p : option_t) (o : ppc_opts) : Z :=
  let '(PpcOpts gm cm xm qm sm fm vm fo co) := o in
  nth (Z.to_nat (val p - FIRST_ARCH_OPT)) [cm; sm; fm; vm; fo; gm; xm; qm; co] 0.

Definition mask_arg (p : option_t) (v : Z) : string :=
  "--" +:+ name p +:+ "=" +:+ hex 8 v EmptyString.

Lemma mask_parse p v :
  p ∈ extra_opts ->
  parse short_opts setup_options [mask_arg p v] =
    ([OptEvent (val p) (Some (hex 8 v EmptyString)) None], ([mask_arg p v], [])).
Proof.
  intros Hp. unfold mask_arg. generalize (hex 8 v EmptyString) as t. intros t.
  unfold extra_opts in Hp. set_unfold in Hp.
  destruct Hp as [->|[->|[->|[->|[->|[->|[->|[->|[->|[]]]]]]]]]]; reflexivity.
Qed.

Lemma mask_no_nul p v : p ∈ extra_opts -> no_nul (mask_arg p v).
Proof.
  intros Hp. unfold mask_arg. repeat apply no_nul_app.
  - repeat split; vm_compute; congruence.
  - unfold extra_opts in Hp. set_unfold in Hp.
    destruct Hp as [->|[->|[->|[->|[->|[->|[->|[->|[->|[]]]]]]]]]]; repeat split; vm_compute; congruence.
  - repeat split; vm_compute; congruence.
  - by apply all_hex_no_nul, hex_all.
Qed.

(** What remains of the options after one has been set. *)
Lemma process_sets p v o :
  p ∈ extra_opts -> in_width 32 v ->
  exists o', ppc_process_arch_opt (val p) (Some (hex 8 v EmptyString)) o = (inl (), o') /\
    mask_of p o' = v /\
    forall q, q ∈ extra_opts -> q <> p -> mask_of q o' = mask_of q o.
Proof.
  intros Hp Hv. unfold ppc_process_arch_opt. rewrite (strtoul16_hex v Hv).
  destruct o as [gm cm xm qm sm fm vm fo co].
  unfold extra_opts in Hp. set_unfold in Hp.
  destruct Hp as [->|[->|[->|[->|[->|[->|[->|[->|[->|[]]]]]]]]]]; cbn -[wrap];
    rewrite (wrap_small 32 v) by done; (eexists; split; [reflexivity |]; split; [reflexivity |]);
    intros q Hq Hne; unfold extra_opts in Hq; set_unfold in Hq;
    destruct Hq as [->|[->|[->|[->|[->|[->|[->|[->|[->|[]]]]]]]]]]; try reflexivity; by destruct Hne.
Qed.

(** ** Properties *)

(** C18: every mask and every set of tolerances can be chosen on the command
    line: an option followed by a number in hexadecimal sets the variable the
    option names to this number, and no other. *)
Theorem mask_option_sets zlib long_bits p v (c : @config ppc64_arch _) :
  p ∈ extra_opts -> in_width 32 v ->
  exists es oo c', parse short_opts setup_options [mask_arg p v] = (es, (oo, [])) /\
    configure zlib long_bits es c = (inl None, c') /\
    mask_of p (cf_opts c') = v /\
    forall q, q ∈ extra_opts -> q <> p -> mask_of q (cf_opts c') = mask_of q (cf_opts c).
Proof.
  intros Hp Hv. destruct (process_sets p v (cf_opts c) Hp Hv) as (o' & E & E1 & E2).
  eexists _, _, (@set_cf_opts ppc64_arch _ o' c). split; [by apply mask_parse |].
  split; [| done].
  assert (FIRST_ARCH_OPT <= val p) as Hf.
  { pose proof (proj1 ppc_opts_ok) as F. rewrite Forall_forall in F. apply (F p Hp).
    unfold extra_opts in Hp. set_unfold in Hp.
    destruct Hp as [->|[->|[->|[->|[->|[->|[->|[->|[->|[]]]]]]]]]]; done. }
  rewrite configure_arch by done. unfold on_arch, zoom, mbind, M_bind.
  cbn [arch_process_opt ppc_main]. unfold quiet_opts, zoom. cbn [fst snd].
  assert (ppc_process_arch_opt (val p) (Some (hex 8 v EmptyString)) (@cf_opts ppc64_arch _ c) = (inl (), o'))
    as -> by exact E.
  by destruct c.
Qed.

End ppc_main.
