(* ===== verification/Cpu.v ===== *)
(** * Architectures with plain register files

    The files of the architectures other than PowerPC provide what the interface
    of risu.h asked for before it was reworked: they compare register files
    without tolerances, never update the context, and lack the functions that
    translate between the host and the architecture.  What they do provide is
    the class [Cpu], and what they promise is the class [CpuLaws]; what a port to
    the interface would have to add is the class [Port], a parameter of the
    development about which nothing is assumed.  The two together are an instance
    of [Arch], for which the theorems about the command line hold.

    A register file is a C structure: [Layout] lists its members, each an array
    of integers of one size. *)

From stdpp Require Import gmap.
From S2P Require Import Prelude Endian Comms Arch.

Lemma in_width_le w w' z : 0 <= w <= w' -> in_width w z -> in_width w' z.
Proof. intros Hw [H1 H2]. split; [done |]. pose proof (Z.pow_le_mono_r 2 w w'). lia. Qed.

Lemma encode_fields_app le ws ws' vs vs' :
  length vs = length ws ->
  encode_fields le (ws ++ ws') (vs ++ vs') = encode_fields le ws vs ++ encode_fields le ws' vs'.
Proof.
  revert vs. induction ws as [|w ws IH]; intros [|v vs] L; try done. simpl.
  rewrite IH by (by injection L). by rewrite app_assoc.
Qed.

(** An array of bytes is its own memory image. *)
Lemma encode_fields_bytes le n l :
  length l = n -> encode_fields le (replicate n 1%nat) l = map (wrap 8) l.
Proof.
  intros <-. induction l as [|z l IH]; [done |]. simpl. rewrite IH. unfold int_bytes.
  by destruct le.
Qed.

Lemma map_wrap_id w l : Forall (in_width w) l -> map (wrap w) l = l.
Proof. induction 1 as [|z l Hz _ IH]; [done |]. simpl. by rewrite wrap_small, IH. Qed.

(** ** Structures *)

Class Layout (R : Type) := {
  members : list (nat * nat);              (* size of an element, number of elements *)
  to_members : R -> list (list Z);
  of_members : list (list Z) -> R
}.

Definition flat_layout (ms : list (nat * nat)) : list nat :=
  concat ((fun '(w, c) => replicate c w) <$> ms).

(** An array member; [r] need not be well-formed. *)
Fixpoint flatten (ms : list (nat * nat)) (vss : list (list Z)) : list Z :=
  match ms with
  | [] => []
  | (_, c) :: ms' =>
      match vss with
      | vs :: vss' => resize c 0 vs ++ flatten ms' vss'
      | [] => replicate c 0 ++ flatten ms' []
      end
  end.

Fixpoint unflatten (ms : list (nat * nat)) (vs : list Z) : list (list Z) :=
  match ms with
  | [] => []
  | (_, c) :: ms' => take c vs :: unflatten ms' (drop c vs)
  end.

Definition member_ok (m : nat * nat) (vs : list Z) : Prop :=
  length vs = snd m /\ Forall (in_width (8 * Z.of_nat (fst m))) vs.

Lemma flatten_length ms vss : length (flatten ms vss) = length (flat_layout ms).
Proof.
  revert vss. induction ms as [|[w c] ms IH]; intros vss; [done |].
  unfold flat_layout in *. destruct vss; simpl; rewrite !length_app, IH, ?length_replicate, ?length_resize;
    done.
Qed.

Lemma flatten_fits ms vss :
  Forall2 member_ok ms vss -> fits (flat_layout ms) (flatten ms vss).
Proof.
  induction 1 as [|[w c] vs ms vss [Hl Hw] _ IH]; [constructor |].
  unfold flat_layout. simpl. apply Forall2_app; [| exact IH]. rewrite resize_all_alt by done.
  simpl in *. subst c. clear -Hw. induction Hw; simpl; by constructor.
Qed.

Lemma unflatten_flatten ms vss :
  Forall2 member_ok ms vss -> unflatten ms (flatten ms vss) = vss.
Proof.
  induction 1 as [|[w c] vs ms vss [Hl Hw] _ IH]; [done |]. simpl in *.
  rewrite resize_all_alt, take_app_length', drop_app_length' by done. by rewrite IH.
Qed.

Lemma member_one w v : in_width (8 * Z.of_nat w) v -> member_ok (w, 1%nat) [v].
Proof. intros Hv. split; [done | by apply Forall_singleton]. Qed.

Section layout.
Context {R : Type} `{Layout R}.

Definition struct_layout : list nat := flat_layout members.
Definition struct_sizeof : nat := layout_size struct_layout.

Definition struct_enc (le : bool) (r : R) : bytes :=
  encode_fields le struct_layout (flatten members (to_members r)).

Definition struct_dec (le : bool) (bs : bytes) : R :=
  of_members (unflatten members (decode_fields le struct_layout bs)).

(** Every member fits. *)
Definition struct_wf (r : R) : Prop := Forall2 member_ok members (to_members r).

Lemma struct_lengths r : struct_wf r -> length <$> to_members r = snd <$> members.
Proof. unfold struct_wf. induction 1 as [|m vs ms vss [E _] _ IH]; [done |]. rewrite !fmap_cons. by rewrite IH, E. Qed.

Lemma struct_enc_length le r : length (struct_enc le r) = struct_sizeof.
Proof. apply encode_fields_length, flatten_length. Qed.

Lemma struct_dec_enc le r :
  (forall r, of_members (to_members r) = r) -> struct_wf r -> struct_dec le (struct_enc le r) = r.
Proof.
  intros E W. unfold struct_dec, struct_enc. rewrite <-(app_nil_r (encode_fields _ _ _)).
  rewrite decode_encode_fields by (by apply flatten_fits). by rewrite unflatten_flatten.
Qed.
End layout.

(** ** What the files of an architecture provide *)

Class Cpu (R U O : Type) := {
  cpu_advance_pc : U -> U;
  cpu_get_uc_pc : U -> Z -> Z;
  cpu_set_paramreg : Z -> U -> U;
  cpu_get_paramreg : R -> Z;
  cpu_get_risuop : R -> RisuOp;
  cpu_get_pc : R -> Z;
  cpu_init : O -> image -> Z -> M U R;
  cpu_is_eq : R -> R -> bool;
  cpu_dump : R -> text;
  cpu_dump_mismatch : R -> R -> text;
  cpu_size : R -> Z;
  cpu_mem : U -> gmap Z Z
}.

(** What a port has to add. *)
Class Port (R : Type) := {
  port_ptr_bytes : nat;                 (* sizeof(arch_ptr_t) *)
  port_big_endian : bool;               (* get_arch_big_endian *)
  port_start_address : image -> Z;      (* get_arch_start_address *)
  port_memory : Z -> option Z;          (* get_arch_memory *)
  port_out : R -> R;                    (* reginfo_host_to_arch *)
  port_in : R -> R                      (* reginfo_arch_to_host *)
}.

(** Bytes of the process. *)
Definition mem_read (mem : gmap Z Z) (p n : Z) : option bytes :=
  mapM (fun k => mem !! (p + k)) (seqZ 0 (Z.max 0 n)).

Lemma mem_read_length mem p n bs : 0 <= n -> mem_read mem p n = Some bs -> Z.of_nat (length bs) = n.
Proof.
  intros Hn E. unfold mem_read in E. apply length_mapM in E. rewrite length_seqZ in E. lia.
Qed.

(** An integer of [n] bytes at [p]; reading what is not mapped is undefined. *)
Definition load `{Build} {U} (mem : U -> gmap Z Z) (n : nat) (p : Z) : M U Z := fun u =>
  match mem_read (mem u) p (Z.of_nat n) with
  | Some bs => (inl (wrap (8 * Z.of_nat n) (int_val host_le bs)), u)
  | None => (inr HUB, u)
  end.

Lemma load_inv `{Build} {U} (mem : U -> gmap Z Z) n p u z u' :
  load mem n p u = (inl z, u') -> in_width (8 * Z.of_nat n) z /\ u' = u.
Proof.
  unfold load. destruct (mem_read _ _ _); [| done]. intros E. injection E as <- <-.
  split; [apply wrap_range; lia | done].
Qed.

Lemma load_keeps `{Build} {U X} (f : U -> X) (mem : U -> gmap Z Z) n p : keeps f (load mem n p).
Proof. intros u r u'. unfold load. destruct (mem_read _ _ _); intros E; by injection E as _ <-. Qed.
#[export] Hint Resolve load_keeps : keeps.

(** [n] bytes at [p]. *)
Definition load_bytes {U} (mem : U -> gmap Z Z) (n : nat) (p : Z) : M U bytes := fun u =>
  match mem_read (mem u) p (Z.of_nat n) with
  | Some bs => (inl (map (wrap 8) bs), u)
  | None => (inr HUB, u)
  end.

Lemma load_bytes_inv {U} (mem : U -> gmap Z Z) n p u bs u' :
  load_bytes mem n p u = (inl bs, u') -> length bs = n /\ all_bytes bs /\ u' = u.
Proof.
  unfold load_bytes. destruct (mem_read _ _ _) as [l|] eqn:E; [| done].
  apply mem_read_length in E; [| lia]. intros K. injection K as <- <-. rewrite length_map.
  split; [lia |]. split; [| done]. apply Forall_map, Forall_forall. intros z _. apply wrap_range. lia.
Qed.

Lemma load_bytes_keeps {U X} (f : U -> X) (mem : U -> gmap Z Z) n p : keeps f (load_bytes mem n p).
Proof. intros u r u'. unfold load_bytes. destruct (mem_read _ _ _); intros E; by injection E as _ <-. Qed.
#[export] Hint Resolve load_bytes_keeps : keeps.

(** The memory holds [z] in the [n] bytes at [p]. *)
Definition holds `{Build} {U} (mem : U -> gmap Z Z) (u : U) (n : nat) (p z : Z) : Prop :=
  load mem n p u = (inl z, u).

Lemma holds_value `{Build} {U} (mem : U -> gmap Z Z) u n p z :
  fst (load mem n p u) = inl z -> holds mem u n p z.
Proof. unfold holds, load. destruct (mem_read _ _ _); cbn; [by intros E; injection E as <- | done]. Qed.

(** [holds] at a concrete address of a concrete memory. *)
Ltac by_value := apply holds_value; vm_compute; reflexivity.

Lemma holds_mapped `{Build} {U} (mem : U -> gmap Z Z) u n p z :
  (0 < n)%nat -> holds mem u n p z -> p ∈ dom (mem u).
Proof.
  intros Hn. unfold holds, load, mem_read. rewrite elem_of_dom.
  destruct (mapM _ _) as [bs|] eqn:E; [| done]. intros _. apply mapM_Some in E.
  rewrite Z.max_r in E by lia. rewrite seqZ_cons in E by lia.
  apply Forall2_cons_inv_l in E as (b & bs' & E & _). rewrite Z.add_0_r in E. by exists b.
Qed.

(** Where the blocks of a list start, given their sizes.  A list in memory has no
    more blocks than there are bytes. *)
Fixpoint starts (p : Z) (sizes : list Z) : list Z :=
  match sizes with
  | [] => []
  | s :: sizes' => p :: starts (p + s) sizes'
  end.

Lemma starts_length p sizes : length (starts p sizes) = length sizes.
Proof. revert p. induction sizes as [|s l IH]; intros p; [done |]. simpl. by rewrite IH. Qed.

Lemma starts_above p sizes :
  Forall (fun s => 0 < s) sizes -> NoDup (starts p sizes) /\ Forall (fun q => p <= q) (starts p sizes).
Proof.
  intros F. revert p. induction F as [|s l Hs _ IH]; intros p; [by split; constructor |].
  destruct (IH (p + s)) as [N G]. simpl. split.
  - constructor; [| done]. intros Hp. rewrite Forall_forall in G. specialize (G p Hp). lia.
  - constructor; [lia |]. eapply Forall_impl; [exact G |]. simpl. lia.
Qed.

Lemma starts_fuel (m : gmap Z Z) p sizes :
  Forall (fun s => 0 < s) sizes -> Forall (fun q => q ∈ dom m) (starts p sizes) ->
  (length sizes <= size m)%nat.
Proof.
  intros F D. destruct (starts_above p sizes F) as [N _].
  rewrite <-(starts_length p), <-(size_list_to_set (C := gset Z) _ N), <-size_dom.
  apply subseteq_size. intros q Hq. apply elem_of_list_to_set in Hq.
  rewrite Forall_forall in D. by apply D.
Qed.

(** The elements [ix] of two arrays agree in their lower [w] bits. *)
Definition same_at (w : Z) (ix : list nat) (l l' : list Z) : Prop :=
  Forall (fun i => wrap w (nth i l 0) = wrap w (nth i l' 0)) ix.

(** An array of a structure, element by element. *)
Definition array (w : Z) (n : nat) (l : list Z) : list Z :=
  map (fun i => wrap w (nth i l 0)) (seq 0 n).

Lemma array_ok w n l : 0 <= w -> length (array w n l) = n /\ Forall (in_width w) (array w n l).
Proof.
  intros Hw. unfold array. rewrite length_map, length_seq. split; [done |].
  apply Forall_map, Forall_forall. intros i _. by apply wrap_range.
Qed.

Lemma array_nth w n l i : (i < n)%nat -> nth i (array w n l) 0 = wrap w (nth i l 0).
Proof.
  intros Hi. unfold array. rewrite nth_lookup, list_lookup_fmap, lookup_seq_lt by done. done.
Qed.

Lemma array_same w n l l' : array w n l = array w n l' <-> same_at w (seq 0 n) l l'.
Proof.
  unfold same_at. rewrite Forall_forall. split.
  - intros E i Hi. apply elem_of_seq in Hi. by rewrite <-!(array_nth w n) by lia; rewrite E.
  - intros K. apply map_ext_in. intros i Hi. apply K, list_elem_of_In, Hi.
Qed.

Lemma member_array w c l : member_ok (w, c) (array (8 * Z.of_nat w) c l).
Proof. apply array_ok. lia. Qed.

#[export] Hint Resolve member_one member_array : risu.

(** ** Reports *)

(** A line if two values differ. *)
Definition differ (x y : Z) (t : text) : text := if negb (x =? y) then t else [].

(** Lines for the elements that differ. *)
Definition differ_each (ix : list nat) (same : nat -> bool) (t : nat -> text) : text :=
  concat (map (fun i => if negb (same i) then t i else []) ix).

Lemma differ_nil x y t : t <> [] -> differ x y t = [] <-> x = y.
Proof. intros Ht. unfold differ. destruct (Z.eqb_spec x y); simpl; split; congruence. Qed.

Lemma app_nil_iff {A} (x y : list A) : x ++ y = [] <-> x = [] /\ y = [].
Proof. split; [apply app_eq_nil | by intros [-> ->]]. Qed.

Lemma differ_each_nil ix same t :
  (forall i, t i <> []) -> differ_each ix same t = [] <-> Forall (fun i => same i = true) ix.
Proof.
  intros Ht. unfold differ_each. induction ix as [|i ix IH]; simpl; [by split; [constructor |] |].
  rewrite Forall_cons, <-IH. destruct (same i); simpl; [tauto |]. split; [| by intros [? _]].
  intros E. apply app_eq_nil in E as [E _]. by destruct (Ht i).
Qed.

Lemma differ_each_ext ix same same' t t' :
  (forall i, i ∈ ix -> (same i, t i) = (same' i, t' i)) -> differ_each ix same t = differ_each ix same' t'.
Proof.
  intros K. unfold differ_each. f_equal. apply map_ext_in. intros i Hi. apply list_elem_of_In in Hi.
  specialize (K i Hi). by injection K as -> ->.
Qed.

Lemma forallb_Forall_true {A} (f : A -> bool) l :
  forallb f l = true <-> Forall (fun x => f x = true) l.
Proof.
  induction l as [|x l IH]; simpl; [by split; [constructor |] |].
  by rewrite andb_true_iff, IH, Forall_cons.
Qed.

(** Arrays that agree element by element. *)
Lemma array_eq n (x y : list Z) :
  length x = n -> length y = n ->
  Forall (fun i => (nth i x 0 =? nth i y 0) = true) (seq 0 n) <-> x = y.
Proof.
  intros Hx Hy. rewrite Forall_forall. split.
  - intros K. apply (nth_ext x y 0 0); [congruence |]. intros i Hi. apply Z.eqb_eq, K, elem_of_seq. lia.
  - intros -> i _. apply Z.eqb_refl.
Qed.

Section arch.
Context `{Build} {R U O : Type} `{Layout R} `{Cpu R U O} `{Port R}.

(** No architecture updates the context: the body of [reginfo_update] is
    empty. *)
Definition cpu_arch : Arch := {|
  reginfo := R;
  uctx := U;
  aopts := O;
  arch_ptr_bytes := port_ptr_bytes;
  reginfo_sizeof := struct_sizeof;
  reginfo_enc := struct_enc;
  reginfo_dec := struct_dec;
  advance_pc := cpu_advance_pc;
  get_uc_pc := cpu_get_uc_pc;
  set_ucontext_paramreg := cpu_set_paramreg;
  get_reginfo_paramreg := cpu_get_paramreg;
  get_risuop := cpu_get_risuop;
  get_pc _ := cpu_get_pc;
  reginfo_init := cpu_init;
  reginfo_update _ _ _ u := u;
  reginfo_is_eq _ _ m a := (inl (cpu_is_eq m a), a);
  reginfo_dump := cpu_dump;
  reginfo_dump_mismatch _ := cpu_dump_mismatch;
  reginfo_size := cpu_size;
  get_arch_big_endian := port_big_endian;
  get_arch_start_address := port_start_address;
  get_arch_memory _ := port_memory;
  mem_at u := mem_read (cpu_mem u);
  reginfo_host_to_arch := port_out;
  reginfo_arch_to_host := port_in
|}.

(** What the files of an architecture promise.  [cpu_same m a]: the register
    files agree on what is transmitted and compared. *)
Class CpuLaws := {
  cpu_ctx_wf : U -> Prop;
  cpu_wf : R -> Prop;
  cpu_same : R -> R -> Prop;
  cpu_of_to r : of_members (to_members r) = r;
  cpu_small : Z.of_nat struct_sizeof < 2 ^ 30;
  cpu_wf_struct r : cpu_wf r -> struct_wf r;
  cpu_size_range r : cpu_wf r -> 0 <= cpu_size r <= Z.of_nat struct_sizeof;
  cpu_init_wf o im si u r u' : cpu_init o im si u = (inl r, u') -> cpu_wf r;
  cpu_init_ctx o im si u r u' : cpu_ctx_wf u -> cpu_init o im si u = (r, u') -> cpu_ctx_wf u';
  cpu_same_refl r : cpu_same r r;
  cpu_same_eq m a : cpu_same m a -> cpu_is_eq m a = true;
  cpu_advance_wf u : cpu_ctx_wf u -> cpu_ctx_wf (cpu_advance_pc u);
  cpu_paramreg_wf v u : cpu_ctx_wf u -> cpu_ctx_wf (cpu_set_paramreg v u)
}.

(** Where [reginfo_size] is the size of the structure, the bytes transmitted are
    all of it, whatever the buffer held before. *)
Lemma whole_received `{!CpuLaws} le r old :
  cpu_size r = Z.of_nat struct_sizeof -> cpu_wf r ->
  struct_dec le (splice (struct_enc le old) (take (Z.to_nat (cpu_size r)) (struct_enc le r))) = r.
Proof.
  intros Hs W. apply cpu_wf_struct in W. rewrite Hs.
  rewrite Nat2Z.id, take_ge by by rewrite struct_enc_length.
  rewrite splice_full by by rewrite !struct_enc_length.
  by apply struct_dec_enc; [apply cpu_of_to |].
Qed.

(** The report names what the comparison has rejected: [cpu_heading] is what is
    printed in any case. *)
Class CpuReport := {
  cpu_heading : text;
  cpu_report m a :
    struct_wf m -> struct_wf a ->
    cpu_dump_mismatch m a = cpu_heading <-> cpu_is_eq m a = true
}.

End arch.
