(* ===== verification/S390x.v ===== *)
(** * IBM z (risu_s390x.c, risu_reginfo_s390x.c and .h)

    The register file, how it is captured, compared and reported. *)

From stdpp Require Import gmap.
From S2P Require Import Prelude Endian Comms Arch Cpu.

(** [struct reginfo] *)
Record s390x_reginfo : Type := S390xReginfo {
  s_psw_mask : Z;
  s_pc_offset : Z;
  s_faulting_insn : Z;
  s_faulting_insn_len : Z;
  s_fpc : Z;
  s_gprs : list Z;
  s_fprs : list Z
}.

(** The context of a signal, and the memory. *)
Record s390x_ctx : Type := S390xCtx {
  sc_mask : Z;              (* uc_mcontext.regs.psw.mask *)
  sc_addr : Z;              (* uc_mcontext.regs.psw.addr, where the program resumes *)
  sc_gprs : list Z;         (* uc_mcontext.regs.gprs, uc_mcontext.gregs *)
  sc_fpc : Z;
  sc_fprs : list Z;
  sc_mem : gmap Z Z
}.

#[export] Instance s390x_layout : Layout s390x_reginfo := {|
  members := [(8, 1); (8, 1); (8, 1); (4, 1); (4, 1); (8, 16); (8, 16)]%nat;
  to_members r := [[s_psw_mask r]; [s_pc_offset r]; [s_faulting_insn r]; [s_faulting_insn_len r];
                   [s_fpc r]; s_gprs r; s_fprs r];
  of_members vss :=
    let one i := nth 0 (nth i vss []) 0 in
    S390xReginfo (one 0%nat) (one 1%nat) (one 2%nat) (one 3%nat) (one 4%nat)
      (nth 5 vss []) (nth 6 vss [])
|}.

(** ** risu_s390x.c *)

(** The address in the PSW already points behind the instruction. *)
Definition s390x_advance_pc (u : s390x_ctx) : s390x_ctx := u.

Definition s390x_get_uc_pc (u : s390x_ctx) (siaddr : Z) : Z := siaddr.

Definition s390x_set_ucontext_paramreg (value : Z) (u : s390x_ctx) : s390x_ctx :=
  S390xCtx (sc_mask u) (sc_addr u) (<[0%nat := u64 value]> (sc_gprs u)) (sc_fpc u) (sc_fprs u) (sc_mem u).

Definition s390x_get_reginfo_paramreg (ri : s390x_reginfo) : Z := nth 0 (s_gprs ri) 0.

Definition s390x_get_risuop (ri : s390x_reginfo) : RisuOp :=
  let insn := u32 (s_faulting_insn ri) in
  let op := Z.land insn 0xff in
  let key := andnot insn 0xff in
  if (s_faulting_insn_len ri =? 4) && (key =? 0x835a0f00) then RisuOp_of_Z op else OP_SIGILL.

Definition s390x_get_pc (ri : s390x_reginfo) : Z := s_pc_offset ri.

(** ** risu_reginfo_s390x.c *)

Definition s390x_reginfo_size (ri : s390x_reginfo) : Z := Z.of_nat (struct_sizeof (R := s390x_reginfo)).

Section s390x.
Context `{Build}.

(** The first two bits of an instruction give its size.  The first four bytes of
    a six-byte instruction are shifted as a [uint32_t]. *)
Definition s390x_insn (siaddr : Z) : M s390x_ctx (Z * Z) :=
  b ← load sc_mem 1 siaddr;
  let c := Z.shiftr b 6 in
  if c =? 0 then h ← load sc_mem 2 siaddr; mret (h, 2)
  else if c =? 3 then
    w ← load sc_mem 4 siaddr;
    h ← load sc_mem 2 (siaddr + 4);
    mret (Z.lor (u32 (Z.shiftl w 16)) h, 6)
  else w ← load sc_mem 4 siaddr; mret (w, 4).

Definition s390x_reginfo_init (o : ()) (im : image) (siaddr : Z) : M s390x_ctx s390x_reginfo :=
  i ← s390x_insn siaddr;
  u ← gets id;
  mret (S390xReginfo (u64 (sc_mask u)) (u64 (siaddr - image_start_address im)) (fst i) (snd i)
    (u32 (sc_fpc u)) (array 64 16 (sc_gprs u)) (array 64 16 (sc_fprs u))).

(** The arrays are compared with [memcmp]. *)
Definition s390x_reginfo_is_eq (m a : s390x_reginfo) : bool :=
  (s_pc_offset m =? s_pc_offset a) && (s_fpc m =? s_fpc a) &&
  bool_decide (s_gprs m = s_gprs a) && bool_decide (s_fprs m = s_fprs a).

Definition s390x_reginfo_dump (ri : s390x_reginfo) : text :=
  [("  faulting insn 0x%lx\n", [AInt (s_faulting_insn ri)]);
   ("  PSW mask      0x%lx\n", [AInt (s_psw_mask ri)]);
   ("  PC offset     0x%lx\n\n", [AInt (s_pc_offset ri)])]%string ++
  map (fun i => ("\tr%d: %16lx\tr%02d: %16lx\n"%string,
         [AInt (Z.of_nat i); AInt (nth i (s_gprs ri) 0);
          AInt (Z.of_nat i + 8); AInt (nth (i + 8) (s_gprs ri) 0)])) (seq 0 8) ++
  [("\n"%string, [])] ++
  map (fun i => ("\tf%d: %16lx\tf%02d: %16lx\n"%string,
         [AInt (Z.of_nat i); AInt (nth i (s_fprs ri) 0);
          AInt (Z.of_nat i + 8); AInt (nth (i + 8) (s_fprs ri) 0)])) (seq 0 8) ++
  [("\tFPC: %8x\n\n"%string, [AInt (s_fpc ri)])].

Definition s390x_reginfo_dump_mismatch (m a : s390x_reginfo) : text :=
  differ (s_pc_offset m) (s_pc_offset a)
    [("Mismatch: PC offset master: [%016lx] - PC offset apprentice: [%016lx]\n"%string,
      [AInt (s_pc_offset m); AInt (s_pc_offset a)])] ++
  differ_each (seq 0 16) (fun i => nth i (s_gprs m) 0 =? nth i (s_gprs a) 0) (fun i =>
    [("Mismatch: r%d master: [%016lx] - r%d apprentice: [%016lx]\n"%string,
      [AInt (Z.of_nat i); AInt (nth i (s_gprs m) 0); AInt (Z.of_nat i); AInt (nth i (s_gprs a) 0)])]) ++
  differ_each (seq 0 16) (fun i => nth i (s_fprs m) 0 =? nth i (s_fprs a) 0) (fun i =>
    [("Mismatch: f%d master: [%016lx] - f%d apprentice: [%016lx]\n"%string,
      [AInt (Z.of_nat i); AInt (nth i (s_fprs m) 0); AInt (Z.of_nat i); AInt (nth i (s_fprs a) 0)])]) ++
  differ (s_fpc m) (s_fpc a)
    [("Mismatch: FPC master: [%08x] - FPC apprentice: [%08x]\n"%string,
      [AInt (s_fpc m); AInt (s_fpc a)])].

#[export] Instance s390x_cpu : Cpu s390x_reginfo s390x_ctx () := {|
  cpu_advance_pc := s390x_advance_pc;
  cpu_get_uc_pc := s390x_get_uc_pc;
  cpu_set_paramreg := s390x_set_ucontext_paramreg;
  cpu_get_paramreg := s390x_get_reginfo_paramreg;
  cpu_get_risuop := s390x_get_risuop;
  cpu_get_pc := s390x_get_pc;
  cpu_init := s390x_reginfo_init;
  cpu_is_eq := s390x_reginfo_is_eq;
  cpu_dump := s390x_reginfo_dump;
  cpu_dump_mismatch := s390x_reginfo_dump_mismatch;
  cpu_size := s390x_reginfo_size;
  cpu_mem := sc_mem
|}.

(** ** Laws *)

Record s390x_ctx_wf (u : s390x_ctx) : Prop := {
  scwf_gprs : length (sc_gprs u) = 16%nat;
  scwf_fprs : length (sc_fprs u) = 16%nat
}.

Lemma s390x_insn_inv siaddr u i u' :
  s390x_insn siaddr u = (inl i, u') ->
  in_width 64 (fst i) /\ in_width 32 (snd i) /\ u' = u.
Proof.
  intros E. unfold s390x_insn in E.
  apply bind_inv in E as (b & u1 & E1 & E). apply load_inv in E1 as [_ ->].
  destruct (_ =? 0).
  - apply bind_inv in E as (h & u2 & E2 & E). apply load_inv in E2 as [W ->].
    apply ret_inv in E as [<- <-].
    split; [by eapply in_width_le; [| exact W]; lia | done].
  - destruct (_ =? 3).
    + apply bind_inv in E as (w & u2 & E2 & E). apply load_inv in E2 as [W ->].
      apply bind_inv in E as (h & u3 & E3 & E). apply load_inv in E3 as [W' ->].
      apply ret_inv in E as [<- <-]. split_and!; [| by vm_compute | done]. cbn [fst].
      apply in_width_testbit; [lia | |].
      * apply Z.lor_nonneg. split; [apply wrap_range; lia | apply W'].
      * intros i Hi. rewrite Z.lor_spec, wrap_testbit by lia.
        rewrite (testbit_in_width 16 h) by (done || lia). destruct (Z.ltb_spec i 32); [lia | done].
    + apply bind_inv in E as (w & u2 & E2 & E). apply load_inv in E2 as [W ->].
      apply ret_inv in E as [<- <-].
    split; [by eapply in_width_le; [| exact W]; lia | done].
Qed.

Lemma s390x_init_keeps o im si : keeps id (s390x_reginfo_init o im si).
Proof. unfold s390x_reginfo_init, s390x_insn. eauto 20 with keeps. Qed.

Lemma s390x_init_eq o im si u r u' :
  s390x_reginfo_init o im si u = (inl r, u') ->
  exists i, s390x_insn si u = (inl i, u) /\ u' = u /\
    r = S390xReginfo (u64 (sc_mask u)) (u64 (si - image_start_address im)) (fst i) (snd i)
      (u32 (sc_fpc u)) (array 64 16 (sc_gprs u)) (array 64 16 (sc_fprs u)).
Proof.
  intros E. unfold s390x_reginfo_init in E. apply bind_inv in E as (i & u1 & E1 & E).
  pose proof E1 as E0. apply s390x_insn_inv in E0 as (_ & _ & ->).
  apply bind_inv in E as (u2 & u3 & E2 & E). injection E2 as <- <-. apply ret_inv in E as [<- <-].
  by exists i.
Qed.

Lemma s390x_init_inv o im si u r u' :
  s390x_reginfo_init o im si u = (inl r, u') -> struct_wf r /\ u' = u.
Proof.
  intros E. apply s390x_init_eq in E as (i & E1 & -> & ->). split; [| done].
  apply s390x_insn_inv in E1 as (W1 & W2 & _). unfold struct_wf. cbn [members to_members s390x_layout].
  repeat (apply Forall2_cons; split); try apply Forall2_nil_2;
    first [apply (member_array 8) | apply member_one; first [exact W1 | exact W2 | apply wrap_range; lia]].
Qed.

#[export] Instance s390x_laws : CpuLaws (R := s390x_reginfo) (U := s390x_ctx) (O := ()).
Proof.
  refine {| cpu_ctx_wf := s390x_ctx_wf; cpu_wf := struct_wf; cpu_same := eq |}.
  - by intros [].
  - vm_compute. congruence.
  - done.
  - intros r _. split; [apply Nat2Z.is_nonneg | apply Z.le_refl].
  - intros o im si u r u' E. apply s390x_init_inv in E as [W _]. exact W.
  - intros o im si u r u' W E. apply s390x_init_keeps in E. unfold id in E. by subst.
  - done.
  - intros m r ->. cbn. unfold s390x_reginfo_is_eq. rewrite !Z.eqb_refl. by rewrite !bool_decide_true.
  - done.
  - intros v u []. split; simpl; [by rewrite length_insert | done].
Defined.

#[export] Instance s390x_report : CpuReport (R := s390x_reginfo) (U := s390x_ctx) (O := ()).
Proof.
  refine {| cpu_heading := [] |}. intros m a Wm Wa. cbn [cpu_dump_mismatch cpu_is_eq s390x_cpu].
  unfold s390x_reginfo_dump_mismatch, s390x_reginfo_is_eq.
  pose proof (struct_lengths m Wm) as Lm. pose proof (struct_lengths a Wa) as La.
  cbn in Lm, La. injection Lm as Lg Lf. injection La as Lg' Lf'.
  rewrite !andb_true_iff, !Z.eqb_eq, !bool_decide_eq_true, !app_nil_iff.
  rewrite !differ_nil, !differ_each_nil, !array_eq by done. tauto.
Defined.

(** ** What decides the verdict *)

(** Where the instruction is in the image, the general and the floating-point
    registers and the control register. *)
Definition s390x_agree (im im' : image) (si si' : Z) (u v : s390x_ctx) : Prop :=
  u64 (si - image_start_address im) = u64 (si' - image_start_address im') /\
  u32 (sc_fpc u) = u32 (sc_fpc v) /\
  same_at 64 (seq 0 16) (sc_gprs u) (sc_gprs v) /\ same_at 64 (seq 0 16) (sc_fprs u) (sc_fprs v).

Lemma s390x_verdict o o' im im' si si' u v m a u' v' :
  s390x_reginfo_init o im si u = (inl m, u') -> s390x_reginfo_init o' im' si' v = (inl a, v') ->
  s390x_reginfo_is_eq m a = true <-> s390x_agree im im' si si' u v.
Proof.
  intros Em Ea. apply s390x_init_eq in Em as (i & _ & _ & ->), Ea as (j & _ & _ & ->).
  unfold s390x_reginfo_is_eq, s390x_agree. cbn [s_pc_offset s_fpc s_gprs s_fprs].
  rewrite !andb_true_iff, !Z.eqb_eq, !bool_decide_eq_true, !array_same. tauto.
Qed.
End s390x.
