(* ===== verification/M68k.v ===== *)
(** * Motorola 68000 (risu_m68k.c, risu_reginfo_m68k.c and .h)

    The register file, how it is captured, compared and reported. *)

From stdpp Require Import gmap.
From S2P Require Import Prelude Endian Comms Arch Cpu.

(** Positions in [gregset_t]. *)
Definition R_A0 : nat := 8.
Definition R_A6 : nat := 14.
Definition R_SP : nat := 15.
Definition R_PC : nat := 16.
Definition R_PS : nat := 17.
Definition M68K_NGREG : nat := 18.

(** [struct reginfo]; [fpregset_t] is the last four members, its eight registers
    of three words one after the other. *)
Record m68k_reginfo : Type := M68kReginfo {
  mk_faulting_insn : Z;
  mk_pc : Z;
  mk_gregs : list Z;
  mk_pcr : Z;
  mk_psr : Z;
  mk_fpiaddr : Z;
  mk_fpregs : list Z
}.

Record m68k_ctx : Type := M68kCtx {
  kc_gregs : list Z;
  kc_pcr : Z;
  kc_psr : Z;
  kc_fpiaddr : Z;
  kc_fpregs : list Z;
  kc_mem : gmap Z Z
}.

#[export] Instance m68k_layout : Layout m68k_reginfo := {|
  members := [(4, 1); (4, 1); (4, 18); (4, 1); (4, 1); (4, 1); (4, 24)]%nat;
  to_members r := [[mk_faulting_insn r]; [mk_pc r]; mk_gregs r; [mk_pcr r]; [mk_psr r];
                   [mk_fpiaddr r]; mk_fpregs r];
  of_members vss :=
    let one i := nth 0 (nth i vss []) 0 in
    M68kReginfo (one 0%nat) (one 1%nat) (nth 2 vss []) (one 3%nat) (one 4%nat) (one 5%nat)
      (nth 6 vss [])
|}.

(** ** risu_m68k.c *)

Definition set_kc_gregs (v : list Z) (u : m68k_ctx) : m68k_ctx :=
  M68kCtx v (kc_pcr u) (kc_psr u) (kc_fpiaddr u) (kc_fpregs u) (kc_mem u).

Definition m68k_advance_pc (u : m68k_ctx) : m68k_ctx :=
  set_kc_gregs (<[R_PC := u32 (nth R_PC (kc_gregs u) 0 + 4)]> (kc_gregs u)) u.

Definition m68k_get_uc_pc (u : m68k_ctx) (siaddr : Z) : Z := nth R_PC (kc_gregs u) 0.

Definition m68k_set_ucontext_paramreg (value : Z) (u : m68k_ctx) : m68k_ctx :=
  set_kc_gregs (<[R_A0 := u32 value]> (kc_gregs u)) u.

Definition m68k_get_reginfo_paramreg (ri : m68k_reginfo) : Z := nth R_A0 (mk_gregs ri) 0.

Definition m68k_get_risuop (ri : m68k_reginfo) : RisuOp :=
  let insn := mk_faulting_insn ri in
  let op := Z.land insn 0xf in
  let key := andnot insn 0xf in
  if negb (key =? 0x4afc7000) then OP_SIGILL else RisuOp_of_Z op.

Definition m68k_get_pc (ri : m68k_reginfo) : Z := nth R_PC (mk_gregs ri) 0.

(** ** risu_reginfo_m68k.c *)

Definition m68k_reginfo_size (ri : m68k_reginfo) : Z := Z.of_nat (struct_sizeof (R := m68k_reginfo)).

Section m68k.
Context `{Build}.

Definition m68k_reginfo_init (o : ()) (im : image) (siaddr : Z) : M m68k_ctx m68k_reginfo :=
  pc ← gets (fun u => nth R_PC (kc_gregs u) 0);
  insn ← load kc_mem 4 pc;
  u ← gets id;
  mret (M68kReginfo insn (u32 (pc - image_start_address im)) (array 32 M68K_NGREG (kc_gregs u))
    (u32 (kc_pcr u)) (u32 (kc_psr u)) (u32 (kc_fpiaddr u)) (array 32 24 (kc_fpregs u))).

(** The loops of [reginfo_is_eq] and [reginfo_dump_mismatch] pass over the stack
    and frame pointers. *)
Definition m68k_compared : list nat :=
  filter (fun i => ~ (i = R_SP \/ i = R_A6)) (seq 0 16).

Definition m68k_greg_eq (m a : m68k_reginfo) (i : nat) : bool :=
  nth i (mk_gregs m) 0 =? nth i (mk_gregs a) 0.

(** The three words of a floating-point register. *)
Definition m68k_fpreg_eq (m a : m68k_reginfo) (i : nat) : bool :=
  (nth (3 * i) (mk_fpregs m) 0 =? nth (3 * i) (mk_fpregs a) 0) &&
  (nth (3 * i + 1) (mk_fpregs m) 0 =? nth (3 * i + 1) (mk_fpregs a) 0) &&
  (nth (3 * i + 2) (mk_fpregs m) 0 =? nth (3 * i + 2) (mk_fpregs a) 0).

Definition m68k_reginfo_is_eq (m a : m68k_reginfo) : bool :=
  if negb (m68k_greg_eq m a R_PS) then false
  else if negb (forallb (m68k_greg_eq m a) m68k_compared) then false
  else if negb (mk_pcr m =? mk_pcr a) then false
  else if negb (mk_psr m =? mk_psr a) then false
  else forallb (m68k_fpreg_eq m a) (seq 0 8).

Definition m68k_reginfo_dump (ri : m68k_reginfo) : text :=
  [("  pc            \e[1;101;37m0x%08x\e[0m\n", [AInt (mk_pc ri)]);
   ("\tPC: %08x\n", [AInt (nth R_PC (mk_gregs ri) 0)]);
   ("\tPS: %04x\n", [AInt (nth R_PS (mk_gregs ri) 0)])]%string ++
  map (fun i => ("\tD%d: %8x\tA%d: %8x\n"%string,
         [AInt (Z.of_nat i); AInt (nth i (mk_gregs ri) 0);
          AInt (Z.of_nat i); AInt (nth (i + 8) (mk_gregs ri) 0)])) (seq 0 8) ++
  map (fun i => ("\tFP%d: %08x %08x %08x\n"%string,
         [AInt (Z.of_nat i); AInt (nth (3 * i) (mk_fpregs ri) 0);
          AInt (nth (3 * i + 1) (mk_fpregs ri) 0); AInt (nth (3 * i + 2) (mk_fpregs ri) 0)]))
    (seq 0 8) ++
  [("\n"%string, [])].

Definition m68k_reginfo_dump_mismatch (m a : m68k_reginfo) : text :=
  let greg r i := AInt (nth i (mk_gregs r) 0) in
  let fp r i := AInt (nth i (mk_fpregs r) 0) in
  differ (nth R_PS (mk_gregs m) 0) (nth R_PS (mk_gregs a) 0)
    [("Mismatch: Register PS\n", []);
     ("master: [%x] - apprentice: [%x]\n", [greg m R_PS; greg a R_PS])]%string ++
  differ_each m68k_compared (m68k_greg_eq m a) (fun i =>
    [("Mismatch: Register %c%d\n",
      [AStr (if (i <? 8)%nat then "D" else "A"); AInt (Z.of_nat (i mod 8))]);
     ("master: [%x] - apprentice: [%x]\n", [greg m i; greg a i])]%string) ++
  differ (mk_pcr m) (mk_pcr a)
    [("Mismatch: Register FPCR\n", []);
     ("m: [%04x] != a: [%04x]\n", [AInt (mk_pcr m); AInt (mk_pcr a)])]%string ++
  differ (mk_psr m) (mk_psr a)
    [("Mismatch: Register FPSR\n", []);
     ("m: [%08x] != a: [%08x]\n", [AInt (mk_psr m); AInt (mk_psr a)])]%string ++
  differ_each (seq 0 8) (m68k_fpreg_eq m a) (fun i =>
    [("Mismatch: Register FP%d\n", [AInt (Z.of_nat i)]);
     ("m: [%08x %08x %08x] != a: [%08x %08x %08x]\n",
      [fp m (3 * i)%nat; fp m (3 * i + 1)%nat; fp m (3 * i + 2)%nat;
       fp a (3 * i)%nat; fp a (3 * i + 1)%nat; fp a (3 * i + 2)%nat])]%string).

#[export] Instance m68k_cpu : Cpu m68k_reginfo m68k_ctx () := {|
  cpu_advance_pc := m68k_advance_pc;
  cpu_get_uc_pc := m68k_get_uc_pc;
  cpu_set_paramreg := m68k_set_ucontext_paramreg;
  cpu_get_paramreg := m68k_get_reginfo_paramreg;
  cpu_get_risuop := m68k_get_risuop;
  cpu_get_pc := m68k_get_pc;
  cpu_init := m68k_reginfo_init;
  cpu_is_eq := m68k_reginfo_is_eq;
  cpu_dump := m68k_reginfo_dump;
  cpu_dump_mismatch := m68k_reginfo_dump_mismatch;
  cpu_size := m68k_reginfo_size;
  cpu_mem := kc_mem
|}.

(** ** Laws *)

Record m68k_ctx_wf (u : m68k_ctx) : Prop := {
  kcwf_gregs : length (kc_gregs u) = M68K_NGREG;
  kcwf_fpregs : length (kc_fpregs u) = 24%nat
}.

Lemma m68k_init_keeps o im si : keeps id (m68k_reginfo_init o im si).
Proof. unfold m68k_reginfo_init. eauto 20 with keeps. Qed.

Lemma m68k_init_eq o im si u r u' :
  m68k_reginfo_init o im si u = (inl r, u') ->
  exists insn, in_width 32 insn /\
    r = M68kReginfo insn (u32 (nth R_PC (kc_gregs u) 0 - image_start_address im))
      (array 32 M68K_NGREG (kc_gregs u)) (u32 (kc_pcr u)) (u32 (kc_psr u)) (u32 (kc_fpiaddr u))
      (array 32 24 (kc_fpregs u)).
Proof.
  intros E. unfold m68k_reginfo_init in E.
  apply bind_inv in E as (pc & u1 & E1 & E). injection E1 as <- <-.
  apply bind_inv in E as (insn & u2 & E2 & E). apply (load_inv kc_mem 4) in E2 as [W ->].
  apply bind_inv in E as (u3 & u4 & E3 & E). injection E3 as <- <-.
  apply ret_inv in E as [<- _]. by exists insn.
Qed.

Lemma m68k_init_wf o im si u r u' :
  m68k_reginfo_init o im si u = (inl r, u') -> struct_wf r.
Proof.
  intros E. apply m68k_init_eq in E as (insn & W & ->). unfold struct_wf. cbn [members to_members m68k_layout].
  repeat (apply Forall2_cons; split); try apply Forall2_nil_2;
    first [apply (member_array 4) | apply member_one; first [exact W | apply wrap_range; lia]].
Qed.

(** What the comparison tests. *)
Lemma m68k_is_eq_spec m a :
  m68k_reginfo_is_eq m a = true <->
  nth R_PS (mk_gregs m) 0 = nth R_PS (mk_gregs a) 0 /\
  Forall (fun i => m68k_greg_eq m a i = true) m68k_compared /\
  mk_pcr m = mk_pcr a /\ mk_psr m = mk_psr a /\
  Forall (fun i => m68k_fpreg_eq m a i = true) (seq 0 8).
Proof.
  rewrite <-!forallb_Forall_true, <-!Z.eqb_eq. unfold m68k_reginfo_is_eq.
  change (nth R_PS (mk_gregs m) 0 =? nth R_PS (mk_gregs a) 0) with (m68k_greg_eq m a R_PS).
  destruct (m68k_greg_eq m a R_PS), (forallb _ m68k_compared), (_ =? _), (_ =? _), (forallb _ _);
    cbn [negb]; intuition congruence.
Qed.

#[export] Instance m68k_laws : CpuLaws (R := m68k_reginfo) (U := m68k_ctx) (O := ()).
Proof.
  refine {| cpu_ctx_wf := m68k_ctx_wf; cpu_wf := struct_wf; cpu_same := eq |}.
  - by intros [].
  - vm_compute. congruence.
  - done.
  - intros r _. split; [apply Nat2Z.is_nonneg | apply Z.le_refl].
  - exact m68k_init_wf.
  - intros o im si u r u' W E. apply m68k_init_keeps in E. unfold id in E. by subst.
  - done.
  - intros m r ->. apply m68k_is_eq_spec. unfold m68k_greg_eq, m68k_fpreg_eq.
    split_and!; try done; apply Forall_forall; intros i _; by rewrite !Z.eqb_refl.
  - intros u []. split; simpl; [by rewrite length_insert | done].
  - intros v u []. split; simpl; [by rewrite length_insert | done].
Defined.

#[export] Instance m68k_report : CpuReport (R := m68k_reginfo) (U := m68k_ctx) (O := ()).
Proof.
  refine {| cpu_heading := [] |}. intros m a _ _. cbn [cpu_dump_mismatch cpu_is_eq m68k_cpu].
  rewrite m68k_is_eq_spec. unfold m68k_reginfo_dump_mismatch. rewrite !app_nil_iff.
  rewrite !differ_nil, !differ_each_nil by done. tauto.
Defined.

(** ** What decides the verdict *)

(** The status register, D0 to D7 and A0 to A5, and the floating-point registers
    with their control and status; neither the program counter nor the frame and
    stack pointers. *)
Definition m68k_agree (u v : m68k_ctx) : Prop :=
  same_at 32 (seq 0 14 ++ [R_PS]) (kc_gregs u) (kc_gregs v) /\
  u32 (kc_pcr u) = u32 (kc_pcr v) /\ u32 (kc_psr u) = u32 (kc_psr v) /\
  same_at 32 (seq 0 24) (kc_fpregs u) (kc_fpregs v).

Lemma m68k_verdict o o' im im' si si' u v m a u' v' :
  m68k_reginfo_init o im si u = (inl m, u') -> m68k_reginfo_init o' im' si' v = (inl a, v') ->
  m68k_reginfo_is_eq m a = true <-> m68k_agree u v.
Proof.
  intros Em Ea. apply m68k_init_eq in Em as (i & _ & ->), Ea as (j & _ & ->).
  rewrite m68k_is_eq_spec. unfold m68k_agree, same_at. change m68k_compared with (seq 0 14).
  rewrite Forall_app, Forall_singleton. unfold m68k_greg_eq, m68k_fpreg_eq. cbn [mk_gregs mk_pcr mk_psr mk_fpregs].
  cbn [seq]. rewrite !Forall_cons, !Forall_nil, !andb_true_iff, !Z.eqb_eq.
  rewrite !array_nth by (cbv; lia). cbn [Nat.mul Nat.add]. tauto.
Qed.
End m68k.
