(* ===== verification/Arm.v ===== *)
(** * 32-bit Arm (risu_arm.c, risu_reginfo_arm.c and .h)

    The register file, how it is captured, compared and reported.  The
    floating-point registers are found in a list of tagged blocks behind the
    context; the search is shown to find the first complete block and to end. *)

From stdpp Require Import gmap.
From S2P Require Import Prelude Endian Comms Arch Cpu.

(** [struct reginfo] *)
Record arm_reginfo : Type := ArmReginfo {
  ar_fpregs : list Z;
  ar_faulting_insn : Z;
  ar_faulting_insn_size : Z;
  ar_gpreg : list Z;
  ar_cpsr : Z;
  ar_fpscr : Z
}.

#[export] Instance arm_reginfo_eq_dec : EqDecision arm_reginfo.
Proof. solve_decision. Defined.

(** The context of a signal, the words of [uc_regspace], and the memory. *)
Record arm_ctx : Type := ArmCtx {
  ac_regs : list Z;         (* arm_r0 to arm_r10, arm_fp, arm_ip, arm_sp, arm_lr *)
  ac_pc : Z;
  ac_cpsr : Z;
  ac_regspace : list Z;
  ac_mem : gmap Z Z
}.

Definition set_ac_regs (v : list Z) (u : arm_ctx) : arm_ctx :=
  ArmCtx v (ac_pc u) (ac_cpsr u) (ac_regspace u) (ac_mem u).
Definition set_ac_pc (v : Z) (u : arm_ctx) : arm_ctx :=
  ArmCtx (ac_regs u) v (ac_cpsr u) (ac_regspace u) (ac_mem u).
Definition set_ac_regspace (v : list Z) (u : arm_ctx) : arm_ctx :=
  ArmCtx (ac_regs u) (ac_pc u) (ac_cpsr u) v (ac_mem u).

#[export] Instance arm_layout : Layout arm_reginfo := {|
  members := [(8, 32); (4, 1); (4, 1); (4, 16); (4, 1); (4, 1)]%nat;
  to_members r := [ar_fpregs r; [ar_faulting_insn r]; [ar_faulting_insn_size r]; ar_gpreg r;
                   [ar_cpsr r]; [ar_fpscr r]];
  of_members vss :=
    let one i := nth 0 (nth i vss []) 0 in
    ArmReginfo (nth 0 vss []) (one 1%nat) (one 2%nat) (nth 3 vss []) (one 4%nat) (one 5%nat)
|}.

(** ** risu_arm.c *)

Section arm.
Context `{Build}.

(** The size of the instruction at the program counter. *)
Definition insnsize : M arm_ctx Z :=
  u ← gets id;
  if truth (Z.land (ac_cpsr u) 0x20) then
    insn ← load ac_mem 2 (ac_pc u);
    let k := Z.land insn 0xf800 in
    mret (if (k =? 0xe800) || (k =? 0xf000) || (k =? 0xf800) then 4 else 2)
  else mret 4.

(** The instruction has been read before, so that its size is known. *)
Definition arm_advance_pc (u : arm_ctx) : arm_ctx :=
  match insnsize u with
  | (inl n, _) => set_ac_pc (u32 (ac_pc u + n)) u
  | (inr _, _) => u
  end.

Definition arm_get_uc_pc (u : arm_ctx) (siaddr : Z) : Z := ac_pc u.

Definition arm_set_ucontext_paramreg (value : Z) (u : arm_ctx) : arm_ctx :=
  set_ac_regs (<[0%nat := u32 value]> (ac_regs u)) u.

Definition arm_get_reginfo_paramreg (ri : arm_reginfo) : Z := nth 0 (ar_gpreg ri) 0.

Definition arm_get_risuop (ri : arm_reginfo) : RisuOp :=
  let insn := ar_faulting_insn ri in
  let op := Z.land insn 0xf in
  let key := andnot insn 0xf in
  let risukey := if ar_faulting_insn_size ri =? 2 then 0xdee0 else 0xe7fe5af0 in
  if negb (key =? risukey) then OP_SIGILL else RisuOp_of_Z op.

Definition arm_get_pc (ri : arm_reginfo) : Z := nth 15 (ar_gpreg ri) 0.

(** ** risu_reginfo_arm.c *)

Definition arm_reginfo_size (ri : arm_reginfo) : Z := Z.of_nat (struct_sizeof (R := arm_reginfo)).

(** [*rs], where [rs] is [uc_regspace + i]; [unsigned long] has 32 bits. *)
Definition regspace (i : nat) : M arm_ctx Z := fun u =>
  match ac_regspace u !! i with
  | Some w => (inl (u32 w), u)
  | None => (inr HUB, u)
  end.

Definition VFP_MAGIC : Z := 0x56465001.

(** The registers of the block whose data starts at [rs]. *)
Fixpoint vfp_regs (n : nat) (rs : nat) : M arm_ctx (list Z) :=
  match n with
  | O => mret []
  | S n' =>
      lo ← regspace rs;
      hi ← regspace (S rs);
      l ← vfp_regs n' (S (S rs));
      mret (Z.lor lo (Z.shiftl hi 32) :: l)
  end.

Definition read_vfp (test_fp_exc : Z) (rs : nat) : M arm_ctx (list Z * Z) :=
  l ← vfp_regs 32 rs;
  w ← regspace (rs + 64);
  let fpscr := Z.land w 0xffff9f9f in
  let fpscr := if negb (truth test_fp_exc) then andnot fpscr 0x9f else fpscr in
  _ ← modify (fun u => set_ac_regspace (<[(rs + 64)%nat := andnot w 0x9f]> (ac_regspace u)) u);
  mret (l, fpscr).

(** [reginfo_init_vfp]: the registers and [fpscr].  [fuel] bounds the number of
    blocks; each takes two words at least. *)
Fixpoint init_vfp_loop (test_fp_exc : Z) (fuel : nat) (rs : nat) : M arm_ctx (list Z * Z) :=
  match fuel with
  | O => stop HFuel
  | S fuel' =>
      magic ← regspace rs;
      size ← regspace (S rs);
      let rs := S (S rs) in
      let size := u32 (size - 8) in
      let next := (rs + Z.to_nat (size / 4))%nat in
      if magic =? 0 then mret (replicate 32 0, 0)
      else if magic =? VFP_MAGIC then
        if size <? (32 * 2 + 1) * 4 then init_vfp_loop test_fp_exc fuel' next
        else read_vfp test_fp_exc rs
      else init_vfp_loop test_fp_exc fuel' next
  end.

Definition reginfo_init_vfp (test_fp_exc : Z) : M arm_ctx (list Z * Z) :=
  n ← gets (fun u => length (ac_regspace u));
  init_vfp_loop test_fp_exc (S n) 0.

Definition arm_reginfo_init (test_fp_exc : Z) (im : image) (siaddr : Z) : M arm_ctx arm_reginfo :=
  u ← gets id;
  lo ← load ac_mem 2 (ac_pc u);
  n ← insnsize;
  hi ← (if negb (n =? 2) then load ac_mem 2 (ac_pc u + 2) else mret 0);
  vfp ← reginfo_init_vfp test_fp_exc;
  mret (ArmReginfo (fst vfp) (Z.lor lo (Z.shiftl hi 16)) n
    (array 32 16 (take 13 (resize 13 0 (ac_regs u)) ++
       [0xdeadbeef; nth 14 (ac_regs u) 0; ac_pc u - image_start_address im]))
    (Z.land (u32 (ac_cpsr u)) 0xF80F0000) (snd vfp)).

(** [memcmp] of the whole structures, which have no padding. *)
Definition arm_reginfo_is_eq (r1 r2 : arm_reginfo) : bool := bool_decide (r1 = r2).

Definition arm_reginfo_dump (ri : arm_reginfo) : text :=
  [(if ar_faulting_insn_size ri =? 2 then "  faulting insn %04x\n"%string
    else "  faulting insn %08x\n"%string, [AInt (ar_faulting_insn ri)])] ++
  map (fun i => ("  r%d: %08x\n"%string, [AInt (Z.of_nat i); AInt (nth i (ar_gpreg ri) 0)])) (seq 0 16) ++
  [("  cpsr: %08x\n"%string, [AInt (ar_cpsr ri)])] ++
  map (fun i => ("  d%d: %016llx\n"%string, [AInt (Z.of_nat i); AInt (nth i (ar_fpregs ri) 0)]))
    (seq 0 32) ++
  [("  fpscr: %08x\n"%string, [AInt (ar_fpscr ri)])].

Definition arm_heading : text := [("mismatch detail (master : apprentice):\n"%string, [])].

Definition arm_reginfo_dump_mismatch (m a : arm_reginfo) : text :=
  arm_heading ++
  (if negb (ar_faulting_insn_size m =? ar_faulting_insn_size a) then
     [("  faulting insn size mismatch %d vs %d\n"%string,
       [AInt (ar_faulting_insn_size m); AInt (ar_faulting_insn_size a)])]
   else differ (ar_faulting_insn m) (ar_faulting_insn a)
     [(if ar_faulting_insn_size m =? 2 then "  faulting insn mismatch %04x vs %04x\n"%string
       else "  faulting insn mismatch %08x vs %08x\n"%string,
       [AInt (ar_faulting_insn m); AInt (ar_faulting_insn a)])]) ++
  differ_each (seq 0 16) (fun i => nth i (ar_gpreg m) 0 =? nth i (ar_gpreg a) 0) (fun i =>
    [("  r%d: %08x vs %08x\n"%string,
      [AInt (Z.of_nat i); AInt (nth i (ar_gpreg m) 0); AInt (nth i (ar_gpreg a) 0)])]) ++
  differ (ar_cpsr m) (ar_cpsr a)
    [("  cpsr: %08x vs %08x\n"%string, [AInt (ar_cpsr m); AInt (ar_cpsr a)])] ++
  differ_each (seq 0 32) (fun i => nth i (ar_fpregs m) 0 =? nth i (ar_fpregs a) 0) (fun i =>
    [("  d%d: %016llx vs %016llx\n"%string,
      [AInt (Z.of_nat i); AInt (nth i (ar_fpregs m) 0); AInt (nth i (ar_fpregs a) 0)])]) ++
  differ (ar_fpscr m) (ar_fpscr a)
    [("  fpscr: %08x vs %08x\n"%string, [AInt (ar_fpscr m); AInt (ar_fpscr a)])].

#[export] Instance arm_cpu : Cpu arm_reginfo arm_ctx Z := {|
  cpu_advance_pc := arm_advance_pc;
  cpu_get_uc_pc := arm_get_uc_pc;
  cpu_set_paramreg := arm_set_ucontext_paramreg;
  cpu_get_paramreg := arm_get_reginfo_paramreg;
  cpu_get_risuop := arm_get_risuop;
  cpu_get_pc := arm_get_pc;
  cpu_init := arm_reginfo_init;
  cpu_is_eq := arm_reginfo_is_eq;
  cpu_dump := arm_reginfo_dump;
  cpu_dump_mismatch := arm_reginfo_dump_mismatch;
  cpu_size := arm_reginfo_size;
  cpu_mem := ac_mem
|}.

(** ** Laws *)

Lemma regspace_inv i u w u' : regspace i u = (inl w, u') -> in_width 32 w /\ u' = u.
Proof.
  unfold regspace. destruct (_ !! _); [| done]. intros E. injection E as <- <-.
  split; [by apply wrap_range | done].
Qed.

Lemma lor_shift_width w n lo hi :
  0 <= w -> 0 <= n -> in_width n lo -> in_width w hi -> in_width (n + w) (Z.lor lo (Z.shiftl hi n)).
Proof.
  intros Hw Hn Hlo Hhi. apply in_width_testbit; [lia | |].
  - apply Z.lor_nonneg. split; [apply Hlo | apply Z.shiftl_nonneg, Hhi].
  - intros i Hi. rewrite Z.lor_spec, Z.shiftl_spec, (testbit_in_width n lo) by (done || lia).
    by rewrite (testbit_in_width w hi) by (done || lia).
Qed.

Lemma vfp_regs_inv n rs u l u' :
  vfp_regs n rs u = (inl l, u') -> length l = n /\ Forall (in_width 64) l /\ u' = u.
Proof.
  revert rs l u'. induction n as [|n IH]; intros rs l u' E.
  - apply ret_inv in E as [<- <-]. by split_and!.
  - cbn [vfp_regs] in E. apply bind_inv in E as (lo & u1 & E1 & E). apply regspace_inv in E1 as [W1 ->].
    apply bind_inv in E as (hi & u2 & E2 & E). apply regspace_inv in E2 as [W2 ->].
    apply bind_inv in E as (l' & u3 & E3 & E). apply IH in E3 as (L & F & ->).
    apply ret_inv in E as [<- <-]. split; [simpl; by rewrite L |]. split; [| done].
    constructor; [| done]. by apply (lor_shift_width 32 32).
Qed.

(** What capturing the floating-point registers may change: a word of
    [uc_regspace]. *)
Definition vfp_only (u u' : arm_ctx) : Prop :=
  exists l, u' = set_ac_regspace l u /\ length l = length (ac_regspace u).

Lemma vfp_only_refl u : vfp_only u u.
Proof. exists (ac_regspace u). by destruct u. Qed.

Lemma read_vfp_inv t rs u v u' :
  read_vfp t rs u = (inl v, u') ->
  length (fst v) = 32%nat /\ Forall (in_width 64) (fst v) /\ in_width 32 (snd v) /\ vfp_only u u'.
Proof.
  intros E. unfold read_vfp in E. apply bind_inv in E as (l & u1 & E1 & E).
  apply vfp_regs_inv in E1 as (L & F & ->). apply bind_inv in E as (w & u2 & E2 & E).
  apply regspace_inv in E2 as [W ->]. apply bind_inv in E as (? & u3 & E3 & E).
  injection E3 as _ <-. apply ret_inv in E as [<- <-]. split; [done |]. split; [done |]. split.
  - cbn [snd]. destruct (negb _); [apply ldiff_in_width; [lia |] |]; apply land_in_width; (done || lia).
  - eexists. split; [done |]. by rewrite length_insert.
Qed.

Lemma init_vfp_inv t fuel rs u v u' :
  init_vfp_loop t fuel rs u = (inl v, u') ->
  length (fst v) = 32%nat /\ Forall (in_width 64) (fst v) /\ in_width 32 (snd v) /\ vfp_only u u'.
Proof.
  revert rs. induction fuel as [|fuel IH]; intros rs E; [done |]. cbn [init_vfp_loop] in E.
  apply bind_inv in E as (magic & u1 & E1 & E). apply regspace_inv in E1 as [_ ->].
  apply bind_inv in E as (size & u2 & E2 & E). apply regspace_inv in E2 as [_ ->].
  destruct (magic =? 0).
  - apply ret_inv in E as [<- <-]. split; [done |].
    split; [by apply Forall_replicate; vm_compute |]. split; [by vm_compute | apply vfp_only_refl].
  - destruct (magic =? VFP_MAGIC); [| by eapply IH].
    destruct (_ <? _); [by eapply IH | by eapply read_vfp_inv].
Qed.

Lemma insnsize_inv u n u' : insnsize u = (inl n, u') -> in_width 32 n /\ u' = u.
Proof.
  intros E. unfold insnsize in E. apply bind_inv in E as (u1 & u2 & E1 & E). injection E1 as <- <-.
  destruct (truth _).
  - apply bind_inv in E as (i & u3 & E3 & E). apply load_inv in E3 as [_ ->].
    apply ret_inv in E as [<- <-]. split; [| done]. by case_if.
  - apply ret_inv in E as [<- <-]. done.
Qed.

(** The second half of the instruction, if it has one. *)
Definition arm_second (n : Z) (u : arm_ctx) : M arm_ctx Z :=
  if negb (n =? 2) then load ac_mem 2 (ac_pc u + 2) else mret 0.

Lemma arm_second_inv n u hi u' : arm_second n u u = (inl hi, u') -> in_width 16 hi /\ u' = u.
Proof.
  unfold arm_second. destruct (negb _); intros E; [by apply (load_inv ac_mem 2) in E |].
  by apply ret_inv in E as [<- <-].
Qed.

Lemma arm_init_eq o im si u r u' :
  arm_reginfo_init o im si u = (inl r, u') ->
  exists lo n hi vfp, load ac_mem 2 (ac_pc u) u = (inl lo, u) /\ insnsize u = (inl n, u) /\
    arm_second n u u = (inl hi, u) /\ reginfo_init_vfp o u = (inl vfp, u') /\
    r = ArmReginfo (fst vfp) (Z.lor lo (Z.shiftl hi 16)) n
      (array 32 16 (take 13 (resize 13 0 (ac_regs u)) ++
         [0xdeadbeef; nth 14 (ac_regs u) 0; ac_pc u - image_start_address im]))
      (Z.land (u32 (ac_cpsr u)) 0xF80F0000) (snd vfp).
Proof.
  intros E. unfold arm_reginfo_init in E. apply bind_inv in E as (u1 & u2 & E1 & E).
  injection E1 as <- <-. unfold id in E. apply bind_inv in E as (lo & u3 & E3 & E).
  pose proof (load_inv ac_mem 2 _ _ _ _ E3) as [_ ->]. apply bind_inv in E as (n & u4 & E4 & E).
  pose proof (insnsize_inv _ _ _ E4) as [_ ->]. apply bind_inv in E as (hi & u5 & E5 & E).
  pose proof (arm_second_inv _ _ _ _ E5) as [_ ->]. apply bind_inv in E as (vfp & u6 & E6 & E).
  apply ret_inv in E as [<- <-]. by exists lo, n, hi, vfp.
Qed.

Lemma arm_init_wf o im si u r u' : arm_reginfo_init o im si u = (inl r, u') -> struct_wf r.
Proof.
  intros E. apply arm_init_eq in E as (lo & n & hi & v & E3 & E4 & E5 & E6 & ->).
  apply (load_inv ac_mem 2) in E3 as [W3 _]. apply insnsize_inv in E4 as [W4 _].
  apply arm_second_inv in E5 as [W5 _]. unfold reginfo_init_vfp in E6.
  apply bind_inv in E6 as (k & u7 & _ & E6). apply init_vfp_inv in E6 as (L & F & W6 & _).
  unfold struct_wf. cbn [members to_members arm_layout].
  repeat (apply Forall2_cons; split); try apply Forall2_nil_2;
    first [apply (member_array 4) | by split | apply member_one; first [exact W4 | exact W6 | idtac]].
  - by apply (lor_shift_width 16 16).
  - apply land_in_width; [lia | by apply wrap_range | lia].
Qed.

Lemma keeps_regspace {X} (f : arm_ctx -> X) i : keeps f (regspace i).
Proof. intros u r u'. unfold regspace. destruct (_ !! _); intros E; by injection E as _ <-. Qed.
#[local] Hint Resolve keeps_regspace : keeps.

Lemma keeps_vfp_regs {X} (f : arm_ctx -> X) n rs : keeps f (vfp_regs n rs).
Proof. revert rs. induction n as [|n IH]; intros rs; cbn [vfp_regs]; eauto 10 with keeps. Qed.
#[local] Hint Resolve keeps_vfp_regs : keeps.

Lemma keeps_init_vfp t fuel rs : keeps ac_regs (init_vfp_loop t fuel rs).
Proof.
  revert rs. induction fuel as [|fuel IH]; intros rs; cbn [init_vfp_loop]; [auto with keeps |].
  apply keeps_bind; [auto with keeps |]. intros magic. apply keeps_bind; [auto with keeps |]. intros size.
  destruct (_ =? 0); [auto with keeps |]. destruct (_ =? _); [| done]. destruct (_ <? _); [done |].
  unfold read_vfp. eauto 10 with keeps.
Qed.
#[local] Hint Resolve keeps_init_vfp : keeps.

Lemma arm_init_keeps o im si : keeps ac_regs (arm_reginfo_init o im si).
Proof. unfold arm_reginfo_init, insnsize, reginfo_init_vfp. eauto 20 with keeps. Qed.

#[export] Instance arm_laws : CpuLaws (R := arm_reginfo) (U := arm_ctx) (O := Z).
Proof.
  refine {| cpu_ctx_wf := fun u => length (ac_regs u) = 15%nat; cpu_wf := struct_wf; cpu_same := eq |}.
  - by intros [].
  - vm_compute. congruence.
  - done.
  - intros r _. split; [apply Nat2Z.is_nonneg | apply Z.le_refl].
  - exact arm_init_wf.
  - intros o im si u r u' W E. by rewrite (arm_init_keeps o im si u r u' E).
  - done.
  - intros m r ->. by apply bool_decide_eq_true.
  - intros u W. cbn. unfold arm_advance_pc. by destruct (insnsize u) as [[n|h] u'].
  - intros v u W. simpl. by rewrite length_insert.
Defined.

#[export] Instance arm_report : CpuReport (R := arm_reginfo) (U := arm_ctx) (O := Z).
Proof.
  refine {| cpu_heading := arm_heading |}. intros m a Wm Wa.
  cbn [cpu_dump_mismatch cpu_is_eq arm_cpu]. unfold arm_reginfo_is_eq, arm_reginfo_dump_mismatch.
  pose proof (struct_lengths m Wm) as Lm. pose proof (struct_lengths a Wa) as La.
  cbn in Lm, La. injection Lm as Lf Lg. injection La as Lf' Lg'.
  rewrite bool_decide_eq_true. rewrite <-(app_nil_r arm_heading) at 2. rewrite app_inv_head_iff.
  rewrite !app_nil_iff, !differ_each_nil, !array_eq, !differ_nil by done.
  destruct (Z.eqb_spec (ar_faulting_insn_size m) (ar_faulting_insn_size a)) as [Es|Es]; cbn [negb].
  - rewrite differ_nil by done. destruct m, a; simpl in *. intuition congruence.
  - split; [by intros [? _] | congruence].
Defined.

(** ** What decides the verdict *)

(** The instruction, r0 to r12 and the link register, where the instruction is in
    the image, the flags and the other bits of the status register that the mask
    keeps, and the floating-point registers; not the stack pointer. *)
Definition arm_agree (t t' : Z) (im im' : image) (u v : arm_ctx) : Prop :=
  fst (insnsize u) = fst (insnsize v) /\
  fst (load ac_mem 2 (ac_pc u) u) = fst (load ac_mem 2 (ac_pc v) v) /\
  (fst (insnsize u) <> inl 2 ->
   fst (load ac_mem 2 (ac_pc u + 2) u) = fst (load ac_mem 2 (ac_pc v + 2) v)) /\
  same_at 32 (seq 0 13 ++ [14%nat]) (ac_regs u) (ac_regs v) /\
  u32 (ac_pc u - image_start_address im) = u32 (ac_pc v - image_start_address im') /\
  Z.land (u32 (ac_cpsr u)) 0xF80F0000 = Z.land (u32 (ac_cpsr v)) 0xF80F0000 /\
  fst (reginfo_init_vfp t u) = fst (reginfo_init_vfp t' v).

(** The halves of a word are determined by it. *)
Lemma halves_inj lo lo' hi hi' :
  in_width 16 lo -> in_width 16 lo' ->
  Z.lor lo (Z.shiftl hi 16) = Z.lor lo' (Z.shiftl hi' 16) <-> lo = lo' /\ hi = hi'.
Proof.
  intros W W'. split; [| by intros [-> ->]]. intros E.
  assert (forall lo hi i, in_width 16 lo -> 0 <= i ->
    Z.testbit (Z.lor lo (Z.shiftl hi 16)) (i + 16) = Z.testbit hi i) as T.
  { intros l h i Wl Hi. rewrite Z.lor_spec, Z.shiftl_spec, (testbit_in_width 16 l) by (done || lia).
    simpl. f_equal. lia. }
  assert (hi = hi') as <-.
  { apply Z.bits_inj'. intros i Hi. by rewrite <-(T lo hi i), E, (T lo' hi' i). }
  split; [| done]. apply Z.bits_inj'. intros i Hi. destruct (Z.lt_ge_cases i 16) as [Hl|Hl].
  - apply (f_equal (fun z => Z.testbit z i)) in E.
    rewrite !Z.lor_spec, !Z.shiftl_spec_low, !orb_false_r in E by lia. exact E.
  - by rewrite !(testbit_in_width 16) by (done || lia).
Qed.

(** The general registers that are captured. *)
Lemma arm_gpreg_same (l l' : list Z) x pc pc' :
  array 32 16 (take 13 (resize 13 0 l) ++ [x; nth 14 l 0; pc]) =
  array 32 16 (take 13 (resize 13 0 l') ++ [x; nth 14 l' 0; pc']) <->
  same_at 32 (seq 0 13 ++ [14%nat]) l l' /\ u32 pc = u32 pc'.
Proof.
  assert (forall (l : list Z) y i, (i < 13)%nat -> nth i (take 13 (resize 13 0 l) ++ y) 0 = nth i l 0) as N.
  { intros k y i Hi. rewrite app_nth1 by (rewrite length_take, length_resize; lia).
    rewrite nth_lookup, lookup_take_lt by lia. rewrite (nth_lookup k).
    destruct (decide (i < length k)%nat); [by rewrite lookup_resize by lia |].
    rewrite lookup_resize_new by lia. by rewrite lookup_ge_None_2 by lia. }
  rewrite array_same. unfold same_at. change (seq 0 16) with (seq 0 13 ++ [13; 14; 15]%nat).
  rewrite !Forall_app, !Forall_cons, !Forall_nil.
  assert (Forall (fun i => wrap 32 (nth i (take 13 (resize 13 0 l) ++ [x; nth 14 l 0; pc]) 0) =
    wrap 32 (nth i (take 13 (resize 13 0 l') ++ [x; nth 14 l' 0; pc']) 0)) (seq 0 13) <->
    Forall (fun i => wrap 32 (nth i l 0) = wrap 32 (nth i l' 0)) (seq 0 13)) as ->.
  { rewrite !Forall_forall. split; intros K i Hi; specialize (K i Hi); apply elem_of_seq in Hi;
      [by rewrite !N in K by lia | by rewrite !N by lia]. }
  rewrite !(app_nth2 (take 13 _)) by (rewrite length_take, length_resize; cbv; lia).
  rewrite !length_take, !length_resize. cbn. tauto.
Qed.

Lemma arm_reginfo_inj f i n g c s f' i' n' g' c' s' :
  ArmReginfo f i n g c s = ArmReginfo f' i' n' g' c' s' <->
  f = f' /\ i = i' /\ n = n' /\ g = g' /\ c = c' /\ s = s'.
Proof. split; [by intros [= -> -> -> -> -> ->] | by intros (-> & -> & -> & -> & -> & ->)]. Qed.

Lemma arm_verdict t t' im im' si si' u v m a u' v' :
  arm_reginfo_init t im si u = (inl m, u') -> arm_reginfo_init t' im' si' v = (inl a, v') ->
  arm_reginfo_is_eq m a = true <-> arm_agree t t' im im' u v.
Proof.
  intros Em Ea. apply arm_init_eq in Em as (lo & n & hi & f & L & N & S & V & ->).
  apply arm_init_eq in Ea as (lo' & n' & hi' & f' & L' & N' & S' & V' & ->).
  pose proof (load_inv _ _ _ _ _ _ L) as [W _]. pose proof (load_inv _ _ _ _ _ _ L') as [W' _].
  unfold arm_reginfo_is_eq, arm_agree. rewrite bool_decide_eq_true, L, L', N, N', V, V'. cbn [fst].
  rewrite !(inj_iff inl). unfold arm_second in S, S'.
  assert (n = n' -> hi = hi' <-> (n <> 2 ->
    fst (load ac_mem 2 (ac_pc u + 2) u) = fst (load ac_mem 2 (ac_pc v + 2) v))) as K.
  { intros <-. destruct (Z.eqb_spec n 2) as [->|Hn]; cbn [negb] in S, S'.
    - apply ret_inv in S as [<- _], S' as [<- _]. by split.
    - rewrite S, S'. cbn [fst]. split; [by intros -> |]. intros E. specialize (E Hn). congruence. }
  destruct f as [f s], f' as [f' s']. cbn [fst snd].
  rewrite arm_reginfo_inj, halves_inj, arm_gpreg_same, pair_equal_spec by done. tauto.
Qed.
End arm.

(** ** The search for the floating-point registers *)

(** A block of [uc_regspace]: a magic number, its size in bytes, its data. *)
Definition block (magic : Z) (data : list Z) : list Z :=
  magic :: 4 * (2 + Z.of_nat (length data)) :: data.

(** A block that is passed over. *)
Definition passed_over (b : Z * list Z) : Prop :=
  fst b <> 0 /\ in_width 32 (fst b) /\ 4 * (2 + Z.of_nat (length (snd b))) < 2 ^ 32 /\
  (fst b = VFP_MAGIC -> (length (snd b) < 65)%nat).

Definition blocks (bs : list (Z * list Z)) : list Z :=
  concat ((fun b => block (fst b) (snd b)) <$> bs).

(** The registers in a block, two words each. *)
Fixpoint pairs (n : nat) (l : list Z) : list Z :=
  match n, l with
  | S n', lo :: hi :: t => Z.lor lo (Z.shiftl hi 32) :: pairs n' t
  | _, _ => []
  end.

Section search.
Context `{Build}.

Lemma regspace_ok i w u : ac_regspace u !! i = Some w -> in_width 32 w -> regspace i u = (inl w, u).
Proof. intros E W. unfold regspace. by rewrite E, wrap_small. Qed.

Lemma vfp_regs_ok n u pre l post :
  ac_regspace u = pre ++ l ++ post -> length l = (2 * n)%nat -> Forall (in_width 32) l ->
  vfp_regs n (length pre) u = (inl (pairs n l), u).
Proof.
  revert pre l. induction n as [|n IH]; intros pre l E L F; [done |].
  destruct l as [|lo [|hi l]]; [done | simpl in L; lia |].
  inversion F as [|? ? F1 F']; subst. inversion F' as [|? ? F2 F3]; subst. cbn [vfp_regs].
  rewrite (bind_done _ _ _ _ _ (regspace_ok (length pre) lo u ltac:(by rewrite E; apply list_lookup_middle) F1)).
  rewrite (bind_done _ _ _ _ _ (regspace_ok (S (length pre)) hi u
    ltac:(rewrite E; change (pre ++ (lo :: hi :: l) ++ post) with (pre ++ [lo] ++ hi :: l ++ post);
          rewrite app_assoc; apply list_lookup_middle; rewrite length_app; simpl; lia) F2)).
  replace (S (S (length pre))) with (length (pre ++ [lo; hi])) by (rewrite length_app; simpl; lia).
  rewrite (bind_done _ _ _ _ _ (IH (pre ++ [lo; hi]) l ltac:(by rewrite <-app_assoc) ltac:(simpl in L; lia) F3)).
  done.
Qed.

(** The loop at the start of a block. *)
Lemma init_vfp_block t fuel u pre magic data post :
  ac_regspace u = pre ++ block magic data ++ post -> in_width 32 magic ->
  4 * (2 + Z.of_nat (length data)) < 2 ^ 32 ->
  init_vfp_loop t (S fuel) (length pre) u =
  (if magic =? 0 then mret (replicate 32 0, 0)
   else if magic =? VFP_MAGIC then
     if (length data <? 65)%nat
     then init_vfp_loop t fuel (length (pre ++ block magic data))
     else read_vfp t (length (pre ++ [magic; 4 * (2 + Z.of_nat (length data))]))
   else init_vfp_loop t fuel (length (pre ++ block magic data))) u.
Proof.
  intros E Wm Hs. cbn [init_vfp_loop].
  rewrite (bind_done _ _ _ _ _ (regspace_ok (length pre) magic u
    ltac:(by rewrite E; apply list_lookup_middle) Wm)).
  rewrite (bind_done _ _ _ _ _ (regspace_ok (S (length pre)) (4 * (2 + Z.of_nat (length data))) u
    ltac:(rewrite E; change (pre ++ block magic data ++ post) with
            (pre ++ [magic] ++ 4 * (2 + Z.of_nat (length data)) :: data ++ post);
          rewrite app_assoc; apply list_lookup_middle; rewrite length_app; simpl; lia)
    ltac:(split; lia))).
  rewrite (wrap_small 32) by (split; lia).
  replace (4 * (2 + Z.of_nat (length data)) - 8) with (4 * Z.of_nat (length data)) by lia.
  replace (4 * Z.of_nat (length data) / 4) with (Z.of_nat (length data))
    by (rewrite Z.mul_comm, Z.div_mul; lia).
  rewrite Nat2Z.id.
  replace (S (S (length pre)) + length data)%nat with (length (pre ++ block magic data))
    by (rewrite length_app; simpl; lia).
  replace (length (pre ++ [magic; 4 * (2 + Z.of_nat (length data))])) with (S (S (length pre)))
    by (rewrite length_app; simpl; lia).
  destruct (magic =? 0); [done |]. destruct (magic =? VFP_MAGIC); [| done].
  destruct (Z.ltb_spec (4 * Z.of_nat (length data)) ((32 * 2 + 1) * 4)),
    (Nat.ltb_spec (length data) 65); try lia; done.
Qed.

Lemma init_vfp_skip t bs fuel u pre rest :
  ac_regspace u = pre ++ blocks bs ++ rest -> Forall passed_over bs -> (length bs <= fuel)%nat ->
  init_vfp_loop t fuel (length pre) u =
  init_vfp_loop t (fuel - length bs) (length (pre ++ blocks bs)) u.
Proof.
  intros E F. revert pre fuel E. induction F as [|[magic data] bs (H1 & H2 & H3 & H4) F IH];
    intros pre fuel E Hf.
  - by rewrite app_nil_r, Nat.sub_0_r.
  - destruct fuel as [|fuel]; [simpl in Hf; lia |]. unfold blocks in E. cbn in E, H1, H2, H3, H4.
    rewrite <-app_assoc in E. rewrite (init_vfp_block t fuel u pre magic data _ E) by done.
    destruct (Z.eqb_spec magic 0); [done |].
    assert (init_vfp_loop t fuel (length (pre ++ block magic data)) u =
      init_vfp_loop t (S fuel - length ((magic, data) :: bs)) (length (pre ++ blocks ((magic, data) :: bs))) u)
      as K.
    { rewrite (IH (pre ++ block magic data) fuel) by (try (simpl in Hf; lia); by rewrite <-app_assoc).
      unfold blocks. cbn [fmap list_fmap concat fst snd]. by rewrite <-!app_assoc. }
    destruct (Z.eqb_spec magic VFP_MAGIC) as [Em|_]; [| exact K].
    specialize (H4 Em). destruct (Nat.ltb_spec (length data) 65); [exact K | lia].
Qed.

Lemma blocks_length bs : (length bs <= length (blocks bs))%nat.
Proof.
  induction bs as [|b bs IH]; [done |].
  change (blocks (b :: bs)) with (block (fst b) (snd b) ++ blocks bs). rewrite length_app. simpl. lia.
Qed.
(** A complete block behind others. *)
Lemma vfp_found t u bs (regs : list Z) fpscr rest tail :
  Forall passed_over bs -> Forall (in_width 32) regs -> length regs = 64%nat -> in_width 32 fpscr ->
  4 * (67 + Z.of_nat (length rest)) < 2 ^ 32 ->
  ac_regspace u = blocks bs ++ block VFP_MAGIC (regs ++ fpscr :: rest) ++ tail ->
  reginfo_init_vfp t u =
    (inl (pairs 32 regs,
          if truth t then Z.land fpscr 0xffff9f9f else andnot (Z.land fpscr 0xffff9f9f) 0x9f),
     set_ac_regspace
       (blocks bs ++ block VFP_MAGIC (regs ++ andnot fpscr 0x9f :: rest) ++ tail) u).
Proof.
  intros Hbs Hr Lr Wf Hs E. unfold reginfo_init_vfp. rewrite (bind_done (gets _) _ u (length (ac_regspace u)) u) by done.
  pose proof (blocks_length bs) as Lb. rewrite (init_vfp_skip t bs _ u [] _ E Hbs)
    by (rewrite E, length_app; lia).
  assert (length bs <= length (ac_regspace u))%nat by (rewrite E, length_app; lia).
  replace (S (length (ac_regspace u)) - length bs)%nat with (S (length (ac_regspace u) - length bs)) by lia.
  cbn [app]. set (data := regs ++ fpscr :: rest) in *.
  assert (length data = (65 + length rest)%nat) as Ld by (unfold data; rewrite length_app, Lr; simpl; lia).
  rewrite (init_vfp_block t _ u (blocks bs) VFP_MAGIC data tail E);
    [| split; [done | reflexivity] | rewrite Ld; lia].
  change (VFP_MAGIC =? 0) with false. rewrite Z.eqb_refl.
  destruct (Nat.ltb_spec (length data) 65); [lia |].
  set (pre := blocks bs ++ [VFP_MAGIC; 4 * (2 + Z.of_nat (length data))]).
  assert (ac_regspace u = pre ++ regs ++ fpscr :: rest ++ tail) as E2.
  { rewrite E. unfold pre, block. rewrite <-!app_assoc. cbn [app]. do 3 f_equal. unfold data.
    by rewrite <-app_assoc. }
  unfold read_vfp. rewrite (bind_done _ _ _ _ _ (vfp_regs_ok 32 u pre regs _ E2 Lr Hr)).
  replace (length pre + 64)%nat with (length (pre ++ regs)) by (rewrite length_app, Lr; done).
  assert (ac_regspace u !! length (pre ++ regs) = Some fpscr) as Lf.
  { rewrite E2, app_assoc. by apply list_lookup_middle. }
  rewrite (bind_done _ _ _ _ _ (regspace_ok _ _ u Lf Wf)). unfold mbind, M_bind, modify, mret, M_ret.
  assert (<[length (pre ++ regs) := andnot fpscr 0x9f]> (ac_regspace u) =
    blocks bs ++ block VFP_MAGIC (regs ++ andnot fpscr 0x9f :: rest) ++ tail) as ->.
  { rewrite E2, app_assoc, insert_app_r_alt, Nat.sub_diag by done. cbn [insert list_insert].
    unfold pre, block. rewrite <-!app_assoc. cbn [app]. do 3 f_equal; [| by rewrite <-app_assoc].
    unfold data. by rewrite !length_app. }
  by destruct (truth t).
Qed.

(** The end of the list behind others. *)
Lemma vfp_absent t u bs size tail :
  Forall passed_over bs -> in_width 32 size -> ac_regspace u = blocks bs ++ 0 :: size :: tail ->
  reginfo_init_vfp t u = (inl (replicate 32 0, 0), u).
Proof.
  intros Hbs Ws E. unfold reginfo_init_vfp.
  rewrite (bind_done (gets _) _ u (length (ac_regspace u)) u) by done.
  pose proof (blocks_length bs) as Lb. rewrite (init_vfp_skip t bs _ u [] _ E Hbs)
    by (rewrite E, length_app; lia).
  assert (length bs <= length (ac_regspace u))%nat by (rewrite E, length_app; lia).
  replace (S (length (ac_regspace u)) - length bs)%nat with (S (length (ac_regspace u) - length bs)) by lia.
  cbn [app init_vfp_loop].
  rewrite (bind_done _ _ _ _ _ (regspace_ok (length (blocks bs)) 0 u
    ltac:(by rewrite E; apply list_lookup_middle) ltac:(by vm_compute))).
  rewrite (bind_done _ _ _ _ _ (regspace_ok (S (length (blocks bs))) size u
    ltac:(rewrite E; change (blocks bs ++ 0 :: size :: tail) with (blocks bs ++ [0] ++ size :: tail);
          rewrite app_assoc; apply list_lookup_middle; rewrite length_app; simpl; lia) Ws)).
  done.
Qed.
End search.

(** ** Properties *)

Section properties.
Context `{Build}.

(** C23: [reginfo_init_vfp] finds the floating-point registers wherever they are.
    Blocks of other kinds and incomplete ones are passed over; of the first
    complete VFP block the 32 registers are taken, and [fpscr] without the bits
    that are not to be compared; the cumulative exception bits are cleared in
    the context and nothing else is.  If the list ends without such a block the
    registers are zero.  The search ends and stays inside [uc_regspace]. *)
Theorem vfp_search t u bs (regs : list Z) fpscr rest :
  Forall passed_over bs -> Forall (in_width 32) regs -> length regs = 64%nat -> in_width 32 fpscr ->
  4 * (67 + Z.of_nat (length rest)) < 2 ^ 32 ->
  (forall tail, ac_regspace u = blocks bs ++ block VFP_MAGIC (regs ++ fpscr :: rest) ++ tail ->
     reginfo_init_vfp t u =
       (inl (pairs 32 regs,
             if truth t then Z.land fpscr 0xffff9f9f else andnot (Z.land fpscr 0xffff9f9f) 0x9f),
        set_ac_regspace
          (blocks bs ++ block VFP_MAGIC (regs ++ andnot fpscr 0x9f :: rest) ++ tail) u)) /\
  (forall size tail, in_width 32 size -> ac_regspace u = blocks bs ++ 0 :: size :: tail ->
     reginfo_init_vfp t u = (inl (replicate 32 0, 0), u)).
Proof.
  intros Hbs Hr Lr Wf Hs. split; [intros tail; by apply vfp_found | intros size tail; by apply vfp_absent].
Qed.
End properties.

Lemma vfp_search_witness :
  let _ : Build := {| bswap_builtins := true; host_le := true; def_LITTLE_ENDIAN := true |} in
  let regs := replicate 64 1 in
  let u := ArmCtx [] 0 0 (blocks [(0x12ef842a, [7; 8])] ++ block VFP_MAGIC (regs ++ [0x9f]) ++ [0; 0]) ∅ in
  fst (reginfo_init_vfp 1 u) = inl (replicate 32 0x100000001, 0x9f).
Proof.
  intros HB regs u.
  destruct (vfp_search 1 u [(0x12ef842a, [7; 8])] regs 0x9f []) as [K _].
  - repeat constructor; vm_compute; congruence.
  - apply Forall_replicate. vm_compute. split; congruence.
  - reflexivity.
  - vm_compute. split; congruence.
  - simpl. lia.
  - rewrite (K [0; 0] eq_refl). vm_compute. reflexivity.
Defined.
