(* ===== verification/LoongArch.v ===== *)
(** * LoongArch (risu_loongarch64.c, risu_reginfo_loongarch64.c and .h)

    The register file, how it is captured, compared and reported.  The
    floating-point and vector registers are in a chain of tagged blocks behind
    the context, of which the widest is taken. *)

From stdpp Require Import gmap.
From S2P Require Import Prelude Endian Comms Arch Cpu.

(** [struct reginfo], with the four bytes of padding that [memcmp] compares
    too. *)
Record loong_reginfo : Type := LoongReginfo {
  lr_regs : list Z;
  lr_pc : Z;
  lr_fcc : Z;
  lr_flags : Z;
  lr_fcsr : Z;
  lr_faulting_insn : Z;
  lr_padding : Z;
  lr_vregs : list Z;
  lr_vl : Z
}.

#[export] Instance loong_reginfo_eq_dec : EqDecision loong_reginfo.
Proof. solve_decision. Defined.

(** The context of a signal, and the memory; [lc_ext] is the address of
    [sc_extcontext]. *)
Record loong_ctx : Type := LoongCtx {
  lc_regs : list Z;
  lc_pc : Z;
  lc_flags : Z;
  lc_ext : Z;
  lc_mem : gmap Z Z
}.

#[export] Instance loong_layout : Layout loong_reginfo := {|
  members := [(8, 32); (8, 1); (8, 1); (4, 1); (4, 1); (4, 1); (4, 1); (8, 128); (8, 1)]%nat;
  to_members r := [lr_regs r; [lr_pc r]; [lr_fcc r]; [lr_flags r]; [lr_fcsr r];
                   [lr_faulting_insn r]; [lr_padding r]; lr_vregs r; [lr_vl r]];
  of_members vss :=
    let one i := nth 0 (nth i vss []) 0 in
    LoongReginfo (nth 0 vss []) (one 1%nat) (one 2%nat) (one 3%nat) (one 4%nat) (one 5%nat)
      (one 6%nat) (nth 7 vss []) (one 8%nat)
|}.

(** ** risu_loongarch64.c *)

Definition loong_advance_pc (u : loong_ctx) : loong_ctx :=
  LoongCtx (lc_regs u) (u64 (lc_pc u + 4)) (lc_flags u) (lc_ext u) (lc_mem u).

Definition loong_get_uc_pc (u : loong_ctx) (siaddr : Z) : Z := lc_pc u.

Definition loong_set_ucontext_paramreg (value : Z) (u : loong_ctx) : loong_ctx :=
  LoongCtx (<[4%nat := u64 value]> (lc_regs u)) (lc_pc u) (lc_flags u) (lc_ext u) (lc_mem u).

Definition loong_get_reginfo_paramreg (ri : loong_reginfo) : Z := nth 4 (lr_regs ri) 0.

Definition loong_get_risuop (ri : loong_reginfo) : RisuOp :=
  let insn := lr_faulting_insn ri in
  let op := Z.land insn 0xf in
  let key := andnot insn 0xf in
  if negb (key =? 0x000001f0) then OP_SIGILL else RisuOp_of_Z op.

Definition loong_get_pc (ri : loong_reginfo) : Z := lr_pc ri.

(** ** risu_reginfo_loongarch64.c *)

Definition loong_reginfo_size (ri : loong_reginfo) : Z :=
  Z.of_nat (struct_sizeof (R := loong_reginfo)).

(** The kinds of blocks, as the kernel's <asm/sigcontext.h> declares them:
    [struct fpu_context], [struct lsx_context] and [struct lasx_context] are an
    array [regs] of 64-bit integers, [fcc] of 64 bits and [fcsr] of 32. *)
Inductive ext_kind : Type := FPU | LSX | LASX.

#[export] Instance ext_kind_eq_dec : EqDecision ext_kind.
Proof. solve_decision. Defined.

Definition FPU_CTX_MAGIC : Z := 0x46505501.
Definition LSX_CTX_MAGIC : Z := 0x53580001.
Definition LASX_CTX_MAGIC : Z := 0x41535801.

(** The length of [regs]. *)
Definition nregs (k : ext_kind) : nat :=
  match k with FPU => 32 | LSX => 2 * 32 | LASX => 4 * 32 end.

Definition sizeof_sctx_info : Z := 16.
Definition sizeof_ctx (k : ext_kind) : Z := 8 * Z.of_nat (nregs k) + 16.

(** The addresses of [struct extctx_layout], null pointers being [None]. *)
Record extctx_layout : Type := ExtCtx { fpu : option Z; lsx : option Z; lasx : option Z }.

Definition set_ext (k : ext_kind) (p : Z) (x : extctx_layout) : extctx_layout :=
  match k with
  | FPU => ExtCtx (Some p) (lsx x) (lasx x)
  | LSX => ExtCtx (fpu x) (Some p) (lasx x)
  | LASX => ExtCtx (fpu x) (lsx x) (Some p)
  end.

Definition ext_of_magic (magic : Z) : option ext_kind :=
  if magic =? FPU_CTX_MAGIC then Some FPU
  else if magic =? LSX_CTX_MAGIC then Some LSX
  else if magic =? LASX_CTX_MAGIC then Some LASX
  else None.

Section loongarch.
Context `{Build}.

(** [parse_extcontext] at the block [info]: the returned value and [*extctx].
    [fuel] bounds the number of blocks; their addresses differ. *)
Fixpoint parse_loop (fuel : nat) (info : Z) (x : extctx_layout)
    : M loong_ctx (Z * extctx_layout) :=
  match fuel with
  | O => stop HFuel
  | S fuel' =>
      magic ← load lc_mem 4 info;
      size ← load lc_mem 4 (info + 4);
      if magic =? 0 then mret (0, x)
      else
        match ext_of_magic magic with
        | Some k =>
            if size <? sizeof_sctx_info + sizeof_ctx k then mret (-1, x)
            else parse_loop fuel' (info + size) (set_ext k info x)
        | None => mret (-1, x)
        end
  end.

Definition parse_extcontext (x : extctx_layout) : M loong_ctx (Z * extctx_layout) :=
  u ← gets id;
  parse_loop (S (size (lc_mem u))) (lc_ext u) x.

(** [regs[i]] of the context of kind [k] at [p]; the array must not be indexed
    beyond its end. *)
Definition ctx_reg (k : ext_kind) (p : Z) (i : nat) : M loong_ctx Z :=
  if (i <? nregs k)%nat then load lc_mem 8 (p + 8 * Z.of_nat i) else stop HUB.

Definition ctx_fcc (k : ext_kind) (p : Z) : M loong_ctx Z :=
  load lc_mem 8 (p + 8 * Z.of_nat (nregs k)).
Definition ctx_fcsr (k : ext_kind) (p : Z) : M loong_ctx Z :=
  load lc_mem 4 (p + 8 * Z.of_nat (nregs k) + 8).

(** The four elements of [vregs] that an iteration of the loop for [k] sets. *)
Definition vreg_of (k : ext_kind) (p : Z) (i : nat) : M loong_ctx (list Z) :=
  match k with
  | LASX =>
      a ← ctx_reg k p (4 * i); b ← ctx_reg k p (4 * i + 1);
      c ← ctx_reg k p (4 * i + 2); d ← ctx_reg k p (4 * i + 3);
      mret [a; b; c; d]
  | LSX =>
      a ← ctx_reg k p (4 * i + 1); b ← ctx_reg k p (4 * i + 1);
      mret [a; b; 0; 0]
  | FPU => a ← ctx_reg k p (4 * i); mret [a; 0; 0; 0]
  end.

Fixpoint vregs_loop (k : ext_kind) (p : Z) (ix : list nat) : M loong_ctx (list Z) :=
  match ix with
  | [] => mret []
  | i :: ix' => v ← vreg_of k p i; l ← vregs_loop k p ix'; mret (v ++ l)
  end.

Definition vl_of (k : ext_kind) : Z := match k with FPU => 64 | LSX => 128 | LASX => 256 end.

(** [vregs], [fcsr], [fcc] and [vl]. *)
Definition vector_state (k : ext_kind) (info : Z) : M loong_ctx (list Z * Z * Z * Z) :=
  let p := info + sizeof_sctx_info in
  l ← vregs_loop k p (seq 0 32);
  fcsr ← ctx_fcsr k p;
  fcc ← ctx_fcc k p;
  mret (l, fcsr, fcc, vl_of k).

Definition widest (x : extctx_layout) : option (ext_kind * Z) :=
  match lasx x with
  | Some p => Some (LASX, p)
  | None =>
      match lsx x with
      | Some p => Some (LSX, p)
      | None => match fpu x with Some p => Some (FPU, p) | None => None end
      end
  end.

Definition loong_reginfo_init (o : ()) (im : image) (siaddr : Z) : M loong_ctx loong_reginfo :=
  u ← gets id;
  insn ← load lc_mem 4 (lc_pc u);
  x ← parse_extcontext (ExtCtx None None None);
  v ← match widest (snd x) with
      | Some (k, info) => vector_state k info
      | None => mret (replicate 128 0, 0, 0, 0)
      end;
  let '(vregs, fcsr, fcc, vl) := v in
  mret (LoongReginfo
    (array 64 32 (<[2%nat := 0xdeadbeefdeadbeef]> (<[0%nat := 0]> (resize 32 0 (lc_regs u)))))
    (u64 (lc_pc u - image_start_address im)) fcc (u32 (lc_flags u)) fcsr insn 0 vregs vl).

(** [memcmp] of the whole structures. *)
Definition loong_reginfo_is_eq (r1 r2 : loong_reginfo) : bool := bool_decide (r1 = r2).

Definition vreg (ri : loong_reginfo) (i : nat) : Z := nth i (lr_vregs ri) 0.

(** The words of vector register [i] from the highest of the [n] in use down. *)
Definition vreg_args (ri : loong_reginfo) (n i : nat) : list arg :=
  map (fun j => AInt (vreg ri (4 * i + j))) (rev (seq 0 n)).

Definition loong_reginfo_dump (ri : loong_reginfo) : text :=
  [("  faulting insn %08x\n"%string, [AInt (lr_faulting_insn ri)])] ++
  map (fun i => ("  r%-2d    : %016lx\n"%string, [AInt (Z.of_nat i); AInt (nth i (lr_regs ri) 0)]))
    (seq 0 32) ++
  [("  pc     : %016lx\n", [AInt (lr_pc ri)]);
   ("  flags  : %08x\n", [AInt (lr_flags ri)]);
   ("  fcc    : %016lx\n", [AInt (lr_fcc ri)]);
   ("  fcsr   : %08x\n", [AInt (lr_fcsr ri)]);
   ("  vl     : %016lx\n", [AInt (lr_vl ri)])]%string ++
  (if lr_vl ri =? 256 then
     map (fun i => ("  vreg%-2d    : {%016lx, %016lx, %016lx, %016lx}\n"%string,
       AInt (Z.of_nat i) :: vreg_args ri 4 i)) (seq 0 32)
   else if lr_vl ri =? 128 then
     map (fun i => ("  vreg%-2d    : {%016lx, %016lx}\n"%string,
       AInt (Z.of_nat i) :: vreg_args ri 2 i)) (seq 0 32)
   else if lr_vl ri =? 64 then
     map (fun i => ("  vreg%-2d    : %016lx\n"%string,
       AInt (Z.of_nat i) :: vreg_args ri 1 i)) (seq 0 32)
   else []).

Definition loong_heading : text := [("mismatch detail (master : apprentice):\n"%string, [])].

(** Words 0 to [n - 1] of vector register [i] agree. *)
Definition vreg_eq (m a : loong_reginfo) (n i : nat) : bool :=
  forallb (fun j => vreg m (4 * i + j) =? vreg a (4 * i + j)) (rev (seq 0 n)).

(** The line for 128-bit registers prints the master's low word for both. *)
Definition loong_vreg_mismatch (m a : loong_reginfo) : text :=
  if lr_vl m =? 256 then
    differ_each (seq 0 32) (vreg_eq m a 4) (fun i =>
      [("  vreg%-2d    : {%016lx, %016lx, %016lx, %016lx} vs {%016lx, %016lx, %016lx, %016lx}\n"%string,
        AInt (Z.of_nat i) :: vreg_args m 4 i ++ vreg_args a 4 i)])
  else if lr_vl m =? 128 then
    differ_each (seq 0 32) (vreg_eq m a 2) (fun i =>
      [("  vreg%-2d    : {%016lx, %016lx} vs {%016lx, %016lx}\n"%string,
        AInt (Z.of_nat i) :: vreg_args m 2 i ++
          [AInt (vreg a (4 * i + 1)); AInt (vreg m (4 * i))])])
  else if lr_vl m =? 64 then
    differ_each (seq 0 32) (vreg_eq m a 1) (fun i =>
      [("  vreg%-2d  : %016lx vs %016lx\n"%string,
        AInt (Z.of_nat i) :: vreg_args m 1 i ++ vreg_args a 1 i)])
  else [].

Definition loong_reginfo_dump_mismatch (m a : loong_reginfo) : text :=
  loong_heading ++
  differ (lr_vl m) (lr_vl a)
    [("  vl mismatch %08lx vs %08lx\n"%string, [AInt (lr_vl m); AInt (lr_vl a)])] ++
  differ (lr_faulting_insn m) (lr_faulting_insn a)
    [("  faulting insn mismatch %08x vs %08x\n"%string,
      [AInt (lr_faulting_insn m); AInt (lr_faulting_insn a)])] ++
  differ_each (seq 0 32) (fun i => nth i (lr_regs m) 0 =? nth i (lr_regs a) 0) (fun i =>
    [("  r%-2d    : %016lx vs %016lx\n"%string,
      [AInt (Z.of_nat i); AInt (nth i (lr_regs m) 0); AInt (nth i (lr_regs a) 0)])]) ++
  differ (lr_pc m) (lr_pc a)
    [("  pc     : %016lx vs %016lx\n"%string, [AInt (lr_pc m); AInt (lr_pc a)])] ++
  differ (lr_flags m) (lr_flags a)
    [("  flags  : %08x vs %08x\n"%string, [AInt (lr_flags m); AInt (lr_flags a)])] ++
  differ (lr_fcc m) (lr_fcc a)
    [("  fcc    : %016lx vs %016lx\n"%string, [AInt (lr_fcc m); AInt (lr_fcc a)])] ++
  differ (lr_fcsr m) (lr_fcsr a)
    [("  fcsr   : %08x vs %08x\n"%string, [AInt (lr_fcsr m); AInt (lr_fcsr a)])] ++
  loong_vreg_mismatch m a.

#[export] Instance loong_cpu : Cpu loong_reginfo loong_ctx () := {|
  cpu_advance_pc := loong_advance_pc;
  cpu_get_uc_pc := loong_get_uc_pc;
  cpu_set_paramreg := loong_set_ucontext_paramreg;
  cpu_get_paramreg := loong_get_reginfo_paramreg;
  cpu_get_risuop := loong_get_risuop;
  cpu_get_pc := loong_get_pc;
  cpu_init := loong_reginfo_init;
  cpu_is_eq := loong_reginfo_is_eq;
  cpu_dump := loong_reginfo_dump;
  cpu_dump_mismatch := loong_reginfo_dump_mismatch;
  cpu_size := loong_reginfo_size;
  cpu_mem := lc_mem
|}.

(** ** Laws *)

(** No computation here changes the context. *)
Lemma parse_keeps fuel info x : keeps id (parse_loop fuel info x).
Proof. revert info x. induction fuel as [|fuel IH]; intros; cbn [parse_loop]; eauto 20 with keeps. Qed.

Lemma ctx_reg_keeps k p i : keeps id (ctx_reg k p i).
Proof. unfold ctx_reg. eauto with keeps. Qed.
#[local] Hint Resolve parse_keeps ctx_reg_keeps : keeps.

Lemma vregs_keeps k p ix : keeps id (vregs_loop k p ix).
Proof.
  induction ix as [|i ix IH]; cbn [vregs_loop]; [auto with keeps |].
  apply keeps_bind; [unfold vreg_of; eauto 20 with keeps | eauto 10 with keeps].
Qed.
#[local] Hint Resolve vregs_keeps : keeps.

Lemma loong_init_keeps o im si : keeps id (loong_reginfo_init o im si).
Proof.
  unfold loong_reginfo_init, parse_extcontext, vector_state, ctx_fcc, ctx_fcsr. eauto 20 with keeps.
Qed.

Lemma ctx_reg_inv k p i u z u' :
  ctx_reg k p i u = (inl z, u') -> (i < nregs k)%nat /\ in_width 64 z /\ u' = u.
Proof.
  unfold ctx_reg. destruct (Nat.ltb_spec i (nregs k)); [| done]. intros E.
  by apply (load_inv lc_mem 8) in E as [W ->].
Qed.

Lemma vreg_of_inv k p i u v u' :
  vreg_of k p i u = (inl v, u') ->
  length v = 4%nat /\ Forall (in_width 64) v /\ (k <> LASX -> (4 * i < nregs k)%nat) /\ u' = u.
Proof.
  assert (in_width 64 0) as W0 by (by vm_compute).
  destruct k; cbn [vreg_of]; intros E;
    repeat (apply bind_inv in E as (? & ? & E0 & E); apply ctx_reg_inv in E0 as (? & ? & ->));
    apply ret_inv in E as [<- <-]; split_and!; try done; try lia;
    rewrite ?Forall_cons; auto 10.
Qed.

Lemma vregs_inv k p ix u l u' :
  vregs_loop k p ix u = (inl l, u') ->
  length l = (4 * length ix)%nat /\ Forall (in_width 64) l /\
  (k <> LASX -> Forall (fun i => (4 * i < nregs k)%nat) ix).
Proof.
  revert u l u'. induction ix as [|i ix IH]; intros u l u' E; cbn [vregs_loop] in E.
  - apply ret_inv in E as [<- _]. by repeat split; constructor.
  - apply bind_inv in E as (v & u1 & E1 & E). apply vreg_of_inv in E1 as (L1 & W1 & K1 & ->).
    apply bind_inv in E as (l' & u2 & E2 & E). apply IH in E2 as (L2 & W2 & K2).
    apply ret_inv in E as [<- _]. rewrite length_app, L1, L2. split; [simpl; lia |].
    split; [by apply Forall_app |]. intros Hk. constructor; auto.
Qed.

(** Only the widest registers can be captured: the loops for the others index
    their arrays beyond the end. *)
Lemma vector_state_inv k info u v u' :
  vector_state k info u = (inl v, u') ->
  k = LASX /\ exists l fcsr fcc, v = (l, fcsr, fcc, 256) /\
    length l = 128%nat /\ Forall (in_width 64) l /\ in_width 32 fcsr /\ in_width 64 fcc.
Proof.
  intros E. unfold vector_state in E. apply bind_inv in E as (l & u1 & E1 & E).
  apply vregs_inv in E1 as (L & W & K). apply bind_inv in E as (fcsr & u2 & E2 & E).
  apply (load_inv lc_mem 4) in E2 as [W2 _]. apply bind_inv in E as (fcc & u3 & E3 & E).
  apply (load_inv lc_mem 8) in E3 as [W3 _]. apply ret_inv in E as [<- _].
  assert (k = LASX) as ->.
  { destruct (decide (k = LASX)) as [->|Hk]; [done |]. specialize (K Hk).
    rewrite Forall_forall in K. specialize (K 31%nat ltac:(apply elem_of_seq; lia)).
    destruct k; [simpl in K; lia .. | done]. }
  split; [done |]. by exists l, fcsr, fcc.
Qed.

(** What a captured register file looks like. *)
Definition loong_captured (r : loong_reginfo) : Prop :=
  struct_wf r /\ lr_padding r = 0 /\
  (lr_vl r = 256 \/ lr_vl r = 0 /\ lr_vregs r = replicate 128 0).

Lemma loong_init_inv o im si u r u' :
  loong_reginfo_init o im si u = (inl r, u') -> loong_captured r.
Proof.
  intros E. unfold loong_reginfo_init in E.
  apply bind_inv in E as (u1 & u2 & _ & E). apply bind_inv in E as (insn & u3 & E3 & E).
  apply (load_inv lc_mem 4) in E3 as [W3 _]. apply bind_inv in E as (x & u4 & _ & E).
  apply bind_inv in E as ([[[l fcsr] fcc] vl] & u5 & E5 & E). apply ret_inv in E as [<- _].
  assert (length l = 128%nat /\ Forall (in_width 64) l /\ in_width 32 fcsr /\ in_width 64 fcc /\
    (vl = 256 \/ vl = 0 /\ l = replicate 128 0)) as (L & W & Wr & Wc & V).
  { destruct (widest (snd x)) as [[k info]|].
    - apply vector_state_inv in E5 as (_ & l' & r & c & Ev & ?). injection Ev as -> -> -> ->. tauto.
    - apply ret_inv in E5 as [E5 _]. injection E5 as <- <- <- <-. split; [done |].
      split; [apply (Forall_replicate _ 128); by vm_compute |]. repeat split; by auto. }
  split; [| by split]. unfold struct_wf. cbn [members to_members loong_layout].
  repeat (apply Forall2_cons; split); try apply Forall2_nil_2;
    first [apply (member_array 8) | by split
          | apply member_one; first [exact W3 | exact Wr | exact Wc | apply wrap_range; lia | idtac]].
  - by vm_compute.
  - by destruct V as [->|[-> _]]; vm_compute.
Qed.

#[export] Instance loong_laws : CpuLaws (R := loong_reginfo) (U := loong_ctx) (O := ()).
Proof.
  refine {| cpu_ctx_wf := fun u => length (lc_regs u) = 32%nat; cpu_wf := struct_wf; cpu_same := eq |}.
  - by intros [].
  - vm_compute. congruence.
  - done.
  - intros r _. split; [apply Nat2Z.is_nonneg | apply Z.le_refl].
  - intros o im si u r u' E. apply loong_init_inv in E as [W _]. exact W.
  - intros o im si u r u' W E. apply loong_init_keeps in E. unfold id in E. by subst.
  - done.
  - intros m r ->. by apply bool_decide_eq_true.
  - done.
  - intros v u W. simpl. by rewrite length_insert.
Defined.

(** Vector registers that agree in all four words. *)
Lemma vreg_eq_all m a :
  length (lr_vregs m) = 128%nat -> length (lr_vregs a) = 128%nat ->
  Forall (fun i => vreg_eq m a 4 i = true) (seq 0 32) <-> lr_vregs m = lr_vregs a.
Proof.
  intros Lm La. rewrite Forall_forall. split.
  - intros K. apply (nth_ext _ _ 0 0); [congruence |]. intros n Hn. rewrite Lm in Hn.
    pose proof (Nat.div_mod n 4 ltac:(lia)) as D. pose proof (Nat.mod_upper_bound n 4 ltac:(lia)) as B.
    specialize (K (n / 4)%nat ltac:(apply elem_of_seq; split; [lia | apply Nat.Div0.div_lt_upper_bound; lia])).
    unfold vreg_eq in K. apply forallb_Forall_true in K. rewrite Forall_forall in K.
    specialize (K (n mod 4)%nat). unfold vreg in K. rewrite <-D in K. apply Z.eqb_eq, K.
    simpl. set_unfold. lia.
  - intros E i _. unfold vreg_eq, vreg. rewrite E. apply forallb_Forall_true, Forall_forall.
    intros j _. apply Z.eqb_refl.
Qed.

Lemma loong_report m a :
  loong_captured m -> loong_captured a ->
  loong_reginfo_dump_mismatch m a = loong_heading <-> loong_reginfo_is_eq m a = true.
Proof.
  intros (Wm & Pm & Vm) (Wa & Pa & Va). unfold loong_reginfo_is_eq, loong_reginfo_dump_mismatch.
  pose proof (struct_lengths m Wm) as Lm. pose proof (struct_lengths a Wa) as La.
  cbn in Lm, La. injection Lm as Lr Lv. injection La as Lr' Lv'.
  rewrite bool_decide_eq_true. rewrite <-(app_nil_r loong_heading) at 2. rewrite app_inv_head_iff.
  rewrite !app_nil_iff, !differ_each_nil, !array_eq, !differ_nil by done.
  assert (lr_vl m = lr_vl a -> loong_vreg_mismatch m a = [] <-> lr_vregs m = lr_vregs a) as K.
  { intros Ev. unfold loong_vreg_mismatch. destruct Vm as [Vm|[Vm Zm]].
    - rewrite Vm. cbn [Z.eqb Pos.eqb]. by rewrite differ_each_nil, vreg_eq_all.
    - destruct Va as [Va|[Va Za]]; [congruence |]. rewrite Vm. cbn [Z.eqb]. by rewrite Zm, Za. }
  destruct m, a; simpl in *. subst. split.
  - intros (Ev & ? & ? & ? & ? & ? & ? & Em). apply K in Em; [| done]. by subst.
  - intros E. injection E as -> -> -> -> -> -> -> ->. split_and!; try done. by apply K.
Qed.

(** ** What decides the verdict *)

(** The vector registers, their control registers and their length. *)
Definition loong_vectors : M loong_ctx (list Z * Z * Z * Z) :=
  x ← parse_extcontext (ExtCtx None None None);
  match widest (snd x) with
  | Some (k, info) => vector_state k info
  | None => mret (replicate 128 0, 0, 0, 0)
  end.

(** The instruction and where it is in the image, r1 and r3 to r31, the flags and
    the vector registers; not r0, and not r2, which is set to a
    constant. *)
Definition loong_agree (im im' : image) (u v : loong_ctx) : Prop :=
  fst (load lc_mem 4 (lc_pc u) u) = fst (load lc_mem 4 (lc_pc v) v) /\
  u64 (lc_pc u - image_start_address im) = u64 (lc_pc v - image_start_address im') /\
  same_at 64 (1%nat :: seq 3 29) (lc_regs u) (lc_regs v) /\
  u32 (lc_flags u) = u32 (lc_flags v) /\ fst (loong_vectors u) = fst (loong_vectors v).

Definition loong_regs (l : list Z) : list Z :=
  array 64 32 (<[2%nat := 0xdeadbeefdeadbeef]> (<[0%nat := 0]> (resize 32 0 l))).

Lemma loong_regs_same l l' : loong_regs l = loong_regs l' <-> same_at 64 (1%nat :: seq 3 29) l l'.
Proof.
  assert (forall (l : list Z) c i, (i < 32)%nat -> i <> 0%nat -> i <> 2%nat ->
    nth i (<[2%nat := c]> (<[0%nat := 0]> (resize 32 0 l))) 0 = nth i l 0) as N.
  { intros k c i Hi H0 H2. rewrite nth_lookup, !list_lookup_insert_ne by done. rewrite (nth_lookup k).
    destruct (decide (i < length k)%nat); [by rewrite lookup_resize by lia |].
    rewrite lookup_resize_new by lia. by rewrite lookup_ge_None_2 by lia. }
  assert (forall (l : list Z) c, nth 0 (<[2%nat := c]> (<[0%nat := 0]> (resize 32 0 l))) 0 = 0) as N0.
  { intros k c. rewrite nth_lookup, list_lookup_insert_ne, list_lookup_insert_eq by (rewrite ?length_resize; lia). done. }
  assert (forall (l : list Z) c, nth 2 (<[2%nat := c]> (<[0%nat := 0]> (resize 32 0 l))) 0 = c) as N2.
  { intros k c. rewrite nth_lookup, list_lookup_insert_eq by (rewrite length_insert, length_resize; lia). done. }
  unfold loong_regs. rewrite array_same. unfold same_at. rewrite !Forall_forall. split; intros K i Hi.
  - assert (i < 32 /\ i <> 0 /\ i <> 2)%nat as (H1 & H2 & H3)
      by (apply elem_of_cons in Hi as [->|Hi%elem_of_seq]; lia).
    specialize (K i ltac:(apply elem_of_seq; lia)). by rewrite !N in K.
  - apply elem_of_seq in Hi. destruct (decide (i = 0%nat)) as [->|H0]; [by rewrite !N0 |].
    destruct (decide (i = 2%nat)) as [->|H2]; [by rewrite !N2 |]. rewrite !N by lia. apply K.
    apply elem_of_cons. rewrite elem_of_seq. lia.
Qed.

Lemma loong_init_eq o im si u r u' :
  loong_reginfo_init o im si u = (inl r, u') ->
  exists insn vregs fcsr fcc vl u1, load lc_mem 4 (lc_pc u) u = (inl insn, u) /\
    loong_vectors u = (inl (vregs, fcsr, fcc, vl), u1) /\
    r = LoongReginfo (loong_regs (lc_regs u)) (u64 (lc_pc u - image_start_address im)) fcc
      (u32 (lc_flags u)) fcsr insn 0 vregs vl.
Proof.
  intros E. unfold loong_reginfo_init in E. apply bind_inv in E as (u1 & u2 & E1 & E).
  injection E1 as <- <-. unfold id in E. apply bind_inv in E as (insn & u3 & E3 & E).
  pose proof (load_inv lc_mem 4 _ _ _ _ E3) as [_ ->]. apply bind_inv in E as (x & u4 & E4 & E).
  apply bind_inv in E as ([[[l fcsr] fcc] vl] & u5 & E5 & E). apply ret_inv in E as [<- <-].
  exists insn, l, fcsr, fcc, vl, u5. split; [done |]. split; [| done].
  unfold loong_vectors. by rewrite (bind_done _ _ _ _ _ E4).
Qed.

Lemma loong_reginfo_inj g p c f s i z v l g' p' c' f' s' i' z' v' l' :
  LoongReginfo g p c f s i z v l = LoongReginfo g' p' c' f' s' i' z' v' l' <->
  g = g' /\ p = p' /\ c = c' /\ f = f' /\ s = s' /\ i = i' /\ z = z' /\ v = v' /\ l = l'.
Proof.
  split; [by intros [= -> -> -> -> -> -> -> -> ->] |].
  by intros (-> & -> & -> & -> & -> & -> & -> & -> & ->).
Qed.

Lemma loong_verdict o o' im im' si si' u v m a u' v' :
  loong_reginfo_init o im si u = (inl m, u') -> loong_reginfo_init o' im' si' v = (inl a, v') ->
  loong_reginfo_is_eq m a = true <-> loong_agree im im' u v.
Proof.
  intros Em Ea. apply loong_init_eq in Em as (i & l & s & c & w & u1 & L & V & ->).
  apply loong_init_eq in Ea as (i' & l' & s' & c' & w' & v1 & L' & V' & ->).
  unfold loong_reginfo_is_eq, loong_agree. rewrite bool_decide_eq_true, L, L', V, V'. cbn [fst].
  rewrite !(inj_iff inl), !pair_equal_spec, loong_reginfo_inj, loong_regs_same. tauto.
Qed.
End loongarch.

(** ** Which registers are captured *)

Definition magic_of (k : ext_kind) : Z :=
  match k with FPU => FPU_CTX_MAGIC | LSX => LSX_CTX_MAGIC | LASX => LASX_CTX_MAGIC end.

(** The address of the last block of kind [k] in a chain at [p], given by the
    kinds and sizes of its blocks. *)
Fixpoint last_at (k : ext_kind) (p : Z) (bs : list (ext_kind * Z)) : option Z :=
  match bs with
  | [] => None
  | (k', s) :: bs' =>
      match last_at k (p + s) bs' with
      | Some q => Some q
      | None => if decide (k' = k) then Some p else None
      end
  end.

(** What a block of the chain overwrites. *)
Definition found (p : Z) (bs : list (ext_kind * Z)) (x : extctx_layout) : extctx_layout :=
  let or a b := match a with Some _ => a | None => b end in
  ExtCtx (or (last_at FPU p bs) (fpu x)) (or (last_at LSX p bs) (lsx x))
    (or (last_at LASX p bs) (lasx x)).

Section capture.
Context `{Build}.

(** Behind the context there is this chain of blocks. *)
Fixpoint chain (u : loong_ctx) (p : Z) (bs : list (ext_kind * Z)) : Prop :=
  match bs with
  | [] => holds lc_mem u 4 p 0 /\ exists size, holds lc_mem u 4 (p + 4) size
  | (k, s) :: bs' =>
      holds lc_mem u 4 p (magic_of k) /\ holds lc_mem u 4 (p + 4) s /\
      sizeof_sctx_info + sizeof_ctx k <= s /\ chain u (p + s) bs'
  end.

Lemma chain_fuel u p bs : chain u p bs -> (length bs <= size (lc_mem u))%nat.
Proof.
  intros Hc. rewrite <-(length_fmap snd bs). apply (starts_fuel _ p).
  - revert p Hc. induction bs as [|[k s] bs IH]; intros p Hc; [constructor |].
    destruct Hc as (_ & _ & Hs & Hc). constructor; [| by eapply IH].
    unfold sizeof_sctx_info, sizeof_ctx in Hs. simpl. lia.
  - revert p Hc. induction bs as [|[k s] bs IH]; intros p Hc; [constructor |].
    destruct Hc as (Hm & _ & _ & Hc). constructor; [| by apply IH].
    eapply holds_mapped; [| exact Hm]. lia.
Qed.

Lemma found_cons p k s bs x : found p ((k, s) :: bs) x = found (p + s) bs (set_ext k p x).
Proof.
  unfold found. cbn [last_at].
  destruct k, (last_at FPU (p + s) bs), (last_at LSX (p + s) bs), (last_at LASX (p + s) bs); done.
Qed.

Lemma parse_chain u bs : forall fuel p x,
  chain u p bs -> (length bs < fuel)%nat -> parse_loop fuel p x u = (inl (0, found p bs x), u).
Proof.
  induction bs as [|[k s] bs IH]; intros [|fuel] p x Hc Hf; simpl in Hf; try lia; cbn [parse_loop].
  - destruct Hc as (Hm & size & Hs). rewrite (bind_done _ _ _ _ _ Hm), (bind_done _ _ _ _ _ Hs).
    by destruct x.
  - destruct Hc as (Hm & Hs & Hle & Hc). rewrite (bind_done _ _ _ _ _ Hm), (bind_done _ _ _ _ _ Hs).
    rewrite found_cons.
    assert ((magic_of k =? 0) = false /\ ext_of_magic (magic_of k) = Some k) as [-> ->] by by destruct k.
    destruct (Z.ltb_spec s (sizeof_sctx_info + sizeof_ctx k)); [lia |]. apply IH; (done || lia).
Qed.

(** A computation that can only fail by undefined behaviour. *)
Definition fails_ub {A} (m : M loong_ctx A) : Prop :=
  forall u, match fst (m u) with inl _ => True | inr h => h = HUB end.

Lemma fails_ub_bind {A B} (m : M loong_ctx A) (f : A -> M loong_ctx B) :
  fails_ub m -> (forall a, fails_ub (f a)) -> fails_ub (m ≫= f).
Proof.
  intros Hm Hf u. specialize (Hm u). unfold mbind, M_bind. destruct (m u) as [[a|h] u']; [apply Hf | done].
Qed.

Lemma fails_ub_load n p : fails_ub (load lc_mem n p).
Proof. intros u. unfold load. by destruct (mem_read _ _ _). Qed.

Lemma fails_ub_reg k p i : fails_ub (ctx_reg k p i).
Proof. unfold ctx_reg. destruct (_ <? _)%nat; [apply fails_ub_load | done]. Qed.

Lemma fails_ub_vregs k p ix : fails_ub (vregs_loop k p ix).
Proof.
  induction ix as [|i ix IH]; [done |]. cbn [vregs_loop]. apply fails_ub_bind.
  - destruct k; cbn [vreg_of]; repeat (apply fails_ub_bind; [apply fails_ub_reg | intros ?]); done.
  - intros v. by apply fails_ub_bind; [exact IH |].
Qed.

Lemma vector_state_ub k info u : k <> LASX -> fst (vector_state k info u) = inr HUB.
Proof.
  intros Hk. assert (fails_ub (vector_state k info)) as F.
  { apply fails_ub_bind; [apply fails_ub_vregs | intros l].
    do 2 (apply fails_ub_bind; [apply fails_ub_load | intros ?]). done. }
  specialize (F u). destruct (vector_state k info u) as [[v|h] u'] eqn:E; cbn [fst] in *; [| by subst].
  by apply vector_state_inv in E as [? _].
Qed.

(** The loop for the widest registers takes all of them. *)
Lemma vregs_lasx u p regs n : forall j,
  (forall i z, regs !! i = Some z -> holds lc_mem u 8 (p + 8 * Z.of_nat i) z) ->
  length regs = 128%nat -> (j + n)%nat = 32%nat ->
  vregs_loop LASX p (seq j n) u = (inl (drop (4 * j) regs), u).
Proof.
  intros j Hr L. revert j. induction n as [|n IH]; intros j Hj.
  - rewrite drop_ge by lia. done.
  - cbn [seq vregs_loop vreg_of].
    assert (forall i, (i < 128)%nat -> exists z, regs !! i = Some z /\ ctx_reg LASX p i u = (inl z, u)) as R.
    { intros i Hi. destruct (lookup_lt_is_Some_2 regs i) as [z Ez]; [lia |]. exists z. split; [done |].
      unfold ctx_reg. destruct (Nat.ltb_spec i (nregs LASX)); [by apply Hr | simpl in *; lia]. }
    destruct (R (4 * j)%nat) as (z0 & L0 & E0), (R (4 * j + 1)%nat) as (z1 & L1 & E1),
      (R (4 * j + 2)%nat) as (z2 & L2 & E2), (R (4 * j + 3)%nat) as (z3 & L3 & E3); try lia.
    assert (vreg_of LASX p j u = (inl [z0; z1; z2; z3], u)) as V.
    { cbn [vreg_of]. by rewrite (bind_done _ _ _ _ _ E0), (bind_done _ _ _ _ _ E1),
        (bind_done _ _ _ _ _ E2), (bind_done _ _ _ _ _ E3). }
    change (match LASX with | FPU => _ | LSX => _ | LASX => _ end) with (vreg_of LASX p j).
    rewrite (bind_done _ _ _ _ _ V), (bind_done _ _ _ _ _ (IH (S j) ltac:(lia))).
    replace (4 * j + 1)%nat with (S (4 * j)) in L1 by lia.
    replace (4 * j + 2)%nat with (S (S (4 * j))) in L2 by lia.
    replace (4 * j + 3)%nat with (S (S (S (4 * j)))) in L3 by lia.
    rewrite (drop_S _ _ _ L0), (drop_S _ _ _ L1), (drop_S _ _ _ L2), (drop_S _ _ _ L3).
    by replace (4 * S j)%nat with (S (S (S (S (4 * j))))) by lia.
Qed.

Lemma parse_extcontext_chain u bs x :
  chain u (lc_ext u) bs -> parse_extcontext x u = (inl (0, found (lc_ext u) bs x), u).
Proof.
  intros Hc. unfold parse_extcontext. rewrite (bind_done (gets id) _ u u u) by done.
  apply parse_chain; [done |]. pose proof (chain_fuel u _ bs Hc). lia.
Qed.

(** Capturing, once the chain has been read. *)
Lemma loong_init_chain o im si u bs insn v u' :
  chain u (lc_ext u) bs -> holds lc_mem u 4 (lc_pc u) insn ->
  match widest (found (lc_ext u) bs (ExtCtx None None None)) with
  | Some (k, info) => vector_state k info
  | None => mret (replicate 128 0, 0, 0, 0)
  end u = (v, u') ->
  match v with
  | inl (l, fcsr, fcc, vl) =>
      exists r, loong_reginfo_init o im si u = (inl r, u') /\
        lr_vregs r = l /\ lr_fcsr r = fcsr /\ lr_fcc r = fcc /\ lr_vl r = vl
  | inr h => fst (loong_reginfo_init o im si u) = inr h
  end.
Proof.
  intros Hc Hi E. unfold loong_reginfo_init. rewrite (bind_done (gets id) _ u u u) by done.
  rewrite (bind_done _ _ _ _ _ Hi), (bind_done _ _ _ _ _ (parse_extcontext_chain u bs _ Hc)). cbn [snd].
  destruct v as [[[[l fcsr] fcc] vl]|h].
  - rewrite (bind_done _ _ _ _ _ E). eexists. split; [reflexivity | done].
  - by rewrite (bind_stop _ _ _ _ _ E).
Qed.

Lemma last_at_none p bs :
  last_at LASX p bs = None -> bs <> [] ->
  is_Some (last_at LSX p bs) \/ last_at LSX p bs = None /\ is_Some (last_at FPU p bs).
Proof.
  revert p. induction bs as [|[k s] bs IH]; intros p; [done |]. cbn [last_at].
  destruct (last_at LASX (p + s) bs) as [|] eqn:E1; [done |]. intros Hk _.
  destruct (decide (bs = [])) as [->|Hb].
  - cbn [last_at] in *. destruct k; try done; cbn; eauto.
  - destruct (IH _ E1 Hb) as [[q ->]|[-> [q ->]]]; [left; eauto |].
    destruct (decide (k = LSX)); eauto.
Qed.

(** C24: which vector registers are captured.  [parse_extcontext] follows the
    chain of blocks to its end.  If there is a block of 256-bit registers, the
    last one is captured with its control registers and the length is 256.  If
    there are only narrower blocks, the loops over their registers index [regs]
    beyond its end, so the behaviour is undefined.  If there are none the vector
    registers are zero. *)
Theorem vector_capture o im si u bs insn :
  chain u (lc_ext u) bs -> holds lc_mem u 4 (lc_pc u) insn ->
  match last_at LASX (lc_ext u) bs with
  | Some info =>
      forall regs fcsr fcc, length regs = 128%nat ->
      (forall i z, regs !! i = Some z -> holds lc_mem u 8 (info + 16 + 8 * Z.of_nat i) z) ->
      holds lc_mem u 8 (info + 16 + 8 * 128) fcc -> holds lc_mem u 4 (info + 16 + 8 * 128 + 8) fcsr ->
      exists r, loong_reginfo_init o im si u = (inl r, u) /\
        lr_vregs r = regs /\ lr_fcsr r = fcsr /\ lr_fcc r = fcc /\ lr_vl r = 256
  | None =>
      (bs <> [] -> fst (loong_reginfo_init o im si u) = inr HUB) /\
      (bs = [] -> exists r, loong_reginfo_init o im si u = (inl r, u) /\
         lr_vregs r = replicate 128 0 /\ lr_fcsr r = 0 /\ lr_fcc r = 0 /\ lr_vl r = 0)
  end.
Proof.
  intros Hc Hi. pose proof (fun v u' => loong_init_chain o im si u bs insn v u' Hc Hi) as K.
  unfold widest, found in K. cbn [lasx lsx fpu] in K.
  destruct (last_at LASX (lc_ext u) bs) as [info|] eqn:EL.
  - intros regs fcsr fcc L Hr Hcc Hcsr.
    apply (K (inl (regs, fcsr, fcc, 256)) u). unfold vector_state.
    rewrite (bind_done _ _ _ _ _ (vregs_lasx u (info + sizeof_sctx_info) regs 32 0 Hr L eq_refl)).
    unfold ctx_fcsr, ctx_fcc. by rewrite (bind_done _ _ _ _ _ Hcsr), (bind_done _ _ _ _ _ Hcc).
  - split.
    + intros Hb. destruct (last_at_none _ _ EL Hb) as [[q E]|[E [q E']]]; rewrite E in K.
      * pose proof (vector_state_ub LSX q u ltac:(done)) as V.
        destruct (vector_state LSX q u) as [v u'] eqn:Ev. cbn in V. subst v. exact (K _ _ eq_refl).
      * rewrite E' in K. pose proof (vector_state_ub FPU q u ltac:(done)) as V.
        destruct (vector_state FPU q u) as [v u'] eqn:Ev. cbn in V. subst v. exact (K _ _ eq_refl).
    + intros ->. exact (K (inl (replicate 128 0, 0, 0, 0)) u eq_refl).
Qed.
End capture.

(** A context with one block of 256-bit registers. *)
Definition example_block : list Z :=
  concat (map (int_bytes true 4) [LASX_CTX_MAGIC; 1056; 0; 0]) ++
  concat (map (fun i => int_bytes true 8 (Z.of_nat i)) (seq 0 128)) ++
  int_bytes true 8 3 ++ int_bytes true 8 5 ++ replicate 8 0.

Definition example_ctx : loong_ctx :=
  LoongCtx (replicate 32 0) 0x1000 0 0x1000 (list_to_map (zip (seqZ 0x1000 1072) example_block)).

Lemma vector_capture_witness :
  let _ : Build := {| bswap_builtins := true; host_le := true; def_LITTLE_ENDIAN := true |} in
  exists r, loong_reginfo_init () (Image 0x1000 4) 0 example_ctx = (inl r, example_ctx) /\
    lr_vregs r = map Z.of_nat (seq 0 128) /\ lr_vl r = 256.
Proof.
  intros HB.
  destruct (vector_capture () (Image 0x1000 4) 0 example_ctx [(LASX, 1056)] LASX_CTX_MAGIC) with
    (regs := map Z.of_nat (seq 0 128)) (fcsr := 5) (fcc := 3) as (r & E & V & _ & _ & Vl).
  - split; [by_value |]. split; [by_value |]. split; [vm_compute; congruence |].
    split; [by_value |]. exists 0. by_value.
  - by_value.
  - reflexivity.
  - intros i z Ez. apply list_lookup_fmap_Some in Ez as (j & -> & Ej). apply lookup_seq in Ej as [-> Hi].
    apply holds_value.
    assert (forallb (fun i => match fst (load lc_mem 8 (0x1010 + 8 * Z.of_nat i) example_ctx) with
      | inl z => z =? Z.of_nat i | inr _ => false end) (seq 0 128) = true) as K by (vm_compute; reflexivity).
    apply forallb_Forall_true in K. rewrite Forall_forall in K.
    specialize (K i ltac:(apply elem_of_seq; lia)).
    change (0x1000 + 16 + 8 * Z.of_nat i) with (0x1010 + 8 * Z.of_nat i).
    destruct (fst (load _ _ _ _)); [| done]. by apply Z.eqb_eq in K as ->.
  - by_value.
  - by_value.
  - exists r. split; [exact E |]. split; [exact V | exact Vl].
Defined.
