(* ===== verification/X86.v ===== *)
(** * x86 (risu_i386.c, risu_reginfo_i386.c and .h)

    The register file, how it is captured, compared and reported, for 32 and 64
    bits.  The vector registers are in the state that the kernel saves behind
    the context, in places that the processor announces. *)

From stdpp Require Import gmap.
From S2P Require Import Prelude Endian Comms Arch Cpu.

(** ** The build and the machine *)

(** Where the kernel's <asm/sigcontext.h> has the members of [struct _fpstate]
    and [struct _xstate] that are used, its constants, and what the processor
    answers to CPUID. *)
Class X86 := {
  x86_64 : bool;                                    (* __x86_64__ *)
  fp_magic : Z;                                     (* offset of magic *)
  fp_mxcsr : Z;                                     (* offset of mxcsr *)
  fp_xmm : Z;                                       (* offset of xmm_space, _xmm *)
  fp_magic1 : Z;                                    (* offset of sw_reserved.magic1 *)
  fp_extended_size : Z;                             (* offset of sw_reserved.extended_size *)
  xs_xfeatures : Z;                                 (* offset of xstate_hdr.xfeatures *)
  X86_FXSR_MAGIC : Z;
  FP_XSTATE_MAGIC1 : Z;
  get_cpuid_count : Z -> Z -> option (Z * Z * Z * Z) (* eax, ebx, ecx, edx *)
}.

(** [struct reginfo]; eight elements of [x_vregs] are one [struct avx512_reg]. *)
Record x86_reginfo : Type := X86Reginfo {
  x_faulting_insn : Z;
  x_mxcsr : Z;
  x_xfeatures : Z;
  x_gregs : list Z;
  x_vregs : list Z;
  x_kregs : list Z
}.

#[export] Instance x86_reginfo_eq_dec : EqDecision x86_reginfo.
Proof. solve_decision. Defined.

Record x86_ctx : Type := X86Ctx {
  xc_gregs : list Z;
  xc_fpregs : Z;             (* uc_mcontext.fpregs *)
  xc_mem : gmap Z Z
}.

Definition XFEAT_X87 : Z := Z.shiftl 1 0.
Definition XFEAT_SSE : Z := Z.shiftl 1 1.
Definition XFEAT_AVX : Z := Z.shiftl 1 2.
Definition XFEAT_AVX512_OPMASK : Z := Z.shiftl 1 5.
Definition XFEAT_AVX512_ZMM_HI256 : Z := Z.shiftl 1 6.
Definition XFEAT_AVX512_HI16_ZMM : Z := Z.shiftl 1 7.
Definition XFEAT_AVX512 : Z :=
  Z.lor (Z.lor XFEAT_AVX512_OPMASK XFEAT_AVX512_ZMM_HI256) XFEAT_AVX512_HI16_ZMM.

Section x86.
Context `{X86}.

(** [gregset_t] of <sys/ucontext.h>: the names of the registers that matter, by
    position. *)
Definition regname (i : nat) : option string :=
  if x86_64 then
    nth i (map Some ["r8"; "r9"; "r10"; "r11"; "r12"; "r13"; "r14"; "r15"; "rdi"; "rsi"; "rbp";
                     "rbx"; "rdx"; "rax"; "rcx"; "rsp"; "rip"; "eflags"]%string) None
  else
    nth i ([None; None; None; None] ++
           map Some ["edi"; "esi"; "ebp"; "esp"; "ebx"; "edx"; "ecx"; "eax"]%string ++
           [None; None; Some "eip"; None; Some "eflags"]%string) None.

Definition NGREG : nat := if x86_64 then 23 else 19.
Definition REG_IP : nat := if x86_64 then 16 else 14.
Definition REG_EFL : nat := if x86_64 then 17 else 16.
Definition REG_SP : nat := if x86_64 then 15 else 7.
Definition REG_AX : nat := if x86_64 then 13 else 11.

Definition greg_bytes : nat := if x86_64 then 8 else 4.
Definition greg_t (z : Z) : Z := wrap (8 * Z.of_nat greg_bytes) z.

Definition max_vregs : nat := if x86_64 then 32 else 8.

#[export] Instance x86_layout : Layout x86_reginfo := {|
  members := [(4, 1); (4, 1); (8, 1); (greg_bytes, NGREG); (8, 8 * max_vregs); (8, 8)]%nat;
  to_members r := [[x_faulting_insn r]; [x_mxcsr r]; [x_xfeatures r]; x_gregs r; x_vregs r; x_kregs r];
  of_members vss :=
    let one i := nth 0 (nth i vss []) 0 in
    X86Reginfo (one 0%nat) (one 1%nat) (one 2%nat) (nth 3 vss []) (nth 4 vss []) (nth 5 vss [])
|}.

(** ** risu_i386.c *)

Definition uc_greg (u : x86_ctx) (i : nat) : Z := nth i (xc_gregs u) 0.

Definition x86_advance_pc (u : x86_ctx) : x86_ctx :=
  X86Ctx (<[REG_IP := greg_t (uc_greg u REG_IP + 3)]> (xc_gregs u)) (xc_fpregs u) (xc_mem u).

Definition x86_get_uc_pc (u : x86_ctx) (siaddr : Z) : Z := uc_greg u REG_IP.

Definition x86_set_ucontext_paramreg (value : Z) (u : x86_ctx) : x86_ctx :=
  X86Ctx (<[REG_AX := greg_t value]> (xc_gregs u)) (xc_fpregs u) (xc_mem u).

(** [greg_t] is signed, so that the register is extended with its sign. *)
Definition x86_get_reginfo_paramreg (ri : x86_reginfo) : Z :=
  let v := nth REG_AX (x_gregs ri) 0 in
  let w := 8 * Z.of_nat greg_bytes in
  u64 (if v <? 2 ^ (w - 1) then v else v - 2 ^ w).

Definition x86_get_risuop (ri : x86_reginfo) : RisuOp :=
  if Z.land (x_faulting_insn ri) 0xf8ffff =? 0xc0b90f
  then RisuOp_of_Z (Z.land (Z.shiftr (x_faulting_insn ri) 16) 7)
  else OP_SIGILL.

Definition x86_get_pc (ri : x86_reginfo) : Z := nth REG_IP (x_gregs ri) 0.

(** ** risu_reginfo_i386.c *)

Definition x86_reginfo_size (ri : x86_reginfo) : Z := Z.of_nat (struct_sizeof (R := x86_reginfo)).

Context `{Build}.

(** The location of a feature in the saved state. *)
Definition xsave_feature_buf (xs feature : Z) : M x86_ctx Z :=
  match get_cpuid_count 0xd feature with
  | None => stop HAbort
  | Some (eax, ebx, _, _) =>
      n ← load xc_mem 4 (xs + fp_extended_size);
      if n >=? u32 (eax + ebx) then mret (xs + ebx) else stop HAbort
  end.

(** [n] integers of eight bytes at [p]. *)
Fixpoint quads (n : nat) (p : Z) : M x86_ctx (list Z) :=
  match n with
  | O => mret []
  | S n' => q ← load xc_mem 8 p; l ← quads n' (p + 8); mret (q :: l)
  end.

(** A loop with [memcpy(dst, src, 8 * w)]. *)
Fixpoint copy_loop (w : nat) (dst : nat -> nat) (src : nat -> Z) (ix : list nat) (vregs : list Z)
    : M x86_ctx (list Z) :=
  match ix with
  | [] => mret vregs
  | i :: ix' => l ← quads w (src i); copy_loop w dst src ix' (list_inserts (dst i) l vregs)
  end.

(** The general registers as they are captured. *)
Definition x86_greg (im : image) (u : x86_ctx) (i : nat) : Z :=
  if (i =? REG_IP)%nat then greg_t (uc_greg u i - image_start_address im)
  else if (i =? REG_EFL)%nat then Z.land (greg_t (uc_greg u i)) 0xd5
  else if (i =? REG_SP)%nat then 0xdeadbeef
  else match regname i with Some _ => greg_t (uc_greg u i) | None => 0 end.

Definition nvecregs : nat := if x86_64 then 16 else 8.

(** [vregs] and [kregs] with the features [features] of the state at [xs]. *)
Definition x86_xsave (features xs : Z) (vregs : list Z) : M x86_ctx (list Z * list Z) :=
  vregs ← (if truth (Z.land features XFEAT_AVX) then
             buf ← xsave_feature_buf xs XFEAT_AVX;
             copy_loop 2 (fun i => 8 * i + 2)%nat (fun i => buf + 16 * Z.of_nat i) (seq 0 nvecregs) vregs
           else mret vregs);
  kregs ← (if truth (Z.land features XFEAT_AVX512_OPMASK) then
             buf ← xsave_feature_buf xs XFEAT_AVX512_OPMASK; quads 8 buf
           else mret (replicate 8 0));
  vregs ← (if truth (Z.land features XFEAT_AVX512_ZMM_HI256) then
             buf ← xsave_feature_buf xs XFEAT_AVX512_ZMM_HI256;
             copy_loop 4 (fun i => 8 * i + 4)%nat (fun i => buf + 32 * Z.of_nat i) (seq 0 nvecregs) vregs
           else mret vregs);
  vregs ← (if x86_64 && truth (Z.land features XFEAT_AVX512_HI16_ZMM) then
             buf ← xsave_feature_buf xs XFEAT_AVX512_HI16_ZMM;
             copy_loop 8 (fun i => 8 * (i + 16))%nat (fun i => buf + 64 * Z.of_nat i) (seq 0 16) vregs
           else mret vregs);
  mret (vregs, kregs).

(** [mxcsr], [vregs] and [kregs]. *)
Definition x86_fpstate (xfeatures fp : Z) : M x86_ctx (Z * list Z * list Z) :=
  let none := replicate (8 * max_vregs) 0 in
  let kz := replicate 8 0 in
  if fp =? 0 then mret (0, none, kz)
  else
    magic ← (if x86_64 then mret X86_FXSR_MAGIC else load xc_mem 2 (fp + fp_magic));
    if negb (magic =? X86_FXSR_MAGIC) then mret (0, none, kz)
    else
      mxcsr ← load xc_mem 4 (fp + fp_mxcsr);
      vregs ← copy_loop 2 (fun i => 8 * i)%nat (fun i => fp + fp_xmm + 16 * Z.of_nat i)
                (seq 0 nvecregs) none;
      magic1 ← load xc_mem 4 (fp + fp_magic1);
      if negb (magic1 =? FP_XSTATE_MAGIC1) then mret (mxcsr, vregs, kz)
      else
        f ← load xc_mem 8 (fp + xs_xfeatures);
        vk ← x86_xsave (Z.land xfeatures f) fp vregs;
        mret (mxcsr, fst vk, snd vk).

Definition x86_reginfo_init (xfeatures : Z) (im : image) (siaddr : Z) : M x86_ctx x86_reginfo :=
  u ← gets id;
  insn ← load xc_mem 4 (uc_greg u REG_IP);
  s ← x86_fpstate xfeatures (xc_fpregs u);
  let '(mxcsr, vregs, kregs) := s in
  mret (X86Reginfo insn mxcsr (u64 xfeatures) (map (x86_greg im u) (seq 0 NGREG)) vregs kregs).

(** [memcmp] of the whole structures, which have no padding. *)
Definition x86_reginfo_is_eq (m a : x86_reginfo) : bool := bool_decide (m = a).

Definition PRIxREG : string := if x86_64 then "%016llx" else "%08x".
Definition PRIq : string := if x86_64 then "lx" else "llx".        (* PRIx64 *)

Definition get_nvecregs (features : Z) : nat :=
  if x86_64 then if truth (Z.land features XFEAT_AVX512_HI16_ZMM) then 32 else 16 else 8.

Definition get_nvecquads (features : Z) : nat :=
  if truth (Z.land features XFEAT_AVX512_ZMM_HI256) then 8
  else if truth (Z.land features XFEAT_AVX) then 4
  else 2.

Definition get_vecletter (features : Z) : string :=
  if truth (Z.land features (Z.lor XFEAT_AVX512_ZMM_HI256 XFEAT_AVX512_HI16_ZMM)) then "z"
  else if truth (Z.land features XFEAT_AVX) then "y"
  else "x".

Definition quad (ri : x86_reginfo) (i j : nat) : Z := nth (8 * i + j) (x_vregs ri) 0.

(** The [w] words of vector register [i], from the highest down. *)
Definition quad_text (ri : x86_reginfo) (w i : nat) : text :=
  map (fun j => (("%016" +:+ PRIq +:+ "%c")%string,
         [AInt (quad ri i j); AStr (if (j =? 0)%nat then "\n" else " ")])) (rev (seq 0 w)).

Definition x86_reginfo_dump (ri : x86_reginfo) : text :=
  [("  faulting insn %x\n"%string, [AInt (x_faulting_insn ri)])] ++
  concat (map (fun i =>
    match regname i with
    | Some s => [(("  %-6s: " +:+ PRIxREG +:+ "\n")%string, [AStr s; AInt (nth i (x_gregs ri) 0)])]
    | None => []
    end) (seq 0 NGREG)) ++
  [("  mxcsr : %x\n"%string, [AInt (x_mxcsr ri)]);
   (("  xfeat : %" +:+ PRIq +:+ "\n")%string, [AInt (x_xfeatures ri)])] ++
  concat (map (fun i =>
    ("  %cmm%-3d: "%string, [AStr (get_vecletter (x_xfeatures ri)); AInt (Z.of_nat i)]) ::
    quad_text ri (get_nvecquads (x_xfeatures ri)) i) (seq 0 (get_nvecregs (x_xfeatures ri)))) ++
  (if truth (Z.land (x_xfeatures ri) XFEAT_AVX512_OPMASK) then
     map (fun i => (("  k%-5d: %016" +:+ PRIq +:+ "\n")%string,
            [AInt (Z.of_nat i); AInt (nth i (x_kregs ri) 0)])) (seq 0 8)
   else []).

Definition x86_heading : text := [("Mismatch (master v apprentice):\n"%string, [])].

Definition x86_greg_eq (m a : x86_reginfo) (i : nat) : bool :=
  nth i (x_gregs m) 0 =? nth i (x_gregs a) 0.

(** A difference in a register without a name violates an assertion. *)
Definition x86_asserts (m a : x86_reginfo) : bool :=
  forallb (fun i => x86_greg_eq m a i || match regname i with Some _ => true | None => false end)
    (seq 0 NGREG).

Definition x86_vreg_eq (m a : x86_reginfo) (w i : nat) : bool :=
  forallb (fun j => quad m i j =? quad a i j) (seq 0 w).

(** [None] if an assertion fails. *)
Definition x86_reginfo_dump_mismatch (m a : x86_reginfo) : option text :=
  let w := get_nvecquads (x_xfeatures m) in
  if negb (x86_asserts m a) then None
  else Some (
    x86_heading ++
    differ_each (seq 0 NGREG) (x86_greg_eq m a) (fun i =>
      [(("  %-6s: " +:+ PRIxREG +:+ " v " +:+ PRIxREG +:+ "\n")%string,
        [AStr (default EmptyString (regname i)); AInt (nth i (x_gregs m) 0); AInt (nth i (x_gregs a) 0)])]) ++
    differ (x_mxcsr m) (x_mxcsr a)
      [("  mxcsr : %x v %x\n"%string, [AInt (x_mxcsr m); AInt (x_mxcsr a)])] ++
    differ (x_xfeatures m) (x_xfeatures a)
      [(("  xfeat : %" +:+ PRIq +:+ " v %" +:+ PRIq +:+ "\n")%string,
        [AInt (x_xfeatures m); AInt (x_xfeatures a)])] ++
    differ_each (seq 0 (get_nvecregs (x_xfeatures m))) (x86_vreg_eq m a w) (fun i =>
      [("  %cmm%-3d: "%string, [AStr (get_vecletter (x_xfeatures m)); AInt (Z.of_nat i)])] ++
      quad_text m w i ++ [("       v: "%string, [])] ++ quad_text a w i) ++
    differ_each (seq 0 8) (fun i => nth i (x_kregs m) 0 =? nth i (x_kregs a) 0) (fun i =>
      [(("  k%-5d: %016" +:+ PRIq +:+ " v %016" +:+ PRIq +:+ "\n")%string,
        [AInt (Z.of_nat i); AInt (nth i (x_kregs m) 0); AInt (nth i (x_kregs a) 0)])])).

#[export] Instance x86_cpu : Cpu x86_reginfo x86_ctx Z := {|
  cpu_advance_pc := x86_advance_pc;
  cpu_get_uc_pc := x86_get_uc_pc;
  cpu_set_paramreg := x86_set_ucontext_paramreg;
  cpu_get_paramreg := x86_get_reginfo_paramreg;
  cpu_get_risuop := x86_get_risuop;
  cpu_get_pc := x86_get_pc;
  cpu_init := x86_reginfo_init;
  cpu_is_eq := x86_reginfo_is_eq;
  cpu_dump := x86_reginfo_dump;
  cpu_dump_mismatch m a := default [] (x86_reginfo_dump_mismatch m a);
  cpu_size := x86_reginfo_size;
  cpu_mem := xc_mem
|}.

(** ** Laws *)

Lemma quads_inv n p u l u' :
  quads n p u = (inl l, u') -> length l = n /\ Forall (in_width 64) l.
Proof.
  revert p u l u'. induction n as [|n IH]; intros p u l u' E; cbn [quads] in E.
  - apply ret_inv in E as [<- _]. by split; [| constructor].
  - apply bind_inv in E as (q & u1 & E1 & E). apply (load_inv xc_mem 8) in E1 as [W _].
    apply bind_inv in E as (l' & u2 & E2 & E). apply IH in E2 as [L F].
    apply ret_inv in E as [<- _]. split; [simpl; congruence | by constructor].
Qed.

Lemma Forall_inserts {A} (P : A -> Prop) i k (l : list A) :
  Forall P k -> Forall P l -> Forall P (list_inserts i k l).
Proof.
  intros Hk Hl. revert i. induction Hk as [|x k Hx _ IH]; intros i; [done |]. simpl.
  by apply Forall_insert.
Qed.

Lemma copy_loop_inv w dst src ix vregs u l u' :
  copy_loop w dst src ix vregs u = (inl l, u') ->
  length l = length vregs /\ (Forall (in_width 64) vregs -> Forall (in_width 64) l) /\
  forall j, (forall i, i ∈ ix -> ~ (dst i <= j < dst i + w)%nat) -> l !! j = vregs !! j.
Proof.
  revert vregs u l u'. induction ix as [|i ix IH]; intros vregs u l u' E; cbn [copy_loop] in E.
  - by apply ret_inv in E as [<- _].
  - apply bind_inv in E as (k & u1 & E1 & E). apply quads_inv in E1 as [L F].
    apply IH in E as (L' & F' & K). rewrite length_inserts in L'. split; [done |]. split.
    + intros Hv. by apply F', Forall_inserts.
    + intros j Hj. rewrite K by (intros i' Hi'; apply Hj; by right).
      specialize (Hj i ltac:(by left)). destruct (decide (j < dst i)%nat).
      * by apply list_lookup_inserts_lt.
      * apply list_lookup_inserts_ge. lia.
Qed.

(** The registers [l] are well-formed, and zero where [c] is false. *)
Definition zero_outside (c : nat -> nat -> bool) (l : list Z) : Prop :=
  length l = (8 * max_vregs)%nat /\ Forall (in_width 64) l /\
  forall i q, (q < 8)%nat -> nth (8 * i + q) l 0 <> 0 -> c i q = true.

Lemma zero_outside_mono (c c' : nat -> nat -> bool) l :
  (forall i q, c i q = true -> c' i q = true) -> zero_outside c l -> zero_outside c' l.
Proof. intros Hc (L & F & K). split_and!; auto. Qed.

Lemma zero_outside_none : zero_outside (fun _ _ => false) (replicate (8 * max_vregs) 0).
Proof.
  split; [apply length_replicate |]. split; [apply Forall_replicate; by vm_compute |].
  intros i q _ Hz. destruct Hz. rewrite nth_lookup.
  destruct (replicate _ _ !! _) eqn:E; [| done]. by apply lookup_replicate in E as [-> _].
Qed.

(** Words [b] to [b + w - 1] of the registers [a] to [a + n - 1]. *)
Definition rect (a n b w i q : nat) : bool :=
  (a <=? i)%nat && (i <? a + n)%nat && (b <=? q)%nat && (q <? b + w)%nat.

Lemma rect_true a n b w i q :
  rect a n b w i q = true <-> (a <= i < a + n /\ b <= q < b + w)%nat.
Proof. unfold rect. rewrite !andb_true_iff, !Nat.leb_le, !Nat.ltb_lt. lia. Qed.

Lemma copy_loop_outside c w dst src n a b l u l' u' :
  (forall i, dst i = 8 * (i + a) + b)%nat -> (b + w <= 8)%nat -> zero_outside c l ->
  copy_loop w dst src (seq 0 n) l u = (inl l', u') ->
  zero_outside (fun i q => c i q || rect a n b w i q) l'.
Proof.
  intros Hd Hw (L & F & K) E. apply copy_loop_inv in E as (L' & F' & K'). split; [congruence |].
  split; [auto |]. intros i q Hq Hz. destruct (rect a n b w i q) eqn:R; [by rewrite orb_true_r |].
  rewrite orb_false_r. apply K; [done |]. rewrite nth_lookup, <-K', <-nth_lookup; [done |].
  intros k Hk [H1 H2]. apply elem_of_seq in Hk. rewrite Hd in H1, H2.
  assert (rect a n b w i q = true); [apply rect_true; lia | congruence].
Qed.

Lemma truth_bit z k : 0 <= k -> truth (Z.land z (Z.shiftl 1 k)) = Z.testbit z k.
Proof.
  intros Hk. unfold truth. rewrite Z.shiftl_1_l. destruct (Z.testbit z k) eqn:E.
  - apply negb_true_iff, Z.eqb_neq. intros E0. apply (f_equal (fun y => Z.testbit y k)) in E0.
    rewrite Z.land_spec, E, Z.pow2_bits_true, Z.bits_0 in E0 by done. done.
  - apply negb_false_iff, Z.eqb_eq, Z.bits_inj'. intros i Hi. rewrite Z.land_spec, Z.bits_0.
    destruct (decide (i = k)) as [->|Hn]; [by rewrite E |]. by rewrite Z.pow2_bits_false, andb_false_r.
Qed.

(** Where a captured register file may have other values than zero: the
    features bits 2, 6 and 7 stand for the upper halves of the 256-bit registers,
    those of the 512-bit registers, and the registers from 16 on. *)
Definition covered (xf : Z) (i q : nat) : bool :=
  if (i <? nvecregs)%nat then
    (q <? 2)%nat || (q <? 4)%nat && Z.testbit xf 2 || (4 <=? q)%nat && Z.testbit xf 6
  else x86_64 && Z.testbit xf 7.

(** A conditional copy. *)
Lemma copy_if_outside c w dst src n a b l u l' u' (f : bool) (k : M x86_ctx Z) :
  (forall i, dst i = 8 * (i + a) + b)%nat -> (b + w <= 8)%nat -> zero_outside c l ->
  (if f then buf ← k; copy_loop w dst (src buf) (seq 0 n) l else mret l) u = (inl l', u') ->
  zero_outside (fun i q => c i q || f && rect a n b w i q) l'.
Proof.
  intros Hd Hw Hz E. destruct f.
  - apply bind_inv in E as (buf & u1 & _ & E). by eapply copy_loop_outside.
  - apply ret_inv in E as [<- _]. eapply zero_outside_mono; [| exact Hz]. intros i q ->. done.
Qed.

Lemma x86_xsave_inv xf f xs l u vk u' :
  zero_outside (rect 0 nvecregs 0 2) l -> x86_xsave (Z.land xf f) xs l u = (inl vk, u') ->
  zero_outside (covered (u64 xf)) (fst vk) /\ length (snd vk) = 8%nat /\
  Forall (in_width 64) (snd vk).
Proof.
  intros Hz E. unfold x86_xsave in E.
  apply bind_inv in E as (l1 & u1 & E1 & E).
  apply (copy_if_outside _ 2 (fun i => 8 * i + 2)%nat (fun buf i => buf + 16 * Z.of_nat i) nvecregs 0 2 _ _ _ _ _ _
    ltac:(intros; cbn beta; lia) ltac:(lia) Hz) in E1.
  apply bind_inv in E as (kr & u2 & E2 & E). apply bind_inv in E as (l2 & u3 & E3 & E).
  apply (copy_if_outside _ 4 (fun i => 8 * i + 4)%nat (fun buf i => buf + 32 * Z.of_nat i) nvecregs 0 4 _ _ _ _ _ _
    ltac:(intros; cbn beta; lia) ltac:(lia) E1) in E3.
  apply bind_inv in E as (l3 & u4 & E4 & E).
  apply (copy_if_outside _ 8 (fun i => 8 * (i + 16))%nat (fun buf i => buf + 64 * Z.of_nat i) 16 16 0 _ _ _ _ _ _
    ltac:(intros; cbn beta; lia) ltac:(lia) E3) in E4.
  apply ret_inv in E as [<- _]. cbn [fst snd]. split.
  - eapply zero_outside_mono; [| exact E4]. intros i q. unfold covered, XFEAT_AVX,
      XFEAT_AVX512_ZMM_HI256, XFEAT_AVX512_HI16_ZMM.
    rewrite !truth_bit, !Z.land_spec, !wrap_testbit by lia. intros K.
    rewrite !orb_true_iff, !(andb_true_iff _ (rect _ _ _ _ _ _)), !rect_true in K.
    unfold nvecregs in *. destruct (Z.testbit xf 2), (Z.testbit xf 6), (Z.testbit xf 7), x86_64;
      cbn [andb orb] in *; case_if; rewrite ?orb_true_iff, ?andb_true_iff, ?Nat.ltb_lt, ?Nat.ltb_ge, ?Nat.leb_le in *;
      intuition (try lia; try congruence).
  - destruct (truth (Z.land (Z.land xf f) XFEAT_AVX512_OPMASK));
      [apply bind_inv in E2 as (buf & u5 & _ & E2); by eapply quads_inv |].
    apply ret_inv in E2 as [<- _]. split; [done |]. apply (Forall_replicate _ 8). by vm_compute.
Qed.

Lemma zeros_ok : length (replicate 8 0) = 8%nat /\ Forall (in_width 64) (replicate 8 0).
Proof. split; [done |]. apply (Forall_replicate _ 8). by vm_compute. Qed.

Lemma x86_fpstate_inv xf fp u mxcsr vregs kregs u' :
  x86_fpstate xf fp u = (inl (mxcsr, vregs, kregs), u') ->
  in_width 32 mxcsr /\ zero_outside (covered (u64 xf)) vregs /\
  length kregs = 8%nat /\ Forall (in_width 64) kregs.
Proof.
  assert (forall c l, zero_outside (fun _ _ => false) l -> zero_outside c l) as Hn
    by (intros c l; by apply zero_outside_mono).
  assert (in_width 32 0 /\ zero_outside (covered (u64 xf)) (replicate (8 * max_vregs) 0) /\
    length (replicate 8 0) = 8%nat /\ Forall (in_width 64) (replicate 8 0)) as R0.
  { split; [by vm_compute |]. split; [apply Hn, zero_outside_none | apply zeros_ok]. }
  intros E. unfold x86_fpstate in E. destruct (fp =? 0); [by apply ret_inv in E as [[= <- <- <-] _] |].
  apply bind_inv in E as (magic & u1 & _ & E).
  destruct (negb _); [by apply ret_inv in E as [[= <- <- <-] _] |]. clear R0.
  apply bind_inv in E as (mx & u2 & E2 & E). apply (load_inv xc_mem 4) in E2 as [W _].
  apply bind_inv in E as (l & u3 & E3 & E).
  apply (copy_loop_outside _ 2 (fun i => 8 * i)%nat _ nvecregs 0 0 _ _ _ _
    ltac:(intros; cbn beta; lia) ltac:(lia) zero_outside_none) in E3. cbn [orb] in E3.
  apply bind_inv in E as (m1 & u4 & _ & E). destruct (negb _).
  - apply ret_inv in E as [[= <- <- <-] _]. split; [done |]. split; [| apply zeros_ok].
    eapply zero_outside_mono; [| exact E3]. intros i q K. apply rect_true in K. unfold covered.
    destruct (Nat.ltb_spec i nvecregs); [| lia]. destruct (Nat.ltb_spec q 2); [done | lia].
  - apply bind_inv in E as (f & u5 & _ & E). apply bind_inv in E as (vk & u6 & E6 & E).
    apply (x86_xsave_inv xf f fp l u5 vk u6 E3) in E6 as (Z1 & L1 & F1).
    by apply ret_inv in E as [[= <- <- <-] _].
Qed.

(** What a captured register file looks like. *)
Record x86_captured (r : x86_reginfo) : Prop := {
  xcap_wf : struct_wf r;
  xcap_gregs i : regname i = None -> nth i (x_gregs r) 0 = 0;
  xcap_vregs i q : (q < 8)%nat -> quad r i q <> 0 -> covered (x_xfeatures r) i q = true
}.

Lemma x86_greg_width im u i : in_width (8 * Z.of_nat greg_bytes) (x86_greg im u i).
Proof.
  assert (forall z, in_width (8 * Z.of_nat greg_bytes) (greg_t z)) as W by (intros z; apply wrap_range; lia).
  assert (forall z, in_width 32 z -> in_width (8 * Z.of_nat greg_bytes) z) as W32.
  { intros z. apply in_width_le. unfold greg_bytes. destruct x86_64; lia. }
  unfold x86_greg. repeat case_if; auto.
  - apply land_in_width; [lia | apply W | lia].
  - apply W32. by vm_compute.
  - apply W32. by vm_compute.
Qed.

Lemma x86_greg_unnamed im u i : regname i = None -> x86_greg im u i = 0.
Proof.
  intros E. unfold x86_greg. rewrite E. revert E. unfold regname, REG_IP, REG_EFL, REG_SP.
  destruct x86_64; repeat (match goal with |- context [(i =? ?k)%nat] => destruct (Nat.eqb_spec i k) as [->|] end;
    [done |]); done.
Qed.

Lemma x86_init_inv xf im si u r u' :
  x86_reginfo_init xf im si u = (inl r, u') -> x86_captured r.
Proof.
  intros E. unfold x86_reginfo_init in E. apply bind_inv in E as (u1 & u2 & _ & E).
  apply bind_inv in E as (insn & u3 & E3 & E). apply (load_inv xc_mem 4) in E3 as [W3 _].
  apply bind_inv in E as ([[mxcsr l] kr] & u4 & E4 & E).
  apply x86_fpstate_inv in E4 as (Wm & (Lv & Fv & Zv) & Lk & Fk). apply ret_inv in E as [<- _]. split.
  - unfold struct_wf. cbn [members to_members x86_layout].
    repeat (apply Forall2_cons; split); try apply Forall2_nil_2;
      try (apply member_one; first [exact W3 | exact Wm | apply wrap_range; lia]); split;
      cbn [fst snd x_gregs x_vregs x_kregs]; try done.
    + by rewrite length_map, length_seq.
    + apply Forall_map, Forall_forall. intros i _. apply x86_greg_width.
  - intros i Hi. cbn [x_gregs]. rewrite nth_lookup. destruct (map _ _ !! i) eqn:E; [| done].
    apply list_lookup_fmap_Some in E as (j & -> & Ej). apply lookup_seq in Ej as [-> _].
    by apply x86_greg_unnamed.
  - exact Zv.
Qed.

Lemma quads_keeps n p : keeps id (quads n p).
Proof. revert p. induction n; intros p; cbn [quads]; eauto 10 with keeps. Qed.
#[local] Hint Resolve quads_keeps : keeps.

Lemma copy_keeps w dst src ix l : keeps id (copy_loop w dst src ix l).
Proof. revert l. induction ix; intros l; cbn [copy_loop]; eauto 10 with keeps. Qed.

Lemma xsave_keeps xs f : keeps id (xsave_feature_buf xs f).
Proof. unfold xsave_feature_buf. destruct (get_cpuid_count _ _) as [[[[]]]|]; eauto 10 with keeps. Qed.
#[local] Hint Resolve copy_keeps xsave_keeps : keeps.

Lemma x86_init_keeps o im si : keeps id (x86_reginfo_init o im si).
Proof.
  assert (forall f xs l, keeps id (x86_xsave f xs l)) as K1 by (intros; unfold x86_xsave; eauto 20 with keeps).
  assert (forall fp, keeps id (x86_fpstate o fp)) as K2 by (intros; unfold x86_fpstate; eauto 30 with keeps).
  unfold x86_reginfo_init. apply keeps_bind; [auto with keeps | intros u].
  apply keeps_bind; [auto with keeps | intros i]. apply keeps_bind; [apply K2 |].
  intros [[m l] k]. auto with keeps.
Qed.

#[export] Instance x86_laws : CpuLaws (R := x86_reginfo) (U := x86_ctx) (O := Z).
Proof.
  refine {| cpu_ctx_wf := fun u => length (xc_gregs u) = NGREG; cpu_wf := struct_wf; cpu_same := eq |}.
  - by intros [].
  - unfold struct_sizeof, struct_layout. cbn [members x86_layout].
    unfold greg_bytes, NGREG, max_vregs. by destruct x86_64; vm_compute.
  - done.
  - intros r _. split; [apply Nat2Z.is_nonneg | apply Z.le_refl].
  - intros o im si u r u' E. by apply x86_init_inv in E as [W _ _].
  - intros o im si u r u' W E. apply x86_init_keeps in E. unfold id in E. by subst.
  - done.
  - intros m r ->. by apply bool_decide_eq_true.
  - intros u W. simpl. by rewrite length_insert.
  - intros v u W. simpl. by rewrite length_insert.
Defined.

(** ** What decides the verdict *)

(** The instruction and where it is in the image, the registers with names but the
    stack pointer, five flags, the features asked for, and the floating-point and
    vector state. *)
Definition x86_agree (xf xf' : Z) (im im' : image) (u v : x86_ctx) : Prop :=
  fst (load xc_mem 4 (uc_greg u REG_IP) u) = fst (load xc_mem 4 (uc_greg v REG_IP) v) /\
  greg_t (uc_greg u REG_IP - image_start_address im) = greg_t (uc_greg v REG_IP - image_start_address im') /\
  Z.land (greg_t (uc_greg u REG_EFL)) 0xd5 = Z.land (greg_t (uc_greg v REG_EFL)) 0xd5 /\
  (forall i s, regname i = Some s -> i <> REG_IP -> i <> REG_EFL -> i <> REG_SP ->
     greg_t (uc_greg u i) = greg_t (uc_greg v i)) /\
  u64 xf = u64 xf' /\
  fst (x86_fpstate xf (xc_fpregs u) u) = fst (x86_fpstate xf' (xc_fpregs v) v).

Lemma x86_init_eq xf im si u r u' :
  x86_reginfo_init xf im si u = (inl r, u') ->
  exists insn mxcsr vregs kregs, load xc_mem 4 (uc_greg u REG_IP) u = (inl insn, u) /\
    x86_fpstate xf (xc_fpregs u) u = (inl (mxcsr, vregs, kregs), u') /\
    r = X86Reginfo insn mxcsr (u64 xf) (map (x86_greg im u) (seq 0 NGREG)) vregs kregs.
Proof.
  intros E. unfold x86_reginfo_init in E. apply bind_inv in E as (u1 & u2 & E1 & E).
  injection E1 as <- <-. unfold id in E. apply bind_inv in E as (insn & u3 & E3 & E).
  pose proof (load_inv xc_mem 4 _ _ _ _ E3) as [_ ->].
  apply bind_inv in E as ([[mxcsr l] kr] & u4 & E4 & E). apply ret_inv in E as [<- <-].
  by exists insn, mxcsr, l, kr.
Qed.

Lemma x86_reginfo_inj i m x g v k i' m' x' g' v' k' :
  X86Reginfo i m x g v k = X86Reginfo i' m' x' g' v' k' <->
  i = i' /\ m = m' /\ x = x' /\ g = g' /\ v = v' /\ k = k'.
Proof. split; [by intros [= -> -> -> -> -> ->] | by intros (-> & -> & -> & -> & -> & ->)]. Qed.

(** The named registers are among those that are captured. *)
Lemma regname_lt i s : regname i = Some s -> (i < NGREG)%nat.
Proof.
  unfold regname, NGREG. intros E. destruct (Nat.lt_ge_cases i 23) as [Hi|Hi].
  - destruct x86_64; [done |]. destruct (Nat.lt_ge_cases i 19); [done |].
    by rewrite nth_overflow in E by (simpl; lia).
  - by destruct x86_64; rewrite nth_overflow in E by (simpl; lia).
Qed.

Lemma x86_gregs_same im im' u v :
  map (x86_greg im u) (seq 0 NGREG) = map (x86_greg im' v) (seq 0 NGREG) <->
  greg_t (uc_greg u REG_IP - image_start_address im) = greg_t (uc_greg v REG_IP - image_start_address im') /\
  Z.land (greg_t (uc_greg u REG_EFL)) 0xd5 = Z.land (greg_t (uc_greg v REG_EFL)) 0xd5 /\
  (forall i s, regname i = Some s -> i <> REG_IP -> i <> REG_EFL -> i <> REG_SP ->
     greg_t (uc_greg u i) = greg_t (uc_greg v i)).
Proof.
  assert (REG_IP < NGREG /\ REG_EFL < NGREG /\ REG_EFL <> REG_IP)%nat as (B1 & B2 & B3)
    by (unfold REG_IP, REG_EFL, NGREG; destruct x86_64; lia).
  split.
  - intros E. assert (forall i, (i < NGREG)%nat -> x86_greg im u i = x86_greg im' v i) as K.
    { intros i Hi. apply (f_equal (fun l => l !! i)) in E.
      rewrite !list_lookup_fmap, !lookup_seq_lt in E by done. by injection E. }
    pose proof (K _ B1) as K1. pose proof (K _ B2) as K2. unfold x86_greg in K1, K2.
    rewrite !Nat.eqb_refl in K1. apply Nat.eqb_neq in B3. rewrite B3, !Nat.eqb_refl in K2.
    split; [done |]. split; [done |]. intros i s Hs N1 N2 N3. specialize (K i (regname_lt i s Hs)).
    unfold x86_greg in K. apply Nat.eqb_neq in N1, N2, N3. by rewrite N1, N2, N3, Hs in K.
  - intros (E1 & E2 & E3). apply map_ext. intros i. unfold x86_greg.
    destruct (Nat.eqb_spec i REG_IP) as [->|N1]; [done |].
    destruct (Nat.eqb_spec i REG_EFL) as [->|N2]; [done |].
    destruct (Nat.eqb_spec i REG_SP) as [->|N3]; [done |].
    destruct (regname i) eqn:Hs; [| done]. by eapply E3.
Qed.

Lemma x86_verdict xf xf' im im' si si' u v m a u' v' :
  x86_reginfo_init xf im si u = (inl m, u') -> x86_reginfo_init xf' im' si' v = (inl a, v') ->
  x86_reginfo_is_eq m a = true <-> x86_agree xf xf' im im' u v.
Proof.
  intros Em Ea. apply x86_init_eq in Em as (i & mx & l & k & L & V & ->).
  apply x86_init_eq in Ea as (i' & mx' & l' & k' & L' & V' & ->).
  unfold x86_reginfo_is_eq, x86_agree. rewrite bool_decide_eq_true, L, L', V, V'. cbn [fst].
  rewrite !(inj_iff inl), !pair_equal_spec, x86_reginfo_inj, x86_gregs_same. tauto.
Qed.

(** ** Reports *)

(** The words that are captured and not reported: without the feature of the upper
    halves of the 512-bit registers, those of the registers from 16 on beyond the
    words that are printed. *)
Definition x86_hidden (xf : Z) (i q : nat) : bool :=
  x86_64 && Z.testbit xf 7 && negb (Z.testbit xf 6) && (16 <=? i)%nat && (get_nvecquads xf <=? q)%nat.

(** What is captured is reported or hidden, and what is reported is not hidden. *)
Lemma covered_shown xf i q :
  (i < max_vregs)%nat -> (q < 8)%nat -> covered xf i q = true -> x86_hidden xf i q = false ->
  (i < get_nvecregs xf /\ q < get_nvecquads xf)%nat.
Proof.
  intros Hi Hq. unfold covered, x86_hidden, get_nvecregs, get_nvecquads, max_vregs, nvecregs in *.
  unfold XFEAT_AVX, XFEAT_AVX512_ZMM_HI256, XFEAT_AVX512_HI16_ZMM. rewrite !truth_bit by lia.
  destruct x86_64, (Z.testbit xf 7), (Z.testbit xf 6), (Z.testbit xf 2); cbn [andb negb];
    case_if; rewrite ?orb_true_iff, ?andb_true_iff, ?andb_false_iff, ?Nat.ltb_lt, ?Nat.ltb_ge,
      ?Nat.leb_le, ?Nat.leb_gt in *; intuition (try lia; try congruence).
Qed.

Lemma shown_not_hidden xf i q : (q < get_nvecquads xf)%nat -> x86_hidden xf i q = false.
Proof. intros Hq. unfold x86_hidden. apply andb_false_iff. right. by apply Nat.leb_gt. Qed.

Lemma nvecregs_max xf : (get_nvecregs xf <= max_vregs /\ get_nvecquads xf <= 8)%nat.
Proof. unfold get_nvecregs, get_nvecquads, max_vregs. destruct x86_64; repeat case_if; lia. Qed.

(** The words that are not hidden agree. *)
Definition x86_shown_eq (m a : x86_reginfo) : Prop :=
  forall i q, (i < max_vregs)%nat -> (q < 8)%nat -> x86_hidden (x_xfeatures m) i q = false ->
  quad m i q = quad a i q.

(** Registers that agree where they are shown agree where they are not hidden. *)
Lemma x86_vregs_eq m a :
  x86_captured m -> x86_captured a -> x_xfeatures m = x_xfeatures a ->
  Forall (fun i => x86_vreg_eq m a (get_nvecquads (x_xfeatures m)) i = true)
    (seq 0 (get_nvecregs (x_xfeatures m))) <-> x86_shown_eq m a.
Proof.
  intros [_ _ Vm] [_ _ Va] Ex. rewrite Forall_forall. split.
  - intros K i q Hi Hq Hh. specialize (Vm i q Hq). specialize (Va i q Hq). rewrite <-Ex in Va.
    destruct (covered (x_xfeatures m) i q) eqn:C.
    + apply (covered_shown _ _ _ Hi Hq) in C as [C1 C2]; [| done].
      specialize (K i ltac:(apply elem_of_seq; lia)). apply forallb_Forall_true in K.
      rewrite Forall_forall in K. apply Z.eqb_eq, K, elem_of_seq. lia.
    + destruct (Z.eq_dec (quad m i q) 0) as [->|Z1]; [| by specialize (Vm Z1)].
      destruct (Z.eq_dec (quad a i q) 0) as [->|Z2]; [done | by specialize (Va Z2)].
  - intros K i Hi. apply elem_of_seq in Hi. apply forallb_Forall_true, Forall_forall. intros j Hj.
    apply elem_of_seq in Hj. pose proof (nvecregs_max (x_xfeatures m)).
    apply Z.eqb_eq, K; [lia | lia |]. apply shown_not_hidden. lia.
Qed.

(** All words together. *)
Lemma x86_quads_eq m a :
  struct_wf m -> struct_wf a ->
  (forall i q, (i < max_vregs)%nat -> (q < 8)%nat -> quad m i q = quad a i q) -> x_vregs m = x_vregs a.
Proof.
  intros Wm Wa K. pose proof (struct_lengths m Wm) as Lm. pose proof (struct_lengths a Wa) as La.
  cbn in Lm, La. injection Lm as _ Lm _. injection La as _ La _.
  apply (nth_ext _ _ 0 0); [congruence |]. intros n Hn.
  pose proof (Nat.div_mod n 8 ltac:(lia)) as D. pose proof (Nat.mod_upper_bound n 8 ltac:(lia)) as B.
  specialize (K (n / 8)%nat (n mod 8)%nat ltac:(lia) B). unfold quad in K. by rewrite <-D in K.
Qed.

(** Captured register files violate no assertion. *)
Lemma x86_asserts_hold m a : x86_captured m -> x86_captured a -> x86_asserts m a = true.
Proof.
  intros Cm Ca. apply forallb_Forall_true, Forall_forall. intros i _. apply orb_true_iff.
  destruct (regname i) eqn:E; [by right | left]. unfold x86_greg_eq.
  rewrite (xcap_gregs m Cm i E), (xcap_gregs a Ca i E). done.
Qed.

(** When the report has no lines. *)
Lemma x86_report m a :
  x86_captured m -> x86_captured a ->
  x86_reginfo_dump_mismatch m a = Some x86_heading <->
  x_gregs m = x_gregs a /\ x_mxcsr m = x_mxcsr a /\ x_xfeatures m = x_xfeatures a /\
  x86_shown_eq m a /\ x_kregs m = x_kregs a.
Proof.
  intros Cm Ca. unfold x86_reginfo_dump_mismatch, x86_greg_eq.
  rewrite x86_asserts_hold by done. cbn [negb].
  pose proof (struct_lengths m (xcap_wf m Cm)) as Lm. pose proof (struct_lengths a (xcap_wf a Ca)) as La.
  cbn in Lm, La. injection Lm as Lg _ Lk. injection La as Lg' _ Lk'.
  rewrite <-(app_nil_r x86_heading) at 2. rewrite (inj_iff Some), app_inv_head_iff.
  rewrite !app_nil_iff, !differ_nil, !differ_each_nil, !array_eq by done.
  pose proof (x86_vregs_eq m a Cm Ca) as V. split; intros (Eg & Em & Ex & Ev & Ek); apply (V Ex) in Ev; done.
Qed.

(** The comparison is finer: it sees the instruction and the hidden words. *)
Lemma x86_is_eq_report m a :
  x86_captured m -> x86_captured a ->
  x86_reginfo_is_eq m a = true <->
  x86_reginfo_dump_mismatch m a = Some x86_heading /\ x_faulting_insn m = x_faulting_insn a /\
  forall i q, (i < max_vregs)%nat -> (q < 8)%nat -> x86_hidden (x_xfeatures m) i q = true ->
    quad m i q = quad a i q.
Proof.
  intros Cm Ca. unfold x86_reginfo_is_eq. rewrite bool_decide_eq_true, x86_report by done. split.
  - by intros ->.
  - intros ((Eg & Em & Ex & Ev & Ek) & Ei & Eh).
    assert (x_vregs m = x_vregs a) as El.
    { apply x86_quads_eq; [apply Cm | apply Ca |]. intros i q Hi Hq.
      destruct (x86_hidden (x_xfeatures m) i q) eqn:K; [by apply Eh | by apply Ev]. }
    destruct m, a; simpl in *. congruence.
Qed.
End x86.
