(* ===== verification/AArch64.v ===== *)
(** * AArch64 (risu_aarch64.c, risu_reginfo_aarch64.c and .h)

    The register file, how it is captured, compared and reported.  The vector
    registers are in records behind the context; the register file has room for
    the longest vectors, and only the part in use is transmitted and compared. *)

From stdpp Require Import gmap.
From S2P Require Import Prelude Endian Comms Arch Cpu.

(** ** Sizes *)

(** From the kernel's <asm/sigcontext.h>: a vector register has [vq] units of 16
    bytes, a predicate register has [vq] units of two; there are 32 vector
    registers, and 16 predicate registers followed by FFR. *)
Definition SVE_NUM_ZREGS : nat := 32.
Definition SVE_NUM_PREGS : nat := 16.
Definition SVE_SIG_REGS_OFFSET : Z := 16.
Definition SVE_SIG_REGS_SIZE (vq : Z) : Z := 32 * (16 * vq) + 16 * (2 * vq) + 2 * vq.
Definition SVE_SIG_CONTEXT_SIZE (vq : Z) : Z := SVE_SIG_REGS_OFFSET + SVE_SIG_REGS_SIZE vq.
Definition sve_vq_from_vl (vl : Z) : Z := vl / 16.
Definition sve_vl_from_vq (vq : Z) : Z := vq * 16.

Definition SVE_VQ_MAX : Z := 16.
Definition ROUND_UP (size pow2 : Z) : Z := Z.land (size + pow2 - 1) (- pow2).
Definition RISU_SVE_REGS_SIZE (vq : Z) : Z := ROUND_UP (SVE_SIG_REGS_SIZE vq) 16.
Definition RISU_SIMD_REGS_SIZE : Z := 32 * 16.

(** The length of [extra], and its offset. *)
Definition extra_len : nat := Z.to_nat (RISU_SVE_REGS_SIZE SVE_VQ_MAX).
Definition extra_offset : nat := 304.

(** [struct reginfo], with the padding that aligns [extra]. *)
Record a64_reginfo : Type := A64Reginfo {
  a_fault_address : Z;
  a_regs : list Z;
  a_sp : Z;
  a_pc : Z;
  a_flags : Z;
  a_faulting_insn : Z;
  a_fpsr : Z;
  a_fpcr : Z;
  a_sve_vl : Z;
  a_reserved : Z;
  a_padding : list Z;
  a_extra : list Z
}.

(** The context of a signal, with the address of [__reserved]; the memory; and
    what [reginfo_init] has written to stderr. *)
Record a64_ctx : Type := A64Ctx {
  qc_regs : list Z;
  qc_pc : Z;
  qc_pstate : Z;
  qc_fault_address : Z;
  qc_reserved : Z;
  qc_mem : gmap Z Z;
  qc_err : text
}.

Definition set_qc_regs (v : list Z) (u : a64_ctx) : a64_ctx :=
  A64Ctx v (qc_pc u) (qc_pstate u) (qc_fault_address u) (qc_reserved u) (qc_mem u) (qc_err u).
Definition set_qc_pc (v : Z) (u : a64_ctx) : a64_ctx :=
  A64Ctx (qc_regs u) v (qc_pstate u) (qc_fault_address u) (qc_reserved u) (qc_mem u) (qc_err u).
Definition set_qc_err (v : text) (u : a64_ctx) : a64_ctx :=
  A64Ctx (qc_regs u) (qc_pc u) (qc_pstate u) (qc_fault_address u) (qc_reserved u) (qc_mem u) v.

#[export] Instance a64_layout : Layout a64_reginfo := {|
  members := [(8, 1); (8, 31); (8, 1); (8, 1); (4, 1); (4, 1); (4, 1); (4, 1); (2, 1); (2, 1);
              (1, 12); (1, extra_len)]%nat;
  to_members r := [[a_fault_address r]; a_regs r; [a_sp r]; [a_pc r]; [a_flags r];
                   [a_faulting_insn r]; [a_fpsr r]; [a_fpcr r]; [a_sve_vl r]; [a_reserved r];
                   a_padding r; a_extra r];
  of_members vss :=
    let one i := nth 0 (nth i vss []) 0 in
    A64Reginfo (one 0%nat) (nth 1 vss []) (one 2%nat) (one 3%nat) (one 4%nat) (one 5%nat)
      (one 6%nat) (one 7%nat) (one 8%nat) (one 9%nat) (nth 10 vss []) (nth 11 vss [])
|}.

(** ** risu_aarch64.c *)

Definition a64_advance_pc (u : a64_ctx) : a64_ctx := set_qc_pc (u64 (qc_pc u + 4)) u.

Definition a64_get_uc_pc (u : a64_ctx) (siaddr : Z) : Z := qc_pc u.

Definition a64_set_ucontext_paramreg (value : Z) (u : a64_ctx) : a64_ctx :=
  set_qc_regs (<[0%nat := u64 value]> (qc_regs u)) u.

Definition a64_get_reginfo_paramreg (ri : a64_reginfo) : Z := nth 0 (a_regs ri) 0.

Definition a64_get_risuop (ri : a64_reginfo) : RisuOp :=
  let insn := a_faulting_insn ri in
  let op := Z.land insn 0xf in
  let key := andnot insn 0xf in
  if negb (key =? 0x00005af0) then OP_SIGILL else RisuOp_of_Z op.

Definition a64_get_pc (ri : a64_reginfo) : Z := a_pc ri.

(** ** risu_reginfo_aarch64.c *)

(** The bytes of [extra] that are in use. *)
Definition extra_used (ri : a64_reginfo) : Z :=
  if truth (a_sve_vl ri) then RISU_SVE_REGS_SIZE (sve_vq_from_vl (a_sve_vl ri))
  else RISU_SIMD_REGS_SIZE.

Definition a64_reginfo_size (ri : a64_reginfo) : Z := Z.of_nat extra_offset + extra_used ri.

Definition FPSIMD_MAGIC : Z := 0x46508001.
Definition SVE_MAGIC : Z := 0x53564501.
Definition EXTRA_MAGIC : Z := 0x45585401.
Definition sizeof_fpsimd_context : Z := 528.

Definition complain (fmt : string) (args : list arg) : M a64_ctx () :=
  modify (fun u => set_qc_err (qc_err u ++ [(fmt, args)]) u).

Section aarch64.
Context `{Build}.

(** [while (ctx)]: the records of the types that are looked for.  [fuel] bounds
    the number of records. *)
Fixpoint scan_loop (fuel : nat) (ctx fp sve extra : option Z) : M a64_ctx (option Z * option Z) :=
  match fuel with
  | O => stop HFuel
  | S fuel' =>
      match ctx with
      | None => mret (fp, sve)
      | Some p =>
          magic ← load qc_mem 4 p;
          if magic =? 0 then scan_loop fuel' extra fp sve None
          else
            extra ← (if magic =? EXTRA_MAGIC then
                       d ← load qc_mem 8 (p + 8); mret (if d =? 0 then None else Some d)
                     else mret extra);
            size ← load qc_mem 4 (p + 4);
            scan_loop fuel' (Some (p + size))
              (if magic =? FPSIMD_MAGIC then Some p else fp)
              (if magic =? SVE_MAGIC then Some p else sve) extra
      end
  end.

(** Each of the two lists has fewer records than there are bytes. *)
Definition scan : M a64_ctx (option Z * option Z) :=
  u ← gets id;
  scan_loop (2 * S (size (qc_mem u)) + 1) (Some (qc_reserved u)) None None None.

(** [extra] with [bs] at its beginning. *)
Definition in_extra (bs : bytes) : list Z := bs ++ replicate (extra_len - length bs) 0.

(** [memcpy] to [extra], which must not write beyond its end. *)
Definition copy_extra (n p : Z) : M a64_ctx (list Z) :=
  if n <=? Z.of_nat extra_len then bs ← load_bytes qc_mem (Z.to_nat n) p; mret (in_extra bs)
  else stop HUB.

(** [sve_vl] and [extra], from the record at [fp] or at [sve]. *)
Definition vector_regs (test_sve : Z) (fp : Z) (sve : option Z) : M a64_ctx (Z * list Z) :=
  let none := mret (0, replicate extra_len 0) in
  let simd := e ← copy_extra RISU_SIMD_REGS_SIZE (fp + 16); mret (0, e) in
  if truth test_sve then
    match sve with
    | None => _ ← complain "risu_reginfo_aarch64: failed to get SVE state\n" []; none
    | Some q =>
        vl ← load qc_mem 2 (q + 8);
        if negb (vl =? sve_vl_from_vq test_sve) then
          _ ← complain "risu_reginfo_aarch64: unexpected SVE state: %d != %d\n"
                [AInt vl; AInt (sve_vl_from_vq test_sve)];
          none
        else
          size ← load qc_mem 4 (q + 4);
          if size <=? SVE_SIG_CONTEXT_SIZE 0 then simd
          else if size <? SVE_SIG_CONTEXT_SIZE test_sve then
            _ ← complain "risu_reginfo_aarch64: failed to get complete SVE state\n" []; none
          else
            e ← copy_extra (SVE_SIG_REGS_SIZE test_sve) (q + SVE_SIG_REGS_OFFSET);
            mret (vl, e)
    end
  else simd.

(** [fpsr], [fpcr], [sve_vl] and [extra]. *)
Definition fp_state (test_sve : Z) : M a64_ctx (Z * Z * (Z * list Z)) :=
  let fail :=
    _ ← complain "risu_reginfo_aarch64: failed to get FP/SIMD state\n" [];
    mret (0, 0, (0, replicate extra_len 0)) in
  s ← scan;
  match fst s with
  | None => fail
  | Some p =>
      size ← load qc_mem 4 (p + 4);
      if negb (size =? sizeof_fpsimd_context) then fail
      else
        fpsr ← load qc_mem 4 (p + 8);
        fpcr ← load qc_mem 4 (p + 12);
        v ← vector_regs test_sve p (snd s);
        mret (fpsr, fpcr, v)
  end.

Definition a64_reginfo_init (test_sve : Z) (im : image) (siaddr : Z) : M a64_ctx a64_reginfo :=
  u ← gets id;
  insn ← load qc_mem 4 (qc_pc u);
  f ← fp_state test_sve;
  let '(fpsr, fpcr, (vl, extra)) := f in
  mret (A64Reginfo (u64 (qc_fault_address u)) (array 64 31 (qc_regs u)) 0xdeadbeefdeadbeef
    (u64 (qc_pc u - image_start_address im)) (Z.land (u64 (qc_pstate u)) 0xf0000000) insn
    fpsr fpcr vl 0 (replicate 12 0) extra).

(** [memcmp] of the bytes that are in use. *)
Definition a64_reginfo_is_eq (r1 r2 : a64_reginfo) : bool :=
  let n := Z.to_nat (a64_reginfo_size r1) in
  bool_decide (take n (struct_enc host_le r1) = take n (struct_enc host_le r2)).

(** [n] bytes of [extra], and the integer in them. *)
Definition extra_bytes (ri : a64_reginfo) (off n : nat) : bytes := take n (drop off (a_extra ri)).
Definition extra_int (ri : a64_reginfo) (off n : nat) : Z := int_val host_le (extra_bytes ri off n).

(** The offsets of [reginfo_vreg], [reginfo_zreg] and [reginfo_preg]. *)
Definition vreg_off (i : nat) : nat := i * 16.
Definition zreg_off (vq i : nat) : nat := 16 * vq * i.
Definition preg_off (vq i : nat) : nat := 16 * vq * SVE_NUM_ZREGS + 2 * vq * i.

Definition sve_zreg_is_eq (vq : nat) (m a : a64_reginfo) (i : nat) : bool :=
  bool_decide (extra_bytes m (zreg_off vq i) (vq * 16) = extra_bytes a (zreg_off vq i) (vq * 16)).

Definition sve_preg_is_eq (vq : nat) (m a : a64_reginfo) (i : nat) : bool :=
  bool_decide (extra_bytes m (preg_off vq i) (vq * 2) = extra_bytes a (preg_off vq i) (vq * 2)).

Definition sve_dump_preg (vq : nat) (ri : a64_reginfo) (i : nat) : text :=
  map (fun q => ("%04x"%string, [AInt (extra_int ri (preg_off vq i + 2 * q) 2)])) (rev (seq 0 vq)).

Definition sve_dump_preg_diff (vq : nat) (m a : a64_reginfo) (i : nat) : text :=
  sve_dump_preg vq m i ++ [(" vs "%string, [])] ++ sve_dump_preg vq a i ++ [("\n"%string, [])].

(** Word [k] of register [i]. *)
Definition zword (vq : nat) (ri : a64_reginfo) (i k : nat) : Z := extra_int ri (zreg_off vq i + 8 * k) 8.
Definition vword (ri : a64_reginfo) (i k : nat) : Z := extra_int ri (vreg_off i + 8 * k) 8.

(** The lines behind the first that is printed are indented. *)
Fixpoint sve_dump_zreg_diff (vq : nat) (m a : a64_reginfo) (i : nat) (pad : string) (qs : list nat)
    : text :=
  match qs with
  | [] => []
  | q :: qs' =>
      let za0 := zword vq m i (2 * q) in
      let za1 := zword vq m i (2 * q + 1) in
      let zb0 := zword vq a i (2 * q) in
      let zb1 := zword vq a i (2 * q + 1) in
      if negb (za0 =? zb0) || negb (za1 =? zb1) then
        ("%sq%-2d: %016lx%016lx vs %016lx%016lx\n"%string,
         [AStr pad; AInt (Z.of_nat q); AInt za1; AInt za0; AInt zb1; AInt zb0]) ::
        sve_dump_zreg_diff vq m a i "      " qs'
      else sve_dump_zreg_diff vq m a i pad qs'
  end.

Definition ri_vq (ri : a64_reginfo) : nat := Z.to_nat (sve_vq_from_vl (a_sve_vl ri)).

Definition a64_reginfo_dump (ri : a64_reginfo) : text :=
  let vq := ri_vq ri in
  [("  faulting insn %08x\n"%string, [AInt (a_faulting_insn ri)])] ++
  map (fun i => ("  X%-2d    : %016lx\n"%string, [AInt (Z.of_nat i); AInt (nth i (a_regs ri) 0)]))
    (seq 0 31) ++
  [("  sp     : %016lx\n", [AInt (a_sp ri)]);
   ("  pc     : %016lx\n", [AInt (a_pc ri)]);
   ("  flags  : %08x\n", [AInt (a_flags ri)]);
   ("  fpsr   : %08x\n", [AInt (a_fpsr ri)]);
   ("  fpcr   : %08x\n", [AInt (a_fpcr ri)])]%string ++
  if truth (a_sve_vl ri) then
    [("  vl     : %d\n"%string, [AInt (a_sve_vl ri)])] ++
    concat (map (fun i =>
      ("  Z%-2d q%-2d: %016lx%016lx\n"%string,
       [AInt (Z.of_nat i); AInt 0; AInt (zword vq ri i 1); AInt (zword vq ri i 0)]) ::
      map (fun q => ("      q%-2d: %016lx%016lx\n"%string,
             [AInt (Z.of_nat q); AInt (zword vq ri i (q * 2 + 1)); AInt (zword vq ri i (q * 2))]))
        (seq 1 (vq - 1))) (seq 0 SVE_NUM_ZREGS)) ++
    concat (map (fun i =>
      (if (i =? SVE_NUM_PREGS)%nat then ("  FFR    : "%string, [])
       else ("  P%-2d    : "%string, [AInt (Z.of_nat i)])) ::
      sve_dump_preg vq ri i ++ [("\n"%string, [])]) (seq 0 (SVE_NUM_PREGS + 1)))
  else
    map (fun i => ("  V%-2d    : %016lx%016lx\n"%string,
           [AInt (Z.of_nat i); AInt (vword ri i 1); AInt (vword ri i 0)])) (seq 0 32).

Definition a64_heading : text := [("mismatch detail (master : apprentice):\n"%string, [])].

Definition a64_vreg_eq (m a : a64_reginfo) (i : nat) : bool :=
  (vword m i 0 =? vword a i 0) && (vword m i 1 =? vword a i 1).

(** The vector registers in the report. *)
Definition a64_vector_mismatch (m a : a64_reginfo) : text :=
  let vq := ri_vq m in
  if truth (a_sve_vl m) then
    differ_each (seq 0 SVE_NUM_ZREGS) (sve_zreg_is_eq vq m a) (fun i =>
      ("  Z%-2d "%string, [AInt (Z.of_nat i)]) :: sve_dump_zreg_diff vq m a i EmptyString (seq 0 vq)) ++
    differ_each (seq 0 (SVE_NUM_PREGS + 1)) (sve_preg_is_eq vq m a) (fun i =>
      (if (i =? SVE_NUM_PREGS)%nat then ("  FFR   : "%string, [])
       else ("  P%-2d    : "%string, [AInt (Z.of_nat i)])) :: sve_dump_preg_diff vq m a i)
  else
    differ_each (seq 0 32) (a64_vreg_eq m a) (fun i =>
      [("  V%-2d    : %016lx%016lx vs %016lx%016lx\n"%string,
        [AInt (Z.of_nat i); AInt (vword m i 1); AInt (vword m i 0);
         AInt (vword a i 1); AInt (vword a i 0)])]).

Definition a64_reginfo_dump_mismatch (m a : a64_reginfo) : text :=
  a64_heading ++
  differ (a_faulting_insn m) (a_faulting_insn a)
    [("  faulting insn mismatch %08x vs %08x\n"%string,
      [AInt (a_faulting_insn m); AInt (a_faulting_insn a)])] ++
  differ_each (seq 0 31) (fun i => nth i (a_regs m) 0 =? nth i (a_regs a) 0) (fun i =>
    [("  X%-2d    : %016lx vs %016lx\n"%string,
      [AInt (Z.of_nat i); AInt (nth i (a_regs m) 0); AInt (nth i (a_regs a) 0)])]) ++
  differ (a_sp m) (a_sp a)
    [("  sp     : %016lx vs %016lx\n"%string, [AInt (a_sp m); AInt (a_sp a)])] ++
  differ (a_pc m) (a_pc a)
    [("  pc     : %016lx vs %016lx\n"%string, [AInt (a_pc m); AInt (a_pc a)])] ++
  differ (a_flags m) (a_flags a)
    [("  flags  : %08x vs %08x\n"%string, [AInt (a_flags m); AInt (a_flags a)])] ++
  differ (a_fpsr m) (a_fpsr a)
    [("  fpsr   : %08x vs %08x\n"%string, [AInt (a_fpsr m); AInt (a_fpsr a)])] ++
  differ (a_fpcr m) (a_fpcr a)
    [("  fpcr   : %08x vs %08x\n"%string, [AInt (a_fpcr m); AInt (a_fpcr a)])] ++
  differ (a_sve_vl m) (a_sve_vl a)
    [("  vl    : %d vs %d\n"%string, [AInt (a_sve_vl m); AInt (a_sve_vl a)])] ++
  a64_vector_mismatch m a.

#[export] Instance a64_cpu : Cpu a64_reginfo a64_ctx Z := {|
  cpu_advance_pc := a64_advance_pc;
  cpu_get_uc_pc := a64_get_uc_pc;
  cpu_set_paramreg := a64_set_ucontext_paramreg;
  cpu_get_paramreg := a64_get_reginfo_paramreg;
  cpu_get_risuop := a64_get_risuop;
  cpu_get_pc := a64_get_pc;
  cpu_init := a64_reginfo_init;
  cpu_is_eq := a64_reginfo_is_eq;
  cpu_dump := a64_reginfo_dump;
  cpu_dump_mismatch := a64_reginfo_dump_mismatch;
  cpu_size := a64_reginfo_size;
  cpu_mem := qc_mem
|}.

(** ** Laws *)

#[local] Opaque extra_len extra_offset.

Definition set_extra (e : list Z) (r : a64_reginfo) : a64_reginfo :=
  A64Reginfo (a_fault_address r) (a_regs r) (a_sp r) (a_pc r) (a_flags r) (a_faulting_insn r)
    (a_fpsr r) (a_fpcr r) (a_sve_vl r) (a_reserved r) (a_padding r) e.

(** Everything but [extra]. *)
Definition head_layout : list nat := flat_layout (take 11 members).
Definition enc_head (le : bool) (r : a64_reginfo) : bytes :=
  encode_fields le head_layout (flatten (take 11 members) (take 11 (to_members r))).

Lemma enc_split le r :
  struct_enc le r = enc_head le r ++ map (wrap 8) (resize extra_len 0 (a_extra r)).
Proof.
  rewrite <-(encode_fields_bytes le extra_len) by apply length_resize.
  unfold struct_enc, enc_head. rewrite <-encode_fields_app by apply flatten_length.
  f_equal. cbn [flatten members a64_layout take to_members]. by rewrite <-!app_assoc, app_nil_r.
Qed.

Lemma enc_head_length le r : length (enc_head le r) = extra_offset.
Proof. unfold enc_head. rewrite encode_fields_length by apply flatten_length. vm_compute. reflexivity. Qed.

Lemma enc_head_extra le e r : enc_head le (set_extra e r) = enc_head le r.
Proof. reflexivity. Qed.

#[local] Opaque struct_enc struct_dec enc_head.

(** The first [n] bytes. *)
Lemma enc_take le r n :
  take n (struct_enc le r) =
  take n (enc_head le r) ++
  map (wrap 8) (resize ((n - extra_offset) `min` extra_len) 0 (take (n - extra_offset) (a_extra r))).
Proof.
  rewrite enc_split, take_app, enc_head_length, firstn_map, take_resize.
  by rewrite resize_take_le by lia.
Qed.

(** The lengths a register file may have. *)
Definition a64_wf (r : a64_reginfo) : Prop :=
  struct_wf r /\ (a_sve_vl r = 0 \/ exists vq, 1 <= vq <= SVE_VQ_MAX /\ a_sve_vl r = sve_vl_from_vq vq).

Lemma sve_size_range vq :
  1 <= vq <= SVE_VQ_MAX -> SVE_SIG_REGS_SIZE vq <= RISU_SVE_REGS_SIZE vq <= Z.of_nat extra_len.
Proof.
  intros Hv. assert (Forall (fun vq => SVE_SIG_REGS_SIZE vq <= RISU_SVE_REGS_SIZE vq <= Z.of_nat extra_len)
    (seqZ 1 16)) as F by (vm_compute; repeat constructor; congruence).
  rewrite Forall_forall in F. apply F, elem_of_seqZ. unfold SVE_VQ_MAX in Hv. lia.
Qed.

Lemma sve_vq_vl vq : sve_vq_from_vl (sve_vl_from_vq vq) = vq.
Proof. unfold sve_vq_from_vl, sve_vl_from_vq. by rewrite Z.div_mul. Qed.

Lemma extra_used_range r : a64_wf r -> 0 <= extra_used r <= Z.of_nat extra_len.
Proof.
  intros [_ [E|(vq & Hv & E)]]; unfold extra_used; rewrite E.
  - vm_compute. split; congruence.
  - pose proof (sve_size_range vq Hv) as S. rewrite sve_vq_vl.
    assert (truth (sve_vl_from_vq vq) = true) as ->.
    { unfold truth, sve_vl_from_vq. apply negb_true_iff, Z.eqb_neq. lia. }
    unfold SVE_SIG_REGS_SIZE in S. lia.
Qed.

(** Register files that agree on what is transmitted. *)
Definition a64_same (m a : a64_reginfo) : Prop :=
  let n := Z.to_nat (extra_used a) in
  m = set_extra (a_extra m) a /\ take n (a_extra m) = take n (a_extra a).

Lemma a64_same_size m a : a64_same m a -> a64_reginfo_size m = a64_reginfo_size a.
Proof. intros [-> _]. reflexivity. Qed.

Lemma extra_used_nonneg r : 0 <= a_sve_vl r -> 0 <= extra_used r.
Proof.
  intros Hv. unfold extra_used. destruct (truth _); [| by vm_compute].
  unfold RISU_SVE_REGS_SIZE, ROUND_UP. apply Z.land_nonneg. left.
  unfold SVE_SIG_REGS_SIZE, sve_vq_from_vl. pose proof (Z.div_pos (a_sve_vl r) 16). lia.
Qed.

Lemma a64_same_eq m a : a64_same m a -> a64_reginfo_is_eq m a = true.
Proof.
  intros S. apply bool_decide_eq_true. rewrite (a64_same_size m a S). destruct S as [Em Et].
  set (n := Z.to_nat (a64_reginfo_size a)).
  assert (n - extra_offset = Z.to_nat (extra_used a))%nat as Ek by (unfold n, a64_reginfo_size; lia).
  eapply eq_trans; [apply enc_take |]. eapply eq_trans; [| symmetry; apply enc_take].
  rewrite Ek, Et. f_equal. f_equal. rewrite Em. apply enc_head_extra.
Qed.

(** Splicing the beginning of one sequence of bytes into another. *)
Lemma splice_prefix (so sr sn hd hd' xo xr xn : bytes) n :
  so = hd' ++ xo -> sr = hd ++ xr -> sn = hd ++ xn -> length hd' = length hd ->
  (n <= length xr)%nat -> take n xr ++ drop n xo = xn ->
  splice so (take (length hd + n) sr) = sn.
Proof.
  intros -> -> -> Lh Ln <-. unfold splice. rewrite take_app_add, <-app_assoc. f_equal. f_equal.
  rewrite length_app, length_take, Nat.min_l, <-Lh by done. apply drop_app_add.
Qed.

(** What arrives is what was sent, in front of what was there. *)
Lemma a64_transfer le r old :
  a64_wf r ->
  let n := Z.to_nat (extra_used r) in
  struct_dec le (splice (struct_enc le old) (take (Z.to_nat (a64_reginfo_size r)) (struct_enc le r))) =
  set_extra (take n (a_extra r) ++ drop n (map (wrap 8) (resize extra_len 0 (a_extra old)))) r.
Proof.
  intros W. pose proof (extra_used_range r W) as Hn. destruct W as [W Hv]. cbn zeta.
  set (n := Z.to_nat (extra_used r)). set (e := take n (a_extra r) ++ drop n _).
  assert (n <= extra_len)%nat by lia.
  pose proof (Forall2_lookup_l _ _ _ 11 (1, extra_len)%nat W eq_refl) as (? & E & [L F]).
  injection E as <-. cbn [fst snd] in L, F.
  assert (Forall (in_width 8) e) as Fe.
  { apply Forall_app. split; [by apply Forall_take |]. apply Forall_drop, Forall_map, Forall_forall.
    intros z _. by apply wrap_range. }
  assert (length e = extra_len) as Le.
  { unfold e. rewrite length_app, length_take, length_drop, length_map, length_resize. lia. }
  assert (struct_wf (set_extra e r)) as W'.
  { unfold struct_wf in *. cbn [members to_members a64_layout] in *.
    repeat (apply Forall2_cons_1 in W as [? W]). repeat (apply Forall2_cons; split; [assumption |]).
    apply Forall2_cons. split; [| constructor]. by split. }
  assert (splice (struct_enc le old) (take (Z.to_nat (a64_reginfo_size r)) (struct_enc le r)) =
    struct_enc le (set_extra e r)) as ->.
  { replace (Z.to_nat (a64_reginfo_size r)) with (length (enc_head le r) + n)%nat
      by (rewrite enc_head_length; unfold n, a64_reginfo_size; lia).
    eapply splice_prefix; [apply enc_split | apply enc_split | exact (enc_split le (set_extra e r)) | | |].
    - by rewrite !enc_head_length.
    - by rewrite length_map, length_resize.
    - cbn [a_extra set_extra]. rewrite (resize_all_alt e), (resize_all_alt (a_extra r)) by done.
      by rewrite (map_wrap_id 8 e), (map_wrap_id 8 (a_extra r)). }
  apply struct_dec_enc; [by intros [] | done].
Qed.

(** ** What is captured *)

Lemma keeps_complain {X} (f : a64_ctx -> X) fmt args :
  (forall v u, f (set_qc_err v u) = f u) -> keeps f (complain fmt args).
Proof. intros Hf. by apply keeps_modify. Qed.
#[local] Hint Extern 2 (keeps _ (complain _ _)) => by apply keeps_complain : keeps.

Lemma scan_keeps {X} (f : a64_ctx -> X) fuel ctx fp sve extra : keeps f (scan_loop fuel ctx fp sve extra).
Proof.
  revert ctx fp sve extra. induction fuel as [|fuel IH]; intros; cbn [scan_loop]; eauto 20 with keeps.
Qed.
#[local] Hint Resolve scan_keeps : keeps.

Lemma copy_extra_keeps {X} (f : a64_ctx -> X) n p : keeps f (copy_extra n p).
Proof. unfold copy_extra. eauto 10 with keeps. Qed.
#[local] Hint Resolve copy_extra_keeps : keeps.

Lemma vector_regs_keeps t fp sve : keeps qc_regs (vector_regs t fp sve).
Proof. unfold vector_regs. eauto 30 with keeps. Qed.
#[local] Hint Resolve vector_regs_keeps : keeps.

Lemma fp_state_keeps t : keeps qc_regs (fp_state t).
Proof. unfold fp_state, scan. eauto 30 with keeps. Qed.

Lemma a64_init_keeps t im si : keeps qc_regs (a64_reginfo_init t im si).
Proof.
  unfold a64_reginfo_init. apply keeps_bind; [auto with keeps | intros u].
  apply keeps_bind; [auto with keeps | intros i]. apply keeps_bind; [apply fp_state_keeps |].
  intros [[fpsr fpcr] [vl e]]. auto with keeps.
Qed.

(** The bytes at the beginning of [extra] that capturing sets. *)
Definition captured_len (vl : Z) : Z :=
  if vl =? 0 then RISU_SIMD_REGS_SIZE else SVE_SIG_REGS_SIZE (sve_vq_from_vl vl).

Definition vector_ok (v : Z * list Z) : Prop :=
  (fst v = 0 \/ exists vq, 1 <= vq <= SVE_VQ_MAX /\ fst v = sve_vl_from_vq vq) /\
  exists bs, snd v = in_extra bs /\ all_bytes bs /\ Z.of_nat (length bs) <= captured_len (fst v).

Lemma in_extra_nil : in_extra [] = replicate extra_len 0.
Proof. unfold in_extra. by rewrite Nat.sub_0_r. Qed.

Lemma vector_ok_none : vector_ok (0, replicate extra_len 0).
Proof. split; [by left |]. exists []. by rewrite in_extra_nil. Qed.

Lemma copy_extra_inv n p u e u' :
  0 <= n -> copy_extra n p u = (inl e, u') ->
  n <= Z.of_nat extra_len /\ exists bs, e = in_extra bs /\ all_bytes bs /\ Z.of_nat (length bs) = n.
Proof.
  intros Hn. unfold copy_extra. destruct (Z.leb_spec n (Z.of_nat extra_len)); [| done]. intros E.
  apply bind_inv in E as (bs & u1 & E1 & E). apply load_bytes_inv in E1 as (L & F & _).
  apply ret_inv in E as [<- _]. split; [done |]. exists bs. split_and!; [done | done | lia].
Qed.

Lemma vector_regs_inv t fp sve u v u' : vector_regs t fp sve u = (inl v, u') -> vector_ok v.
Proof.
  assert (forall fmt args u v u', (_ ← complain fmt args; mret (0, replicate extra_len 0)) u = (inl v, u') ->
    vector_ok v) as None.
  { intros fmt args u0 v0 u0' E. apply bind_inv in E as (? & ? & _ & E). apply ret_inv in E as [<- _].
    apply vector_ok_none. }
  assert (forall u v u', (e ← copy_extra RISU_SIMD_REGS_SIZE (fp + 16); mret (0, e)) u = (inl v, u') ->
    vector_ok v) as Simd.
  { intros u0 v0 u0' E. apply bind_inv in E as (e & ? & E1 & E). apply ret_inv in E as [<- _].
    apply copy_extra_inv in E1 as (_ & bs & -> & F & L); [| by vm_compute]. split; [by left |].
    exists bs. split_and!; [done | done |]. cbn [fst]. rewrite L. done. }
  unfold vector_regs. destruct (truth t); [| apply Simd]. destruct sve as [q|]; [| apply None].
  intros E. apply bind_inv in E as (vl & u1 & E1 & E). apply (load_inv qc_mem 2) in E1 as [Wv _].
  destruct (Z.eqb_spec vl (sve_vl_from_vq t)) as [->|_]; cbn [negb] in E; [| by eapply None].
  apply bind_inv in E as (size & u2 & _ & E).
  destruct (size <=? _); [by eapply Simd |]. destruct (size <? _); [by eapply None |].
  apply bind_inv in E as (e & u3 & E3 & E). apply ret_inv in E as [<- _].
  assert (0 <= t) as Ht by (destruct Wv as [Wv _]; unfold sve_vl_from_vq in Wv; lia).
  apply copy_extra_inv in E3 as (Le & bs & -> & F & L); [| unfold SVE_SIG_REGS_SIZE; lia].
  change (Z.of_nat extra_len) with (Z.of_nat (Z.to_nat 8736)) in Le.
  unfold vector_ok, captured_len. cbn [fst snd]. rewrite sve_vq_vl.
  destruct (Z.eqb_spec (sve_vl_from_vq t) 0) as [E0|E0]; unfold sve_vl_from_vq, SVE_SIG_REGS_SIZE in *.
  - split; [by left |]. exists bs. split_and!; [done | done |]. rewrite L. unfold RISU_SIMD_REGS_SIZE. lia.
  - split; [right; exists t; unfold SVE_VQ_MAX; lia |]. exists bs. split_and!; [done | done | lia].
Qed.

Lemma fp_state_inv t u fpsr fpcr v u' :
  fp_state t u = (inl (fpsr, fpcr, v), u') -> in_width 32 fpsr /\ in_width 32 fpcr /\ vector_ok v.
Proof.
  assert (forall fmt args u, (_ ← complain fmt args; mret (0, 0, (0, replicate extra_len 0))) u =
    (inl (fpsr, fpcr, v), u') -> in_width 32 fpsr /\ in_width 32 fpcr /\ vector_ok v) as None.
  { intros fmt args u0 E. apply bind_inv in E as (? & ? & _ & E). apply ret_inv in E as [[= <- <- <-] _].
    split; [by vm_compute |]. split; [by vm_compute | apply vector_ok_none]. }
  intros E. unfold fp_state in E. apply bind_inv in E as ([fp sve] & u1 & _ & E). cbn [fst snd] in E.
  destruct fp as [p|]; [| by eapply None]. apply bind_inv in E as (size & u2 & _ & E).
  destruct (negb _); [by eapply None |].
  apply bind_inv in E as (x & u3 & E3 & E). apply (load_inv qc_mem 4) in E3 as [W3 _].
  apply bind_inv in E as (y & u4 & E4 & E). apply (load_inv qc_mem 4) in E4 as [W4 _].
  apply bind_inv in E as (w & u5 & E5 & E). apply ret_inv in E as [[= <- <- <-] _].
  split_and!; [done | done |]. by eapply vector_regs_inv.
Qed.

(** What a captured register file looks like. *)
Record a64_captured (r : a64_reginfo) : Prop := {
  acap_wf : a64_wf r;
  acap_reserved : a_reserved r = 0;
  acap_padding : a_padding r = replicate 12 0;
  acap_zero i : captured_len (a_sve_vl r) <= Z.of_nat i -> nth i (a_extra r) 0 = 0
}.

Lemma in_extra_ok bs n :
  all_bytes bs -> Z.of_nat (length bs) <= n -> n <= Z.of_nat extra_len ->
  length (in_extra bs) = extra_len /\ Forall (in_width 8) (in_extra bs) /\
  forall i, n <= Z.of_nat i -> nth i (in_extra bs) 0 = 0.
Proof.
  intros F L Hn. unfold in_extra. split; [rewrite length_app, length_replicate; lia |]. split.
  - apply Forall_app. split; [exact F |]. apply Forall_replicate. by vm_compute.
  - intros i Hi. rewrite app_nth2 by lia. rewrite nth_lookup.
    destruct (replicate _ _ !! _) eqn:E; [| done]. by apply lookup_replicate in E as [-> _].
Qed.

Lemma a64_init_inv t im si u r u' : a64_reginfo_init t im si u = (inl r, u') -> a64_captured r.
Proof.
  intros E. unfold a64_reginfo_init in E. apply bind_inv in E as (u1 & u2 & _ & E).
  apply bind_inv in E as (insn & u3 & E3 & E). apply (load_inv qc_mem 4) in E3 as [W3 _].
  apply bind_inv in E as ([[fpsr fpcr] [vl e]] & u4 & E4 & E). apply ret_inv in E as [<- _].
  apply fp_state_inv in E4 as (W1 & W2 & Hv & bs & Ee & Fb & Lb). cbn [fst snd] in *. subst e.
  assert (captured_len vl <= Z.of_nat extra_len) as Hc.
  { unfold captured_len. destruct Hv as [->|(vq & Hq & ->)]; [by vm_compute |].
    destruct (_ =? 0); [by vm_compute |]. rewrite sve_vq_vl.
    pose proof (sve_size_range vq Hq). lia. }
  destruct (in_extra_ok bs _ Fb Lb Hc) as (Le & Fe & Ze).
  assert (in_width 16 vl) as Wv.
  { destruct Hv as [->|(vq & Hq & ->)]; [by vm_compute |]. unfold in_width, sve_vl_from_vq, SVE_VQ_MAX in *. lia. }
  split; cbn [a_sve_vl a_reserved a_padding a_extra]; try done. split; [| done].
  unfold struct_wf. cbn [members to_members a64_layout].
  assert (Forall (in_width 8) (replicate 12 0)) as Fp by (apply (Forall_replicate _ 12); by vm_compute).
  assert (in_width 32 (Z.land (u64 (qc_pstate u1)) 0xf0000000)) as Wf.
  { apply in_width_testbit; [lia | apply Z.land_nonneg; right; lia |]. intros i Hi.
    rewrite Z.land_spec, (testbit_in_width 32 0xf0000000) by (by vm_compute || lia). apply andb_false_r. }
  repeat (apply Forall2_cons; split);
    [apply member_one, wrap_range; lia | apply (member_array 8) | apply member_one; by vm_compute
    | apply member_one, wrap_range; lia | by apply member_one .. | apply member_one; by vm_compute
    | exact (conj eq_refl Fp) | exact (conj Le Fe) | apply Forall2_nil_2].
Qed.

#[export] Instance a64_laws : CpuLaws (R := a64_reginfo) (U := a64_ctx) (O := Z).
Proof.
  refine {| cpu_ctx_wf := fun u => length (qc_regs u) = 31%nat; cpu_wf := a64_wf; cpu_same := a64_same |}.
  - by intros [].
  - vm_compute. congruence.
  - by intros r [W _].
  - intros r W. pose proof (extra_used_range r W). cbn [cpu_size a64_cpu].
    change (struct_sizeof (R := a64_reginfo)) with (extra_offset + extra_len)%nat. unfold a64_reginfo_size. lia.
  - intros o im si u r u' E. by apply a64_init_inv in E as [W _ _ _].
  - intros o im si u r u' W E. by rewrite (a64_init_keeps o im si u r u' E).
  - intros r. split; [by destruct r | done].
  - exact a64_same_eq.
  - done.
  - intros v u W. simpl. by rewrite length_insert.
Defined.

(** ** Comparing and reporting captured register files *)

Lemma a64_extra_ok r : a64_wf r -> length (a_extra r) = extra_len /\ Forall (in_width 8) (a_extra r).
Proof.
  intros [W _]. destruct (Forall2_lookup_l _ _ _ 11 (1, extra_len)%nat W eq_refl) as (l & E & [L F]).
  injection E as <-. by split.
Qed.

(** The head of the memory image determines everything but [extra]. *)
Lemma enc_head_inj le m a :
  a64_wf m -> a64_wf a -> enc_head le m = enc_head le a -> m = set_extra (a_extra m) a.
Proof.
  intros [Wm _] [Wa _] E.
  assert (struct_enc le m = struct_enc le (set_extra (a_extra m) a)) as Es.
  { eapply eq_trans; [apply enc_split |]. symmetry. eapply eq_trans; [apply enc_split |]. by f_equal. }
  assert (struct_wf (set_extra (a_extra m) a)) as Wn.
  { unfold struct_wf in *. cbn [members to_members a64_layout] in *.
    repeat (apply Forall2_cons_1 in Wm as [? Wm]). repeat (apply Forall2_cons_1 in Wa as [? Wa]).
    repeat (apply Forall2_cons; split; [assumption |]). constructor. }
  assert (forall r : a64_reginfo, of_members (to_members r) = r) as Ot by by intros [].
  exact (eq_trans (eq_sym (struct_dec_enc le m Ot Wm))
    (eq_trans (f_equal (struct_dec le) Es) (struct_dec_enc le _ Ot Wn))).
Qed.

(** Beyond what is captured there are only zeros. *)
Lemma a64_extra_eq m a :
  a64_captured m -> a64_captured a -> a_sve_vl m = a_sve_vl a ->
  (forall j, Z.of_nat j < captured_len (a_sve_vl m) -> nth j (a_extra m) 0 = nth j (a_extra a) 0) ->
  a_extra m = a_extra a.
Proof.
  intros Cm Ca Ev K. destruct (a64_extra_ok m (acap_wf m Cm)) as [Lm _], (a64_extra_ok a (acap_wf a Ca)) as [La _].
  apply (nth_ext _ _ 0 0); [congruence |]. intros j _.
  destruct (Z.lt_ge_cases (Z.of_nat j) (captured_len (a_sve_vl m))) as [Hj|Hj]; [by apply K |].
  rewrite (acap_zero m Cm j Hj). rewrite Ev in Hj. by rewrite (acap_zero a Ca j Hj).
Qed.

Lemma captured_le_used r : a64_wf r -> captured_len (a_sve_vl r) <= extra_used r.
Proof.
  intros [_ [E|(vq & Hq & E)]]; unfold captured_len, extra_used, truth; rewrite E; [done |].
  assert ((sve_vl_from_vq vq =? 0) = false) as -> by (apply Z.eqb_neq; unfold sve_vl_from_vq; lia).
  cbn [negb]. rewrite sve_vq_vl. by apply sve_size_range.
Qed.

Lemma a64_is_eq_captured m a :
  a64_captured m -> a64_captured a -> a64_reginfo_is_eq m a = true <-> m = a.
Proof.
  intros Cm Ca. pose proof (acap_wf m Cm) as Wm. pose proof (acap_wf a Ca) as Wa. split.
  - intros E. apply bool_decide_eq_true in E. pose proof (extra_used_range m Wm) as Hu.
    set (n := Z.to_nat (a64_reginfo_size m)) in E.
    assert (n = (extra_offset + Z.to_nat (extra_used m)))%nat as En by (unfold n, a64_reginfo_size; lia).
    pose proof (eq_trans (eq_sym (enc_take host_le m n)) (eq_trans E (enc_take host_le a n))) as T. clear E.
    rewrite (take_ge (enc_head host_le m)), (take_ge (enc_head host_le a)) in T
      by (rewrite enc_head_length; lia).
    apply app_inj_1 in T as [Th Tx]; [| exact (eq_trans (enc_head_length _ m) (eq_sym (enc_head_length _ a)))].
    apply enc_head_inj in Th; [| done | done].
    replace (n - extra_offset)%nat with (Z.to_nat (extra_used m)) in Tx by lia.
    set (k := Z.to_nat (extra_used m)) in *. assert (k <= extra_len)%nat by lia.
    destruct (a64_extra_ok m Wm) as [Lm Fm], (a64_extra_ok a Wa) as [La Fa].
    rewrite Nat.min_l, !resize_all_alt in Tx by (rewrite ?length_take; lia).
    rewrite !map_wrap_id in Tx by by apply Forall_take.
    assert (a_extra m = a_extra a) as Ex.
    { apply a64_extra_eq; [done | done | by rewrite Th |]. intros j Hj.
      pose proof (captured_le_used m Wm).
      rewrite !nth_lookup, <-(lookup_take_lt (a_extra m) k j), Tx, lookup_take_lt by lia. done. }
    rewrite Th, Ex. by destruct a.
  - intros ->. apply a64_same_eq. split; [by destruct a | done].
Qed.

Lemma extra_bytes_nth m a off n j :
  extra_bytes m off n = extra_bytes a off n -> (off <= j < off + n)%nat ->
  nth j (a_extra m) 0 = nth j (a_extra a) 0.
Proof.
  intros E Hj. apply (f_equal (fun l => l !! (j - off)%nat)) in E. unfold extra_bytes in E.
  rewrite !lookup_take_lt, !lookup_drop in E by lia. replace (off + (j - off))%nat with j in E by lia.
  by rewrite !nth_lookup, E.
Qed.

Lemma extra_int_bytes m a off n :
  a64_wf m -> a64_wf a -> extra_int m off n = extra_int a off n -> extra_bytes m off n = extra_bytes a off n.
Proof.
  intros Wm Wa E. destruct (a64_extra_ok m Wm) as [Lm Fm], (a64_extra_ok a Wa) as [La Fa].
  unfold extra_int in E. apply (f_equal (int_bytes host_le (length (extra_bytes m off n)))) in E.
  rewrite int_bytes_val in E by by apply Forall_take, Forall_drop.
  replace (length (extra_bytes m off n)) with (length (extra_bytes a off n)) in E
    by (unfold extra_bytes; rewrite !length_take, !length_drop; congruence).
  by rewrite int_bytes_val in E by by apply Forall_take, Forall_drop.
Qed.

(** The position [j] in an array of elements of [w] bytes. *)
Lemma array_slot j w n : (j < n * w)%nat -> exists i, (i < n /\ w * i <= j < w * i + w)%nat.
Proof.
  intros Hj. assert (0 < w)%nat by lia. exists (j / w)%nat.
  pose proof (Nat.div_mod j w ltac:(lia)). pose proof (Nat.mod_upper_bound j w ltac:(lia)).
  assert (j / w < n)%nat by (apply Nat.Div0.div_lt_upper_bound; lia). lia.
Qed.

Lemma a64_simd_eq m a :
  a64_captured m -> a64_captured a -> a_sve_vl m = 0 -> a_sve_vl a = 0 ->
  Forall (fun i => a64_vreg_eq m a i = true) (seq 0 32) -> a_extra m = a_extra a.
Proof.
  intros Cm Ca Vm Va K. apply a64_extra_eq; [done | done | congruence |]. rewrite Vm.
  intros j Hj. change (captured_len 0) with 512 in Hj.
  destruct (array_slot j 16 32 ltac:(lia)) as (i & Hi & Hj'). rewrite Forall_forall in K.
  specialize (K i ltac:(apply elem_of_seq; lia)). unfold a64_vreg_eq, vword, vreg_off in K.
  apply andb_true_iff in K as [K0 K1]. apply Z.eqb_eq, extra_int_bytes in K0, K1; try by apply acap_wf.
  destruct (decide (j < 16 * i + 8)%nat); [apply (extra_bytes_nth _ _ _ _ _ K0) | apply (extra_bytes_nth _ _ _ _ _ K1)]; lia.
Qed.

Lemma a64_sve_eq m a vq :
  a64_captured m -> a64_captured a -> 1 <= vq -> a_sve_vl m = sve_vl_from_vq vq ->
  a_sve_vl a = sve_vl_from_vq vq ->
  Forall (fun i => sve_zreg_is_eq (Z.to_nat vq) m a i = true) (seq 0 32) ->
  Forall (fun i => sve_preg_is_eq (Z.to_nat vq) m a i = true) (seq 0 17) -> a_extra m = a_extra a.
Proof.
  intros Cm Ca Hq Vm Va Kz Kp. apply a64_extra_eq; [done | done | congruence |]. rewrite Vm.
  unfold captured_len. assert ((sve_vl_from_vq vq =? 0) = false) as ->
    by (apply Z.eqb_neq; unfold sve_vl_from_vq; lia). rewrite sve_vq_vl. unfold SVE_SIG_REGS_SIZE.
  set (n := Z.to_nat vq) in *. rewrite Forall_forall in Kz, Kp. intros j Hj.
  destruct (decide (j < 32 * (16 * n))%nat) as [Hz|Hz].
  - destruct (array_slot j (16 * n) 32 ltac:(lia)) as (i & Hi & Hj').
    specialize (Kz i ltac:(apply elem_of_seq; lia)). unfold sve_zreg_is_eq in Kz.
    apply bool_decide_eq_true in Kz. eapply extra_bytes_nth; [exact Kz |]. unfold zreg_off. lia.
  - destruct (array_slot (j - 32 * (16 * n)) (2 * n) 17 ltac:(lia)) as (i & Hi & Hj').
    specialize (Kp i ltac:(apply elem_of_seq; lia)). unfold sve_preg_is_eq in Kp.
    apply bool_decide_eq_true in Kp. eapply extra_bytes_nth; [exact Kp |].
    unfold preg_off, SVE_NUM_ZREGS. lia.
Qed.

Lemma a64_vectors m a :
  a64_captured m -> a64_captured a -> a_sve_vl m = a_sve_vl a ->
  a64_vector_mismatch m a = [] <-> a_extra m = a_extra a.
Proof.
  intros Cm Ca Ev. unfold a64_vector_mismatch, SVE_NUM_ZREGS, SVE_NUM_PREGS, ri_vq.
  destruct (proj2 (acap_wf m Cm)) as [Vm|(vq & Hq & Vm)]; rewrite Vm.
  - cbn [truth Z.eqb negb]. rewrite differ_each_nil by done. split.
    + apply a64_simd_eq; congruence.
    + intros E. apply Forall_forall. intros i _. unfold a64_vreg_eq, vword, extra_int, extra_bytes.
      by rewrite E, !Z.eqb_refl.
  - assert (truth (sve_vl_from_vq vq) = true) as ->
      by (unfold truth, sve_vl_from_vq; apply negb_true_iff, Z.eqb_neq; lia).
    rewrite sve_vq_vl, app_nil_iff, !differ_each_nil by done. split.
    + intros [Kz Kp]. eapply a64_sve_eq; [exact Cm | exact Ca | apply Hq | exact Vm | congruence | exact Kz | exact Kp].
    + intros E. unfold sve_zreg_is_eq, sve_preg_is_eq, extra_bytes. rewrite E.
      split; apply Forall_forall; intros i _; by apply bool_decide_eq_true.
Qed.

(** The report is complete but for the fault address, which it does not show. *)
Definition set_fault (z : Z) (r : a64_reginfo) : a64_reginfo :=
  A64Reginfo z (a_regs r) (a_sp r) (a_pc r) (a_flags r) (a_faulting_insn r)
    (a_fpsr r) (a_fpcr r) (a_sve_vl r) (a_reserved r) (a_padding r) (a_extra r).

Lemma a64_report m a :
  a64_captured m -> a64_captured a ->
  a64_reginfo_dump_mismatch m a = a64_heading <-> m = set_fault (a_fault_address m) a.
Proof.
  intros Cm Ca. unfold a64_reginfo_dump_mismatch. pose proof (a64_vectors m a Cm Ca) as V.
  destruct Cm as [[Wm _] Rm Pm _], Ca as [[Wa _] Ra Pa _].
  pose proof (struct_lengths m Wm) as Lm. pose proof (struct_lengths a Wa) as La.
  cbn [to_members members a64_layout fmap list_fmap snd] in Lm, La.
  injection Lm as Lr _ _. injection La as Lr' _ _.
  rewrite <-(app_nil_r a64_heading) at 2. rewrite app_inv_head_iff.
  rewrite !app_nil_iff, !differ_each_nil, !array_eq, !differ_nil by done.
  destruct m, a; unfold set_fault; cbn [a_fault_address a_regs a_sp a_pc a_flags a_faulting_insn a_fpsr
    a_fpcr a_sve_vl a_reserved a_padding a_extra] in *. subst. split.
  - intros (-> & -> & -> & -> & -> & -> & -> & -> & E). by apply V in E as ->.
  - intros E. injection E as -> -> -> -> -> -> -> -> ->. split_and!; try done. by apply V.
Qed.

(** ** What decides the verdict *)

(** The fault address, x0 to x30, where the instruction is in the image, the four
    flags, the instruction, and the floating-point and vector state; not the stack
    pointer. *)
Definition a64_agree (t t' : Z) (im im' : image) (u v : a64_ctx) : Prop :=
  u64 (qc_fault_address u) = u64 (qc_fault_address v) /\
  same_at 64 (seq 0 31) (qc_regs u) (qc_regs v) /\
  u64 (qc_pc u - image_start_address im) = u64 (qc_pc v - image_start_address im') /\
  Z.land (u64 (qc_pstate u)) 0xf0000000 = Z.land (u64 (qc_pstate v)) 0xf0000000 /\
  fst (load qc_mem 4 (qc_pc u) u) = fst (load qc_mem 4 (qc_pc v) v) /\
  fst (fp_state t u) = fst (fp_state t' v).

Lemma a64_init_eq t im si u r u' :
  a64_reginfo_init t im si u = (inl r, u') ->
  exists insn fpsr fpcr vl extra, load qc_mem 4 (qc_pc u) u = (inl insn, u) /\
    fp_state t u = (inl (fpsr, fpcr, (vl, extra)), u') /\
    r = A64Reginfo (u64 (qc_fault_address u)) (array 64 31 (qc_regs u)) 0xdeadbeefdeadbeef
      (u64 (qc_pc u - image_start_address im)) (Z.land (u64 (qc_pstate u)) 0xf0000000) insn
      fpsr fpcr vl 0 (replicate 12 0) extra.
Proof.
  intros E. unfold a64_reginfo_init in E. apply bind_inv in E as (u1 & u2 & E1 & E).
  injection E1 as <- <-. unfold id in E. apply bind_inv in E as (insn & u3 & E3 & E).
  pose proof (load_inv qc_mem 4 _ _ _ _ E3) as [_ ->].
  apply bind_inv in E as ([[fpsr fpcr] [vl e]] & u4 & E4 & E). apply ret_inv in E as [<- <-].
  by exists insn, fpsr, fpcr, vl, e.
Qed.

Lemma a64_reginfo_inj a b c d e f g h i j k l a' b' c' d' e' f' g' h' i' j' k' l' :
  A64Reginfo a b c d e f g h i j k l = A64Reginfo a' b' c' d' e' f' g' h' i' j' k' l' <->
  a = a' /\ b = b' /\ c = c' /\ d = d' /\ e = e' /\ f = f' /\ g = g' /\ h = h' /\ i = i' /\
  j = j' /\ k = k' /\ l = l'.
Proof.
  split; [by intros [= -> -> -> -> -> -> -> -> -> -> -> ->] |].
  by intros (-> & -> & -> & -> & -> & -> & -> & -> & -> & -> & -> & ->).
Qed.

Lemma a64_verdict t t' im im' si si' u v m a u' v' :
  a64_reginfo_init t im si u = (inl m, u') -> a64_reginfo_init t' im' si' v = (inl a, v') ->
  a64_reginfo_is_eq m a = true <-> a64_agree t t' im im' u v.
Proof.
  intros Em Ea.
  rewrite (a64_is_eq_captured m a) by (by eapply a64_init_inv).
  apply a64_init_eq in Em as (i & x & y & l & e & L & V & ->).
  apply a64_init_eq in Ea as (i' & x' & y' & l' & e' & L' & V' & ->).
  unfold a64_agree. rewrite L, L', V, V'. cbn [fst].
  rewrite !(inj_iff inl), !pair_equal_spec, a64_reginfo_inj, array_same. tauto.
Qed.

(** ** What is received *)

(** A register file that agrees with [r] on what is transmitted is like [r] in
    everything that is done with it. *)
Section received.
Context (m r : a64_reginfo) (S : a64_same m r) (W : a64_wf r).

Lemma same_extra_bytes off n :
  (Z.of_nat (off + n) <= extra_used r) -> extra_bytes m off n = extra_bytes r off n.
Proof.
  intros Hn. destruct S as [_ E]. unfold extra_bytes. rewrite !take_drop_commute.
  assert (forall l : list Z, take (off + n) l = take (off + n) (take (Z.to_nat (extra_used r)) l)) as T.
  { intros l. rewrite take_take. f_equal. lia. }
  by rewrite (T (a_extra m)), (T (a_extra r)), E.
Qed.

Lemma same_extra_int off n :
  (Z.of_nat (off + n) <= extra_used r) -> extra_int m off n = extra_int r off n.
Proof. intros Hn. unfold extra_int. by rewrite same_extra_bytes. Qed.

Lemma same_is_eq a : a64_reginfo_is_eq m a = a64_reginfo_is_eq r a.
Proof.
  pose proof (a64_same_eq m r S) as E. apply bool_decide_eq_true in E.
  unfold a64_reginfo_is_eq. rewrite <-(a64_same_size m r S). by rewrite E.
Qed.

(** The part in use holds all registers of the length that is captured. *)
Lemma used_vector :
  truth (a_sve_vl r) = true ->
  Z.of_nat (32 * (16 * ri_vq r) + 17 * (2 * ri_vq r)) <= extra_used r.
Proof.
  intros T. pose proof (captured_le_used r W) as C. unfold captured_len in C.
  unfold truth in T. apply negb_true_iff in T. rewrite T in C.
  destruct W as [_ [E|(vq & Hq & E)]]; [by rewrite E in T |]. unfold ri_vq. rewrite E, sve_vq_vl in *.
  unfold SVE_SIG_REGS_SIZE in C. lia.
Qed.

Lemma same_zword i k :
  truth (a_sve_vl r) = true -> (i < 32)%nat -> (k < 2 * ri_vq r)%nat ->
  zword (ri_vq r) m i k = zword (ri_vq r) r i k.
Proof.
  intros T Hi Hk. pose proof (used_vector T). apply same_extra_int. unfold zreg_off.
  pose proof (Nat.mul_le_mono_l i 31 (16 * ri_vq r) ltac:(lia)). lia.
Qed.

Lemma same_zreg a i :
  truth (a_sve_vl r) = true -> (i < 32)%nat ->
  sve_zreg_is_eq (ri_vq r) m a i = sve_zreg_is_eq (ri_vq r) r a i.
Proof.
  intros T Hi. pose proof (used_vector T). unfold sve_zreg_is_eq. rewrite same_extra_bytes; [done |].
  unfold zreg_off. pose proof (Nat.mul_le_mono_l i 31 (16 * ri_vq r) ltac:(lia)). lia.
Qed.

Lemma preg_used i n k :
  truth (a_sve_vl r) = true -> (i < 17)%nat -> (k + n <= 2 * ri_vq r)%nat ->
  Z.of_nat (preg_off (ri_vq r) i + k + n) <= extra_used r.
Proof.
  intros T Hi Hk. pose proof (used_vector T). unfold preg_off, SVE_NUM_ZREGS.
  pose proof (Nat.mul_le_mono_l i 16 (2 * ri_vq r) ltac:(lia)). lia.
Qed.

Lemma same_preg a i :
  truth (a_sve_vl r) = true -> (i < 17)%nat ->
  sve_preg_is_eq (ri_vq r) m a i = sve_preg_is_eq (ri_vq r) r a i.
Proof.
  intros T Hi. unfold sve_preg_is_eq. rewrite same_extra_bytes; [done |].
  pose proof (preg_used i (ri_vq r * 2) 0 T Hi ltac:(lia)). by rewrite Nat.add_0_r in *.
Qed.

Lemma same_dump_preg i :
  truth (a_sve_vl r) = true -> (i < 17)%nat -> sve_dump_preg (ri_vq r) m i = sve_dump_preg (ri_vq r) r i.
Proof.
  intros T Hi. apply map_ext_in. intros q Hq. apply in_rev, in_seq in Hq.
  rewrite same_extra_int; [done |]. apply preg_used; (done || lia).
Qed.

Lemma same_zreg_diff a i pad qs :
  truth (a_sve_vl r) = true -> (i < 32)%nat -> Forall (fun q => q < ri_vq r)%nat qs ->
  sve_dump_zreg_diff (ri_vq r) m a i pad qs = sve_dump_zreg_diff (ri_vq r) r a i pad qs.
Proof.
  intros T Hi F. revert pad. induction F as [|q qs Hq _ IH]; intros pad; [done |].
  cbn [sve_dump_zreg_diff]. by rewrite !same_zword, !IH by (done || lia).
Qed.

Lemma same_vword i k :
  truth (a_sve_vl r) = false -> (i < 32)%nat -> (k < 2)%nat -> vword m i k = vword r i k.
Proof.
  intros T Hi Hk. apply same_extra_int. unfold extra_used. rewrite T. unfold vreg_off, RISU_SIMD_REGS_SIZE. lia.
Qed.

Lemma same_vq : ri_vq m = ri_vq r.
Proof. unfold ri_vq. destruct S as [-> _]. done. Qed.

Lemma same_dump : a64_reginfo_dump m = a64_reginfo_dump r.
Proof.
  assert (forall f, (forall e, f (set_extra e r) = f r :> Z) -> f m = f r) as P.
  { intros f Hf. destruct S as [Em _]. rewrite Em. apply Hf. }
  assert (a_regs m = a_regs r) as Er by (destruct S as [-> _]; done).
  unfold a64_reginfo_dump. rewrite same_vq, Er, (P a_faulting_insn), (P a_sp), (P a_pc), (P a_flags),
    (P a_fpsr), (P a_fpcr), (P a_sve_vl) by done.
  do 3 f_equal. destruct (truth (a_sve_vl r)) eqn:T.
  - f_equal. f_equal; f_equal; apply map_ext_in; intros i Hi; apply in_seq in Hi; unfold SVE_NUM_ZREGS, SVE_NUM_PREGS in Hi.
    + assert (0 < ri_vq r)%nat as Hq.
      { unfold ri_vq. unfold truth in T. apply negb_true_iff in T.
        destruct W as [_ [E|(vq & Hq & E)]]; rewrite E in *; [done |]. rewrite sve_vq_vl. lia. }
      rewrite !same_zword by (done || lia). f_equal. apply map_ext_in. intros q Hr. apply in_seq in Hr.
      by rewrite !same_zword by (done || lia).
    + by rewrite same_dump_preg by (done || lia).
  - apply map_ext_in. intros i Hi. apply in_seq in Hi. by rewrite !same_vword by (done || lia).
Qed.

Lemma same_dump_mismatch a : a64_reginfo_dump_mismatch m a = a64_reginfo_dump_mismatch r a.
Proof.
  assert (forall f, (forall e, f (set_extra e r) = f r :> Z) -> f m = f r) as P.
  { intros f Hf. destruct S as [Em _]. rewrite Em. apply Hf. }
  assert (a_regs m = a_regs r) as Er by (destruct S as [-> _]; done).
  unfold a64_reginfo_dump_mismatch. rewrite Er, (P a_faulting_insn), (P a_sp), (P a_pc), (P a_flags),
    (P a_fpsr), (P a_fpcr), (P a_sve_vl) by done.
  do 9 f_equal. unfold a64_vector_mismatch. rewrite same_vq, (P a_sve_vl) by done.
  destruct (truth (a_sve_vl r)) eqn:T; [f_equal |]; apply differ_each_ext; intros i Hi; apply elem_of_seq in Hi;
    unfold SVE_NUM_ZREGS, SVE_NUM_PREGS in Hi.
  - rewrite same_zreg, same_zreg_diff; try (done || lia).
    apply Forall_forall. intros q Hq. apply elem_of_seq in Hq. lia.
  - unfold sve_dump_preg_diff. by rewrite same_preg, same_dump_preg by (done || lia).
  - unfold a64_vreg_eq. by rewrite !same_vword by (done || lia).
Qed.
End received.

(** What arrives in a buffer that held [old]. *)
Lemma a64_received le r old :
  a64_wf r ->
  a64_same (struct_dec le (splice (struct_enc le old) (take (Z.to_nat (a64_reginfo_size r)) (struct_enc le r)))) r.
Proof.
  intros W. rewrite (a64_transfer le r old W). pose proof (extra_used_range r W) as Hn.
  destruct (a64_extra_ok r W) as [L _]. split; [done |]. cbn [a_extra set_extra].
  rewrite take_app_le by (rewrite length_take; lia). by rewrite take_take, Nat.min_id.
Qed.
End aarch64.

(** ** The search for the records *)

(** A record: its magic number, its size and, for the record that tells where the
    list goes on, the address there. *)
Record ctx_record : Type := CtxRecord { rec_magic : Z; rec_size : Z; rec_datap : Z }.

(** The address of the last record with the magic number [magic] in a list at
    [p], and where the last record of its kind says the list goes on. *)
Fixpoint last_record (magic p : Z) (rs : list ctx_record) : option Z :=
  match rs with
  | [] => None
  | r :: rs' =>
      match last_record magic (p + rec_size r) rs' with
      | Some q => Some q
      | None => if rec_magic r =? magic then Some p else None
      end
  end.

Fixpoint goes_on (rs : list ctx_record) : option Z :=
  match rs with
  | [] => None
  | r :: rs' =>
      match goes_on rs' with
      | Some q => Some q
      | None => if rec_magic r =? EXTRA_MAGIC then Some (rec_datap r) else None
      end
  end.

Definition or_else (a b : option Z) : option Z := match a with Some _ => a | None => b end.

Section search.
Context `{Build}.

(** The records at [p], up to the one with magic number 0. *)
Fixpoint records (u : a64_ctx) (p : Z) (rs : list ctx_record) : Prop :=
  match rs with
  | [] => holds qc_mem u 4 p 0
  | r :: rs' =>
      rec_magic r <> 0 /\ 0 < rec_size r /\
      holds qc_mem u 4 p (rec_magic r) /\ holds qc_mem u 4 (p + 4) (rec_size r) /\
      (rec_magic r = EXTRA_MAGIC -> rec_datap r <> 0 /\ holds qc_mem u 8 (p + 8) (rec_datap r)) /\
      records u (p + rec_size r) rs'
  end.

(** The records behind the context: a list, and if it says so a second one. *)
Definition both_lists (u : a64_ctx) (rs1 rs2 : list ctx_record) : Prop :=
  records u (qc_reserved u) rs1 /\
  match goes_on rs1 with
  | Some d => records u d rs2 /\ goes_on rs2 = None
  | None => rs2 = []
  end.

Definition found_record (magic : Z) (u : a64_ctx) (rs1 rs2 : list ctx_record) : option Z :=
  or_else (last_record magic (default 0 (goes_on rs1)) rs2) (last_record magic (qc_reserved u) rs1).

Lemma records_fuel u p rs : records u p rs -> (length rs <= size (qc_mem u))%nat.
Proof.
  intros Hr. rewrite <-(length_fmap rec_size rs). apply (starts_fuel _ p).
  - revert p Hr. induction rs as [|r rs IH]; intros p Hr; [constructor |].
    destruct Hr as (_ & Hs & _ & _ & _ & Hr). constructor; [done | by eapply IH].
  - revert p Hr. induction rs as [|r rs IH]; intros p Hr; [constructor |].
    destruct Hr as (_ & _ & Hm & _ & _ & Hr). constructor; [| by apply IH].
    eapply holds_mapped; [| exact Hm]. lia.
Qed.

(** One list. *)
Lemma scan_records u rs fuel : forall p fp sve extra,
  records u p rs ->
  scan_loop (S (length rs) + fuel) (Some p) fp sve extra u =
  scan_loop fuel (or_else (goes_on rs) extra) (or_else (last_record FPSIMD_MAGIC p rs) fp)
    (or_else (last_record SVE_MAGIC p rs) sve) None u.
Proof.
  induction rs as [|r rs IH]; intros p fp sve extra Hr.
  - cbn [length Nat.add scan_loop]. by rewrite (bind_done _ _ _ _ _ Hr).
  - destruct Hr as (H0 & Hs & Hm & Hz & Hd & Hr). cbn [length Nat.add].
    change (S (S (length rs + fuel))) with (S (S (length rs) + fuel)). cbn [scan_loop].
    rewrite (bind_done _ _ _ _ _ Hm). destruct (Z.eqb_spec (rec_magic r) 0); [done |].
    set (ex := if rec_magic r =? EXTRA_MAGIC then Some (rec_datap r) else extra).
    rewrite (bind_done _ _ u ex u).
    2: { unfold ex. destruct (Z.eqb_spec (rec_magic r) EXTRA_MAGIC) as [E|_]; [| done].
         destruct (Hd E) as [Hn Hh]. rewrite (bind_done _ _ _ _ _ Hh). by destruct (Z.eqb_spec (rec_datap r) 0). }
    rewrite (bind_done _ _ _ _ _ Hz), IH by done. cbn [goes_on last_record]. unfold ex.
    f_equal; [destruct (goes_on rs) | destruct (last_record FPSIMD_MAGIC (p + rec_size r) rs)
      | destruct (last_record SVE_MAGIC (p + rec_size r) rs)]; cbn [or_else]; try done; by case_match.
Qed.

Lemma scan_done fuel fp sve u : scan_loop (S fuel) None fp sve None u = (inl (fp, sve), u).
Proof. reflexivity. Qed.

(** The search finds the records of both lists, and ends. *)
Lemma scan_finds u rs1 rs2 :
  both_lists u rs1 rs2 ->
  scan u = (inl (found_record FPSIMD_MAGIC u rs1 rs2, found_record SVE_MAGIC u rs1 rs2), u).
Proof.
  intros [H1 H2]. unfold scan. rewrite (bind_done (gets id) _ u u u) by done. unfold id.
  pose proof (records_fuel u _ rs1 H1) as L1. unfold found_record.
  destruct (goes_on rs1) as [d|] eqn:Eg; cbn [default].
  - destruct H2 as [H2 G2]. pose proof (records_fuel u _ rs2 H2) as L2.
    set (f := (2 * size (qc_mem u) - length rs1 - length rs2)%nat).
    replace (2 * S (size (qc_mem u)) + 1)%nat with (S (length rs1) + (S (length rs2) + S f))%nat by (unfold f; lia).
    rewrite scan_records, Eg by done. cbn [or_else]. rewrite scan_records, G2 by done. cbn [or_else].
    rewrite scan_done. by destruct (last_record FPSIMD_MAGIC (qc_reserved u) rs1),
      (last_record SVE_MAGIC (qc_reserved u) rs1).
  - subst rs2. set (f := (2 * size (qc_mem u) + 1 - length rs1)%nat).
    replace (2 * S (size (qc_mem u)) + 1)%nat with (S (length rs1) + S f)%nat by (unfold f; lia).
    rewrite scan_records, Eg by done. cbn [or_else last_record]. rewrite scan_done.
    by destruct (last_record FPSIMD_MAGIC (qc_reserved u) rs1), (last_record SVE_MAGIC (qc_reserved u) rs1).
Qed.

(** The memory holds these bytes. *)
Definition holds_bytes (u : a64_ctx) (n p : Z) (bs : bytes) : Prop :=
  load_bytes qc_mem (Z.to_nat n) p u = (inl bs, u).

Lemma copy_extra_ok u n p bs :
  n <= Z.of_nat extra_len -> holds_bytes u n p bs -> copy_extra n p u = (inl (in_extra bs), u).
Proof.
  intros Hn Hb. unfold copy_extra. destruct (Z.leb_spec n (Z.of_nat extra_len)); [| lia].
  by rewrite (bind_done _ _ _ _ _ Hb).
Qed.

Lemma take_in_extra u n p bs : holds_bytes u n p bs -> take (Z.to_nat n) (in_extra bs) = bs.
Proof. intros Hb. apply load_bytes_inv in Hb as (L & _). unfold in_extra. by rewrite take_app_length'. Qed.

(** Capturing, once the records have been found. *)
Lemma a64_init_found t im si u rs1 rs2 p insn fpsr fpcr v :
  both_lists u rs1 rs2 -> found_record FPSIMD_MAGIC u rs1 rs2 = Some p ->
  holds qc_mem u 4 (qc_pc u) insn -> holds qc_mem u 4 (p + 4) sizeof_fpsimd_context ->
  holds qc_mem u 4 (p + 8) fpsr -> holds qc_mem u 4 (p + 12) fpcr ->
  vector_regs t p (found_record SVE_MAGIC u rs1 rs2) u = (inl v, u) ->
  exists r, a64_reginfo_init t im si u = (inl r, u) /\
    a_fpsr r = fpsr /\ a_fpcr r = fpcr /\ a_sve_vl r = fst v /\ a_extra r = snd v.
Proof.
  intros Hl Hp Hi Hs H1 H2 Hv. unfold a64_reginfo_init.
  rewrite (bind_done (gets id) _ u u u) by done. rewrite (bind_done _ _ _ _ _ Hi).
  rewrite (bind_done _ _ u (fpsr, fpcr, v) u).
  2: { unfold fp_state. rewrite (bind_done _ _ _ _ _ (scan_finds u rs1 rs2 Hl)). cbn [fst snd]. rewrite Hp.
       rewrite (bind_done _ _ _ _ _ Hs), Z.eqb_refl. cbn [negb].
       by rewrite (bind_done _ _ _ _ _ H1), (bind_done _ _ _ _ _ H2), (bind_done _ _ _ _ _ Hv). }
  destruct v as [vl e]. eexists. split; [reflexivity |]. done.
Qed.

(** C25: the vector registers are captured from the records behind the context,
    in the list there or in the one where it goes on.  Without the option
    --test-sve the 32 registers of 128 bits are captured, with it the scalable
    vector and predicate registers, provided the record is complete and of the
    length asked for; the length captured says which. *)
Theorem sve_capture t im si u rs1 rs2 p insn fpsr fpcr :
  both_lists u rs1 rs2 -> found_record FPSIMD_MAGIC u rs1 rs2 = Some p ->
  holds qc_mem u 4 (qc_pc u) insn -> holds qc_mem u 4 (p + 4) sizeof_fpsimd_context ->
  holds qc_mem u 4 (p + 8) fpsr -> holds qc_mem u 4 (p + 12) fpcr ->
  (t = 0 -> forall vregs, holds_bytes u RISU_SIMD_REGS_SIZE (p + 16) vregs ->
     exists r, a64_reginfo_init t im si u = (inl r, u) /\ a_fpsr r = fpsr /\ a_fpcr r = fpcr /\
       a_sve_vl r = 0 /\ take (Z.to_nat RISU_SIMD_REGS_SIZE) (a_extra r) = vregs) /\
  (1 <= t <= SVE_VQ_MAX -> forall q size zregs, found_record SVE_MAGIC u rs1 rs2 = Some q ->
     holds qc_mem u 2 (q + 8) (sve_vl_from_vq t) -> holds qc_mem u 4 (q + 4) size ->
     SVE_SIG_CONTEXT_SIZE t <= size ->
     holds_bytes u (SVE_SIG_REGS_SIZE t) (q + SVE_SIG_REGS_OFFSET) zregs ->
     exists r, a64_reginfo_init t im si u = (inl r, u) /\ a_fpsr r = fpsr /\ a_fpcr r = fpcr /\
       a_sve_vl r = sve_vl_from_vq t /\ take (Z.to_nat (SVE_SIG_REGS_SIZE t)) (a_extra r) = zregs).
Proof.
  intros Hl Hp Hi Hs H1 H2. split.
  - intros -> vregs Hb.
    assert (vector_regs 0 p (found_record SVE_MAGIC u rs1 rs2) u = (inl (0, in_extra vregs), u)) as V.
    { unfold vector_regs. cbn [truth Z.eqb negb].
      assert (RISU_SIMD_REGS_SIZE <= Z.of_nat extra_len) as Hn by (by vm_compute).
      by rewrite (bind_done _ _ _ _ _ (copy_extra_ok u _ _ _ Hn Hb)). }
    destruct (a64_init_found 0 im si u rs1 rs2 p insn fpsr fpcr _ Hl Hp Hi Hs H1 H2 V) as (r & E & K1 & K2 & K3 & K4).
    exists r. rewrite K4. split_and!; try done. by eapply take_in_extra.
  - intros Ht q size zregs Hq Hv Hz Hle Hb. pose proof (sve_size_range t Ht) as [Hn Hn'].
    pose proof (Z.le_trans _ _ _ Hn Hn') as Hx.
    assert (vector_regs t p (found_record SVE_MAGIC u rs1 rs2) u = (inl (sve_vl_from_vq t, in_extra zregs), u)) as V.
    { unfold vector_regs. rewrite Hq. assert (truth t = true) as -> by (apply negb_true_iff, Z.eqb_neq; lia).
      rewrite (bind_done _ _ _ _ _ Hv), Z.eqb_refl. cbn [negb]. rewrite (bind_done _ _ _ _ _ Hz).
      unfold SVE_SIG_CONTEXT_SIZE, SVE_SIG_REGS_OFFSET in *.
      destruct (Z.leb_spec size (16 + SVE_SIG_REGS_SIZE 0)) as [K|_];
        [unfold SVE_SIG_REGS_SIZE in *; lia |].
      destruct (Z.ltb_spec size (16 + SVE_SIG_REGS_SIZE t)); [lia |].
      by rewrite (bind_done _ _ _ _ _ (copy_extra_ok u _ _ _ Hx Hb)). }
    destruct (a64_init_found t im si u rs1 rs2 p insn fpsr fpcr _ Hl Hp Hi Hs H1 H2 V) as (r & E & K1 & K2 & K3 & K4).
    exists r. rewrite K4. split_and!; try done. by eapply take_in_extra.
Qed.
End search.

(** A context with the 128-bit registers behind it, and the scalable ones where
    the list goes on. *)
Definition example_memory : gmap Z Z :=
  list_to_map (
    zip (seqZ 0x1000 564) (
      concat (map (int_bytes true 4) [FPSIMD_MAGIC; 528; 7; 9]) ++ replicate 512 1 ++
      concat (map (int_bytes true 4) [EXTRA_MAGIC; 32; 0x2000; 0; 0; 0; 0; 0; 0])) ++
    zip (seqZ 0x2000 580) (
      concat (map (int_bytes true 4) [SVE_MAGIC; 576; 16; 0]) ++ map Z.of_nat (seq 0 250) ++
      replicate 310 2 ++ replicate 4 0)).

Definition example_a64 : a64_ctx := A64Ctx (replicate 31 0) 0x1000 0 0 0x1000 example_memory [].

Ltac one_record :=
  split; [done |]; split; [done |]; split; [by_value |]; split; [by_value |]; split.

Lemma sve_capture_witness :
  let _ : Build := {| bswap_builtins := true; host_le := true; def_LITTLE_ENDIAN := true |} in
  exists r, a64_reginfo_init 1 (Image 0x1000 4) 0 example_a64 = (inl r, example_a64) /\
    a_fpsr r = 7 /\ a_fpcr r = 9 /\ a_sve_vl r = 16 /\
    take 546 (a_extra r) = map Z.of_nat (seq 0 250) ++ replicate 296 2.
Proof.
  intros HB.
  destruct (sve_capture 1 (Image 0x1000 4) 0 example_a64
    [CtxRecord FPSIMD_MAGIC 528 0; CtxRecord EXTRA_MAGIC 32 0x2000] [CtxRecord SVE_MAGIC 576 0]
    0x1000 FPSIMD_MAGIC 7 9) as [_ K]; [| reflexivity | by_value | by_value | by_value | by_value |].
  - split; [| split; [| reflexivity]].
    + one_record; [done |]. one_record; [| by_value]. intros _. split; [done | by_value].
    + one_record; [done | by_value].
  - apply (K ltac:(by vm_compute) 0x2000 576); [reflexivity | by_value | by_value | by vm_compute |].
    unfold holds_bytes. vm_compute. reflexivity.
Defined.
