(* ===== verification/Cpus.v ===== *)
(** * What the plain architectures have in common

    The theorems about the architectures of [S390x], [M68k], [Arm], [LoongArch],
    [X86] and [AArch64]: which parts of two contexts decide whether the register
    files captured from them compare equal, which differences are reported, and
    that as much of a register file is transmitted as is compared and printed. *)

From stdpp Require Import gmap.
From S2P Require Import Prelude Endian Comms Arch.
From S2P Require Import Cpu S390x M68k Arm LoongArch X86 AArch64.

(** What is read back from a buffer that held [old] when the first [size r] bytes of
    [r] have been written over it. *)
Definition read_back {R} `{Layout R} (le : bool) (size : R -> Z) (r old : R) : R :=
  struct_dec le (splice (struct_enc le old) (take (Z.to_nat (size r)) (struct_enc le r))).

(** ** Properties *)

Section cpus.
Context `{Build} `{X86}.


(** C27: what the reports of a mismatch show.  On IBM z, m68k and Arm a report has
    lines besides its heading exactly when the comparison has rejected the register
    files; on LoongArch too, for files that were captured.
    On x86, for captured files, whatever features each side was asked for: no
    assertion fails; the report has no lines exactly when the general registers,
    MXCSR, the features, the mask registers and all words of the vector registers
    that are not hidden agree; and the comparison accepts exactly when the report
    has no lines and the instructions and the hidden words agree as well.  Hidden
    are, when the features have bit 7 (registers from 16 on) and not bit 6 (upper
    halves), the words of the registers from 16 on that are not printed.
    On AArch64, for captured files: the comparison accepts exactly equal files and
    the report has no lines exactly when the files are equal but for the fault
    address. *)
Theorem mismatch_reported :
  (forall m a, struct_wf m -> struct_wf a ->
     s390x_reginfo_dump_mismatch m a = [] <-> s390x_reginfo_is_eq m a = true) /\
  (forall m a, struct_wf m -> struct_wf a ->
     m68k_reginfo_dump_mismatch m a = [] <-> m68k_reginfo_is_eq m a = true) /\
  (forall m a, struct_wf m -> struct_wf a ->
     arm_reginfo_dump_mismatch m a = arm_heading <-> arm_reginfo_is_eq m a = true) /\
  (forall o im si u m u' o' im' si' v a v',
     loong_reginfo_init o im si u = (inl m, u') -> loong_reginfo_init o' im' si' v = (inl a, v') ->
     loong_reginfo_dump_mismatch m a = loong_heading <-> loong_reginfo_is_eq m a = true) /\
  (forall xf im si u m u' xf' im' si' v a v',
     x86_reginfo_init xf im si u = (inl m, u') -> x86_reginfo_init xf' im' si' v = (inl a, v') ->
     x86_reginfo_dump_mismatch m a <> None /\
     (x86_reginfo_dump_mismatch m a = Some x86_heading <->
      x_gregs m = x_gregs a /\ x_mxcsr m = x_mxcsr a /\ x_xfeatures m = x_xfeatures a /\
      x86_shown_eq m a /\ x_kregs m = x_kregs a) /\
     (x86_reginfo_is_eq m a = true <->
      x86_reginfo_dump_mismatch m a = Some x86_heading /\ x_faulting_insn m = x_faulting_insn a /\
      forall i q, (i < max_vregs)%nat -> (q < 8)%nat -> x86_hidden (x_xfeatures m) i q = true ->
        quad m i q = quad a i q)) /\
  (forall t im si u m u' t' im' si' v a v',
     a64_reginfo_init t im si u = (inl m, u') -> a64_reginfo_init t' im' si' v = (inl a, v') ->
     (a64_reginfo_is_eq m a = true <-> m = a) /\
     (a64_reginfo_dump_mismatch m a = a64_heading <-> m = set_fault (a_fault_address m) a)).
Proof.
  split_and!.
  - exact (cpu_report (R := s390x_reginfo)).
  - exact (cpu_report (R := m68k_reginfo)).
  - exact (cpu_report (R := arm_reginfo)).
  - intros o im si u m u' o' im' si' v a v' Em Ea. apply loong_init_inv in Em, Ea. by apply loong_report.
  - intros xf im si u m u' xf' im' si' v a v' Em Ea. apply x86_init_inv in Em, Ea.
    split; [unfold x86_reginfo_dump_mismatch; by rewrite x86_asserts_hold |].
    split; [by apply x86_report | by apply x86_is_eq_report].
  - intros t im si u m u' t' im' si' v a v' Em Ea. apply a64_init_inv in Em, Ea.
    split; [by apply a64_is_eq_captured | by apply a64_report].
Qed.

(** C22: as much of a register file is transmitted as is used.  The first
    [reginfo_size] bytes of a captured register file [r], written over a buffer
    that holds anything, are read back as [r] itself on the architectures that
    transmit the whole structure.  On AArch64, which transmits only the part of the
    vector registers that is in use, what is read back has the size, the operation,
    the parameter and the program counter of [r], is compared and reported against
    any other register file as [r] is, and is printed as [r] is. *)
Theorem received_decides le :
  (forall o im si u r u' old, s390x_reginfo_init o im si u = (inl r, u') ->
     read_back le s390x_reginfo_size r old = r) /\
  (forall o im si u r u' old, m68k_reginfo_init o im si u = (inl r, u') ->
     read_back le m68k_reginfo_size r old = r) /\
  (forall o im si u r u' old, arm_reginfo_init o im si u = (inl r, u') ->
     read_back le arm_reginfo_size r old = r) /\
  (forall o im si u r u' old, loong_reginfo_init o im si u = (inl r, u') ->
     read_back le loong_reginfo_size r old = r) /\
  (forall o im si u r u' old, x86_reginfo_init o im si u = (inl r, u') ->
     read_back le x86_reginfo_size r old = r) /\
  (forall t im si u r u' old, a64_reginfo_init t im si u = (inl r, u') ->
     let m := read_back le a64_reginfo_size r old in
     a64_reginfo_size m = a64_reginfo_size r /\ a64_get_risuop m = a64_get_risuop r /\
     a64_get_reginfo_paramreg m = a64_get_reginfo_paramreg r /\ a64_get_pc m = a64_get_pc r /\
     a64_reginfo_dump m = a64_reginfo_dump r /\
     forall a, a64_reginfo_is_eq m a = a64_reginfo_is_eq r a /\
       a64_reginfo_dump_mismatch m a = a64_reginfo_dump_mismatch r a).
Proof.
  unfold read_back. split_and!; intros o im si u r u' old E.
  - exact (whole_received (R := s390x_reginfo) (U := s390x_ctx) (O := ()) le r old eq_refl (cpu_init_wf o im si u r u' E)).
  - exact (whole_received (R := m68k_reginfo) (U := m68k_ctx) (O := ()) le r old eq_refl (cpu_init_wf o im si u r u' E)).
  - exact (whole_received (R := arm_reginfo) (U := arm_ctx) (O := Z) le r old eq_refl (cpu_init_wf o im si u r u' E)).
  - exact (whole_received (R := loong_reginfo) (U := loong_ctx) (O := ()) le r old eq_refl (cpu_init_wf o im si u r u' E)).
  - exact (whole_received (R := x86_reginfo) (U := x86_ctx) (O := Z) le r old eq_refl (cpu_init_wf o im si u r u' E)).
  - apply a64_init_inv, acap_wf in E. pose proof (a64_received le r old E) as S.
    set (m := struct_dec _ _) in *. split; [by apply a64_same_size |].
    split; [by destruct S as [-> _] |]. split; [by destruct S as [-> _] |].
    split; [by destruct S as [-> _] |]. split; [by apply same_dump |]. intros a.
    split; [by apply same_is_eq | by apply same_dump_mismatch].
Qed.
End cpus.
