(* ===== verification/CpuMain.v ===== *)
(** * The command lines of the other architectures

    The options of the architectures (arch_long_opts, arch_extra_help,
    process_arch_opt and arch_init in risu_reginfo_<arch>.c), as instances of
    [ArchMain].  With a port to the interface, [risu_main] runs on each of them.

    The theorems: on x86 every mask of features can be chosen on the command line,
    and what is no number is rejected; on AArch64 the vector length that the
    options leave is in range, whatever the options are, and the system has
    accepted it. *)

From Stdlib Require Import Ascii.
From stdpp Require Import gmap.
From S2P Require Import Prelude Endian Comms Arch Header Risu Getopt GetoptSpec Strtol RisuMain.
From S2P Require Import Cpu S390x M68k Arm LoongArch X86 AArch64.

(** ** Architectures without options *)

(** [process_arch_opt] is not called; it would abort. *)
Definition no_option {O} (opt : Z) (arg : option string) : M (O * text) () := stop HAbort.

(** Empty. *)
Definition no_init {O} : M (O * text) () := mret ().

Section plain.
Context `{Build}.

Definition s390x_arch `{!Port s390x_reginfo} : Arch :=
  cpu_arch (R := s390x_reginfo) (U := s390x_ctx) (O := ()).

#[export] Instance s390x_main `{!Port s390x_reginfo} : @ArchMain s390x_arch := {|
  arch_long_opts := None;
  arch_extra_help := None;
  arch_process_opt := no_option;
  arch_flags _ o := o;
  arch_init := no_init
|}.

Definition m68k_arch `{!Port m68k_reginfo} : Arch :=
  cpu_arch (R := m68k_reginfo) (U := m68k_ctx) (O := ()).

#[export] Instance m68k_main `{!Port m68k_reginfo} : @ArchMain m68k_arch := {|
  arch_long_opts := None;
  arch_extra_help := None;
  arch_process_opt := no_option;
  arch_flags _ o := o;
  arch_init := no_init
|}.

Definition loong_arch `{!Port loong_reginfo} : Arch :=
  cpu_arch (R := loong_reginfo) (U := loong_ctx) (O := ()).

#[export] Instance loong_main `{!Port loong_reginfo} : @ArchMain loong_arch := {|
  arch_long_opts := None;
  arch_extra_help := None;
  arch_process_opt := no_option;
  arch_flags _ o := o;
  arch_init := no_init
|}.

(** ** Arm *)

(** The option sets the variable [test_fp_exc]. *)
Definition arm_extra_opts : list option_t :=
  [ Option "test-fp-exc" no_argument (Some "test_fp_exc"%string) 1 ].

Definition arm_extra_help : string :=
  "  --test-fp-exc     Check FP exception bits when comparing\n".

(** The variable, if an option has set it. *)
Definition arm_flags (vs : gmap string Z) (test_fp_exc : Z) : Z :=
  default test_fp_exc (vs !! "test_fp_exc"%string).

Definition arm_arch `{!Port arm_reginfo} : Arch :=
  cpu_arch (R := arm_reginfo) (U := arm_ctx) (O := Z).

#[export] Instance arm_main `{!Port arm_reginfo} : @ArchMain arm_arch := {|
  arch_long_opts := Some arm_extra_opts;
  arch_extra_help := Some arm_extra_help;
  arch_process_opt := no_option;
  arch_flags := (arm_flags : gmap string Z -> @aopts arm_arch -> @aopts arm_arch);
  arch_init := no_init
|}.

(** ** x86 *)

Definition x86_default_xfeatures : Z := Z.lor XFEAT_X87 XFEAT_SSE.

Definition x86_extra_ops : list option_t :=
  [ Option "xfeatures" required_argument None FIRST_ARCH_OPT ].

Definition x86_extra_help : string := "  --xfeatures=<mask>  Use features in mask for XSAVE\n".

Definition x86_process_arch_opt (opt : Z) (arg : option string) : M (Z * text) () :=
  let set v := modify (fun p : Z * text => (v, snd p)) in
  if negb (opt =? FIRST_ARCH_OPT) then stop HAbort
  else
    match arg with
    | None => stop HUB
    | Some a =>
        if my_strcmp a "sse" =? 0 then set (Z.lor XFEAT_X87 XFEAT_SSE)
        else if my_strcmp a "avx" =? 0 then set (Z.lor (Z.lor XFEAT_X87 XFEAT_SSE) XFEAT_AVX)
        else if my_strcmp a "avx512" =? 0 then
          set (Z.lor (Z.lor (Z.lor XFEAT_X87 XFEAT_SSE) XFEAT_AVX) XFEAT_AVX512)
        else
          let '(v, endptr) := strtoull0 a in
          _ ← set v;
          if negb (at_end endptr) then
            arch_fail "Unable to parse '%s' in '%s' into an xfeatures integer mask\n"
              [AStr endptr; AStr a]
          else mret ()
    end.

Definition x86_arch `{X86} `{!Port x86_reginfo} : Arch :=
  cpu_arch (R := x86_reginfo) (U := x86_ctx) (O := Z).

#[export] Instance x86_main `{X86} `{!Port x86_reginfo} : @ArchMain x86_arch := {|
  arch_long_opts := Some x86_extra_ops;
  arch_extra_help := Some x86_extra_help;
  arch_process_opt := (x86_process_arch_opt : Z -> option string -> M (@aopts x86_arch * text) ());
  arch_flags _ o := o;
  arch_init := no_init
|}.
End plain.

(** ** AArch64 *)

Definition a64_extra_opts : list option_t :=
  [ Option "test-sve" required_argument None FIRST_ARCH_OPT ].

Definition a64_extra_help : string := "  --test-sve=<vq>        Compare SVE registers with VQ\n".

(** [test_sve] is an [int], and [long] has 64 bits. *)
Definition a64_process_arch_opt (opt : Z) (arg : option string) : M (Z * text) () :=
  if negb (opt =? FIRST_ARCH_OPT) then stop HAbort
  else
    match arg with
    | None => stop HUB
    | Some a =>
        let v := s32 (strtol10 64 a) in
        _ ← modify (fun p : Z * text => (v, snd p));
        if (v <=? 0) || (SVE_VQ_MAX <? v) then
          arch_fail "Invalid value for VQ (1-%d)\n" [AInt SVE_VQ_MAX]
        else mret ()
    end.

(** [prctl(PR_SVE_SET_VL, want)], and whether it sets errno to EINVAL. *)
Class Prctl := { prctl : Z -> Z; prctl_einval : bool }.

Section a64.
Context `{Build} `{Prctl}.

Definition a64_arch_init : M (Z * text) () :=
  test_sve ← gets fst;
  if truth test_sve then
    let want := sve_vl_from_vq test_sve in
    let got := prctl want in
    if negb (want =? got) then
      if 0 <=? got then
        arch_fail "Unsupported VQ for SVE (%d != %d)\n" [AInt test_sve; AInt (s32 (sve_vq_from_vl got))]
      else if prctl_einval then arch_fail "System does not support SVE\n" []
      else arch_fail "%s: %m\n" [AStr "prctl PR_SVE_SET_VL"]
    else mret ()
  else mret ().

Definition a64_arch `{!Port a64_reginfo} : Arch :=
  cpu_arch (R := a64_reginfo) (U := a64_ctx) (O := Z).

#[export] Instance a64_main `{!Port a64_reginfo} : @ArchMain a64_arch := {|
  arch_long_opts := Some a64_extra_opts;
  arch_extra_help := Some a64_extra_help;
  arch_process_opt := (a64_process_arch_opt : Z -> option string -> M (@aopts a64_arch * text) ());
  arch_flags _ o := o;
  arch_init := (a64_arch_init : M (@aopts a64_arch * text) ())
|}.
End a64.

(** ** The tables *)

Section tables.
Context `{Build}.

Lemma s390x_opts_ok `{!Port s390x_reginfo} : arch_opts_ok (H0 := s390x_arch).
Proof. split; [constructor | done]. Qed.

Lemma m68k_opts_ok `{!Port m68k_reginfo} : arch_opts_ok (H0 := m68k_arch).
Proof. split; [constructor | done]. Qed.

Lemma loong_opts_ok `{!Port loong_reginfo} : arch_opts_ok (H0 := loong_arch).
Proof. split; [constructor | done]. Qed.

Lemma arm_opts_ok `{!Port arm_reginfo} : arch_opts_ok (H0 := arm_arch).
Proof. split; [by repeat constructor |]. intros z o. reflexivity. Qed.

Lemma x86_opts_ok `{X86} `{!Port x86_reginfo} : arch_opts_ok (H0 := x86_arch).
Proof. split; [repeat constructor; by vm_compute | done]. Qed.

Lemma a64_opts_ok `{Prctl} `{!Port a64_reginfo} : arch_opts_ok (H0 := a64_arch).
Proof. split; [repeat constructor; by vm_compute | done]. Qed.
End tables.

(** ** Properties *)

Section x86_options.
Context `{Build} `{X86} `{!Port x86_reginfo} `{Zlib} `{CharSign}.

#[local] Instance the_x86 : Arch := x86_arch.

Definition xfeatures_arg (t : string) : string := "--xfeatures=" +:+ t.

Lemma xfeatures_parse t :
  parse short_opts setup_options [xfeatures_arg t] =
    ([OptEvent FIRST_ARCH_OPT (Some t) None], ([xfeatures_arg t], [])).
Proof. reflexivity. Qed.

Definition unable : string := "Unable to parse '%s' in '%s' into an xfeatures integer mask\n".

(** A number, and what follows it. *)
Lemma xfeatures_number v tail o t :
  in_width 64 v -> has_digit 16 tail = false ->
  let a := "0x" +:+ hex 16 v tail in
  x86_process_arch_opt FIRST_ARCH_OPT (Some a) (o, t) =
  if at_end tail then (inl (), (v, t))
  else (inr (HExit EXIT_FAILURE), (v, t ++ [(unable, [AStr tail; AStr a])])).
Proof.
  intros Hv Ht a. unfold x86_process_arch_opt. cbn [Z.eqb negb].
  assert ((my_strcmp a "sse" =? 0) = false) as -> by done.
  assert ((my_strcmp a "avx" =? 0) = false) as -> by done.
  assert ((my_strcmp a "avx512" =? 0) = false) as -> by done.
  unfold a at 1. rewrite strtoull0_hex by done.
  by destruct (at_end tail).
Qed.

(** C19: every mask of x86 features can be chosen on the command line, as a
    hexadecimal number or by one of the three names; if something follows the
    number the program exits and names it. *)
Theorem xfeatures_option zlib long_bits (c : @config the_x86 _) :
  (forall v, in_width 64 v -> exists es oo c',
     parse short_opts setup_options [xfeatures_arg ("0x" +:+ hex 16 v EmptyString)] = (es, (oo, [])) /\
     configure zlib long_bits es c = (inl None, c') /\ cf_opts c' = v /\ cf_err c' = cf_err c) /\
  (forall t v, (t, v) ∈ [("sse", 0x3); ("avx", 0x7); ("avx512", 0xe7)]%string -> exists es oo c',
     parse short_opts setup_options [xfeatures_arg t] = (es, (oo, [])) /\
     configure zlib long_bits es c = (inl None, c') /\ cf_opts c' = v /\ cf_err c' = cf_err c) /\
  (forall v junk, in_width 64 v -> has_digit 16 junk = false -> at_end junk = false ->
     let t := "0x" +:+ hex 16 v junk in
     exists es oo c',
     parse short_opts setup_options [xfeatures_arg t] = (es, (oo, [])) /\
     configure zlib long_bits es c = (inr (HExit EXIT_FAILURE), c') /\
     cf_err c' = cf_err c ++
       [("Unable to parse '%s' in '%s' into an xfeatures integer mask\n"%string, [AStr junk; AStr t])]).
Proof.
  split_and!.
  - intros v Hv. eexists _, _, (set_cf_opts (v : @aopts the_x86) c).
    split; [apply xfeatures_parse |]. rewrite configure_arch by done.
    unfold on_arch, zoom, mbind, M_bind. cbn [arch_process_opt x86_main].
    rewrite (xfeatures_number v EmptyString) by done. by destruct c.
  - intros t v Hin. eexists _, _, (set_cf_opts (v : @aopts the_x86) c).
    split; [apply xfeatures_parse |]. rewrite configure_arch by done. set_unfold in Hin.
    destruct Hin as [[= -> ->]|[[= -> ->]|[[= -> ->]|[]]]]; by destruct c.
  - intros v junk Hv Hj He t. eexists _, _, _.
    split; [apply xfeatures_parse |]. rewrite configure_arch by done.
    unfold on_arch, zoom, mbind, M_bind. cbn [arch_process_opt x86_main].
    unfold t at 1. rewrite (xfeatures_number v junk), He by done. by destruct c.
Qed.
End x86_options.

Section a64_options.
Context `{Build} `{Prctl} `{!Port a64_reginfo} `{Zlib} `{CharSign}.

#[local] Instance the_a64 : Arch := a64_arch.

Definition vq_ok (c : @config the_a64 _) : Prop := 0 <= (cf_opts c : Z) <= SVE_VQ_MAX.

(** Where a process goes on after an option, the length is in range. *)
Lemma vq_process opt arg o t o' t' :
  a64_process_arch_opt opt arg (o, t) = (inl (), (o', t')) -> 1 <= o' <= SVE_VQ_MAX /\ t' = t.
Proof.
  unfold a64_process_arch_opt. destruct (negb _); [done |]. destruct arg as [a|]; [| done].
  set (v := s32 _). unfold mbind, M_bind, modify. cbn [fst snd].
  destruct ((v <=? 0) || (SVE_VQ_MAX <? v)) eqn:E; [done |]. intros K. injection K as <- <-.
  apply orb_false_iff in E as [E1 E2]. split; [lia | done].
Qed.

Lemma vq_step zlib long_bits v a c c' :
  vq_ok c -> option_step zlib long_bits v a c = (inl None, c') -> vq_ok c'.
Proof.
  unfold option_step. intros Hc.
  case_match; [intros E; injection E as <-; exact Hc |].
  case_match; [intros E; apply bind_inv in E as ([] & c1 & [= <-] & [= <-]); exact Hc |].
  case_match; [intros E; apply bind_inv in E as ([] & c1 & [= <-] & [= <-]); exact Hc |].
  case_match; [destruct a; [| done]; intros E; apply bind_inv in E as ([] & c1 & [= <-] & [= <-]); exact Hc |].
  case_match; [intros E; apply bind_inv in E as ([] & c1 & _ & E); by injection E |].
  case_match; [done |]. intros E. apply bind_inv in E as ([] & c1 & E1 & E). injection E as <-.
  unfold on_arch, zoom in E1. cbn [arch_process_opt a64_main] in E1.
  destruct (a64_process_arch_opt v a (cf_opts c, cf_err c)) as [r [o' t']] eqn:Ep.
  injection E1 as -> <-. apply vq_process in Ep as [Hv _]. unfold vq_ok. cbn. lia.
Qed.

Lemma vq_configure zlib long_bits es c c' :
  vq_ok c -> configure zlib long_bits es c = (inl None, c') -> vq_ok c'.
Proof.
  revert c. induction es as [|ev es IH]; intros c Hc E; cbn [configure] in E.
  - by injection E as <-.
  - apply bind_inv in E as ([z|] & c1 & E1 & E); [done |]. by eapply IH, E; eapply vq_step.
Qed.

Definition sve_arg (t : string) : string := "--test-sve=" +:+ t.

Lemma sve_parse t :
  parse short_opts setup_options [sve_arg t] =
    ([OptEvent FIRST_ARCH_OPT (Some t) None], ([sve_arg t], [])).
Proof. reflexivity. Qed.

(** A number of one or two digits. *)
Definition decimal (v : Z) : string :=
  if v <? 10 then String (hex_digit v) EmptyString
  else String (hex_digit (v / 10)) (String (hex_digit (v mod 10)) EmptyString).

Lemma vq_number v o t :
  1 <= v <= SVE_VQ_MAX ->
  a64_process_arch_opt FIRST_ARCH_OPT (Some (decimal v)) (o, t) = (inl (), (v, t)).
Proof.
  intros Hv.
  assert (forallb (fun v => s32 (strtol10 64 (decimal v)) =? v) (seqZ 1 16) = true) as F by (by vm_compute).
  apply forallb_Forall_true in F. rewrite Forall_forall in F. specialize (F v ltac:(apply elem_of_seqZ; unfold SVE_VQ_MAX in *; lia)).
  apply Z.eqb_eq in F. unfold a64_process_arch_opt. rewrite Z.eqb_refl, F. cbn [negb]. destruct (Z.leb_spec v 0); [lia |]. destruct (Z.ltb_spec SVE_VQ_MAX v); [lia |]. done.
Qed.

(** C20: on AArch64 the vector length is in range when the options have been read,
    whatever they are; each length from 1 to 16 can be chosen; and a program that
    starts the test with vectors has a system that has agreed to their length,
    and registers of this length fit into the register file when they are copied.
    The conversion to [int] comes before the check: a number that is too large by
    a multiple of [2 ^ 32] passes it. *)
Theorem sve_option zlib long_bits (c : @config the_a64 _) :
  (forall es c', vq_ok c -> configure zlib long_bits es c = (inl None, c') -> vq_ok c') /\
  (forall v, 1 <= v <= SVE_VQ_MAX -> exists es oo c',
     parse short_opts setup_options [sve_arg (decimal v)] = (es, (oo, [])) /\
     configure zlib long_bits es c = (inl None, c') /\ cf_opts c' = v) /\
  (forall o t o' t', a64_arch_init (o, t) = (inl (), (o', t')) ->
     o' = o /\ t' = t /\ (o <> 0 -> prctl (sve_vl_from_vq o) = sve_vl_from_vq o)) /\
  (vq_ok c -> forall p u, let n := SVE_SIG_REGS_SIZE (cf_opts c) in
     copy_extra n p u = (bs ← load_bytes qc_mem (Z.to_nat n) p; mret (in_extra bs)) u) /\
  (forall o t, a64_process_arch_opt FIRST_ARCH_OPT (Some "4294967297"%string) (o, t) = (inl (), (1, t))).
Proof.
  split_and!.
  - intros es c' Hc E. by eapply vq_configure.
  - intros v Hv. eexists _, _, (set_cf_opts (v : @aopts the_a64) c). split; [apply sve_parse |].
    split; [| done]. rewrite configure_arch by done.
    unfold on_arch, zoom, mbind, M_bind. cbn [arch_process_opt a64_main].
    rewrite vq_number by done. by destruct c.
  - intros o t o' t'. unfold a64_arch_init, mbind, M_bind, gets. cbn [fst]. unfold truth.
    destruct (Z.eqb_spec o 0) as [->|Ho]; cbn [negb]; [by intros [= <- <-] |].
    destruct (Z.eqb_spec (sve_vl_from_vq o) (prctl (sve_vl_from_vq o))) as [E|_]; cbn [negb];
      [by intros [= <- <-] |].
    repeat case_match; by intros [=].
  - intros Hc p u n. unfold copy_extra. destruct (Z.leb_spec n (Z.of_nat extra_len)) as [_|Hn]; [done |].
    exfalso. unfold vq_ok in Hc. unfold n in Hn.
    destruct (Z.eq_dec (cf_opts c) 0) as [E|E]; [rewrite E in Hn; by vm_compute in Hn |].
    pose proof (sve_size_range (cf_opts c)). lia.
  - reflexivity.
Qed.
End a64_options.

(** The flag of Arm: the option sets it, and it stays set. *)
Lemma arm_option `{Build} `{!Port arm_reginfo} `{CharSign} (o : Z) :
  exists es oo, parse short_opts (setup_options (H0 := arm_arch)) ["--test-fp-exc"%string] = (es, (oo, [])) /\
    (forall vs, arm_flags (flags_after es vs) o = 1) /\ arm_flags (flags_after [] ∅) o = o.
Proof.
  eexists _, _. split; [reflexivity |]. split; [| reflexivity]. intros vs.
  unfold arm_flags, flags_after, found_event. cbn. by rewrite lookup_insert_eq.
Qed.
