(* ===== verification/Examples.v ===== *)
(** * A concrete machine

    The theorems about the protocol are stated for every architecture, every
    host and every program under test.  Here they are applied to one of each:
    64-bit PowerPC, a big-endian host, and an image that goes through most risu
    operations.  Each lemma is an instance of the theorem it is named after, so
    its hypotheses can be met. *)

From stdpp Require Import gmap.
From S2P Require Import Prelude Endian Comms Arch Header Risu Verdict Trace Session.
From S2P Require Import PpcFloat PpcTolerance Ppc64 PpcCompare.
From S2P Require Import Getopt GetoptSpec Strtol RisuMain RisuNet PpcMain Argv Shell.
From S2P Require Import Cpu S390x X86 AArch64 Cpus.

(** ** Builds *)

Definition be_build : Build :=
  {| bswap_builtins := true; host_le := false; def_LITTLE_ENDIAN := false |}.
Definition le_build : Build :=
  {| bswap_builtins := true; host_le := true; def_LITTLE_ENDIAN := true |}.
Definition linux_ppc64 : PpcBuild :=
  {| dppc := false; apple := false; lp64 := true; big_endian := true |}.
Definition emulator : PpcBuild :=
  {| dppc := true; apple := false; lp64 := true; big_endian := false |}.

(** A compressed file that keeps its data in two lists. *)
Definition list_zlib : Zlib := {|
  gzfile := bytes * bytes;
  gzread g n := ((Z.of_nat (length (take (Z.to_nat n) (snd g))), take (Z.to_nat n) (snd g)),
                 (fst g, drop (Z.to_nat n) (snd g)));
  gzwrite g bs := (Z.of_nat (length bs), (fst g ++ bs, snd g));
  gzclose g := g
|}.

Definition list_zlib_laws : @ZlibLaws list_zlib.
Proof.
  refine {| gz_written := fst : @gzfile list_zlib -> bytes;
            gz_unread := snd : @gzfile list_zlib -> bytes |}; try done.
  - intros g n Hn. cbn. rewrite length_take. do 2 f_equal. lia.
  - intros g n Hn. cbn. by rewrite take_ge by lia.
Defined.

(** No compressed file is in use. *)
Definition no_file : @gzfile list_zlib := ([], []).

Section machine.
#[local] Existing Instance be_build.
#[local] Existing Instance linux_ppc64.
#[local] Existing Instance list_zlib.
#[local] Existing Instance list_zlib_laws.
#[local] Instance wraps : AbsOverflow := - 2 ^ 63.
#[local] Instance no_swap : PpcSwapOk.
Proof. done. Defined.

(** The image: setup with an illegal instruction in it, a memory block is set
    and its address fetched, a comparison of registers, the end. *)
Definition code : list Z :=
  [0x5af5; 0; 0x5af6; 0x5af2; 0x5af3; 0x5af0; 0x5af1].

Definition image_base : Z := 0x10000.
Definition block_base : Z := 0x20000.

Definition memory (code : list Z) : gmap Z Z :=
  list_to_map (zip (seqZ image_base (4 * Z.of_nat (length code)))
                   (concat (map (int_bytes false 4) code))).

Definition the_image : image := Image image_base (4 * Z.of_nat (length code)).

(** The context in which the image starts: r0 points to the memory block. *)
Definition start_ctx (code : list Z) : ppc_ctx :=
  PpcCtx image_base (block_base :: replicate 31 7) 0 0 0 0 0 0 0 0 (replicate 32 0) 0 (memory code).

(** Every instruction of the image is illegal, so the next signal is always at
    the program counter. *)
Definition next_signal (u : ppc_ctx) : option (signal * Z * ppc_ctx) :=
  Some (SIGILL, c_pc u, u).

Definition trace_cfg : settings := Settings _ true false false ppc_default_opts the_image.

Definition quiet (rx : list rd_event) : os := Os rx [] 0 [].

Definition run_master : (Z + halt) * risu :=
  master trace_cfg next_signal 8 (risu_start (start_ctx code) (quiet []) no_file).

Lemma start_ctx_wf c : ppc_ctx_wf (start_ctx c).
Proof.
  split; cbn -[Z.pow]; repeat (apply Forall_cons; split); try apply Forall_nil_2; try done;
    unfold in_width; cbn -[Z.pow]; lia.
Qed.

Lemma playback_file bs u g : playback trace_cfg bs (risu_start u (quiet (file_rx bs)) g).
Proof. reflexivity. Qed.

Lemma run_master_ok : fst run_master = inl EXIT_SUCCESS.
Proof. vm_compute. reflexivity. Qed.

Lemma run_master_eq :
  master trace_cfg next_signal 8 (risu_start (start_ctx code) (quiet []) no_file) =
  (inl EXIT_SUCCESS, snd run_master).
Proof. rewrite <-run_master_ok. unfold run_master. apply surjective_pairing. Qed.

Lemma record_replay_witness :
  exists wa, apprentice trace_cfg next_signal 8
      (risu_start (start_ctx code) (quiet (file_rx (recorded trace_cfg (snd run_master)))) no_file)
    = (inl EXIT_SUCCESS, wa) /\ signal_count wa = 7.
Proof.
  destruct (record_replay trace_cfg trace_cfg next_signal 8 (start_ctx code) (quiet []) no_file
    (quiet (file_rx (recorded trace_cfg (snd run_master)))) no_file (snd run_master)) as (wa & E & N & _).
  1-5: reflexivity.
  - apply start_ctx_wf.
  - intros v sig si v' W K. injection K as _ _ <-. exact W.
  - right. reflexivity.
  - reflexivity.
  - vm_compute. reflexivity.
  - exact run_master_eq.
  - apply playback_file.
  - exists wa. split; [exact E |]. rewrite N. vm_compute. reflexivity.
Defined.

(** ** The apprentice's verdict *)

Definition played_back : risu :=
  risu_start (start_ctx code) (quiet (file_rx (recorded trace_cfg (snd run_master)))) no_file.

Definition run_apprentice : (Z + halt) * risu := apprentice trace_cfg next_signal 8 played_back.

Lemma run_apprentice_eq :
  apprentice trace_cfg next_signal 8 played_back = (inl EXIT_SUCCESS, snd run_apprentice).
Proof.
  assert (fst run_apprentice = inl EXIT_SUCCESS) as <- by (vm_compute; reflexivity).
  unfold run_apprentice. apply surjective_pairing.
Qed.

Lemma success_compared_everything_witness :
  exists l x, handled next_signal (apprentice_sigill trace_cfg) 8
      (announced trace_cfg played_back) = l ++ [x] /\
    Forall (accepts trace_cfg false) l /\ accepts trace_cfg true x.
Proof.
  exact (success_compared_everything trace_cfg next_signal 8 played_back (snd run_apprentice)
    run_apprentice_eq).
Defined.

(** A state in which a message has been received. *)
Definition with_header (h : trace_header_t) : risu :=
  set_header h (risu_start (start_ctx code) (quiet []) no_file).

Lemma checkpoint_verdict_witness :
  checkpoint_agrees trace_cfg OP_SETUPBEGIN (with_header (Header RISU_MAGIC 0 5 0)).
Proof.
  apply (checkpoint_verdict trace_cfg OP_SETUPBEGIN 0 (with_header (Header RISU_MAGIC 0 5 0)) RES_OK
    (set_is_setup true (with_header (Header RISU_MAGIC 0 5 0)))).
  - reflexivity.
  - by left.
Defined.

(** ** Over a socket *)

Definition socket_cfg : settings := Settings _ false false false ppc_default_opts the_image.

(** The network delivers byte by byte. *)
Definition bytewise (bs : bytes) : list rd_event := map (fun b => RdChunk b []) bs.

Lemma bytewise_delivers : delivers bytewise.
Proof.
  intros bs. induction bs as [|b bs [IH1 IH2]]; [done |]. split; [by constructor |].
  simpl. by rewrite IH2.
Qed.

Lemma session_completes_witness :
  let m q := master socket_cfg next_signal 8
    (risu_start (start_ctx code) (socket bytewise q) no_file) in
  let a p := apprentice socket_cfg next_signal 8
    (risu_start (start_ctx code) (socket bytewise p) no_file) in
  exists bound, forall n p q, nsteps (net_step (sent ∘ m) (sent ∘ a)) n ([], []) (p, q) ->
    (n <= bound)%nat /\
    ((exists c, net_step (sent ∘ m) (sent ∘ a) (p, q) c) \/
     fst (m q) = inl EXIT_SUCCESS /\ fst (a p) = inl EXIT_SUCCESS).
Proof.
  intros m a.
  destruct (session_completes trace_cfg socket_cfg socket_cfg next_signal 8 (start_ctx code)
    (quiet []) no_file no_file no_file (snd run_master) bytewise bytewise) as (bound & B).
  1-8: reflexivity.
  - apply start_ctx_wf.
  - intros v sig si v' W K. injection K as _ _ <-. exact W.
  - right. reflexivity.
  - vm_compute. reflexivity.
  - exact run_master_eq.
  - exact bytewise_delivers.
  - exact bytewise_delivers.
  - exists bound. intros n p q S. destruct (B n p q S) as [L R]. split; [exact L |].
    destruct R as [R|(wm & wa & E1 & E2 & _)]; [left; exact R | right].
    unfold m, a. rewrite E1, E2. split; reflexivity.
Defined.

(** The first configuration of the same session: the header of the first packet
    is under way. *)
Lemma one_packet_under_way_witness :
  let m q := master socket_cfg next_signal 8
    (risu_start (start_ctx code) (socket bytewise q) no_file) in
  let a p := apprentice socket_cfg next_signal 8
    (risu_start (start_ctx code) (socket bytewise p) no_file) in
  length (sent (m [])) = 28%nat /\
  forall n p q, nsteps (net_step (sent ∘ m) (sent ∘ a)) n ([], []) (p, q) ->
    q = sent (a p) \/ p = sent (m q).
Proof.
  intros m a. split; [vm_compute; reflexivity |]. intros n p q S.
  destruct (one_packet_under_way trace_cfg socket_cfg socket_cfg next_signal 8 (start_ctx code)
    (quiet []) no_file no_file no_file (snd run_master) bytewise bytewise) with (n := n) (p := p) (q := q)
    as (_ & _ & [[R _]|[R _]]).
  1-8: reflexivity.
  - apply start_ctx_wf.
  - intros v sig si v' W K. injection K as _ _ <-. exact W.
  - right. reflexivity.
  - vm_compute. reflexivity.
  - exact run_master_eq.
  - exact bytewise_delivers.
  - exact bytewise_delivers.
  - exact S.
  - left. exact R.
  - right. exact R.
Defined.

(** At the first instruction the two sides have different values in r3. *)
Definition compare_at (r3 : Z) : risu :=
  risu_start
    (PpcCtx image_base (0 :: 0 :: 0 :: r3 :: replicate 28 7) 0 0 0 0 0 0 0 0 (replicate 32 0) 0
       (memory (replicate 7 0x5af0)))
    (quiet []) no_file.

Definition captured (w : risu) : ppc_reginfo :=
  match ppc_reginfo_init ppc_default_opts the_image image_base (uc w) with
  | (inl r, _) => r
  | _ => example_regs 0 0
  end.

(** What the master sends. *)
Definition capturing : risu :=
  master_at (captured (compare_at 1)) (uc (compare_at 1)) (tick (compare_at 1)).

Definition prepared : (Z * option bytes + halt) * risu :=
  prepare_payload (get_risuop (captured (compare_at 1))) capturing.

Definition sent_payload : Z * option bytes :=
  match fst prepared with inl p => p | _ => (0, None) end.

Lemma prepared_eq : prepared = (inl (fst sent_payload, snd sent_payload), snd prepared).
Proof.
  rewrite <-surjective_pairing. assert (fst prepared = inl sent_payload) as <- by (vm_compute; reflexivity).
  apply surjective_pairing.
Qed.

Definition mismatch_run : (RisuResult + halt) * risu :=
  compare_op socket_cfg (get_risuop (captured (compare_at 2))) image_base
    (arrived (uc (compare_at 1)) (captured (compare_at 1)) (fst sent_payload) (snd sent_payload)
      (apprentice_at (captured (compare_at 2)) (uc (compare_at 2)) (tick (compare_at 2)))).

Lemma mismatch_run_eq : mismatch_run = (inl RES_MISMATCH_REG, snd mismatch_run).
Proof.
  assert (fst mismatch_run = inl RES_MISMATCH_REG) as <- by (vm_compute; reflexivity).
  apply surjective_pairing.
Qed.

(** A header that announces no operation. *)
Definition bad_operation : trace_header_t := Header RISU_MAGIC 0 99 0.

Lemma mismatch_ends_master_witness :
  (exists l wm1 wa1,
    performs (master_sigill socket_cfg SIGILL image_base) (compare_at 1) l (Some RES_END) wm1 /\
    performs (apprentice_sigill socket_cfg SIGILL image_base) (compare_at 2) (dual l)
      (Some RES_MISMATCH_REG) wa1 /\
    fst (master_result socket_cfg RES_END wm1) = inl EXIT_SUCCESS) /\
  performs (send_message socket_cfg bad_operation None) (compare_at 1)
    [Put (packet (header_enc bad_operation)); Get [1]] RES_END (compare_at 1) /\
  exists wa1, performs (apprentice_sigill socket_cfg SIGILL image_base) (compare_at 2)
    [Get (packet (header_enc bad_operation)); Put [1]] (Some RES_BAD_OP) wa1.
Proof.
  destruct (mismatch_ends_master socket_cfg socket_cfg image_base (captured (compare_at 2))
    (uc (compare_at 2)) (compare_at 2)) as [K1 K2].
  1-6: reflexivity.
  split.
  - apply (K1 image_base (captured (compare_at 1)) (uc (compare_at 1)) (compare_at 1)
      (fst sent_payload) (snd sent_payload) (snd prepared)
      RES_MISMATCH_REG (snd mismatch_run)).
    + reflexivity.
    + reflexivity.
    + exact prepared_eq.
    + vm_compute. discriminate.
    + exact mismatch_run_eq.
    + discriminate.
  - apply (K2 bad_operation None (compare_at 1)). vm_compute. discriminate.
Defined.

(** ** Messages that are not as expected *)

(** The file being played back holds zeros. *)
Definition zeros : risu :=
  risu_start (start_ctx code) (quiet (file_rx (replicate 24 0))) no_file.

Lemma bad_header_rejected_witness :
  exists w', recv_register_info trace_cfg zeros = (inl RES_BAD_MAGIC, w') /\ playback trace_cfg [] w'.
Proof.
  destruct (bad_header_rejected trace_cfg (replicate 24 0) [] zeros)
    as (w' & E & P & _); [reflexivity | reflexivity | reflexivity | vm_compute; congruence |].
  exists w'. split; [exact E | exact P].
Defined.

Definition pipe_cfg : settings := Settings _ true true false ppc_default_opts the_image.

Lemma pipe_short_read_fails_witness :
  exists w', recv_register_info pipe_cfg
      (risu_start (start_ctx code) (quiet [RdChunk 0x52 [0x49]; RdChunk 0x53 [0x55]]) no_file)
    = (inl RES_BAD_IO, w') /\ rx (io w') = [RdChunk 0x53 [0x55]].
Proof.
  apply (pipe_short_read_fails pipe_cfg 0x52 [0x49] [RdChunk 0x53 [0x55]]);
    reflexivity.
Defined.

(** An image that compares a memory block at once. *)
Definition bare_image : image := Image image_base 4.
Definition bare_compare : ppc_ctx :=
  PpcCtx image_base (replicate 32 0) 0 0 0 0 0 0 0 0 (replicate 32 0) 0
    (list_to_map (zip (seqZ image_base 4) [0; 0; 0x5a; 0xf4])).
Definition bare_regs : ppc_reginfo :=
  match ppc_reginfo_init ppc_default_opts bare_image 0 bare_compare with
  | (inl r, _) => r
  | _ => example_regs 0 0
  end.

Definition bare_cfg : settings := Settings _ true true false ppc_default_opts bare_image.
Definition bare_start : risu := risu_start bare_compare (quiet []) no_file.

(** What the file being played back holds behind the header: the end of it, or
    other messages. *)
Definition bare_playback (rest : bytes) : risu :=
  risu_start bare_compare
    (quiet (file_rx (header_enc (message_header bare_compare bare_regs MEMBLOCKLEN) ++ rest))) no_file.

Definition more_messages : bytes := replicate (Z.to_nat 9000) 0x52.

Lemma unset_memblock_unplayable_witness :
  fst (recv_and_compare_register_info bare_cfg 0 (bare_playback [])) = inl RES_BAD_IO /\
  fst (recv_and_compare_register_info bare_cfg 0 (bare_playback more_messages)) = inr HUB.
Proof.
  split.
  - apply (unset_memblock_unplayable bare_cfg bare_cfg 0 bare_start bare_regs bare_compare []
      (bare_playback []) 0 bare_regs bare_compare); try reflexivity. right. reflexivity.
  - apply (unset_memblock_unplayable bare_cfg bare_cfg 0 bare_start bare_regs bare_compare more_messages
      (bare_playback more_messages) 0 bare_regs bare_compare); try reflexivity.
    + right. reflexivity.
    + vm_compute. discriminate.
Defined.

(** ** Commands *)

#[local] Instance signed_char : CharSign := true.

Definition the_cpu : @uctx ppc64_arch -> option (signal * Z * @uctx ppc64_arch) := next_signal.
Definition start_at (_ : image) : @uctx ppc64_arch := start_ctx code.
Definition the_opts : @aopts ppc64_arch := ppc_default_opts.

(** A host on which everything succeeds, with the trace file [file]. *)
Definition good_host (file : os) : host :=
  Host _ true true (fun _ => true) true (fun _ => Some (quiet [])) (fun _ => Some 0)
    (fun _ _ => Some (quiet [])) (fun _ _ => Some file) (fun _ => quiet []) (fun _ _ => no_file)
    (fun _ => true) (fun _ => Some (4 * Z.of_nat (length code))) (fun _ => image_base) true true
    (fun _ => true) false false.

Abbreviation run file args :=
  (run_command (good_host file) false 64 the_cpu start_at true 8 "risu" args the_opts).

Lemma good_host_ready file : ready (good_host file) "img" the_image.
Proof. split; done. Qed.

Lemma risu_main_obeys_witness :
  exists ref, agree (run (quiet []) ["img"; "--master"; "-tf"]%string) ref /\
    match fst ref with inl (z, Some _) => z = EXIT_SUCCESS | _ => False end.
Proof.
  destruct (risu_main_obeys (good_host (quiet [])) false 64 the_cpu start_at true 8
    "risu" ["img"; "--master"; "-tf"]%string the_opts
    [OptEvent 0 None (Some ("ismaster"%string, 1)); OptEvent 116 (Some "f"%string) None]
    ["--master"; "-tf"]%string ["img"]%string) as [E _].
  - exact ppc_opts_ok.
  - repeat constructor; vm_compute; congruence.
  - vm_compute. reflexivity.
  - eexists. split; [exact E |]. vm_compute. reflexivity.
Defined.

Lemma misspelt_ignored_witness :
  fst (run (quiet []) ["--mastr"; "--master"; "-tf"; "img"]%string) =
  fst (run (quiet []) ["--master"; "-tf"; "img"]%string).
Proof.
  apply (misspelt_ignored (good_host (quiet [])) false 64 the_cpu start_at true 8
    "risu" "--mastr" ["--master"; "-tf"; "img"]%string the_opts).
  - exact ppc_opts_ok.
  - repeat constructor; vm_compute; congruence.
  - split; [reflexivity |]. split; [discriminate |]. split; [reflexivity |].
    intros p i. vm_compute. congruence.
Defined.

Lemma master_command :
  fst (run (quiet []) (trace_args true "f" "img")) = inl (EXIT_SUCCESS, Some (snd run_master)).
Proof.
  rewrite (traced_command (good_host (quiet [])) false 64 the_cpu start_at true 8 "risu" true
    "f" "img" the_image the_opts the_opts (quiet [])).
  - change (trace_file _ _ _ _) with no_file.
    change (master _ the_cpu 8 _) with
      (master trace_cfg next_signal 8 (risu_start (start_ctx code) (quiet []) no_file)).
    by rewrite run_master_eq.
  - exact ppc_opts_ok.
  - repeat split; vm_compute; congruence.
  - repeat split; vm_compute; congruence.
  - reflexivity.
  - discriminate.
  - apply good_host_ready.
  - reflexivity.
  - reflexivity.
Qed.

Lemma commands_record_replay_witness :
  exists wa, fst (run (quiet (file_rx (recorded trace_cfg (snd run_master))))
      (trace_args false "f" "img")) = inl (EXIT_SUCCESS, Some wa) /\ signal_count wa = 7.
Proof.
  destruct (commands_record_replay (good_host (quiet []))
    (good_host (quiet (file_rx (recorded trace_cfg (snd run_master))))) false 64 the_cpu
    start_at true 8 "f" "img" the_image the_opts the_opts
    (quiet []) (quiet (file_rx (recorded trace_cfg (snd run_master)))) (snd run_master))
    as (wa & E & N & _).
  - exact ppc_opts_ok.
  - repeat split; vm_compute; congruence.
  - repeat split; vm_compute; congruence.
  - reflexivity.
  - discriminate.
  - apply good_host_ready.
  - apply good_host_ready.
  - reflexivity.
  - reflexivity.
  - reflexivity.
  - reflexivity.
  - apply start_ctx_wf.
  - intros v sig si v' W K. injection K as _ _ <-. exact W.
  - right. reflexivity.
  - reflexivity.
  - vm_compute. reflexivity.
  - exact master_command.
  - apply playback_file.
  - exists wa. split; [exact E |]. rewrite N. vm_compute. reflexivity.
Defined.

(** At port 9191, by the name of the other machine. *)
Lemma commands_session_witness :
  let h := good_host (quiet []) in
  let m q := run_command (online h 0 9191 (socket bytewise q)) false 64 the_cpu start_at true 8 "risu"
    ["--master"; "-p"; "9191"; "img"]%string the_opts in
  let a p := run_command (online h 0 9191 (socket bytewise p)) false 64 the_cpu start_at true 8 "risu"
    ["-h"; "other"; "-p"; "9191"; "img"]%string the_opts in
  exists bound, forall n p q, nsteps (net_step (transmitted ∘ m) (transmitted ∘ a)) n ([], []) (p, q) ->
    (n <= bound)%nat /\
    ((exists c, net_step (transmitted ∘ m) (transmitted ∘ a) (p, q) c) \/
     exists wm wa, fst (m q) = inl (EXIT_SUCCESS, Some wm) /\ fst (a p) = inl (EXIT_SUCCESS, Some wa) /\
       signal_count wm = 7).
Proof.
  destruct (commands_session (good_host (quiet [])) (good_host (quiet [])) false 64 the_cpu start_at true 8
    "other" 0 "9191" "img" the_image the_opts the_opts (quiet []) no_file (snd run_master) bytewise bytewise)
    as (bound & B).
  - exact ppc_opts_ok.
  - repeat split; vm_compute; congruence.
  - repeat split; vm_compute; congruence.
  - repeat split; vm_compute; congruence.
  - reflexivity.
  - apply good_host_ready.
  - apply good_host_ready.
  - repeat split.
  - repeat split.
  - reflexivity.
  - reflexivity.
  - apply start_ctx_wf.
  - intros v sig si v' W K. injection K as _ _ <-. exact W.
  - right. reflexivity.
  - vm_compute. reflexivity.
  - exact run_master_eq.
  - exact bytewise_delivers.
  - exact bytewise_delivers.
  - exists bound. intros n p q S. destruct (B n p q S) as [L R]. split; [exact L |].
    destruct R as [R|(wm & wa & E1 & E2 & _ & _ & C & _)]; [left; exact R | right].
    exists wm, wa. split; [exact E1 |]. split; [exact E2 |]. rewrite C. vm_compute. reflexivity.
Defined.

Lemma mask_option_sets_witness :
  exists es oo c', parse short_opts setup_options ["--fp_opts=0000001f"%string] = (es, (oo, [])) /\
    configure true 64 es (Config false 9191 None None the_opts [] (Image 0 0) None) = (inl None, c') /\
    mask_of (Option "fp_opts" required_argument None (FIRST_ARCH_OPT + 4)) (cf_opts c') = 0x1f.
Proof.
  destruct (mask_option_sets true 64 (Option "fp_opts" required_argument None (FIRST_ARCH_OPT + 4)) 0x1f
    (Config false 9191 None None the_opts [] (Image 0 0) None)) as (es & oo & c' & E1 & E2 & E3 & _).
  - unfold extra_opts. set_solver.
  - unfold in_width. lia.
  - exists es, oo, c'. split; [exact E1 |]. split; [exact E2 | exact E3].
Defined.

(** A Mac OS 9 system. *)
Definition mac_host (file : os) : host :=
  Host _ true true (fun _ => true) true (fun _ => Some (quiet [])) (fun _ => Some 0)
    (fun _ _ => Some (quiet [])) (fun _ _ => Some file) (fun _ => quiet []) (fun _ _ => no_file)
    (fun _ => true) (fun _ => Some (4 * Z.of_nat (length code))) (fun _ => image_base) true true
    (fun _ => true) true true.

(** The first command writes the file that the second one reads. *)
Definition mac_world (n : nat) : host :=
  mac_host (quiet (if (n =? 0)%nat then [] else file_rx (recorded trace_cfg (snd run_master)))).

Definition line (t : string) : list Ascii.ascii := String.list_ascii_of_string t ++ [LF].

Definition mac_files (n : nat) (name : string) : script_file :=
  ScriptFile true true true (line "risu -t f img").

Definition first_shell : shell :=
  ShellState (scan_st (main_start [] the_opts)) (Session the_opts (Image 0 0) None 0 []).

Lemma first_sim : sim first_shell first_shell.
Proof. done. Qed.

(** What is left of a session that ended well: the number of commands, the last
    words, and the checkpoints of the last test. *)
Definition summary (sh : shell) : nat * option (string * list arg) * option Z :=
  (ss_calls (sh_session sh), last (ss_out (sh_session sh)), signal_count <$> ss_statics (sh_session sh)).

Lemma eval_obeys_witness :
  exists buf sh, eval mac_world mac_files false 32 the_cpu start_at 8 2
      (line "risu --master -t 'f' img" ++ line "source replay" ++ line "exit" ++ line "risu" ++ [NUL]) first_shell =
    (inl buf, sh) /\ summary sh = (3%nat, Some ("[Process completed]\n"%string, []), Some 7).
Proof.
  assert (plain (line "risu --master -t 'f' img" ++ line "source replay" ++ line "exit" ++ line "risu")) as Hp.
  { repeat constructor; discriminate. }
  pose proof (eval_obeys mac_world mac_files false 32 the_cpu start_at 8 2 _ [] ppc_opts_ok
    (fun _ _ => eq_refl) Hp first_shell first_shell first_sim) as K.
  rewrite <-!app_assoc in K.
  assert (match script mac_world mac_files false 32 the_cpu start_at 8 2
    (line "risu --master -t 'f' img" ++ line "source replay" ++ line "exit" ++ line "risu") first_shell with
    | (inl _, sh) => summary sh = (3%nat, Some ("[Process completed]\n"%string, []), Some 7)
    | _ => False end) as E by (vm_compute; reflexivity).
  destruct (eval _ _ _ _ _ _ _ _ _ _) as [[buf|h] sh], (script _ _ _ _ _ _ _ _ _ _) as [[u|h'] ref]; try done.
  destruct K as (_ & K & _). exists buf, sh. split; [done |]. unfold summary in *. by rewrite K.
Defined.

Definition done_stats : string * list arg :=
  (" after %zd checkpoints and %zd illegal instructions\n"%string, [AInt 6; AInt 1]).

Lemma shell_session_witness :
  exists p sh, shell_main mac_world mac_files false 32 the_cpu start_at 8 1 3
      (line "risu --master -t f img" ++ line EmptyString ++ line "risu -t f img" ++ line "exit")
      (replicate gbuf_size NUL) first_shell = (inl p, sh) /\
    fst p = line "exit" /\ summary sh = (2%nat, Some done_stats, Some 7).
Proof.
  set (ls := [line "risu --master -t f img"; line EmptyString; line "risu -t f img"]).
  assert (Forall typed ls) as Hls.
  { repeat constructor; unfold ls; eexists; (split; [reflexivity |]);
      (split; [repeat constructor; discriminate |]); (split; [repeat constructor; discriminate |]); 
      apply Nat.ltb_lt; vm_compute; reflexivity. }
  destruct (shell_session mac_world mac_files false 32 the_cpu start_at 8 1 (replicate gbuf_size NUL)
    ppc_opts_ok (fun _ _ => eq_refl) (length_replicate _ _)) as [K _].
  specialize (K ls (line "exit") Hls first_shell first_shell first_sim).
  cbn [ls concat length] in K. rewrite <-!app_assoc in K. cbn [app] in K.
  assert (match session_ref mac_world mac_files false 32 the_cpu start_at 8 1 ls first_shell with
    | (inl _, sh) => summary sh = (2%nat, Some done_stats, Some 7)
    | _ => False end) as E by (vm_compute; reflexivity).
  fold ls in K.
  destruct (shell_main _ _ _ _ _ _ _ _ _ _ _ _) as [[p|h] sh],
    (session_ref _ _ _ _ _ _ _ _ _ _) as [[u|h'] ref]; try done.
  destruct K as ((K1 & _) & K & _). exists p, sh. split; [done |]. split; [done |].
  unfold summary in *. by rewrite K.
Defined.
End machine.

(** ** Hosts of different byte order *)

Lemma header_crosses_hosts_witness :
  let arch := @ppc64_arch le_build emulator (- 2 ^ 63) in
  let h := Header RISU_MAGIC 444 0 0xf0000010 in
  @header_arch_to_host be_build arch
    (@header_dec be_build arch (@header_enc le_build arch
       (@header_host_to_arch le_build arch h) ++ [1; 2; 3])) = h.
Proof.
  apply (@header_crosses_hosts le_build be_build (@ppc64_arch le_build emulator (- 2 ^ 63)));
    try reflexivity.
  - left. reflexivity.
  - repeat split; vm_compute; congruence.
  - intros _. reflexivity.
  - intros _. reflexivity.
Defined.

(** The emulator on a little-endian host swaps the header. *)
Section swapped.
#[local] Existing Instance le_build.
#[local] Existing Instance emulator.
#[local] Existing Instance list_zlib.
#[local] Existing Instance list_zlib_laws.
#[local] Instance swapped_wraps : AbsOverflow := - 2 ^ 63.
#[local] Instance swap_ok : PpcSwapOk.
Proof. done. Defined.

Definition emulated : ppc_ctx :=
  PpcCtx DPPC_RISU_ROM_START (replicate 32 0) 0 0 0 0 0 0 0 0 (replicate 32 0) 0
    (list_to_map (zip (seqZ DPPC_RISU_ROM_START 4) [0; 0; 0x5a; 0xf0])).
Definition emulated_cfg : settings :=
  Settings _ true true false ppc_default_opts (Image 0 4).
Definition emulated_regs : ppc_reginfo :=
  match ppc_reginfo_init ppc_default_opts (Image 0 4) 0 emulated with
  | (inl r, _) => r
  | _ => example_regs 0 0
  end.

Lemma swapped_header_overruns_witness :
  fst (send_register_info emulated_cfg 0 (risu_start emulated (quiet []) no_file)) = inr HUB.
Proof.
  apply (swapped_header_overruns emulated_cfg 0 _ emulated_regs emulated); try reflexivity.
  - right. reflexivity.
Defined.
End swapped.

(** ** The other architectures *)

Section others.
#[local] Existing Instance le_build.

(** 64-bit x86, where the kernel has the members of the saved state. *)
#[local] Instance linux_x86_64 : X86 := {|
  x86_64 := true;
  fp_magic := 0;
  fp_mxcsr := 24;
  fp_xmm := 160;
  fp_magic1 := 464;
  fp_extended_size := 468;
  xs_xfeatures := 512;
  X86_FXSR_MAGIC := 0;
  FP_XSTATE_MAGIC1 := 0x46505853;
  get_cpuid_count _ _ := None
|}.

(** IBM z at [pc], with the PSW mask [mask] and the value [r3] in r3. *)
Definition z_ctx (pc mask r3 : Z) : s390x_ctx :=
  S390xCtx mask (pc + 4) (0 :: 0 :: 0 :: r3 :: replicate 12 7) 8 (replicate 16 9)
    (list_to_map (zip (seqZ pc 4) [0x83; 0x5a; 0x0f; 0])).

(** An x86 context without saved state and with the stack pointer [sp]. *)
Definition x_ctx (sp : Z) : x86_ctx :=
  X86Ctx (replicate 15 5 ++ [sp; image_base; 0x246] ++ replicate 5 0) 0
    (list_to_map (zip (seqZ image_base 4) [0x0f; 0xb9; 0xc0; 0])).

Definition z_file (pc mask r3 : Z) : s390x_reginfo :=
  match s390x_reginfo_init () (Image pc 4) pc (z_ctx pc mask r3) with
  | (inl r, _) => r
  | _ => S390xReginfo 0 0 0 0 0 [] []
  end.

Definition x_file (xf sp : Z) : x86_reginfo :=
  match x86_reginfo_init xf (Image image_base 4) image_base (x_ctx sp) with
  | (inl r, _) => r
  | _ => X86Reginfo 0 0 0 [] [] []
  end.


(** Asked for different features, the two sides report it even if all registers
    agree. *)
Lemma mismatch_reported_witness :
  s390x_reginfo_dump_mismatch (z_file 0x1000 1 3) (z_file 0x2000 1 4) <> [] /\
  x86_reginfo_dump_mismatch (x_file 3 0x7000) (x_file 7 0x7000) <> None /\
  x86_reginfo_dump_mismatch (x_file 3 0x7000) (x_file 7 0x7000) <> Some x86_heading.
Proof.
  destruct mismatch_reported as (S & _ & _ & _ & X & _). split.
  - intros E. apply S in E.
    + vm_compute in E. discriminate.
    + by apply (s390x_init_inv () (Image 0x1000 4) 0x1000 (z_ctx 0x1000 1 3) _ (z_ctx 0x1000 1 3)).
    + by apply (s390x_init_inv () (Image 0x2000 4) 0x2000 (z_ctx 0x2000 1 4) _ (z_ctx 0x2000 1 4)).
  - destruct (X 3 (Image image_base 4) image_base (x_ctx 0x7000) (x_file 3 0x7000) (x_ctx 0x7000)
      7 (Image image_base 4) image_base (x_ctx 0x7000) (x_file 7 0x7000) (x_ctx 0x7000)) as (N & R & _);
      [vm_compute; reflexivity .. |].
    split; [exact N |]. intros E. apply R in E as (_ & _ & E & _). vm_compute in E. discriminate.
Defined.

(** AArch64 with the record of the 128-bit registers: the register file is longer
    than what is transmitted of it, and the buffer held a different one. *)
Definition a64_memory (v : Z) : gmap Z Z :=
  list_to_map (
    zip (seqZ image_base 4) (int_bytes true 4 0x5af0) ++
    zip (seqZ 0x30000 532) (
      concat (map (int_bytes true 4) [FPSIMD_MAGIC; 528; 7; 9]) ++ replicate 512 v ++ replicate 4 0)).

Definition a64_at (v : Z) : a64_ctx :=
  A64Ctx (block_base :: replicate 30 7) image_base 0x80000000 0 0x30000 (a64_memory v) [].

Definition a64_file (v : Z) : a64_reginfo :=
  match a64_reginfo_init 0 (Image image_base 4) 0 (a64_at v) with
  | (inl r, _) => r
  | _ => A64Reginfo 0 [] 0 0 0 0 0 0 0 0 [] []
  end.

Definition stale : a64_reginfo := set_extra (replicate extra_len 0x77) (a64_file 5).

Lemma received_decides_witness :
  let m := read_back true a64_reginfo_size (a64_file 5) stale in
  a64_reginfo_is_eq m (a64_file 5) = true /\ a64_reginfo_is_eq m (a64_file 6) = false /\
  m <> a64_file 5.
Proof.
  destruct (received_decides true) as (_ & _ & _ & _ & _ & K).
  destruct (K 0 (Image image_base 4) 0 (a64_at 5) (a64_file 5) (a64_at 5) stale) as (_ & _ & _ & _ & _ & E);
    [vm_compute; reflexivity |].
  cbn zeta. rewrite !(proj1 (E _)). split; [vm_compute; reflexivity |]. split; [vm_compute; reflexivity |].
  intros D. apply (f_equal (fun r => nth 600 (a_extra r) 0)) in D. vm_compute in D. discriminate.
Defined.
End others.
